(** * A shallow embedding of the documentation-site exporter

    The program is a browser content script (class [EnhancedPDFGenerator])
    that discovers the pages of a documentation site from its navigation
    menus, fetches them one by one, converts them to Markdown, downloads the
    images they reference and rewrites the image links.

    JavaScript strings are sequences of UTF-16 code units; they are embedded
    as lists of code units.  Promises are embedded by the way they settle,
    [try]/[catch] by completion records, and the instance fields of the
    generator ([imageMap], [imageCounter], [failedImages]) by an explicit
    state record that is threaded through the calls. *)

From Stdlib Require Import Strings.String Strings.Ascii.
From Stdlib Require Import Numbers.DecimalString Numbers.DecimalNat.
From Stdlib Require Import List NArith ZArith Lia Bool Arith.
From Stdlib Require Import Sorting.Sorted Sorting.Permutation.
Import ListNotations.

(* ================================================================== *)
(** * JavaScript strings                                                *)
(* ================================================================== *)

Module JS.

(** A UTF-16 code unit, and a string of them. *)
Abbreviation char := N.
Abbreviation jsstring := (list N).

(** Source literals are written as UTF-8 text and decoded to code units;
    code points above U+FFFF become a surrogate pair. *)
Fixpoint utf8_decode (bs : list N) : jsstring :=
  match bs with
  | [] => []
  | b0 :: r0 =>
      if (b0 <? 128)%N then b0 :: utf8_decode r0
      else if (b0 <? 224)%N then
        match r0 with
        | b1 :: r1 => ((b0 mod 32) * 64 + b1 mod 64)%N :: utf8_decode r1
        | [] => []
        end
      else if (b0 <? 240)%N then
        match r0 with
        | b1 :: b2 :: r2 =>
            ((b0 mod 16) * 4096 + (b1 mod 64) * 64 + b2 mod 64)%N
              :: utf8_decode r2
        | _ => []
        end
      else
        match r0 with
        | b1 :: b2 :: b3 :: r3 =>
            let cp := ((b0 mod 8) * 262144 + (b1 mod 64) * 4096
                       + (b2 mod 64) * 64 + b3 mod 64)%N in
            let v := (cp - 65536)%N in
            (55296 + v / 1024)%N :: (56320 + v mod 1024)%N :: utf8_decode r3
        | _ => []
        end
  end.

Definition js (s : string) : jsstring :=
  utf8_decode (map N_of_ascii (list_ascii_of_string s)).

Definition LF : char := 10%N.
Definition CR : char := 13%N.
Definition SPACE : char := 32%N.
Definition HASH : char := 35%N.
Definition DQUOTE : char := 34%N.
Definition BACKTICK : char := 96%N.

Definition ceqb (a b : char) : bool := N.eqb a b.

Fixpoint str_eqb (a b : jsstring) : bool :=
  match a, b with
  | [], [] => true
  | x :: a', y :: b' => ceqb x y && str_eqb a' b'
  | _, _ => false
  end.

(** [\s] of regular expressions and the characters removed by [trim()]:
    WhiteSpace and LineTerminator of ECMAScript. *)
Definition isSpace (c : char) : bool :=
  (  (9 <=? c) && (c <=? 13)
  || (c =? 32) || (c =? 160) || (c =? 5760)
  || (8192 <=? c) && (c <=? 8202)
  || (c =? 8232) || (c =? 8233) || (c =? 8239) || (c =? 8287)
  || (c =? 12288) || (c =? 65279))%N.

Definition isHash (c : char) : bool := ceqb c HASH.

Fixpoint dropWhile (p : char -> bool) (s : jsstring) : jsstring :=
  match s with
  | [] => []
  | c :: s' => if p c then dropWhile p s' else s
  end.

Fixpoint takeWhile (p : char -> bool) (s : jsstring) : jsstring :=
  match s with
  | [] => []
  | c :: s' => if p c then c :: takeWhile p s' else []
  end.

(** [s.trim()] *)
Definition trimStart (s : jsstring) : jsstring := dropWhile isSpace s.
Definition trimEnd (s : jsstring) : jsstring := rev (dropWhile isSpace (rev s)).
Definition trim (s : jsstring) : jsstring := trimEnd (trimStart s).

(** [s.startsWith(p)] *)
Fixpoint startsWith (p s : jsstring) : bool :=
  match p, s with
  | [], _ => true
  | x :: p', y :: s' => ceqb x y && startsWith p' s'
  | _ :: _, [] => false
  end.

(** [s.includes(p)] *)
Fixpoint includes (p s : jsstring) : bool :=
  startsWith p s || match s with [] => false | _ :: s' => includes p s' end.

(** The letters A-Z in lower case: the case folding of a regular
    expression with the [i] flag, which never identifies a character outside
    ASCII with one inside. *)
Definition lowerChar (c : char) : char :=
  if ((65 <=? c) && (c <=? 90))%N then (c + 32)%N else c.
Definition foldCase (s : jsstring) : jsstring := map lowerChar s.

(** [s.toLowerCase()].  The letters A-Z are lowered, and so are the two
    characters outside ASCII whose lower-case form has an ASCII letter
    (U+212A and U+0130).  Every other character is left as it is: its
    lower-case form lies outside ASCII as well, and the program only looks
    for ASCII substrings and ASCII word characters in the result. *)
Definition lowerUnit (c : char) : jsstring :=
  if ((65 <=? c) && (c <=? 90))%N then [(c + 32)%N]
  else if (c =? 8490)%N then [107%N]
  else if (c =? 304)%N then [105%N; 775%N]
  else [c].
Definition toLowerCase (s : jsstring) : jsstring := flat_map lowerUnit s.

(** [s.repeat(n)] *)
Fixpoint repeatStr (s : jsstring) (n : nat) : jsstring :=
  match n with O => [] | S n' => s ++ repeatStr s n' end.

(** [String(n)] for a natural number: its decimal digits. *)
Definition ofAscii (s : string) : jsstring :=
  map N_of_ascii (list_ascii_of_string s).
Definition numberToString (n : nat) : jsstring :=
  ofAscii (NilEmpty.string_of_uint (Nat.to_uint n)).

(** [n.toString(16)] for a natural number; [fuel] bounds the number of
    digits. *)
Definition hexDigit (d : N) : char :=
  if (d <? 10)%N then (48 + d)%N else (87 + d)%N.
Fixpoint hexFrom (fuel : nat) (n : N) : jsstring :=
  match fuel with
  | O => []
  | S fuel' =>
      if (n <? 16)%N then [hexDigit n]
      else hexFrom fuel' (n / 16)%N ++ [hexDigit (n mod 16)%N]
  end.
Definition toHex (n : N) : jsstring := hexFrom (S (N.to_nat (N.log2 n))) n.

(** [s.padStart(n, '0')] *)
Definition padStart (n : nat) (s : jsstring) : jsstring :=
  repeat 48%N (n - List.length s) ++ s.

(** [ToInt32]: the signed 32-bit integer congruent to [z]. *)
Definition toInt32 (z : Z) : Z :=
  ((z + 2147483648) mod 4294967296 - 2147483648)%Z.

Definition isHexDigit (c : char) : bool :=
  ((48 <=? c) && (c <=? 57) || (97 <=? c) && (c <=? 102))%N.
Definition isDigit (c : char) : bool := ((48 <=? c) && (c <=? 57))%N.

(** [a || b] on strings: the empty string is falsy. *)
Definition orElse (a b : jsstring) : jsstring :=
  match a with [] => b | _ :: _ => a end.

(** The number of places at which [p] occurs in [s]. *)
Fixpoint countOccurrences (p s : jsstring) : nat :=
  (if startsWith p s then 1 else 0)
  + match s with [] => 0 | _ :: s' => countOccurrences p s' end.

(** [s.endsWith(p)] *)
Definition hasSuffix (p s : jsstring) : bool := startsWith (rev p) (rev s).

(** A stable sort by a numeric key: what [Array.prototype.sort] does with a
    comparator [(a, b) => key(a) - key(b)], and the order in which pending
    operations settle when the key is the time at which they finish. *)
Section SortBy.
Variables (A : Type) (key : A -> nat).
Fixpoint insertBy (x : A) (l : list A) : list A :=
  match l with
  | [] => [x]
  | y :: l' => if key x <=? key y then x :: l else y :: insertBy x l'
  end.
Definition sortBy (l : list A) : list A := fold_right insertBy [] l.
End SortBy.
Arguments insertBy {A} key x l.
Arguments sortBy {A} key l.

(** The first character of a string satisfies [p] / the last one does. *)
Definition beginsWith (p : char -> bool) (s : jsstring) : bool :=
  match s with c :: _ => p c | [] => false end.
Definition endsWith (p : char -> bool) (s : jsstring) : bool :=
  beginsWith p (rev s).

End JS.

Import JS.

(* ================================================================== *)
(** * Title cleaning                                                    *)
(* ================================================================== *)

Module Title.

(** [s.replace(/^#+\s*/, '')]: the match is anchored at the start, takes
    every leading [#] and then every white space that follows. *)
Definition stripLeadingHashes (s : jsstring) : jsstring :=
  if beginsWith isHash s then dropWhile isSpace (dropWhile isHash s) else s.

(** Does the whole of [s] match [\s*#+\s*]? *)
Definition matchesHashRun (s : jsstring) : bool :=
  let s1 := dropWhile isSpace s in
  beginsWith isHash s1
  && match dropWhile isSpace (dropWhile isHash s1) with
     | [] => true
     | _ :: _ => false
     end.

(** Does the whole of [s] match [\s*#\s*]? *)
Definition matchesSingleHash (s : jsstring) : bool :=
  match dropWhile isSpace s with
  | c :: r => isHash c
              && match dropWhile isSpace r with [] => true | _ :: _ => false end
  | [] => false
  end.

(** [s.replace(/R$/, '')] for a pattern [R] that matches no empty string:
    the leftmost position from which the rest of the string matches [R] is
    found, and the string is cut there. *)
Fixpoint cutAtSuffix (m : jsstring -> bool) (s : jsstring) : jsstring :=
  if m s then []
  else match s with
       | [] => []
       | c :: s' => c :: cutAtSuffix m s'
       end.

Definition unnamedPage : jsstring := js "未命名页面".

(** [cleanTitle(title)] *)
Definition cleanTitle (title : jsstring) : jsstring :=
  match title with
  | [] => unnamedPage
  | _ :: _ =>
      trim (cutAtSuffix matchesSingleHash
              (cutAtSuffix matchesHashRun
                 (stripLeadingHashes title)))
  end.

(** The first and the last character are neither [#] nor white space. *)
Definition hashOrSpace (c : char) : bool := isHash c || isSpace c.
Definition cleanEnds (s : jsstring) : Prop :=
  beginsWith hashOrSpace s = false /\ endsWith hashOrSpace s = false.

End Title.

(* ================================================================== *)
(** * Link discovery                                                    *)
(* ================================================================== *)

Module Discovery.

(** An ancestor of an anchor, as [calculateLinkLevel] sees it: whether it
    matches ['nav, .sidebar, .menu'] and whether it matches
    ['li, .nav-item']. *)
Record Ancestor := mkAncestor {
  isNavRoot : bool;
  isItem : bool
}.

(** An [<a href>] element of the seed page: its [href] attribute, its text,
    its [className] and its chain of [parentElement]s, nearest first. *)
Record Anchor := mkAnchor {
  href : jsstring;
  textContent : jsstring;
  className : jsstring;
  ancestors : list Ancestor
}.

Record Link := mkLink {
  url : jsstring;
  title : jsstring;
  level : nat;
  element : Anchor
}.

(** The [while (parent && !parent.matches('nav, .sidebar, .menu'))] loop. *)
Fixpoint nestingLevel (lvl : nat) (ps : list Ancestor) : nat :=
  match ps with
  | [] => lvl
  | p :: ps' =>
      if isNavRoot p then lvl
      else nestingLevel (if isItem p then S lvl else lvl) ps'
  end.

(** [calculateLinkLevel(linkElement)] *)
Definition calculateLinkLevel (a : Anchor) : nat :=
  let lvl := nestingLevel 1 (ancestors a) in
  let classList := toLowerCase (className a) in
  let lvl := if includes (js "level-2") classList || includes (js "sub") classList
             then 2 else lvl in
  let lvl := if includes (js "level-3") classList || includes (js "subsub") classList
             then 3 else lvl in
  Nat.min lvl 6.

Definition isLineTerminator (c : char) : bool :=
  ((c =? 10) || (c =? 13) || (c =? 8232) || (c =? 8233))%N.

(** The first of the [excludePatterns]: the [href] begins with [http://]
    or [https://] in any case, and the rest of its first line does not hold
    [duruofu.github.io]. *)
Definition isExternal (href : jsstring) : bool :=
  let h := foldCase href in
  let rest :=
    if startsWith (js "https://") h then Some (skipn 8 h)
    else if startsWith (js "http://") h then Some (skipn 7 h)
    else None in
  match rest with
  | Some r =>
      negb (includes (js "duruofu.github.io")
                     (takeWhile (fun c => negb (isLineTerminator c)) r))
  | None => false
  end.

(** [isValidDocumentLink(href)] *)
Definition isValidDocumentLink (href : jsstring) : bool :=
  match href with
  | [] => false
  | _ :: _ =>
      let h := foldCase href in
      negb (isExternal href
            || startsWith (js "javascript:") h
            || startsWith (js "mailto:") h
            || startsWith (js "tel:") h
            || existsb (fun ext => hasSuffix (js "." ++ ext) h)
                       [js "pdf"; js "jpg"; js "jpeg"; js "png"; js "gif";
                        js "zip"; js "rar"]
            || hasSuffix [HASH] href)
  end.

Section Discover.

(** Discovery is embedded for any filter of links and any resolver of
    URLs; the program uses [isValidDocumentLink] above and the URL parser
    of the browser. *)
Variable isValidDocumentLink : jsstring -> bool.
Variable resolveUrl : jsstring -> jsstring.

(** The body of [navLinks.forEach(link => ...)]. *)
Definition visit (links : list Link) (a : Anchor) : list Link :=
  if isValidDocumentLink (href a) then
    let fullUrl := resolveUrl (href a) in
    if existsb (fun l => str_eqb (url l) fullUrl) links then links
    else links ++ [mkLink fullUrl (trim (textContent a)) (calculateLinkLevel a) a]
  else links.

(** The links in the order of their discovery: [nav] holds, for each of
    the seven navigation selectors in turn, the anchors that
    [querySelectorAll] returns for it. *)
Definition collectLinks (nav : list (list Anchor)) : list Link :=
  fold_left (fun links navLinks => fold_left visit navLinks links) nav [].

(** [links.sort((a, b) => a.level !== b.level ? a.level - b.level : 0)];
    [Array.prototype.sort] is a stable sort. *)
Definition sortByLevel (l : list Link) : list Link := sortBy level l.

(** [discoverAllPages()] *)
Definition discoverAllPages (nav : list (list Anchor)) : list Link :=
  sortByLevel (collectLinks nav).

End Discover.

Definition levelInRange (l : Link) : Prop := 1 <= level l <= 6.
Definition levelLe (a b : Link) : Prop := level a <= level b.
Definition atLevel (k : nat) (l : Link) : bool := level l =? k.

(** [a] stands before [b] in [l]. *)
Definition precedes (a b : Link) (l : list Link) : Prop :=
  exists l1 l2 l3, l = l1 ++ a :: l2 ++ b :: l3.

End Discovery.

(* ================================================================== *)
(** * Promises and exceptions                                           *)
(* ================================================================== *)

Module Async.

(** An [Error] object, by its [message]. *)
Record Error := mkError { message : jsstring }.

(** How a promise settles. *)
Inductive Settled (A : Type) : Type :=
| Fulfilled (a : A)
| Rejected (e : Error).
Arguments Fulfilled {A} a.
Arguments Rejected {A} e.

(** What a [return] statement of an async function hands over: a value, or
    a promise that is returned without being awaited. *)
Inductive Returned (A : Type) : Type :=
| Plain (a : A)
| Promise (p : Settled A).
Arguments Plain {A} a.
Arguments Promise {A} p.

(** The completion of a block: it yields a value or throws. *)
Inductive Completion (A : Type) : Type :=
| Value (a : A)
| Throw (e : Error).
Arguments Value {A} a.
Arguments Throw {A} e.

(** [try { body } catch (error) { handler }] *)
Definition tryCatch {A} (body : Completion A) (handler : Error -> Completion A)
  : Completion A :=
  match body with
  | Value a => Value a
  | Throw e => handler e
  end.

(** [await p], followed by the rest of the block: a rejection is thrown at
    the place of the [await]. *)
Definition await {A B} (p : Settled A) (k : A -> Completion B) : Completion B :=
  match p with
  | Fulfilled a => k a
  | Rejected e => Throw e
  end.

(** The promise of an async function whose body completes with [c]: a
    returned promise is adopted as it is, after the body (and its [try]
    blocks) has been left. *)
Definition async {A} (c : Completion (Returned A)) : Settled A :=
  match c with
  | Value (Plain a) => Fulfilled a
  | Value (Promise p) => p
  | Throw e => Rejected e
  end.

End Async.

Import Async.

(* ================================================================== *)
(** * Fetching pages                                                    *)
(* ================================================================== *)

Module Fetch.
Import Discovery.

Record PageContent := mkPageContent {
  html : jsstring;
  pcTitle : jsstring;
  styles : jsstring;
  textLength : nat
}.

(** The response of [fetch(url)]. *)
Record Response := mkResponse {
  ok : bool;
  status : nat;
  statusText : jsstring;
  text : Settled jsstring
}.

(** The answer of the background script to a ['fetchPage'] message. *)
Record BgResponse := mkBgResponse {
  success : bool;
  bgHtml : jsstring;
  bgError : jsstring
}.

(** What happens to [chrome.runtime.sendMessage]: the call itself throws,
    or the callback runs with [chrome.runtime.lastError] set, or it runs
    with a response (which may be undefined). *)
Inductive BgOutcome : Type :=
| SendThrows (e : Error)
| LastError (msg : jsstring)
| Responded (r : option BgResponse).

(** The host of the content script.  The network answers a request by the
    moment it is made: requests are numbered by the index of the page in
    the batch loop. *)
Record Host := mkHost {
  locationHref : jsstring;
  extractCurrentPageContent : PageContent;
  fetchNet : nat -> jsstring -> Settled Response;
  sendMessage : nat -> jsstring -> BgOutcome;
  parseHTMLContent : jsstring -> jsstring -> PageContent
}.

Section Fetching.
Variable host : Host.

(** The promise built in [fetchPageViaBackground]: an exception of the
    executor rejects it. *)
Definition backgroundPromise (i : nat) (url : jsstring) : Settled PageContent :=
  match sendMessage host i url with
  | SendThrows e => Rejected e
  | LastError msg => Rejected (mkError msg)
  | Responded (Some r) =>
      if success r then Fulfilled (parseHTMLContent host (bgHtml r) url)
      else Rejected (mkError (orElse (bgError r) (js "Background fetch failed")))
  | Responded None => Rejected (mkError (js "Background fetch failed"))
  end.

Definition fetchErrorPlaceholder (url : jsstring) (error : Error) : PageContent :=
  mkPageContent
    (js "<div class=" ++ [DQUOTE] ++ js "fetch-error" ++ [DQUOTE] ++ js ">
          <h3>页面获取失败</h3>
          <p>URL: " ++ url ++ js "</p>
          <p>错误: " ++ message error ++ js "</p>
          <p>可能原因: 网站禁止跨域访问或网络问题</p>
        </div>")
    (js "页面获取失败") [] 0.

(** [fetchPageViaBackground(url)]: the promise is returned from inside the
    [try] block without [await]. *)
Definition fetchPageViaBackground (i : nat) (url : jsstring) : Settled PageContent :=
  async (tryCatch
           (Value (Promise (backgroundPromise i url)))
           (fun error => Value (Plain (fetchErrorPlaceholder url error)))).

(** [fetchPageViaFetch(url)] *)
Definition fetchPageViaFetch (i : nat) (url : jsstring) : Settled PageContent :=
  async (tryCatch
           (await (fetchNet host i url) (fun response =>
              if negb (ok response) then
                Throw (mkError (js "HTTP " ++ numberToString (status response)
                                ++ js ": " ++ statusText response))
              else
                await (text response) (fun htmlText =>
                  Value (Plain (parseHTMLContent host htmlText url)))))
           (fun _ =>
              await (fetchPageViaBackground i url) (fun c => Value (Plain c)))).

(** [fetchPageContent(url)] *)
Definition fetchPageContent (i : nat) (url : jsstring) : Settled PageContent :=
  async (tryCatch
           (if str_eqb url (locationHref host) then
              Value (Plain (extractCurrentPageContent host))
            else
              await (fetchPageViaFetch i url) (fun c => Value (Plain c)))
           (fun error => Throw error)).

(** An element of the array that [batchFetchPages] returns:
    [{...link, content, index}]. *)
Record Entry := mkEntry {
  link : Link;
  content : PageContent;
  index : nat
}.

Definition emptyPlaceholder (l : Link) : PageContent :=
  mkPageContent (js "<p>此页面内容无法获取</p>") (title l) [] 0.

Definition errorPlaceholder (l : Link) (error : Error) : PageContent :=
  mkPageContent (js "<p>页面抓取失败: " ++ message error ++ js "</p>")
                (title l) [] 0.

(** One turn of the loop of [batchFetchPages]: the [try]/[catch] around
    the fetch of page [i], giving the entry pushed to [contents]. *)
Definition fetchStep (i : nat) (l : Link) : Completion Entry :=
  tryCatch
    (await (fetchPageContent i (url l)) (fun c =>
       if 0 <? textLength c then Value (mkEntry l c i)
       else Value (mkEntry l (emptyPlaceholder l) i)))
    (fun error => Value (mkEntry l (errorPlaceholder l error) i)).

Fixpoint batchLoop (i : nat) (pageLinks : list Link) (contents : list Entry)
  : Completion (list Entry) :=
  match pageLinks with
  | [] => Value contents
  | l :: rest =>
      match fetchStep i l with
      | Value e => batchLoop (S i) rest (contents ++ [e])
      | Throw err => Throw err
      end
  end.

(** [batchFetchPages(pageLinks)] *)
Definition batchFetchPages (pageLinks : list Link) : Settled (list Entry) :=
  async (match batchLoop 0 pageLinks [] with
         | Value contents => Value (Plain contents)
         | Throw e => Throw e
         end).

(** The URLs that the loop of [batchFetchPages] hands to
    [fetchPageContent], in the order of the calls: the loop asks for a page
    and goes on to the next one when the turn has not thrown. *)
Fixpoint requestedBy (i : nat) (pageLinks : list Link) : list jsstring :=
  match pageLinks with
  | [] => []
  | l :: rest =>
      url l :: match fetchStep i l with
               | Value _ => requestedBy (S i) rest
               | Throw _ => []
               end
  end.

(** The fetch of page [i] failed or came back empty. *)
Definition fetchFailed (i : nat) (l : Link) : Prop :=
  match fetchPageContent i (url l) with
  | Fulfilled c => textLength c = 0
  | Rejected _ => True
  end.

End Fetching.

End Fetch.

(* ================================================================== *)
(** * The Markdown converter                                            *)
(* ================================================================== *)

Module Markdown.

#[local] Unset Elimination Schemes.

(** A node of a parsed document.  [hidden] tells whether the inline style
    of the element has [display: none] or [visibility: hidden]. *)
Inductive Node : Type :=
| Text (data : jsstring)
| Element (tagName : jsstring) (attributes : list (jsstring * jsstring))
          (hidden : bool) (childNodes : list Node)
| Other.

#[local] Set Elimination Schemes.

Definition tagIs (name : string) (tag : jsstring) : bool := str_eqb tag (js name).

(** A type selector such as ['pre'] matches the element whose tag name is
    that name in any case. *)
Definition selects (name : string) (tag : jsstring) : bool :=
  str_eqb (foldCase tag) (js name).

Definition nodeSelects (name : string) (n : Node) : bool :=
  match n with
  | Element tag _ _ _ => selects name tag
  | _ => false
  end.

Definition nodeTagIs (name : string) (n : Node) : bool :=
  match n with
  | Element tag _ _ _ => tagIs name tag
  | _ => false
  end.

(** [node.getAttribute(name) || ''] *)
Fixpoint getAttribute (name : jsstring) (attrs : list (jsstring * jsstring))
  : jsstring :=
  match attrs with
  | [] => []
  | (k, v) :: rest => if str_eqb k name then v else getAttribute name rest
  end.

(** [node.textContent] *)
Fixpoint textContentOf (n : Node) : jsstring :=
  match n with
  | Text data => data
  | Element _ _ _ children => concat (map textContentOf children)
  | Other => []
  end.

(** [s.replace(/(\r\n|\n|\r)/gm, " ")] *)
Fixpoint replaceLineBreaks (s : jsstring) : jsstring :=
  match s with
  | [] => []
  | c :: s' =>
      if ceqb c CR then
        match s' with
        | d :: s'' => if ceqb d LF then SPACE :: replaceLineBreaks s''
                      else SPACE :: replaceLineBreaks s'
        | [] => [SPACE]
        end
      else if ceqb c LF then SPACE :: replaceLineBreaks s'
      else c :: replaceLineBreaks s'
  end.

(** [s.replace(/\s+/g, ' ')]; [inRun] tells that the previous character
    was white space. *)
Fixpoint collapseFrom (inRun : bool) (s : jsstring) : jsstring :=
  match s with
  | [] => []
  | c :: s' =>
      if isSpace c then
        if inRun then collapseFrom true s' else SPACE :: collapseFrom true s'
      else c :: collapseFrom false s'
  end.
Definition collapseSpaces (s : jsstring) : jsstring := collapseFrom false s.

(** [s.split('\n')] *)
Fixpoint splitLines (s : jsstring) : list jsstring :=
  match s with
  | [] => [[]]
  | c :: s' =>
      if ceqb c LF then [] :: splitLines s'
      else match splitLines s' with
           | line :: rest => (c :: line) :: rest
           | [] => [[c]]
           end
  end.

(** [parts.join(sep)] *)
Fixpoint join (sep : jsstring) (parts : list jsstring) : jsstring :=
  match parts with
  | [] => []
  | [x] => x
  | x :: rest => x ++ sep ++ join sep rest
  end.

(** [s.replace(/\|/g, '\\|')] *)
Definition escapePipes (s : jsstring) : jsstring :=
  flat_map (fun c => if ceqb c 124%N then [92%N; 124%N] else [c]) s.

Inductive ListType : Type := ol | ul.

(** The [listState] object: each property may be absent. *)
Record ListState := mkListState {
  lsType : option ListType;
  lsStart : option nat;
  lsIndex : option nat;
  lsLevel : option nat
}.

Definition emptyState : ListState := mkListState None None None None.

Definition levelOrZero (ls : ListState) : nat :=
  match lsLevel ls with Some n => n | None => 0 end.

(** The state handed to one child: a fresh copy of [listState] is made
    for every child ([{ ...listState }]) and changed in place. *)
Definition childListState (tag : jsstring) (listState : ListState) (child : Node)
  : ListState :=
  if tagIs "OL" tag then
    let start := match lsStart listState with
                 | Some (S n) => S n
                 | _ => 1
                 end in
    if nodeTagIs "LI" child then
      mkListState (Some ol) (Some (S start)) (Some start) (lsLevel listState)
    else
      mkListState (Some ol) (Some start) (lsIndex listState) (lsLevel listState)
  else if tagIs "UL" tag then
    mkListState (Some ul) (lsStart listState) (lsIndex listState)
                (lsLevel listState)
  else
    match lsType listState with
    | Some _ =>
        mkListState (lsType listState) (lsStart listState) (lsIndex listState)
                    (Some (levelOrZero listState + 1))
    | None => listState
    end.

(** Where a node stands: below a [pre], below a [pre] or [code], below a
    [tbody]. *)
Record Place := mkPlace {
  inPre : bool;
  inCode : bool;
  inTbody : bool
}.

Definition topPlace : Place := mkPlace false false false.

Definition below (tag : jsstring) (pl : Place) : Place :=
  mkPlace (inPre pl || selects "pre" tag)
          (inCode pl || selects "pre" tag || selects "code" tag)
          (inTbody pl || selects "tbody" tag).

Section FirstSome.
Variables (A B : Type) (f : A -> option B).
Fixpoint firstSome (l : list A) : option B :=
  match l with
  | [] => None
  | x :: l' => match f x with Some b => Some b | None => firstSome l' end
  end.
End FirstSome.
Arguments firstSome {A B} f l.

Definition indexText (i : option nat) : jsstring :=
  match i with Some n => numberToString n | None => js "undefined" end.

Definition heading (n : nat) (trimContent : jsstring) : jsstring :=
  repeatStr [HASH] n ++ [SPACE] ++ trimContent ++ [LF; LF].

(** [_convertNodeToMarkdown(node, listState)] for a node standing at [pl],
    together with the three searches of its [TABLE] case. *)
Fixpoint convertNodeToMarkdown (pl : Place) (node : Node) (listState : ListState)
  {struct node} : jsstring :=
  match node with
  | Text data =>
      if inCode pl then data else collapseSpaces (replaceLineBreaks data)
  | Other => []
  | Element tag attrs hidden children =>
      if hidden then [] else
      let pl' := below tag pl in
      let childrenContent :=
        concat (map (fun child =>
                       convertNodeToMarkdown pl' child
                         (childListState tag listState child))
                    children) in
      let blockSeparator := [LF; LF] in
      let trimContent := trim childrenContent in
      if tagIs "H1" tag then heading 1 trimContent
      else if tagIs "H2" tag then heading 2 trimContent
      else if tagIs "H3" tag then heading 3 trimContent
      else if tagIs "H4" tag then heading 4 trimContent
      else if tagIs "H5" tag then heading 5 trimContent
      else if tagIs "H6" tag then heading 6 trimContent
      else if tagIs "P" tag then trimContent ++ blockSeparator
      else if tagIs "BLOCKQUOTE" tag then
        join [LF] (map (fun line => js "> " ++ line) (splitLines trimContent))
        ++ blockSeparator
      else if tagIs "PRE" tag then
        js "```" ++ [LF] ++ trim (textContentOf node) ++ [LF] ++ js "```"
        ++ blockSeparator
      else if tagIs "CODE" tag then
        if inPre pl then trimContent
        else [BACKTICK] ++ trimContent ++ [BACKTICK]
      else if tagIs "A" tag then
        match getAttribute (js "href") attrs with
        | [] => childrenContent
        | href => js "[" ++ childrenContent ++ js "](" ++ href ++ js ")"
        end
      else if tagIs "IMG" tag then
        js "![" ++ getAttribute (js "alt") attrs ++ js "]("
        ++ getAttribute (js "src") attrs ++ js ")" ++ [LF]
      else if tagIs "STRONG" tag || tagIs "B" tag then
        js "**" ++ childrenContent ++ js "**"
      else if tagIs "EM" tag || tagIs "I" tag then
        js "*" ++ childrenContent ++ js "*"
      else if tagIs "DEL" tag || tagIs "S" tag then
        js "~~" ++ childrenContent ++ js "~~"
      else if tagIs "HR" tag then js "---" ++ blockSeparator
      else if tagIs "BR" tag then js "  " ++ [LF]
      else if tagIs "UL" tag then trim childrenContent ++ blockSeparator
      else if tagIs "OL" tag then trim childrenContent ++ blockSeparator
      else if tagIs "LI" tag then
        let indent := repeatStr (js "  ") (levelOrZero listState) in
        match lsType listState with
        | Some ol =>
            indent ++ indexText (lsIndex listState) ++ js ". " ++ trimContent
            ++ [LF]
        | _ => indent ++ js "* " ++ trimContent ++ [LF]
        end
      else if tagIs "TABLE" tag then
        let headerRow :=
          firstSome (fun c => if nodeSelects "tr" c
                              then Some (cellsBelow true pl' c)
                              else firstRowBelow pl' c)
                    children in
        let bodyRows :=
          flat_map (fun c => (if nodeSelects "tr" c && inTbody pl'
                              then [cellsBelow false pl' c] else [])
                             ++ bodyRowsBelow pl' c)
                   children in
        let headerMd :=
          match headerRow with
          | Some headers =>
              js "| " ++ join (js " | ") headers ++ js " |" ++ [LF]
              ++ js "| " ++ join (js " | ") (map (fun _ => js "---") headers)
              ++ js " |" ++ [LF]
          | None => []
          end in
        let rowsMd :=
          concat (map (fun cells =>
                         js "| " ++ join (js " | ") (map escapePipes cells)
                         ++ js " |" ++ [LF])
                      bodyRows) in
        headerMd ++ rowsMd ++ [LF]
      else if tagIs "SCRIPT" tag || tagIs "STYLE" tag then []
      else if tagIs "THEAD" tag || tagIs "TBODY" tag || tagIs "TR" tag
              || tagIs "TH" tag || tagIs "TD" tag then
        childrenContent ++ [SPACE]
      else childrenContent
  end

(** [node.querySelectorAll('th, td')] (or ['td'] alone when [withTh] is
    off), each cell converted under the default list state and trimmed:
    the cells below [node], in document order. *)
with cellsBelow (withTh : bool) (pl : Place) (node : Node) {struct node}
  : list jsstring :=
  match node with
  | Element tag _ _ children =>
      let pl' := below tag pl in
      flat_map (fun c =>
                  (if nodeSelects "td" c || withTh && nodeSelects "th" c
                   then [trim (convertNodeToMarkdown pl' c emptyState)]
                   else [])
                  ++ cellsBelow withTh pl' c)
               children
  | _ => []
  end

(** [node.querySelector('thead tr, tr')]: the first [tr] below [node], by
    its cells. *)
with firstRowBelow (pl : Place) (node : Node) {struct node}
  : option (list jsstring) :=
  match node with
  | Element tag _ _ children =>
      let pl' := below tag pl in
      firstSome (fun c => if nodeSelects "tr" c
                          then Some (cellsBelow true pl' c)
                          else firstRowBelow pl' c)
                children
  | _ => None
  end

(** [node.querySelectorAll('tbody tr')]: the rows below [node] that stand
    in a [tbody], each by its cells. *)
with bodyRowsBelow (pl : Place) (node : Node) {struct node}
  : list (list jsstring) :=
  match node with
  | Element tag _ _ children =>
      let pl' := below tag pl in
      flat_map (fun c => (if nodeSelects "tr" c && inTbody pl'
                          then [cellsBelow false pl' c] else [])
                         ++ bodyRowsBelow pl' c)
               children
  | _ => []
  end.

(** [htmlToMarkdown(htmlString)]: the string is parsed by [DOMParser] and
    the [body] of the document is converted; [parseBody] stands for the
    parser. *)
Definition htmlToMarkdown (parseBody : jsstring -> Node) (htmlString : jsstring)
  : jsstring :=
  match htmlString with
  | [] => []
  | _ :: _ => convertNodeToMarkdown topPlace (parseBody htmlString) emptyState
  end.

End Markdown.

(* ================================================================== *)
(** * Images                                                            *)
(* ================================================================== *)

Module Images.
Import Markdown.

Definition Blob := list N.

(** An entry of [imageMap]. *)
Record ImageInfo := mkImageInfo {
  localPath : jsstring;
  blob : Blob;
  fileName : jsstring;
  originalUrl : jsstring
}.

(** An entry of [failedImages]; [context] is absent until the run fills
    it in. *)
Record FailedImage := mkFailedImage {
  failedUrl : jsstring;
  error : jsstring;
  failedPageTitle : jsstring;
  failedAltText : jsstring;
  failedContext : option jsstring
}.

(** The fields of the generator that the image pipeline reads and writes.
    [imageMap] is a [Map]: it keeps the order of insertion.  [attempts]
    is not a field of the program: it records the URLs for which
    [downloadImageAsBlob] was called. *)
Record State := mkState {
  imageMap : list (jsstring * ImageInfo);
  imageCounter : nat;
  failedImages : list FailedImage;
  attempts : list jsstring
}.

(** The state after [imageMap.clear(); imageCounter = 0; failedImages = []]. *)
Definition freshState : State := mkState [] 0 [] [].

Fixpoint mapGet {V : Type} (k : jsstring) (m : list (jsstring * V)) : option V :=
  match m with
  | [] => None
  | (k', v) :: m' => if str_eqb k' k then Some v else mapGet k m'
  end.

(** [map.set(k, v)]: a key that is present keeps its place. *)
Fixpoint mapSet {V : Type} (k : jsstring) (v : V) (m : list (jsstring * V))
  : list (jsstring * V) :=
  match m with
  | [] => [(k, v)]
  | (k', v') :: m' =>
      if str_eqb k' k then (k', v) :: m' else (k', v') :: mapSet k v m'
  end.

(** The hash loop of [generateImageFileName]:
    [hash = ((hash << 5) - hash) + char; hash = hash & hash]. *)
Definition hashStep (hash : Z) (c : char) : Z :=
  toInt32 (toInt32 (hash * 32) - hash + Z.of_N c).

Definition urlHash (imageUrl : jsstring) : Z := fold_left hashStep imageUrl 0%Z.

(** [Math.abs(hash).toString(16).padStart(8, '0')] *)
Definition hashHex (imageUrl : jsstring) : jsstring :=
  padStart 8 (toHex (Z.to_N (Z.abs (urlHash imageUrl)))).

(** The code units of a string read as the digits of a number in base
    31: [s[0]*31^(n-1) + ... + s[n-2]*31 + s[n-1]]. *)
Fixpoint polynomial31 (s : jsstring) : Z :=
  match s with
  | [] => 0%Z
  | c :: rest =>
      (Z.of_N c * 31 ^ Z.of_nat (List.length rest) + polynomial31 rest)%Z
  end.

(** The number that a string of hexadecimal digits denotes. *)
Definition hexDigitValue (c : char) : N :=
  if (c <? 58)%N then (c - 48)%N else (c - 87)%N.
Definition hexValue (s : jsstring) : N :=
  fold_left (fun n c => (n * 16 + hexDigitValue c)%N) s 0%N.

Definition imageFileName (counter : nat) (imageUrl extension : jsstring)
  : jsstring :=
  js "img_" ++ numberToString counter ++ js "_" ++ hashHex imageUrl
  ++ js "." ++ extension.

(** [generateImageFileName(imageUrl, extension)]: the counter is advanced
    and the name is built from its new value. *)
Definition generateImageFileName (st : State) (imageUrl extension : jsstring)
  : State * jsstring :=
  let counter := S (imageCounter st) in
  (mkState (imageMap st) counter (failedImages st) (attempts st),
   imageFileName counter imageUrl extension).

(** The response of [fetch(imageUrl)]; [contentType] is
    [response.headers.get('Content-Type') || '']. *)
Record ImgResponse := mkImgResponse {
  imgOk : bool;
  imgStatus : nat;
  imgStatusText : jsstring;
  contentType : jsstring;
  imgBlob : Settled Blob
}.

(** What the image pipeline asks of the browser.  [pathnameOf u] is
    [new URL(u, window.location.href).pathname] and [resolveHref u] is
    [new URL(u, window.location.href).href], absent when the constructor
    throws; [finishTime u] is the moment at which the download of [u]
    settles; [parseBody] is [DOMParser]; [now] is
    [new Date().toLocaleString('zh-CN')]; [zipResult] is the promise of
    [zip.generateAsync]. *)
Record ImageHost := mkImageHost {
  fetchImage : jsstring -> Settled ImgResponse;
  pathnameOf : jsstring -> option jsstring;
  resolveHref : jsstring -> option jsstring;
  finishTime : jsstring -> nat;
  parseBody : jsstring -> Node;
  now : jsstring;
  zipResult : Settled unit
}.

(** The extension chosen from the MIME type. *)
Definition extensionOfType (ct : jsstring) : jsstring :=
  if includes (js "jpeg") ct || includes (js "jpg") ct then js "jpg"
  else if includes (js "png") ct then js "png"
  else if includes (js "gif") ct then js "gif"
  else if includes (js "webp") ct then js "webp"
  else if includes (js "svg") ct then js "svg"
  else js "png".

(** [urlPath.match(/\.(jpg|jpeg|png|gif|webp|svg)$/i)], in lower case. *)
Definition extensionOfPath (urlPath : jsstring) : option jsstring :=
  find (fun ext => hasSuffix (js "." ++ ext) (foldCase urlPath))
       [js "jpg"; js "jpeg"; js "png"; js "gif"; js "webp"; js "svg"].

Section Pipeline.
Variable host : ImageHost.

(** [downloadImageAsBlob(imageUrl)]: [null] on every failure. *)
Definition downloadImageAsBlob (imageUrl : jsstring) : option (Blob * jsstring) :=
  match
    tryCatch
      (await (fetchImage host imageUrl) (fun response =>
         if negb (imgOk response) then
           Throw (mkError (js "HTTP " ++ numberToString (imgStatus response)
                           ++ js ": " ++ imgStatusText response))
         else
           await (imgBlob response) (fun b =>
             let extension := extensionOfType (contentType response) in
             match contentType response, imageUrl with
             | [], _ :: _ =>
                 match pathnameOf host imageUrl with
                 | None => Throw (mkError (js "Invalid URL"))
                 | Some urlPath =>
                     match extensionOfPath urlPath with
                     | Some ext => Value (Some (b, ext))
                     | None => Value (Some (b, extension))
                     end
                 end
             | _, _ => Value (Some (b, extension))
             end)))
      (fun _ => Value None)
  with
  | Value r => r
  | Throw _ => None
  end.

(** What a callback of [batch.map] resolves to. *)
Inductive CallbackResult : Type :=
| Success (data : ImageInfo)
| Failure (url : jsstring) (err : jsstring).

(** The part of a callback that runs when its download has settled. *)
Definition finishDownload (st : State) (url : jsstring) : State * CallbackResult :=
  match downloadImageAsBlob url with
  | Some (b, extension) =>
      let (st1, name) := generateImageFileName st url extension in
      let imageInfo := mkImageInfo (js "./images/" ++ name) b name url in
      (mkState (mapSet url imageInfo (imageMap st1)) (imageCounter st1)
               (failedImages st1) (attempts st1),
       Success imageInfo)
  | None => (st, Failure url (js "下载失败"))
  end.

(** The downloads of a batch settle in the order of their finish times;
    each is known by its position in the batch. *)
Fixpoint settleAll (st : State) (pending : list (nat * jsstring))
  : State * list (nat * CallbackResult) :=
  match pending with
  | [] => (st, [])
  | (pos, url) :: rest =>
      let (st1, r) := finishDownload st url in
      let (st2, rs) := settleAll st1 rest in
      (st2, (pos, r) :: rs)
  end.

Fixpoint resultAt (pos : nat) (rs : list (nat * CallbackResult))
  : option CallbackResult :=
  match rs with
  | [] => None
  | (p, r) :: rs' => if p =? pos then Some r else resultAt pos rs'
  end.

(** The positions of a batch and their URLs. *)
Definition positions (batch : list jsstring) : list (nat * jsstring) :=
  combine (seq 0 (List.length batch)) batch.

(** [results.forEach((result, index) => ...)] *)
Fixpoint collectResults (pageTitle : jsstring)
         (started : list (nat * jsstring))
         (cached : jsstring -> option ImageInfo)
         (rs : list (nat * CallbackResult))
         (downloaded : list ImageInfo) (failed : list FailedImage)
  : list ImageInfo * list FailedImage :=
  match started with
  | [] => (downloaded, failed)
  | (pos, url) :: rest =>
      let value :=
        match cached url with
        | Some data => Some (Success data)
        | None => resultAt pos rs
        end in
      match value with
      | Some (Success data) =>
          collectResults pageTitle rest cached rs (downloaded ++ [data]) failed
      | Some (Failure _ err) =>
          collectResults pageTitle rest cached rs downloaded
            (failed ++ [mkFailedImage url (orElse err (js "未知错误"))
                                      pageTitle [] None])
      | None => collectResults pageTitle rest cached rs downloaded failed
      end
  end.

(** One batch: every callback first looks its URL up in [imageMap] and
    starts its download when it is absent; the downloads settle; the
    results are collected in the order of the batch. *)
Definition runBatch (pageTitle : jsstring) (st : State) (batch : list jsstring)
           (downloaded : list ImageInfo)
  : State * list ImageInfo :=
  let cached := fun url => mapGet url (imageMap st) in
  let pending :=
    filter (fun pu => match cached (snd pu) with Some _ => false | None => true end)
           (positions batch) in
  let st0 := mkState (imageMap st) (imageCounter st) (failedImages st)
                     (attempts st ++ map snd pending) in
  let (st1, rs) :=
    settleAll st0 (sortBy (fun pu => finishTime host (snd pu)) pending) in
  let (downloaded', failed') :=
    collectResults pageTitle (positions batch) cached rs downloaded
                   (failedImages st1) in
  (mkState (imageMap st1) (imageCounter st1) failed' (attempts st1),
   downloaded').

Definition BATCH_SIZE : nat := 5.

(** [for (let i = 0; i < imageUrls.length; i += BATCH_SIZE)]; [fuel]
    bounds the number of batches. *)
Fixpoint batchesFrom (fuel : nat) (pageTitle : jsstring) (st : State)
         (imageUrls : list jsstring) (downloaded : list ImageInfo)
  : State * list ImageInfo :=
  match fuel, imageUrls with
  | _, [] => (st, downloaded)
  | O, _ :: _ => (st, downloaded)
  | S fuel', _ :: _ =>
      let (st1, downloaded1) :=
        runBatch pageTitle st (firstn BATCH_SIZE imageUrls) downloaded in
      batchesFrom fuel' pageTitle st1 (skipn BATCH_SIZE imageUrls) downloaded1
  end.

(** [batchDownloadImages(imageUrls, pageTitle = '未知页面')] *)
Definition batchDownloadImages (st : State) (imageUrls : list jsstring)
  : State * list ImageInfo :=
  batchesFrom (List.length imageUrls) (js "未知页面") st imageUrls [].

End Pipeline.

(* ------------------------------------------------------------------ *)
(** ** Collecting the images of a page                                  *)

(** An element of the array that [collectImagesFromHTML] returns. *)
Record ImageRef := mkImageRef {
  refUrl : jsstring;
  refAlt : jsstring;
  refTitle : jsstring;
  refContext : jsstring;
  refPageTitle : jsstring
}.

(** [doc.querySelectorAll('img')]: the [img] elements below [parent] in
    document order, each by its attributes and the [textContent] of its
    parent element. *)
Fixpoint imgElementsBelow (parent : Node)
  : list (list (jsstring * jsstring) * jsstring) :=
  match parent with
  | Element _ _ _ children =>
      flat_map (fun c =>
                  match c with
                  | Element tag attrs _ _ =>
                      if selects "img" tag
                      then [(attrs, textContentOf parent)] else []
                  | _ => []
                  end ++ imgElementsBelow c)
               children
  | _ => []
  end.

(** [collectImagesFromHTML(htmlContent, pageTitle)] *)
Definition collectImagesFromHTML (host : ImageHost)
           (htmlContent pageTitle : jsstring) : list ImageRef :=
  match htmlContent with
  | [] => []
  | _ :: _ =>
      flat_map
        (fun img =>
           match getAttribute (js "src") (fst img) with
           | [] => []
           | originalSrc =>
               match resolveHref host originalSrc with
               | None => []
               | Some absoluteUrl =>
                   if startsWith (js "data:") absoluteUrl then []
                   else [mkImageRef absoluteUrl
                                    (getAttribute (js "alt") (fst img))
                                    (getAttribute (js "title") (fst img))
                                    (trim (firstn 50 (snd img)))
                                    pageTitle]
               end
           end)
        (imgElementsBelow (parseBody host htmlContent))
  end.

(** The [imageUrlMap] of [generateCompleteMarkdown]: the first reference to
    each URL is kept, in the order of the first references. *)
Definition mergeStep (m : list (jsstring * ImageRef)) (imgInfo : ImageRef)
  : list (jsstring * ImageRef) :=
  match mapGet (refUrl imgInfo) m with
  | Some _ => m
  | None => mapSet (refUrl imgInfo) imgInfo m
  end.

Definition uniqueByUrl (allImageInfos : list ImageRef) : list ImageRef :=
  map snd (fold_left mergeStep allImageInfos []).

(** Every key of the merge map is the URL of its reference, and no key
    occurs twice. *)
Definition keyed (m : list (jsstring * ImageRef)) : Prop :=
  Forall (fun e => fst e = refUrl (snd e)) m /\ NoDup (map fst m).

(** The loop that fills in the context of the failed images. *)
Definition addContext (uniqueImages : list ImageRef) (failedImg : FailedImage)
  : FailedImage :=
  match find (fun img => str_eqb (refUrl img) (failedUrl failedImg)) uniqueImages with
  | Some imgInfo =>
      mkFailedImage (failedUrl failedImg) (error failedImg)
                    (refPageTitle imgInfo) (refAlt imgInfo)
                    (Some (refContext imgInfo))
  | None => failedImg
  end.

(* ------------------------------------------------------------------ *)
(** ** Rewriting the image paths                                        *)

Definition BANG : char := 33%N.
Definition LBRACKET : char := 91%N.
Definition RBRACKET : char := 93%N.
Definition LPAREN : char := 40%N.
Definition RPAREN : char := 41%N.
Definition DOLLAR : char := 36%N.

(** The pattern of an image reference tried at the start of [s]: an
    exclamation mark, an opening bracket, a captured run of characters other
    than the closing bracket, the closing bracket, and [url] in
    parentheses (the escaped URL matches [url] literally).  The result is
    the captured group and the length of the match. *)
Definition matchImageAt (url s : jsstring) : option (jsstring * nat) :=
  match s with
  | c0 :: c1 :: s1 =>
      if ceqb c0 BANG && ceqb c1 LBRACKET then
        let alt := takeWhile (fun c => negb (ceqb c RBRACKET)) s1 in
        if startsWith (RBRACKET :: LPAREN :: url ++ [RPAREN])
                      (skipn (List.length alt) s1)
        then Some (alt, 2 + List.length alt + 2 + List.length url + 1)
        else None
      else None
  | _ => None
  end.

(** The expansion of a replacement template for a pattern with one group
    and no named groups: [$$], [$&], [$`], [$'], [$1] and [$01] are
    replaced, every other [$] stands for itself. *)
Fixpoint substitute (matched before after group1 template : jsstring)
  : jsstring :=
  match template with
  | [] => []
  | c :: t =>
      if ceqb c DOLLAR then
        match t with
        | d :: t' =>
            if ceqb d DOLLAR then
              DOLLAR :: substitute matched before after group1 t'
            else if ceqb d 38%N then
              matched ++ substitute matched before after group1 t'
            else if ceqb d 96%N then
              before ++ substitute matched before after group1 t'
            else if ceqb d 39%N then
              after ++ substitute matched before after group1 t'
            else if ceqb d 49%N then
              group1 ++ substitute matched before after group1 t'
            else if ceqb d 48%N then
              match t' with
              | e :: t'' =>
                  if ceqb e 49%N then
                    group1 ++ substitute matched before after group1 t''
                  else DOLLAR :: substitute matched before after group1 t
              | [] => DOLLAR :: substitute matched before after group1 t
              end
            else DOLLAR :: substitute matched before after group1 t
        | [] => [DOLLAR]
        end
      else c :: substitute matched before after group1 t
  end.

(** [s.replace(new RegExp(pattern, 'g'), template)] for the pattern above:
    the string is scanned from the left, a match is replaced by the expanded
    template and the scan goes on behind it.  [before] is the part of the
    string already scanned and [skip] the number of characters of the
    current match still to pass over. *)
Fixpoint replaceFrom (url template before : jsstring) (skip : nat)
         (s : jsstring) : jsstring :=
  match s with
  | [] => []
  | c :: s' =>
      match skip with
      | S k => replaceFrom url template (before ++ [c]) k s'
      | O =>
          match matchImageAt url s with
          | Some (alt, len) =>
              substitute (firstn len s) before (skipn len s) alt template
              ++ replaceFrom url template (before ++ [c]) (len - 1) s'
          | None => c :: replaceFrom url template (before ++ [c]) 0 s'
          end
      end
  end.

Definition replaceImageRefs (url template s : jsstring) : jsstring :=
  replaceFrom url template [] 0 s.

Definition localTemplate (imageInfo : ImageInfo) : jsstring :=
  js "![$1](" ++ localPath imageInfo ++ js ")".

Definition warningTemplate (failedImg : FailedImage) : jsstring :=
  [LF; LF] ++ js "> ⚠️ **图片加载失败** - 请手动处理" ++ [LF]
  ++ js "> " ++ [LF]
  ++ js "> 原因: " ++ error failedImg ++ [LF]
  ++ js "> " ++ [LF]
  ++ js "> 原始链接: [点击查看](<" ++ failedUrl failedImg ++ js ">)" ++ [LF; LF]
  ++ js "![$1](" ++ failedUrl failedImg ++ js " " ++ [DQUOTE]
  ++ js "❌ 下载失败" ++ [DQUOTE] ++ js ")".

(** [replaceImagePaths(markdownContent)] *)
Definition replaceImagePaths (st : State) (markdownContent : jsstring)
  : jsstring :=
  let updatedContent :=
    fold_left (fun content entry =>
                 replaceImageRefs (fst entry) (localTemplate (snd entry)) content)
              (imageMap st) markdownContent in
  fold_left (fun content failedImg =>
               replaceImageRefs (failedUrl failedImg)
                                (warningTemplate failedImg) content)
            (failedImages st) updatedContent.

(* ------------------------------------------------------------------ *)
(** ** The failure report                                               *)

(** The [groupedByPage] map. *)
Definition groupByPage (failed : list FailedImage)
  : list (jsstring * list FailedImage) :=
  fold_left (fun groups img =>
               let pageTitle := orElse (failedPageTitle img) (js "未知页面") in
               match mapGet pageTitle groups with
               | Some images => mapSet pageTitle (images ++ [img]) groups
               | None => mapSet pageTitle [img] groups
               end)
            failed [].

Definition advice (err : jsstring) : jsstring :=
  if includes (js "CORS") err || includes (js "blocked") err then
    js "- ✅ 在浏览器中打开链接，右键保存图片" ++ [LF]
    ++ js "- ✅ 使用截图工具截取网页上的图片" ++ [LF]
    ++ js "- ✅ 使用浏览器的" ++ [DQUOTE] ++ js "检查元素" ++ [DQUOTE]
    ++ js "功能，在Network标签中找到图片并保存" ++ [LF]
  else if includes (js "404") err || includes (js "HTTP") err then
    js "- ⚠️ 图片链接已失效，无法访问" ++ [LF]
    ++ js "- ✅ 检查网页上是否还能看到这张图片" ++ [LF]
    ++ js "- ✅ 如果图片重要，尝试使用互联网档案馆（Wayback Machine）查找历史版本"
    ++ [LF]
  else
    js "- ✅ 在浏览器中直接打开链接尝试访问" ++ [LF]
    ++ js "- ✅ 如果能访问，手动右键保存图片" ++ [LF].

(** The text written for one failed image, numbered [index]. *)
Definition reportEntry (index : nat) (img : FailedImage) : jsstring :=
  js "### " ++ numberToString index ++ js ". 图片信息" ++ [LF; LF]
  ++ match failedAltText img with
     | [] => []
     | alt => js "- **图片描述**: " ++ alt ++ [LF]
     end
  ++ match failedContext img with
     | Some (c :: ctx) => js "- **上下文**: " ++ (c :: ctx) ++ js "..." ++ [LF]
     | _ => []
     end
  ++ js "- **失败原因**: `" ++ error img ++ js "`" ++ [LF]
  ++ js "- **原始链接**: " ++ [LF] ++ js "  ```" ++ [LF]
  ++ js "  " ++ failedUrl img ++ [LF] ++ js "  ```" ++ [LF]
  ++ [LF] ++ js "**处理建议**:" ++ [LF]
  ++ advice (error img)
  ++ [LF] ++ js "**替换步骤**:" ++ [LF]
  ++ js "1. 下载或截取图片，保存到 `images/` 文件夹" ++ [LF]
  ++ js "2. 将图片重命名为 `manual_" ++ numberToString index
  ++ js ".jpg` (或对应格式)" ++ [LF]
  ++ js "3. 在 Markdown 文件中搜索上述链接" ++ [LF]
  ++ js "4. 替换为: `![" ++ orElse (failedAltText img) (js "图片")
  ++ js "](./images/manual_" ++ numberToString index ++ js ".jpg)`" ++ [LF]
  ++ [LF] ++ js "---" ++ [LF; LF].

(** The inner loop: the entries of one page, and the index after them. *)
Fixpoint reportImages (index : nat) (images : list FailedImage)
  : jsstring * nat :=
  match images with
  | [] => ([], index)
  | img :: rest =>
      let (text, index') := reportImages (S index) rest in
      (reportEntry index img ++ text, index')
  end.

(** The outer loop over the pages. *)
Fixpoint reportGroups (index : nat) (groups : list (jsstring * list FailedImage))
  : jsstring :=
  match groups with
  | [] => []
  | (pageTitle, images) :: rest =>
      let (text, index') := reportImages index images in
      js "## 📄 " ++ pageTitle ++ [LF; LF]
      ++ js "该页面有 " ++ numberToString (List.length images)
      ++ js " 张图片下载失败：" ++ [LF; LF]
      ++ text ++ reportGroups index' rest
  end.


(** [generateFailureReport()]: [null] when no image failed. *)
Definition generateFailureReport (host : ImageHost) (st : State)
  : option jsstring :=
  match failedImages st with
  | [] => None
  | failed =>
      Some (js "# 图片下载失败报告" ++ [LF; LF]
            ++ js "生成时间: " ++ now host ++ [LF; LF]
            ++ js "共有 **" ++ numberToString (List.length failed)
            ++ js "** 张图片下载失败，需要手动处理。" ++ [LF; LF]
            ++ js "---" ++ [LF; LF]
            ++ reportGroups 1 (groupByPage failed)
            ++ js "## 📋 批量处理清单" ++ [LF; LF]
            ++ js "可以复制以下链接列表，使用下载工具批量下载：" ++ [LF; LF]
            ++ js "```text" ++ [LF]
            ++ flat_map (fun img => failedUrl img ++ [LF]) failed
            ++ js "```" ++ [LF; LF]
            ++ js "---" ++ [LF; LF]
            ++ js "💡 **提示**: 在 Markdown 文件中搜索 " ++ [DQUOTE]
            ++ js "⚠️ **图片加载失败**" ++ [DQUOTE]
            ++ js " 可以快速定位所有失败的图片位置。" ++ [LF])
  end.

(* ------------------------------------------------------------------ *)
(** ** Markdown text seen as text and image references                  *)

(** A piece of Markdown text: plain text, an image reference
    [![alt](src)], or the warning block that stands for the reference to a
    failed image. *)
Inductive Segment : Type :=
| Txt (t : jsstring)
| Img (alt src : jsstring)
| Warned (failedImg : FailedImage) (alt : jsstring).

Definition imageRef (alt src : jsstring) : jsstring :=
  BANG :: LBRACKET :: alt ++ RBRACKET :: LPAREN :: src ++ [RPAREN].

(** An image reference behind its exclamation mark. *)
Definition refTail (alt src : jsstring) : jsstring :=
  LBRACKET :: alt ++ RBRACKET :: LPAREN :: src ++ [RPAREN].

Definition warningHead (failedImg : FailedImage) : jsstring :=
  [LF; LF] ++ js "> ⚠️ **图片加载失败** - 请手动处理" ++ [LF]
  ++ js "> " ++ [LF]
  ++ js "> 原因: " ++ error failedImg ++ [LF]
  ++ js "> " ++ [LF]
  ++ js "> 原始链接: [点击查看](<" ++ failedUrl failedImg ++ js ">)" ++ [LF; LF].

Definition warningMark : jsstring :=
  SPACE :: DQUOTE :: js "❌ 下载失败" ++ [DQUOTE; RPAREN].

Definition warningBlock (failedImg : FailedImage) (alt : jsstring) : jsstring :=
  warningHead failedImg
  ++ BANG :: LBRACKET :: alt ++ RBRACKET :: LPAREN :: failedUrl failedImg
  ++ warningMark.

(** The marked reference of a warning block behind its exclamation
    mark. *)
Definition markTail (alt furl : jsstring) : jsstring :=
  LBRACKET :: alt ++ RBRACKET :: LPAREN :: furl ++ warningMark.

Definition render (seg : Segment) : jsstring :=
  match seg with
  | Txt t => t
  | Img alt src => imageRef alt src
  | Warned failedImg alt => warningBlock failedImg alt
  end.

Definition renderAll (doc : list Segment) : jsstring := flat_map render doc.

(** One turn of the first loop of [replaceImagePaths] and one turn of the
    second, on a segment. *)
Definition passLocal (u path : jsstring) (seg : Segment) : Segment :=
  match seg with
  | Img alt src => if str_eqb src u then Img alt path else seg
  | _ => seg
  end.

Definition passWarn (failedImg : FailedImage) (seg : Segment) : Segment :=
  match seg with
  | Img alt src =>
      if str_eqb src (failedUrl failedImg) then Warned failedImg alt else seg
  | _ => seg
  end.

(** The two loops of [replaceImagePaths], on a document and on a
    segment. *)
Definition localPasses (entries : list (jsstring * ImageInfo)) (seg : Segment)
  : Segment :=
  fold_left (fun s e => passLocal (fst e) (localPath (snd e)) s) entries seg.

Definition warnPasses (failed : list FailedImage) (seg : Segment) : Segment :=
  fold_left (fun s f => passWarn f s) failed seg.

(** What the rewriting of the paths makes of a segment: a reference to a
    downloaded image points to the local copy, a reference to a failed
    image becomes a warning block, everything else stays. *)
Definition rewriteSegment (st : State) (seg : Segment) : Segment :=
  match seg with
  | Img alt src =>
      match mapGet src (imageMap st) with
      | Some imageInfo => Img alt (localPath imageInfo)
      | None =>
          match find (fun f => str_eqb (failedUrl f) src) (failedImages st) with
          | Some failedImg => Warned failedImg alt
          | None => seg
          end
      end
  | _ => seg
  end.

(** The characters that the text between the references, the alternative
    texts, the sources and the URLs of a run must not hold for the
    rewriting to be described by [rewriteSegment]. *)
Definition no (c : char) (s : jsstring) : bool :=
  forallb (fun d => negb (ceqb d c)) s.

(** Does [s] end inside the brackets of an image reference: does it hold
    an exclamation mark and an opening bracket with no closing bracket
    behind them? *)
Fixpoint unfinished (s : jsstring) : bool :=
  match s with
  | [] => false
  | c :: s' =>
      ceqb c BANG && startsWith [LBRACKET] s' && no RBRACKET s'
      || unfinished s'
  end.

Definition textOK (t : jsstring) : bool := no BANG t.
Definition altOK (alt : jsstring) : bool := no BANG alt && no RBRACKET alt.
Definition srcOK (src : jsstring) : bool := no BANG src && no RPAREN src.
Definition urlOK (u : jsstring) : bool :=
  no BANG u && no RPAREN u && no SPACE u && no DOLLAR u
  && negb (startsWith (js "./images/") u).
Definition pathOK (p : jsstring) : bool :=
  no BANG p && no RPAREN p && no DOLLAR p && startsWith (js "./images/") p.

Definition segmentOK (seg : Segment) : bool :=
  match seg with
  | Txt t => textOK t
  | Img alt src => altOK alt && srcOK src
  | Warned f alt =>
      altOK alt && urlOK (failedUrl f) && no BANG (error f)
  end.

Definition entryOK (e : jsstring * ImageInfo) : Prop :=
  urlOK (fst e) = true /\ pathOK (localPath (snd e)) = true.

Definition failureOK (f : FailedImage) : Prop :=
  urlOK (failedUrl f) = true /\ no BANG (error f) = true
  /\ no DOLLAR (error f) = true.

Definition stateOK (st : State) : Prop :=
  Forall entryOK (imageMap st) /\ Forall failureOK (failedImages st).

(* ------------------------------------------------------------------ *)
(** ** What holds of the fields during a run                            *)

(** The entry [e] of [imageMap] was named with the counter value [k]. *)
Definition named (counter : nat) (e : jsstring * ImageInfo) (k : nat) : Prop :=
  1 <= k <= counter
  /\ originalUrl (snd e) = fst e
  /\ localPath (snd e) = js "./images/" ++ fileName (snd e)
  /\ exists extension,
       fileName (snd e) = imageFileName k (fst e) extension
       /\ In extension [js "jpg"; js "jpeg"; js "png"; js "gif"; js "webp";
                        js "svg"].

(** Every entry of [imageMap] was named with a counter value of its own. *)
Definition namesDistinct (st : State) : Prop :=
  exists ks, Forall2 (named (imageCounter st)) (imageMap st) ks /\ NoDup ks.

(** Does the download of [u] yield an image? *)
Definition downloads (host : ImageHost) (u : jsstring) : bool :=
  match downloadImageAsBlob host u with Some _ => true | None => false end.

Definition fails (host : ImageHost) (u : jsstring) : bool :=
  negb (downloads host u).

(** The record pushed to [failedImages] for [u]. *)
Definition failureAt (pageTitle u : jsstring) : FailedImage :=
  mkFailedImage u (js "下载失败") pageTitle [] None.
Definition failureOf (u : jsstring) : FailedImage :=
  failureAt (js "未知页面") u.

(** The record of a failed image once its context is filled in. *)
Definition contextOf (i : ImageRef) : FailedImage :=
  mkFailedImage (refUrl i) (js "下载失败") (refPageTitle i) (refAlt i)
                (Some (refContext i)).

(** The entry of [imageMap] for [u], if there is one. *)
Definition infoOf (m : list (jsstring * ImageInfo)) (u : jsstring)
  : list ImageInfo :=
  match mapGet u m with Some info => [info] | None => [] end.

End Images.

(* ================================================================== *)
(** * The two generation calls                                          *)
(* ================================================================== *)

Module Generator.
Import Discovery Fetch Markdown Images.

Record Options := mkOptions { optTitle : jsstring }.

(** The seed page and the world around it. *)
Record World := mkWorld {
  navLinks : list (list Anchor);
  pageHost : Fetch.Host;
  imageHost : ImageHost
}.

(** What is handed to the browser for saving or printing. *)
Inductive Artifact : Type :=
| MarkdownFile (filename content : jsstring)
| ZipFile (filename markdownName markdown : jsstring)
          (images : list (jsstring * Blob)) (report : option jsstring)
| PrintDocument (documentHtml : jsstring).

(** The result of a generation call: how its promise settles, what was
    delivered, the pages that the fetch loop has asked for, and the fields
    of the generator at the end. *)
Record Run := mkRun {
  outcome : Settled unit;
  delivered : option Artifact;
  requestedPages : list jsstring;
  finalState : State
}.

Definition noPagesError : Error :=
  mkError (js "未发现任何相关页面，请检查页面结构").

(** [resolveUrl(href)] *)
Definition resolveUrl (w : World) (href : jsstring) : jsstring :=
  match resolveHref (imageHost w) href with
  | Some u => u
  | None => href
  end.

Definition discoverAllPages (w : World) : list Link :=
  Discovery.discoverAllPages isValidDocumentLink (resolveUrl w) (navLinks w).

(** [sanitizeFileName(filename)] *)
Definition isUnsafeChar (c : char) : bool :=
  existsb (ceqb c) [92; 47; 58; 42; 63; 34; 60; 62; 124]%N.

Fixpoint collapseDashes (inRun : bool) (s : jsstring) : jsstring :=
  match s with
  | [] => []
  | c :: s' =>
      if ceqb c 45%N then
        if inRun then collapseDashes true s' else c :: collapseDashes true s'
      else c :: collapseDashes false s'
  end.

Definition sanitizeFileName (filename : jsstring) : jsstring :=
  let safe := map (fun c => if isUnsafeChar c then 45%N else c) filename in
  let safe := trim (collapseDashes false (collapseSpaces safe)) in
  let safe := if 100 <? List.length safe then firstn 100 safe else safe in
  orElse safe (js "document").

(** The anchor of an entry of the table of contents. *)
Definition isWordChar (c : char) : bool :=
  ((48 <=? c) && (c <=? 57) || (65 <=? c) && (c <=? 90)
   || (97 <=? c) && (c <=? 122) || (c =? 95))%N.

Fixpoint dashRuns (inRun : bool) (s : jsstring) : jsstring :=
  match s with
  | [] => []
  | c :: s' =>
      if isWordChar c then c :: dashRuns false s'
      else if inRun then dashRuns true s' else 45%N :: dashRuns true s'
  end.

Definition isDash (c : char) : bool := ceqb c 45%N.

Definition tocAnchor (title : jsstring) : jsstring :=
  rev (dropWhile isDash
         (rev (dropWhile isDash (dashRuns false (toLowerCase (trim title)))))).

Definition titleOf (page : Entry) : jsstring :=
  orElse (title (link page)) (js "未命名页面").

Definition tocLine (page : Entry) : jsstring :=
  repeatStr (js "  ") (Nat.max 0 (Nat.max (level (link page)) 1 - 1))
  ++ js "* [" ++ titleOf page ++ js "](#" ++ tocAnchor (titleOf page)
  ++ js ")" ++ [LF].

Definition tableOfContents (pageContents : list Entry) : jsstring :=
  if 1 <? List.length pageContents then
    js "## 目录" ++ [LF; LF] ++ flat_map tocLine pageContents ++ [LF]
  else [].

Definition pageSection (w : World) (page : Entry) : jsstring :=
  js "# " ++ titleOf page ++ [LF; LF]
  ++ htmlToMarkdown (parseBody (imageHost w)) (html (content page))
  ++ [LF; LF] ++ js "---" ++ [LF; LF].

(** The text built before the image paths are rewritten. *)
Definition assembleMarkdown (w : World) (options : Options)
           (pageContents : list Entry) (downloadedImages : list ImageInfo)
  : jsstring :=
  js "# " ++ optTitle options ++ [LF; LF]
  ++ match downloadedImages with
     | [] => []
     | _ :: _ =>
         js "> 📝 本文档包含 "
         ++ numberToString (List.length downloadedImages)
         ++ js " 张本地图片" ++ [LF; LF]
     end
  ++ tableOfContents pageContents
  ++ flat_map (pageSection w) pageContents.

(** The images of all pages, merged by URL, and their download. *)
Definition collectAll (w : World) (pageContents : list Entry) : list ImageRef :=
  flat_map (fun page =>
              collectImagesFromHTML (imageHost w) (html (content page))
                                    (title (link page)))
           pageContents.

Definition downloadAll (w : World) (uniqueImages : list ImageRef)
  : State * list ImageInfo :=
  match uniqueImages with
  | [] => (freshState, [])
  | _ :: _ =>
      let (st, downloadedImages) :=
        batchDownloadImages (imageHost w) freshState (map refUrl uniqueImages) in
      (mkState (imageMap st) (imageCounter st)
               (map (addContext uniqueImages) (failedImages st))
               (attempts st),
       downloadedImages)
  end.

(** The pages of a run and the image references collected from them. *)
Definition pagesOf (w : World) : list Entry :=
  match batchFetchPages (pageHost w) (discoverAllPages w) with
  | Fulfilled pageContents => pageContents
  | Rejected _ => []
  end.

Definition imagesOf (w : World) : list ImageRef := collectAll w (pagesOf w).

(** The [completeMarkdown] of a run before its image paths are
    rewritten. *)
Definition assembledMarkdown (w : World) (options : Options) : jsstring :=
  assembleMarkdown w options (pagesOf w)
                   (snd (downloadAll w (uniqueByUrl (imagesOf w)))).

(** [downloadMarkdownWithImages(markdownContent, title, downloadedImages)] *)
Definition downloadMarkdownWithImages (w : World) (st : State)
           (markdownContent title : jsstring)
           (downloadedImages : list ImageInfo) : Completion Artifact :=
  tryCatch
    (let safeTitle := sanitizeFileName title in
     let files := map (fun i => (fileName i, blob i)) downloadedImages in
     let failureReport := generateFailureReport (imageHost w) st in
     await (zipResult (imageHost w)) (fun _ =>
       Value (ZipFile (safeTitle ++ js ".zip") (safeTitle ++ js ".md")
                      markdownContent files failureReport)))
    (fun error => Throw (mkError (js "打包失败: " ++ message error))).

(** [generateCompleteMarkdown(options)] *)
Definition generateCompleteMarkdown (w : World) (options : Options) : Run :=
  let allPages := discoverAllPages w in
  match allPages with
  | [] => mkRun (Rejected noPagesError) None [] freshState
  | _ :: _ =>
      let requested := requestedBy (pageHost w) 0 allPages in
      match batchFetchPages (pageHost w) allPages with
      | Rejected e => mkRun (Rejected e) None requested freshState
      | Fulfilled pageContents =>
          let uniqueImages := uniqueByUrl (collectAll w pageContents) in
          let (st, downloadedImages) := downloadAll w uniqueImages in
          let completeMarkdown :=
            assembleMarkdown w options pageContents downloadedImages in
          match downloadedImages with
          | [] =>
              mkRun (Fulfilled tt)
                    (Some (MarkdownFile (optTitle options ++ js ".md")
                                        completeMarkdown))
                    requested st
          | _ :: _ =>
              match downloadMarkdownWithImages
                      w st (replaceImagePaths st completeMarkdown)
                      (optTitle options) downloadedImages with
              | Value a => mkRun (Fulfilled tt) (Some a) requested st
              | Throw e => mkRun (Rejected e) None requested st
              end
          end
      end
  end.

Section Print.

(** The assembly of the print document ([buildCompleteDocument]) is a
    long concatenation of markup and style sheets and is taken as given;
    [windowOpen] tells whether [window.open] returns a window. *)
Variable buildCompleteDocument : list Entry -> Options -> jsstring.
Variable windowOpen : bool.

(** [createPDFPreviewWindow(htmlContent, options)]: the document is
    written into the new window when there is one. *)
Definition createPDFPreviewWindow (htmlContent : jsstring) : option Artifact :=
  if windowOpen then Some (PrintDocument htmlContent) else None.

(** [createCompletePDF(pageContents, options)] *)
Definition createCompletePDF (pageContents : list Entry) (options : Options)
  : Settled (option Artifact) :=
  async (let completeHtml := buildCompleteDocument pageContents options in
         Value (Plain (createPDFPreviewWindow completeHtml))).

(** [generateCompletePDF(options)] *)
Definition generateCompletePDF (w : World) (options : Options) : Run :=
  let allPages := discoverAllPages w in
  match allPages with
  | [] => mkRun (Rejected noPagesError) None [] freshState
  | _ :: _ =>
      let requested := requestedBy (pageHost w) 0 allPages in
      match batchFetchPages (pageHost w) allPages with
      | Rejected e => mkRun (Rejected e) None requested freshState
      | Fulfilled pageContents =>
          match createCompletePDF pageContents options with
          | Fulfilled printed => mkRun (Fulfilled tt) printed requested freshState
          | Rejected e => mkRun (Rejected e) None requested freshState
          end
      end
  end.

End Print.

End Generator.

(* ================================================================== *)
(** * Sample sites                                                      *)
(* ================================================================== *)

Module Sample.
Import Discovery Fetch.

Definition seedUrl : jsstring := js "https://docs.example/index.html".
Definition setupUrl : jsstring := js "https://docs.example/setup.html".

Definition seedContent : PageContent :=
  mkPageContent (js "<main><p>Welcome</p></main>") (js "Intro") [] 7.

(** A parser of fetched pages that finds three characters of text. *)
Definition parseStub (htmlText sourceUrl : jsstring) : PageContent :=
  mkPageContent htmlText (js "Setup") [] 3.

(** Every direct fetch is refused and the background script reports a
    failure of its own. *)
Definition offlineHost : Host :=
  mkHost seedUrl seedContent
         (fun _ _ => Rejected (mkError (js "Failed to fetch")))
         (fun _ _ => Responded (Some (mkBgResponse false [] (js "HTTP 404"))))
         parseStub.

Definition plainAnchor (h t : jsstring) (depth : list Ancestor) : Anchor :=
  mkAnchor h t [] depth.

Definition li : Ancestor := mkAncestor false true.
Definition ul : Ancestor := mkAncestor false false.
Definition navRoot : Ancestor := mkAncestor true false.

Definition introLink : Link :=
  mkLink seedUrl (js "Intro") 1 (plainAnchor seedUrl (js "Intro") [navRoot]).
Definition setupLink : Link :=
  mkLink setupUrl (js "Setup") 2
         (plainAnchor setupUrl (js "Setup") [li; ul; navRoot]).

(** A navigation menu, found by the first selector only: a nested entry
    for the set-up page first, then the seed page, then the set-up page
    once more. *)
Definition menu : list (list Anchor) :=
  [[plainAnchor (js "setup.html") (js " Setup ") [li; ul; li; ul; navRoot];
    plainAnchor (js "index.html") (js "Intro") [li; ul; navRoot];
    plainAnchor (js "https://docs.example/setup.html") (js "Again") [navRoot]];
   []; []; []; []; []; []].

(** A resolver for this site: an absolute URL is kept, anything else is
    put behind the directory of the seed page. *)
Definition resolveSample (u : jsstring) : option jsstring :=
  if startsWith (js "https://") u then Some u
  else Some (js "https://docs.example/" ++ u).

Import Markdown Images Generator.

Definition logoUrl : jsstring := js "https://docs.example/img/logo.png".
Definition shotUrl : jsstring := js "https://docs.example/img/shot.JPG".
Definition chartUrl : jsstring := js "https://cdn.example/chart.svg".

Definition img (src alt : string) : Node :=
  Element (js "IMG") [(js "src", js src); (js "alt", js alt)] false [].
Definition par (children : list Node) : Node :=
  Element (js "P") [] false children.
Definition body (children : list Node) : Node :=
  Element (js "BODY") [] false children.

(** The document of the ordered-list fragment. *)
Definition orderedListHtml : jsstring := js "<ol><li>one</li><li>two</li></ol>".
Definition orderedListBody : Node :=
  body [Element (js "OL") [] false
          [Element (js "LI") [] false [Text (js "one")];
           Element (js "LI") [] false [Text (js "two")]]].

(** Two pages that show the same logo; the first one also shows a
    screenshot and the second one a chart. *)
Definition introHtml : jsstring := js "<main>intro</main>".
Definition setupHtml : jsstring := js "<main>setup</main>".

Definition introBody : Node :=
  body [par [Text (js "Welcome"); img "https://docs.example/img/logo.png" "Logo"];
        par [img "https://docs.example/img/shot.JPG" "Shot"]].
Definition setupBody : Node :=
  body [par [Text (js "Install"); img "https://docs.example/img/logo.png" "Logo again"];
        par [img "https://cdn.example/chart.svg" "Chart"]].


Definition parseSample (setup : Node) (htmlText : jsstring) : Node :=
  if str_eqb htmlText introHtml then introBody
  else if str_eqb htmlText setupHtml then setup
  else if str_eqb htmlText orderedListHtml then orderedListBody
  else body [].

Definition okImage (ct : string) (bytes : Blob) : Settled ImgResponse :=
  Fulfilled (mkImgResponse true 200 (js "OK") (js ct) (Fulfilled bytes)).

(** The image server: the hosts named in [down] refuse their images. *)
Definition serveImages (down : list jsstring) (u : jsstring)
  : Settled ImgResponse :=
  if existsb (fun d => startsWith d u) down
  then Rejected (mkError (js "Failed to fetch"))
  else if str_eqb u logoUrl then okImage "image/png" [1; 2; 3]%N
  else if str_eqb u shotUrl then okImage EmptyString [4; 5]%N
  else if str_eqb u chartUrl then okImage "image/svg+xml" [6]%N
  else Fulfilled (mkImgResponse false 404 (js "Not Found") [] (Fulfilled [])).

(** The screenshot settles first, then the chart, then the logo. *)
Definition settleTime (u : jsstring) : nat :=
  if str_eqb u logoUrl then 30 else if str_eqb u shotUrl then 10 else 20.

Definition sampleImageHost (setup : Node) (down : list jsstring)
           (zip : Settled unit) : ImageHost :=
  mkImageHost (serveImages down)
              (fun u => Some (skipn 20 u))
              resolveSample settleTime (parseSample setup)
              (js "2024/1/1 00:00:00") zip.

Definition samplePageHost : Host :=
  mkHost seedUrl
         (mkPageContent introHtml (js "Intro") [] 7)
         (fun _ u => Fulfilled (mkResponse true 200 (js "OK") (Fulfilled setupHtml)))
         (fun _ _ => Responded None)
         (fun htmlText _ => mkPageContent htmlText (js "Setup") [] 7).

Definition site (setup : Node) (down : list jsstring) (zip : Settled unit)
  : World :=
  mkWorld menu samplePageHost (sampleImageHost setup down zip).

(** Every image downloads. *)
Definition healthySite : World := site setupBody [] (Fulfilled tt).
(** The chart, one of the three images, fails. *)
Definition chartDownSite : World :=
  site setupBody [js "https://cdn.example/"] (Fulfilled tt).
(** The logo, shown by both pages, fails. *)
Definition logoDownSite : World :=
  site setupBody [js "https://docs.example/img/logo"] (Fulfilled tt).
(** Every image downloads, and the archive cannot be written. *)
Definition zipFailsSite : World :=
  site setupBody [] (Rejected (mkError (js "out of memory"))).
(** A seed page without navigation links. *)
Definition emptySite : World :=
  mkWorld [] samplePageHost (sampleImageHost setupBody [] (Fulfilled tt)).

(** The seed page writes the source of the logo relative to its own
    URL; the second page writes it in full. *)
Definition relativeBody : Node :=
  body [par [Text (js "Welcome"); img "img/logo.png" "Logo"]].
Definition logoOnlyBody : Node :=
  body [par [Text (js "Install"); img "https://docs.example/img/logo.png" "Logo again"]].
Definition relativeSite : World :=
  mkWorld menu samplePageHost
          (mkImageHost (serveImages [])
                       (fun u => Some (skipn 20 u))
                       resolveSample settleTime
                       (fun htmlText =>
                          if str_eqb htmlText introHtml then relativeBody
                          else if str_eqb htmlText setupHtml then logoOnlyBody
                          else body [])
                       (js "2024/1/1 00:00:00") (Fulfilled tt)).

Definition book : Options := mkOptions (js "Book").

(** The Markdown text that a run delivers. *)
Definition finalMarkdown (r : Run) : jsstring :=
  match delivered r with
  | Some (MarkdownFile _ content) => content
  | Some (ZipFile _ _ markdown _ _) => markdown
  | _ => []
  end.


(** The reference to the logo as it is collected from the seed page. *)
Definition logoRef : ImageRef :=
  mkImageRef logoUrl (js "Logo") [] (js "Welcome") (js "Intro").

(** Markdown text with two references to the logo and one to the chart. *)
Definition gallery : list Segment :=
  [Txt (js "Welcome"); Img (js "Logo") logoUrl; Txt [LF; LF];
   Img (js "Logo again") logoUrl; Txt [LF; LF]; Img (js "Chart") chartUrl].

End Sample.

(* ================================================================== *)
(** * Further parts of the program                                      *)
(* ================================================================== *)

(** ** The anchor behind a discovered page                              *)

Module Origin.
Import Discovery.

Section Origin.
Variable isValidDocumentLink : jsstring -> bool.
Variable resolveUrl : jsstring -> jsstring.

(** The anchor passes the filter and resolves to [u]. *)
Definition leadsTo (u : jsstring) (a : Anchor) : bool :=
  isValidDocumentLink (href a) && str_eqb (resolveUrl (href a)) u.

(** What holds of the links found among the anchors [seen]: each link
    belongs to the first anchor that leads to its URL, and every anchor
    that passes the filter has its URL among the links. *)
Definition originOK (seen : list Anchor) (links : list Link) : Prop :=
  (forall l, In l links ->
     find (leadsTo (url l)) seen = Some (element l)
     /\ title l = trim (textContent (element l))
     /\ level l = calculateLinkLevel (element l))
  /\ (forall a, In a seen -> isValidDocumentLink (href a) = true ->
        In (resolveUrl (href a)) (map url links)).

End Origin.

End Origin.

(* ------------------------------------------------------------------ *)
(** ** The background script                                            *)

Module Background.
Import Fetch.

(** The object that [fetchPage(url)] resolves to; a property that the
    object does not have is absent. *)
Record PageData := mkPageData {
  pdSuccess : bool;
  pdHtml : option jsstring;
  pdError : option jsstring;
  pdUrl : option jsstring;
  pdStatus : option nat;
  pdStatusText : option jsstring
}.

Section Proxy.

(** [fetch] as the service worker sees it. *)
Variable fetch : jsstring -> Settled Response.

(** [fetchPage(url)] *)
Definition fetchPage (url : jsstring) : Settled PageData :=
  async (tryCatch
           (await (fetch url) (fun response =>
              if negb (ok response) then
                Throw (mkError (js "HTTP " ++ numberToString (status response)
                                ++ js ": " ++ statusText response))
              else
                await (text response) (fun html =>
                  Value (Plain (mkPageData true (Some html) None (Some url)
                                           (Some (status response))
                                           (Some (statusText response)))))))
           (fun error =>
              Value (Plain (mkPageData false None (Some (message error))
                                       (Some url) None None)))).

(** The ['fetchPage'] case of [handleMessage]: what is handed to
    [sendResponse]. *)
Definition answerFetchPage (url : jsstring) : PageData :=
  match
    tryCatch (await (fetchPage url) (fun pageData => Value pageData))
             (fun error =>
                Value (mkPageData false None (Some (message error)) None None None))
  with
  | Value pageData => pageData
  | Throw error => mkPageData false None (Some (message error)) None None None
  end.

(** The answer as the callback of [chrome.runtime.sendMessage] reads it:
    [response.success], [response.html] and [response.error]. *)
Definition received (d : PageData) : BgResponse :=
  mkBgResponse (pdSuccess d)
               (match pdHtml d with Some h => h | None => [] end)
               (match pdError d with Some e => e | None => [] end).

(** The host of a content script whose ['fetchPage'] messages are
    answered by this background script. *)
Definition proxied (host : Host) : Host :=
  mkHost (locationHref host) (extractCurrentPageContent host)
         (fetchNet host)
         (fun _ url => Responded (Some (received (answerFetchPage url))))
         (parseHTMLContent host).

End Proxy.

End Background.

(* ------------------------------------------------------------------ *)
(** ** The tasks, statistics and settings of the background script      *)

Module Worker.

(** A value of a settings or options object. *)
Inductive Property : Type :=
| VBool (b : bool)
| VNumber (n : Z)
| VString (s : jsstring).

(** An object, by its own properties in the order of their creation. *)
Definition Obj : Type := list (jsstring * Property).

(** [{ ...target, ...source }] copies the properties of [source] into
    [target]: a property that is present is replaced in its place, a new
    one is put behind the others. *)
Definition spread (target source : Obj) : Obj :=
  fold_left (fun o p => Images.mapSet (fst p) (snd p) o) source target.

(** [map.delete(k)] *)
Definition mapDelete {V : Type} (k : jsstring) (m : list (jsstring * V))
  : list (jsstring * V) :=
  filter (fun entry => negb (str_eqb (fst entry) k)) m.

(** A task of [activeGenerations]. *)
Record Task := mkTask {
  id : jsstring;
  tabId : nat;
  url : jsstring;
  title : jsstring;
  status : jsstring;
  progress : nat;
  startTime : N;
  options : Obj
}.

(** [sender.tab], which a message from a page that is not a tab lacks. *)
Record Tab := mkTab { tabIdOf : nat; tabUrl : jsstring }.

(** [message.data] of a ['startGeneration'] message. *)
Record GenerationData := mkGenerationData {
  dataTitle : jsstring;
  dataOptions : Obj
}.

(** A message handed to [chrome.tabs.sendMessage], with its tab. *)
Inductive TabMessage : Type :=
| StartPDFGeneration (tab : nat) (taskId : jsstring) (options : Obj)
| CancelPDFGeneration (tab : nat) (taskId : jsstring).

(** The statistics object.  A number that is missing or is not a number
    is [None]: [undefined + n] and [NaN + n] are [NaN]. *)
Record Statistics := mkStatistics {
  totalGenerated : option Z;
  totalSize : option Z;
  lastUsed : option Z
}.

Definition plus (a : option Z) (n : Z) : option Z :=
  match a with Some x => Some (x + n)%Z | None => None end.

(** [n || d] on the numbers of an increment: a number that is missing or
    zero is falsy. *)
Definition orNumber (n : option Z) (d : Z) : Z :=
  match n with
  | Some x => if (x =? 0)%Z then d else x
  | None => d
  end.

(** The argument of [updateStatistics]. *)
Record Increment := mkIncrement { count : option Z; size : option Z }.

(** [chrome.storage.local]: the two keys that the script uses.  The
    storage hands back what was put into it. *)
Record Store := mkStore {
  pdfGeneratorSettings : option Obj;
  statisticsData : option Statistics
}.

(** The object that [exportSettings] returns and [importSettings] reads. *)
Record SettingsData := mkSettingsData {
  dataSettings : option Obj;
  dataStatistics : option Statistics;
  exportTime : option N;
  version : option jsstring
}.

(** The service: [this.activeGenerations] and [this.settings], the
    storage, and the messages that have been handed to
    [chrome.tabs.sendMessage]. *)
Record Service := mkService {
  activeGenerations : list (jsstring * Task);
  settings : Obj;
  storage : Store;
  sent : list TabMessage
}.

(** [new PDFGeneratorBackground()] over a storage. *)
Definition newService (store : Store) : Service := mkService [] [] store [].

(** What the surroundings do while one message is handled: the readings
    of [Date.now()] in their order, the digits of
    [Math.random().toString(36).substring(2)], how the promise of
    [chrome.tabs.sendMessage] settles, the error with which
    [chrome.storage.local.get] is rejected and the one with which
    [chrome.storage.local.set] is rejected for a key, if they are, the
    version of the manifest, and the network. *)
Record Env := mkEnv {
  dateNow : nat -> N;
  random : jsstring;
  tabsSendMessage : Settled unit;
  storageGet : option Error;
  storageSet : jsstring -> option Error;
  manifestVersion : jsstring;
  fetch : jsstring -> Settled Fetch.Response
}.

(** A block of the service: it changes the service and yields a value or
    throws. *)
Definition M (A : Type) : Type := Service -> Service * Completion A.

Definition ret {A} (a : A) : M A := fun s => (s, Value a).
Definition throw {A} (e : Error) : M A := fun s => (s, Throw e).
Definition bind {A B} (m : M A) (k : A -> M B) : M B :=
  fun s => match m s with
           | (s', Value a) => k a s'
           | (s', Throw e) => (s', Throw e)
           end.

(** [try { body } catch (error) { handler }]: what the body did before it
    threw stays done. *)
Definition tryM {A} (body : M A) (handler : Error -> M A) : M A :=
  fun s => match body s with
           | (s', Value a) => (s', Value a)
           | (s', Throw e) => handler e s'
           end.

(** [await p] *)
Definition awaitM {A} (p : Settled A) : M A :=
  match p with
  | Fulfilled a => ret a
  | Rejected e => throw e
  end.

Notation "x <- m ;; k" := (bind m (fun x => k))
  (at level 61, m at next level, right associativity).
Notation "m ;; k" := (bind m (fun _ => k))
  (at level 61, right associativity).

(** [String(n)] for a reading of the clock: its decimal digits. *)
Definition stampToString (n : N) : jsstring :=
  ofAscii (NilEmpty.string_of_uint (N.to_uint n)).

Definition settingsKey : jsstring := js "pdfGeneratorSettings".
Definition statisticsKey : jsstring := js "statisticsData".

Section Service.
Variable env : Env.

(** [await chrome.storage.local.get(...)] *)
Definition getStorage : M Store :=
  fun s => match storageGet env with
           | None => (s, Value (storage s))
           | Some e => (s, Throw e)
           end.

(** [await chrome.storage.local.set({ pdfGeneratorSettings: o })] *)
Definition setSettings (o : Obj) : M unit :=
  fun s => match storageSet env settingsKey with
           | None =>
               (mkService (activeGenerations s) (settings s)
                          (mkStore (Some o) (statisticsData (storage s)))
                          (sent s),
                Value tt)
           | Some e => (s, Throw e)
           end.

(** [await chrome.storage.local.set({ statisticsData: stats })] *)
Definition setStatistics (stats : Statistics) : M unit :=
  fun s => match storageSet env statisticsKey with
           | None =>
               (mkService (activeGenerations s) (settings s)
                          (mkStore (pdfGeneratorSettings (storage s))
                                   (Some stats))
                          (sent s),
                Value tt)
           | Some e => (s, Throw e)
           end.

(** [chrome.tabs.sendMessage(tab, message)] *)
Definition sendToTab (m : TabMessage) : M unit :=
  fun s => (mkService (activeGenerations s) (settings s) (storage s)
                      (sent s ++ [m]),
            Value tt).

Definition setActiveGenerations (tasks : list (jsstring * Task)) : M unit :=
  fun s => (mkService tasks (settings s) (storage s) (sent s), Value tt).

(** [generateTaskId()] at the clock reading [now] *)
Definition generateTaskId (now : N) : jsstring :=
  js "task_" ++ stampToString now ++ js "_" ++ random env.

(** [getStatistics()] *)
Definition getStatistics : M Statistics :=
  tryM (result <- getStorage ;;
        ret (match statisticsData result with
             | Some stats => stats
             | None => mkStatistics (Some 0%Z) (Some 0%Z) (Some 0%Z)
             end))
       (fun _ => ret (mkStatistics None None None)).

(** [updateStatistics(increment)] at the clock reading [now] *)
Definition updateStatistics (now : N) (increment : Increment) : M unit :=
  tryM (stats <- getStatistics ;;
        setStatistics
          (mkStatistics
             (plus (totalGenerated stats) (orNumber (count increment) 1))
             (plus (totalSize stats) (orNumber (size increment) 0))
             (Some (Z.of_N now))))
       (fun _ => ret tt).

(** The task that [startGeneration] makes for a sender that has a tab. *)
Definition newTask (data : GenerationData) (tab : Tab) : Task :=
  mkTask (generateTaskId (dateNow env 0)) (tabIdOf tab) (tabUrl tab)
         (dataTitle data) (js "preparing") 0 (dateNow env 1)
         (dataOptions data).

(** [startGeneration(data, sender)]; reading [sender.tab.id] throws when
    the sender has no tab. *)
Definition startGeneration (data : GenerationData) (sender : option Tab)
  : M unit :=
  let taskId := generateTaskId (dateNow env 0) in
  match sender with
  | None =>
      throw (mkError (js "Cannot read properties of undefined (reading 'id')"))
  | Some tab =>
      let task := newTask data tab in
      (fun s => setActiveGenerations
                  (Images.mapSet taskId task (activeGenerations s)) s) ;;
      tryM (sendToTab (StartPDFGeneration (tabIdOf tab) taskId
                                          (dataOptions data)) ;;
            awaitM (tabsSendMessage env) ;;
            updateStatistics (dateNow env 2) (mkIncrement None None))
           (fun error =>
              (fun s => setActiveGenerations
                          (mapDelete taskId (activeGenerations s)) s) ;;
              throw error)
  end.

(** [updateSettings(newSettings)] *)
Definition updateSettings (newSettings : Obj) : M unit :=
  tryM (result <- getStorage ;;
        let currentSettings :=
          match pdfGeneratorSettings result with
          | Some o => o
          | None => []
          end in
        let updatedSettings := spread (spread [] currentSettings) newSettings in
        setSettings updatedSettings ;;
        (fun s => (mkService (activeGenerations s) updatedSettings
                             (storage s) (sent s),
                   Value tt)))
       (fun error => throw error).

(** [exportSettings()] at the clock reading [now] *)
Definition exportSettings (now : N) : M SettingsData :=
  tryM (result <- getStorage ;;
        ret (mkSettingsData (pdfGeneratorSettings result)
                            (statisticsData result)
                            (Some now) (Some (manifestVersion env))))
       (fun error => throw error).

(** [importSettings(importData)] *)
Definition importSettings (importData : SettingsData) : M unit :=
  tryM ((match dataSettings importData with
         | Some o => setSettings o
         | None => ret tt
         end) ;;
        (match dataStatistics importData with
         | Some stats => setStatistics stats
         | None => ret tt
         end))
       (fun error => throw error).

End Service.

(** The object that [getGenerationStatus] returns for a task. *)
Record StatusReport := mkStatusReport {
  reportStatus : jsstring;
  reportProgress : nat;
  elapsed : Z
}.

(** [getGenerationStatus(taskId)] at the clock reading [now]; [None] is
    [null]. *)
Definition getGenerationStatus (now : N) (taskId : jsstring) (s : Service)
  : option StatusReport :=
  match Images.mapGet taskId (activeGenerations s) with
  | Some task =>
      Some (mkStatusReport (status task) (progress task)
                           (Z.of_N now - Z.of_N (startTime task)))
  | None => None
  end.

(** [cancelGeneration(taskId)]: the status is written into the task, and
    the task is taken out of the map; a rejection of the message to the
    tab is caught. *)
Definition cancelGeneration (taskId : jsstring) : M unit :=
  fun s =>
    match Images.mapGet taskId (activeGenerations s) with
    | Some task =>
        let cancelled := mkTask (id task) (tabId task) (url task) (title task)
                                (js "cancelled") (progress task)
                                (startTime task) (options task) in
        (mkService
           (mapDelete taskId
              (Images.mapSet taskId cancelled (activeGenerations s)))
           (settings s) (storage s)
           (sent s ++ [CancelPDFGeneration (tabId task) taskId]),
         Value tt)
    | None => (s, Value tt)
    end.

Definition maxAge : Z := (30 * 60 * 1000)%Z.

Definition expired (now : N) (task : Task) : bool :=
  (Z.of_N now - Z.of_N (startTime task) >? maxAge)%Z.

(** [cleanupExpiredTasks()] at the clock reading [now]: the loop goes
    through the entries of the map and deletes the one it stands on. *)
Definition cleanupExpiredTasks (now : N) (s : Service) : Service :=
  mkService
    (fold_left (fun tasks entry =>
                  if expired now (snd entry)
                  then mapDelete (fst entry) tasks
                  else tasks)
               (activeGenerations s) (activeGenerations s))
    (settings s) (storage s) (sent s).

(** A message, by its [action]. *)
Inductive Message : Type :=
| StartGeneration (data : GenerationData)
| GetGenerationStatus (taskId : jsstring)
| CancelGeneration (taskId : jsstring)
| GetStatistics
| UpdateSettings (newSettings : Obj)
| ExportSettings
| ImportSettings (importData : SettingsData)
| FetchPage (pageUrl : jsstring)
| OtherAction (action : jsstring).

(** What is handed to [sendResponse]. *)
Inductive Answer : Type :=
| Success
| StatusAnswer (report : option StatusReport)
| StatisticsAnswer (statistics : Statistics)
| SettingsAnswer (data : SettingsData)
| PageAnswer (pageData : Background.PageData)
| ErrorAnswer (error : jsstring).

(** [handleMessage(message, sender, sendResponse)] *)
Definition handleMessage (env : Env) (message : Message) (sender : option Tab)
           (s : Service) : Service * Answer :=
  let body : M Answer :=
    match message with
    | StartGeneration data =>
        startGeneration env data sender ;; ret Success
    | GetGenerationStatus taskId =>
        fun s => ret (StatusAnswer
                        (getGenerationStatus (dateNow env 0) taskId s)) s
    | CancelGeneration taskId =>
        cancelGeneration taskId ;; ret Success
    | GetStatistics =>
        stats <- getStatistics env ;; ret (StatisticsAnswer stats)
    | UpdateSettings newSettings =>
        updateSettings env newSettings ;; ret Success
    | ExportSettings =>
        data <- exportSettings env (dateNow env 0) ;; ret (SettingsAnswer data)
    | ImportSettings importData =>
        importSettings env importData ;; ret Success
    | FetchPage pageUrl =>
        ret (PageAnswer (Background.answerFetchPage (fetch env) pageUrl))
    | OtherAction _ => ret (ErrorAnswer (js "未知操作类型"))
    end in
  match body s with
  | (s', Value answer) => (s', answer)
  | (s', Throw error) => (s', ErrorAnswer (Async.message error))
  end.

(** What happens to the service: a message arrives, or the timer of
    [cleanupExpiredTasks] fires. *)
Inductive Event : Type :=
| Arrives (env : Env) (message : Message) (sender : option Tab)
| TimerFires (now : N).

Definition step (s : Service) (e : Event) : Service :=
  match e with
  | Arrives env message sender => fst (handleMessage env message sender s)
  | TimerFires now => cleanupExpiredTasks now s
  end.

Definition run (events : list Event) (s : Service) : Service :=
  fold_left step events s.

(** The answers to the messages of a run, in their order. *)
Fixpoint answers (events : list Event) (s : Service) : list Answer :=
  match events with
  | [] => []
  | e :: rest =>
      match e with
      | Arrives env message sender =>
          snd (handleMessage env message sender s) :: answers rest (step s e)
      | TimerFires _ => answers rest (step s e)
      end
  end.

(** The task stands under its own id, is being prepared and has made
    no progress. *)
Definition kept (entry : jsstring * Task) : Prop :=
  id (snd entry) = fst entry
  /\ status (snd entry) = js "preparing"
  /\ progress (snd entry) = 0.

(** No id stands twice in the map, and every task is as it was made. *)
Definition wellKept (tasks : list (jsstring * Task)) : Prop :=
  NoDup (map fst tasks) /\ Forall kept tasks.

(** An object has a property once. *)
Definition isObject (o : Obj) : Prop := NoDup (map fst o).

End Worker.

(* ------------------------------------------------------------------ *)
(** ** Documents built from elements without attributes                 *)

Module Dom.
Import Markdown.

Definition el (tag : string) (children : list Node) : Node :=
  Element (js tag) [] false children.

(** A table as the parser builds it from rows of [td] cells that hold
    text: the rows stand in a [tbody]. *)
Definition cell (t : jsstring) : Node := el "TD" [Text t].
Definition tableRow (cells : list jsstring) : Node := el "TR" (map cell cells).
Definition plainTable (rows : list (list jsstring)) : Node :=
  el "TABLE" [el "TBODY" (map tableRow rows)].

(** The text of a cell in the Markdown table, and a line of the table. *)
Definition cellText (t : jsstring) : jsstring :=
  trim (collapseSpaces (replaceLineBreaks t) ++ [SPACE]).
Definition rowLine (cells : list jsstring) : jsstring :=
  js "| " ++ join (js " | ") cells ++ js " |" ++ [LF].

End Dom.

(* ------------------------------------------------------------------ *)
(** ** The characters of an anchor                                      *)

Module Naming.

(** A lower-case letter, a digit, an underscore or a hyphen. *)
Definition anchorChar (c : char) : bool :=
  ((48 <=? c) && (c <=? 57) || (97 <=? c) && (c <=? 122) || (c =? 95)
   || (c =? 45))%N.

End Naming.

(* ------------------------------------------------------------------ *)
(** ** The pages of the failure report                                  *)

Module Report.
Import Images.

(** The page under which the report lists a failed image. *)
Definition pageOf (img : FailedImage) : jsstring :=
  orElse (failedPageTitle img) (js "未知页面").

Definition onPage (t : jsstring) (img : FailedImage) : bool :=
  str_eqb (pageOf img) t.







End Report.

(* ------------------------------------------------------------------ *)
(** ** The line numbers of code blocks                                  *)

Module CodeBlocks.
Import Markdown.

(** The class [[\s\|\.\-\:\t]]. *)
Definition isSeparator (c : char) : bool :=
  isSpace c || ceqb c 124%N || ceqb c 46%N || ceqb c 45%N || ceqb c 58%N.

(** [line.replace(/^\s*\d+[\s\|\.\-\:\t]+/, '')]: white space, digits and
    separators, at least one digit and one separator, are removed from the
    start of the line. *)
Definition stripLineNumber (line : jsstring) : jsstring :=
  let afterSpace := dropWhile isSpace line in
  match takeWhile isDigit afterSpace with
  | [] => line
  | _ :: _ =>
      let afterDigits := dropWhile isDigit afterSpace in
      if beginsWith isSeparator afterDigits
      then dropWhile isSeparator afterDigits
      else line
  end.

(** [extractCleanCodeText(element)], from the [textContent] of the
    element. *)
Definition extractCleanCodeText (textContent : jsstring) : jsstring :=
  join [LF] (map stripLineNumber (splitLines textContent)).

(** [(i + 1).toString().padStart(3, ' ')] *)
Definition lineNumber (i : nat) : jsstring :=
  repeat SPACE (3 - List.length (numberToString (S i))) ++ numberToString (S i).

(** The loop of [addSimpleLineNumbers] from line [i] on: a last line that
    is blank is left out. *)
Fixpoint numberedContent (i : nat) (lines : list jsstring) : jsstring :=
  match lines with
  | [] => []
  | line :: rest =>
      match rest with
      | [] =>
          match trim line with
          | [] => []
          | _ :: _ => lineNumber i ++ js "  " ++ line
          end
      | _ :: _ =>
          lineNumber i ++ js "  " ++ line ++ [LF] ++ numberedContent (S i) rest
      end
  end.

(** The text that [addSimpleLineNumbers] writes into a code block whose
    [textContent] is given; a block that is skipped keeps its content. *)
Definition simpleLineNumbers (textContent : jsstring) : option jsstring :=
  let text := extractCleanCodeText textContent in
  if List.length (trim text) <? 10 then None
  else
    let lines := splitLines text in
    if List.length lines <? 2 then None
    else Some (numberedContent 0 lines).

(** The line holds no line feed / does not begin with a digit behind
    its indentation. *)
Definition oneLine (line : jsstring) : Prop := ~ In LF line.
Definition unnumbered (line : jsstring) : Prop :=
  beginsWith isDigit (dropWhile isSpace line) = false.
Definition flush (line : jsstring) : Prop :=
  beginsWith isSeparator line = false.

End CodeBlocks.

(* ------------------------------------------------------------------ *)
(** ** The title of a page without a title                              *)

Module UrlTitle.

Definition SLASH : char := 47%N.
Definition DOT : char := 46%N.

(** [s.split('/')] *)
Fixpoint splitOn (sep : char) (s : jsstring) : list jsstring :=
  match s with
  | [] => [[]]
  | c :: s' =>
      if ceqb c sep then [] :: splitOn sep s'
      else match splitOn sep s' with
           | part :: rest => (c :: part) :: rest
           | [] => [[c]]
           end
  end.

(** [pathname.split('/').filter(s => s.length > 0)] *)
Definition segmentsOf (pathname : jsstring) : list jsstring :=
  filter (fun s => 0 <? List.length s) (splitOn SLASH pathname).

(** [s.replace(/\.[^/.]+$/, "")]: the last dot and what follows it are
    removed when at least one character follows and none of them is a
    slash. *)
Definition stripExtension (s : jsstring) : jsstring :=
  let r := rev s in
  let ext := takeWhile (fun c => negb (ceqb c DOT) && negb (ceqb c SLASH)) r in
  match ext, skipn (List.length ext) r with
  | _ :: _, c :: rest => if ceqb c DOT then rev rest else s
  | _, _ => s
  end.

Definition unnamedPage : jsstring := js "未命名页面".

Section UrlTitle.

(** [new URL(url).pathname] and [decodeURIComponent], both absent when
    they throw. *)
Variable pathnameOf : jsstring -> option jsstring.
Variable decodeURIComponent : jsstring -> option jsstring.

(** [extractTitleFromURL(url)]: reading a property of the last segment
    throws when there is no segment, and every exception gives the default
    title. *)
Definition extractTitleFromURL (url : jsstring) : jsstring :=
  match pathnameOf url with
  | None => unnamedPage
  | Some pathname =>
      match rev (segmentsOf pathname) with
      | [] => unnamedPage
      | lastSegment :: _ =>
          match decodeURIComponent (stripExtension lastSegment) with
          | None => unnamedPage
          | Some title => orElse title unnamedPage
          end
      end
  end.

End UrlTitle.

End UrlTitle.

(* ------------------------------------------------------------------ *)
(** ** Further sample data                                              *)

Module Cases.
Import Discovery Fetch Markdown Images Generator.

(** The network of a background script that is served the set-up page. *)
Definition servedFetch (u : jsstring) : Settled Response :=
  Fulfilled (mkResponse true 200 (js "OK") (Fulfilled Sample.setupHtml)).

(** The state after the logo has been downloaded. *)
Definition logoState : State :=
  fst (batchDownloadImages (imageHost Sample.healthySite) freshState
                           [Sample.logoUrl]).

(** A site on which every image fails. *)
Definition allDownSite : World :=
  Sample.site Sample.setupBody [js "https://"] (Fulfilled tt).

(** The second page ends its text with an exclamation mark in front of
    the logo, and every image downloads. *)
Definition eagerBody : Node :=
  Sample.body
    [Sample.par [Text (js "Install!");
                 Sample.img "https://docs.example/img/logo.png" "Logo again"];
     Sample.par [Sample.img "https://cdn.example/chart.svg" "Chart"]].
Definition eagerSite : World := Sample.site eagerBody [] (Fulfilled tt).

(** The text of the book of [eagerSite] before its first reference to the
    logo, between its two references to the logo, and behind them. *)
Definition upToLogo : jsstring :=
  js "# Book" ++ [LF; LF]
  ++ js "> 📝 本文档包含 3 张本地图片" ++ [LF; LF]
  ++ js "## 目录" ++ [LF; LF]
  ++ js "  * [Intro](#intro)" ++ [LF]
  ++ js "    * [Setup](#setup)" ++ [LF; LF]
  ++ js "# Intro" ++ [LF; LF] ++ js "Welcome".
Definition betweenLogos : jsstring :=
  [LF; LF] ++ js "![Shot](https://docs.example/img/shot.JPG)" ++ [LF; LF]
  ++ [LF; LF] ++ js "---" ++ [LF; LF]
  ++ js "# Setup" ++ [LF; LF] ++ js "Install!".
Definition behindLogos : jsstring :=
  [LF; LF] ++ js "![Chart](https://cdn.example/chart.svg)" ++ [LF; LF]
  ++ [LF; LF] ++ js "---" ++ [LF; LF].



(** Three lines of code. *)
Definition codeLines : list jsstring :=
  [js "let x = 1;"; js "x += 41;"; js "print(x)"].

(** The path of a URL, for the URLs of the sample site. *)
Definition samplePath (u : jsstring) : option jsstring :=
  if startsWith (js "https://docs.example") u
  then Some (skipn 20 u) else None.

(** The settings and the storage that [handleFirstInstall] sets up, at the
    time [created]. *)
Definition defaultSettings (created : N) : Worker.Obj :=
  [(js "defaultPageSize", Worker.VString (js "a4"));
   (js "defaultAuthor", Worker.VString []);
   (js "includeImages", Worker.VBool true);
   (js "includeToc", Worker.VBool true);
   (js "includeLinks", Worker.VBool true);
   (js "maxFileSize", Worker.VNumber (50 * 1024 * 1024));
   (js "created", Worker.VNumber (Z.of_N created))].

Definition installedStore (created : N) : Worker.Store :=
  Worker.mkStore
    (Some (defaultSettings created))
    (Some (Worker.mkStatistics (Some 0%Z) (Some 0%Z) (Some (Z.of_N created)))).

(** Surroundings in which the storage works, the clock advances by one
    with every reading, and the tab takes or does not take its message. *)
Definition calmEnv (time : N) (digits : string) : Worker.Env :=
  Worker.mkEnv (fun i => (time + N.of_nat i)%N) (js digits) (Fulfilled tt)
               None (fun _ => None) (js "1.0.0") servedFetch.

Definition deafTabEnv (time : N) (digits : string) : Worker.Env :=
  Worker.mkEnv (fun i => (time + N.of_nat i)%N) (js digits)
               (Rejected (mkError (js "Receiving end does not exist.")))
               None (fun _ => None) (js "1.0.0") servedFetch.

(** Surroundings in which the storage can be read and not written / not
    read and written. *)
Definition fullStorageEnv (time : N) (digits : string) : Worker.Env :=
  Worker.mkEnv (fun i => (time + N.of_nat i)%N) (js digits) (Fulfilled tt)
               None (fun _ => Some (mkError (js "QUOTA_BYTES quota exceeded")))
               (js "1.0.0") servedFetch.

Definition blindStorageEnv (time : N) (digits : string) : Worker.Env :=
  Worker.mkEnv (fun i => (time + N.of_nat i)%N) (js digits) (Fulfilled tt)
               (Some (mkError (js "storage unavailable"))) (fun _ => None)
               (js "1.0.0") servedFetch.

Definition docsTab : Worker.Tab := Worker.mkTab 7 Sample.setupUrl.

Definition bookData : Worker.GenerationData :=
  Worker.mkGenerationData (js "Book") [(js "includeToc", Worker.VBool true)].

(** Two generations are started, the second one four seconds after the
    first. *)
Definition twoStarts : list Worker.Event :=
  [Worker.Arrives (calmEnv 1000 "k3x") (Worker.StartGeneration bookData)
                  (Some docsTab);
   Worker.Arrives (calmEnv 5000 "p9q") (Worker.StartGeneration bookData)
                  (Some docsTab)].

End Cases.


(* ================================================================== *)
(** * Properties                                                        *)
(* ================================================================== *)

Section StringFacts.

Lemma dropWhile_head (p : char -> bool) (s : jsstring) :
  beginsWith p (dropWhile p s) = false.
Proof.
  induction s as [|c s IH]; simpl; [reflexivity|].
  destruct (p c) eqn:E; [exact IH|]. simpl. exact E.
Qed.

Lemma dropWhile_id (p : char -> bool) (s : jsstring) :
  beginsWith p s = false -> dropWhile p s = s.
Proof.
  destruct s as [|c s]; simpl; [reflexivity|]. intros ->. reflexivity.
Qed.

Lemma dropWhile_suffix (p : char -> bool) (s : jsstring) :
  exists pre, s = pre ++ dropWhile p s.
Proof.
  induction s as [|c s [pre IH]]; simpl.
  - exists []. reflexivity.
  - destruct (p c).
    + exists (c :: pre). simpl. f_equal. exact IH.
    + exists []. reflexivity.
Qed.

Lemma beginsWith_app (p : char -> bool) (a b : jsstring) :
  a <> [] -> beginsWith p (a ++ b) = beginsWith p a.
Proof. destruct a; [congruence | reflexivity]. Qed.

Lemma endsWith_app (p : char -> bool) (a b : jsstring) :
  b <> [] -> endsWith p (a ++ b) = endsWith p b.
Proof.
  intros Hb. unfold endsWith. rewrite rev_app_distr.
  apply beginsWith_app. intros E. apply Hb.
  rewrite <- (rev_involutive b), E. reflexivity.
Qed.

Lemma trimEnd_tail (s : jsstring) : endsWith isSpace (trimEnd s) = false.
Proof.
  unfold endsWith, trimEnd. rewrite rev_involutive. apply dropWhile_head.
Qed.

Lemma trimEnd_head (s : jsstring) :
  beginsWith isSpace s = false -> beginsWith isSpace (trimEnd s) = false.
Proof.
  intros H. unfold trimEnd.
  destruct (dropWhile_suffix isSpace (rev s)) as [pre E].
  remember (dropWhile isSpace (rev s)) as d eqn:Ed. clear Ed.
  assert (Es : s = rev d ++ rev pre).
  { rewrite <- rev_app_distr, <- E, rev_involutive. reflexivity. }
  destruct (rev d) as [|c r] eqn:Er; [reflexivity|].
  rewrite Es in H. simpl in *. exact H.
Qed.

Lemma trim_head (s : jsstring) : beginsWith isSpace (trim s) = false.
Proof. apply trimEnd_head, dropWhile_head. Qed.

Lemma trim_tail (s : jsstring) : endsWith isSpace (trim s) = false.
Proof. apply trimEnd_tail. Qed.

Lemma trim_id (s : jsstring) :
  beginsWith isSpace s = false -> endsWith isSpace s = false -> trim s = s.
Proof.
  intros Hb He. unfold trim, trimStart, trimEnd.
  rewrite (dropWhile_id _ _ Hb), (dropWhile_id _ _ He).
  apply rev_involutive.
Qed.

End StringFacts.

(* ------------------------------------------------------------------ *)
(** ** Title cleaning                                                   *)
(* ------------------------------------------------------------------ *)

Section TitleFacts.
Import Title.

Lemma dropWhile_forallb (p q : char -> bool) (s : jsstring) :
  (forall c, p c = true -> q c = true) ->
  forallb q (dropWhile p s) = true -> forallb q s = true.
Proof.
  intros Hpq. induction s as [|c s IH]; simpl; [reflexivity|].
  destruct (p c) eqn:E.
  - intros H. rewrite (Hpq _ E), (IH H). reflexivity.
  - simpl. exact (fun H => H).
Qed.

Lemma forallb_endsWith (q : char -> bool) (s : jsstring) :
  s <> [] -> forallb q s = true -> endsWith q s = true.
Proof.
  intros Hs H. unfold endsWith.
  destruct (rev s) as [|c r] eqn:E.
  - exfalso. apply Hs. rewrite <- (rev_involutive s), E. reflexivity.
  - simpl. rewrite forallb_forall in H. apply H.
    apply in_rev. rewrite E. left. reflexivity.
Qed.

Lemma isHash_hashOrSpace c : isHash c = true -> hashOrSpace c = true.
Proof. unfold hashOrSpace. intros ->. reflexivity. Qed.

Lemma isSpace_hashOrSpace c : isSpace c = true -> hashOrSpace c = true.
Proof. unfold hashOrSpace. intros ->. apply orb_true_r. Qed.

Lemma matchesHashRun_ends (s : jsstring) :
  matchesHashRun s = true -> endsWith hashOrSpace s = true.
Proof.
  unfold matchesHashRun. intros H.
  apply andb_true_iff in H as [Hh Hr].
  assert (Hs : s <> []).
  { intros ->. simpl in Hh. discriminate. }
  apply forallb_endsWith; [exact Hs|].
  apply (dropWhile_forallb isSpace _ _ isSpace_hashOrSpace).
  apply (dropWhile_forallb isHash _ _ isHash_hashOrSpace).
  apply (dropWhile_forallb isSpace _ _ isSpace_hashOrSpace).
  destruct (dropWhile isSpace (dropWhile isHash (dropWhile isSpace s)));
    [reflexivity | discriminate].
Qed.

Lemma matchesSingleHash_ends (s : jsstring) :
  matchesSingleHash s = true -> endsWith hashOrSpace s = true.
Proof.
  unfold matchesSingleHash. intros H.
  assert (Hs : s <> []).
  { intros ->. simpl in H. discriminate. }
  apply forallb_endsWith; [exact Hs|].
  apply (dropWhile_forallb isSpace _ _ isSpace_hashOrSpace).
  destruct (dropWhile isSpace s) as [|c r]; [discriminate|].
  apply andb_true_iff in H as [Hc Hr]. simpl.
  rewrite (isHash_hashOrSpace _ Hc). simpl.
  apply (dropWhile_forallb isSpace _ _ isSpace_hashOrSpace).
  destruct (dropWhile isSpace r); [reflexivity | discriminate].
Qed.

Lemma cutAtSuffix_id (m : jsstring -> bool) (q : char -> bool) :
  (forall s, m s = true -> endsWith q s = true) ->
  forall s, endsWith q s = false -> cutAtSuffix m s = s.
Proof.
  intros Hm. induction s as [|c s IH]; intros He.
  - simpl. destruct (m []); reflexivity.
  - simpl. destruct (m (c :: s)) eqn:E.
    + apply Hm in E. congruence.
    + f_equal. destruct s as [|d s'].
      * simpl. destruct (m []); reflexivity.
      * apply IH. rewrite <- He.
        symmetry. apply (endsWith_app q [c]). discriminate.
Qed.

Lemma beginsWith_hashOrSpace (s : jsstring) :
  beginsWith hashOrSpace s = beginsWith isHash s || beginsWith isSpace s.
Proof. destruct s; reflexivity. Qed.

Lemma endsWith_hashOrSpace (s : jsstring) :
  endsWith hashOrSpace s = endsWith isHash s || endsWith isSpace s.
Proof. unfold endsWith. apply beginsWith_hashOrSpace. Qed.

Lemma cleanTitle_fixed (r : jsstring) :
  r <> [] -> cleanEnds r -> cleanTitle r = r.
Proof.
  intros Hr [Hb He].
  rewrite beginsWith_hashOrSpace in Hb. apply orb_false_iff in Hb as [Hbh Hbs].
  pose proof He as He'.
  rewrite endsWith_hashOrSpace in He'. apply orb_false_iff in He' as [_ Hes].
  destruct r as [|c r']; [congruence|].
  unfold cleanTitle, stripLeadingHashes. rewrite Hbh.
  rewrite (cutAtSuffix_id matchesHashRun hashOrSpace matchesHashRun_ends _ He).
  rewrite (cutAtSuffix_id matchesSingleHash hashOrSpace matchesSingleHash_ends _ He).
  apply trim_id; assumption.
Qed.

Lemma cleanTitle_no_space_ends (t : jsstring) :
  beginsWith isSpace (cleanTitle t) = false
  /\ endsWith isSpace (cleanTitle t) = false.
Proof.
  destruct t as [|c t]; [split; reflexivity|].
  unfold cleanTitle. split; [apply trim_head | apply trim_tail].
Qed.

(** C10 (as the code has it): the cleaned title never begins or ends with
    white space, and cleaning is idempotent at every title whose cleaned form
    is not empty and neither begins nor ends with [#].  One run of leading
    [#] and at most two runs of trailing [#] are removed, so a [#] can
    survive at either end. *)
Theorem cleanTitle_trimmed_and_stable (t : jsstring) :
  beginsWith isSpace (cleanTitle t) = false
  /\ endsWith isSpace (cleanTitle t) = false
  /\ (cleanTitle t <> [] ->
      beginsWith isHash (cleanTitle t) = false ->
      endsWith isHash (cleanTitle t) = false ->
      cleanTitle (cleanTitle t) = cleanTitle t).
Proof.
  destruct (cleanTitle_no_space_ends t) as [Hb He].
  repeat split; try assumption.
  intros Hne Hbh Heh. apply cleanTitle_fixed; [exact Hne|].
  split.
  - rewrite beginsWith_hashOrSpace, Hbh, Hb. reflexivity.
  - rewrite endsWith_hashOrSpace, Heh, He. reflexivity.
Qed.

Lemma cleanTitle_trimmed_and_stable_witness :
  cleanTitle (js "## Intro ##") = js "Intro"
  /\ cleanTitle (cleanTitle (js "## Intro ##")) = cleanTitle (js "## Intro ##").
Proof.
  split; [reflexivity|].
  apply (cleanTitle_trimmed_and_stable (js "## Intro ##")).
  - vm_compute. discriminate.
  - reflexivity.
  - reflexivity.
Defined.

(** C10 (as stated) fails: [cleanTitle "# #a"] is ["#a"], which begins with
    [#], and cleaning it again gives ["a"]. *)
Lemma cleanTitle_not_idempotent :
  cleanTitle (js "# #a") = js "#a"
  /\ cleanTitle (cleanTitle (js "# #a")) = js "a"
  /\ cleanTitle (cleanTitle (js "# #a")) <> cleanTitle (js "# #a")
  /\ ~ cleanEnds (cleanTitle (js "# #a")).
Proof.
  repeat split; try reflexivity.
  - vm_compute. discriminate.
  - intros [H _]. vm_compute in H. discriminate.
Qed.

End TitleFacts.

(* ------------------------------------------------------------------ *)
(** ** The stable sort                                                *)
(* ------------------------------------------------------------------ *)

Section SortFacts.
Variables (A : Type) (key : A -> nat).

Lemma insertBy_perm (x : A) (l : list A) :
  Permutation (x :: l) (insertBy key x l).
Proof.
  induction l as [|y l IH]; cbn [insertBy]; [reflexivity|].
  destruct (key x <=? key y); [reflexivity|].
  rewrite perm_swap. constructor. exact IH.
Qed.

Lemma sortBy_perm (l : list A) : Permutation l (sortBy key l).
Proof.
  induction l as [|x l IH]; cbn [sortBy fold_right]; [constructor|].
  rewrite <- insertBy_perm. constructor. exact IH.
Qed.

End SortFacts.
Arguments insertBy_perm {A} key x l.
Arguments sortBy_perm {A} key l.

(* ------------------------------------------------------------------ *)
(** ** Link discovery                                                   *)
(* ------------------------------------------------------------------ *)

Lemma str_eqb_eq (a b : jsstring) : str_eqb a b = true <-> a = b.
Proof.
  revert b. induction a as [|x a IH]; destruct b as [|y b]; simpl;
    try (split; [discriminate | congruence]); [tauto|].
  unfold ceqb. rewrite andb_true_iff, N.eqb_eq, IH.
  split; [intros [-> ->]; reflexivity | intros E; inversion E; auto].
Qed.

Section DiscoveryFacts.
Import Discovery.

Variable isValidDocumentLink : jsstring -> bool.
Variable resolveUrl : jsstring -> jsstring.

Local Abbreviation visit := (visit isValidDocumentLink resolveUrl).
Local Abbreviation collectLinks := (collectLinks isValidDocumentLink resolveUrl).
Local Abbreviation discoverAllPages := (discoverAllPages isValidDocumentLink resolveUrl).

Lemma nestingLevel_ge (ps : list Ancestor) (lvl : nat) :
  lvl <= nestingLevel lvl ps.
Proof.
  revert lvl. induction ps as [|p ps IH]; intros lvl; simpl; [lia|].
  destruct (isNavRoot p); [lia|].
  destruct (isItem p); [specialize (IH (S lvl)) | specialize (IH lvl)]; lia.
Qed.

Lemma calculateLinkLevel_range (a : Anchor) :
  1 <= calculateLinkLevel a <= 6.
Proof.
  unfold calculateLinkLevel.
  pose proof (nestingLevel_ge (ancestors a) 1).
  repeat match goal with |- context [if ?c then _ else _] => destruct c end;
    lia.
Qed.

(** What one visited anchor keeps true of the list of links. *)
Lemma visit_NoDup (links : list Link) (a : Anchor) :
  NoDup (map url links) -> NoDup (map url (visit links a)).
Proof.
  intros H. unfold Discovery.visit.
  destruct (isValidDocumentLink (href a)); [|exact H].
  destruct (existsb _ links) eqn:E; [exact H|].
  rewrite map_app. simpl.
  apply NoDup_app_remove_l with (l := []). simpl.
  apply Permutation_NoDup with (l := resolveUrl (href a) :: map url links).
  - apply Permutation_cons_append.
  - constructor; [|exact H].
    intros Hin. apply in_map_iff in Hin as [l [Hl Hin]].
    assert (existsb (fun l0 => str_eqb (url l0) (resolveUrl (href a))) links = true).
    { apply existsb_exists. exists l. split; [exact Hin|].
      apply str_eqb_eq. exact Hl. }
    congruence.
Qed.

Lemma visit_range (links : list Link) (a : Anchor) :
  Forall levelInRange links -> Forall levelInRange (visit links a).
Proof.
  intros H. unfold Discovery.visit.
  destruct (isValidDocumentLink (href a)); [|exact H].
  destruct (existsb _ links); [exact H|].
  apply Forall_app. split; [exact H|].
  constructor; [|constructor].
  unfold levelInRange. simpl. apply calculateLinkLevel_range.
Qed.

Lemma collectLinks_invariant (P : list Link -> Prop) :
  P [] -> (forall links a, P links -> P (visit links a)) ->
  forall nav, P (collectLinks nav).
Proof.
  intros H0 Hstep nav. unfold Discovery.collectLinks.
  generalize (@nil Link) H0.
  induction nav as [|navLinks nav IH]; intros acc Hacc; simpl; [exact Hacc|].
  apply IH. revert acc Hacc.
  induction navLinks as [|a navLinks IHn]; intros acc Hacc; simpl;
    [exact Hacc|].
  apply IHn, Hstep, Hacc.
Qed.

(** The sort. *)
Lemma insertByLevel_sorted (x : Link) (l : list Link) :
  StronglySorted levelLe l -> StronglySorted levelLe (insertBy level x l).
Proof.
  induction 1 as [|y l Hs IH Hy]; simpl.
  - constructor; constructor.
  - destruct (level x <=? level y) eqn:E.
    + apply Nat.leb_le in E. constructor.
      * constructor; assumption.
      * constructor; [exact E|].
        eapply Forall_impl; [|exact Hy]. unfold levelLe. intros; lia.
    + apply Nat.leb_gt in E. constructor; [exact IH|].
      apply (Permutation_Forall (insertBy_perm level x l)).
      constructor; [unfold levelLe; lia | exact Hy].
Qed.

Lemma sortByLevel_sorted (l : list Link) :
  StronglySorted levelLe (sortByLevel l).
Proof.
  induction l as [|x l IH]; simpl; [constructor|].
  apply insertByLevel_sorted, IH.
Qed.

Lemma insertByLevel_filter (k : nat) (x : Link) (l : list Link) :
  filter (atLevel k) (insertBy level x l) = filter (atLevel k) (x :: l).
Proof.
  induction l as [|y l IH]; [reflexivity|].
  cbn [insertBy].
  destruct (level x <=? level y) eqn:E; [reflexivity|].
  apply Nat.leb_gt in E.
  cbn [filter] in *. rewrite IH.
  unfold atLevel.
  destruct (level x =? k) eqn:Ex; destruct (level y =? k) eqn:Ey;
    try reflexivity.
  apply Nat.eqb_eq in Ex, Ey. lia.
Qed.

Lemma sortByLevel_filter (k : nat) (l : list Link) :
  filter (atLevel k) (sortByLevel l) = filter (atLevel k) l.
Proof.
  induction l as [|x l IH]; [reflexivity|].
  simpl sortByLevel. rewrite insertByLevel_filter.
  cbn [filter]. rewrite IH. reflexivity.
Qed.

Lemma sorted_precedes (l : list Link) (a b : Link) :
  StronglySorted levelLe l -> precedes a b l -> level a <= level b.
Proof.
  intros Hs (l1 & l2 & l3 & ->).
  induction l1 as [|c l1 IH]; simpl in Hs.
  - inversion Hs as [|? ? _ Hall]; subst.
    rewrite Forall_forall in Hall. apply Hall.
    apply in_or_app. right. left. reflexivity.
  - inversion Hs; subst. apply IH. assumption.
Qed.

Lemma precedes_filter_inv (p : Link -> bool) (l : list Link) (a b : Link) :
  precedes a b (filter p l) -> precedes a b l.
Proof.
  induction l as [|c l IH]; intros (l1 & l2 & l3 & E); simpl in E.
  - destruct l1; discriminate.
  - destruct (p c).
    + destruct l1 as [|d l1]; simpl in E; inversion E; subst.
      * assert (Hb : In b l).
        { apply (proj1 (filter_In p b l)). rewrite H1.
          apply in_or_app. right. left. reflexivity. }
        apply in_split in Hb as (m2 & m3 & ->).
        exists [], m2, m3. reflexivity.
      * destruct IH as (m1 & m2 & m3 & ->).
        { exists l1, l2, l3. assumption. }
        exists (d :: m1), m2, m3. reflexivity.
    + destruct IH as (m1 & m2 & m3 & ->).
      { exists l1, l2, l3. assumption. }
      exists (c :: m1), m2, m3. reflexivity.
Qed.

Lemma precedes_filter (p : Link -> bool) (l : list Link) (a b : Link) :
  p a = true -> p b = true -> precedes a b l -> precedes a b (filter p l).
Proof.
  intros Ha Hb (l1 & l2 & l3 & ->).
  exists (filter p l1), (filter p l2), (filter p l3).
  rewrite filter_app. cbn [filter]. rewrite Ha, filter_app.
  cbn [filter]. rewrite Hb. reflexivity.
Qed.

(** C5: the list of discovered pages holds no URL twice, and every level
    lies between 1 and 6. *)
Theorem discoverAllPages_unique_and_leveled (nav : list (list Anchor)) :
  NoDup (map url (discoverAllPages nav))
  /\ Forall (fun l => 1 <= level l <= 6) (discoverAllPages nav).
Proof.
  unfold Discovery.discoverAllPages.
  pose proof (sortBy_perm level (collectLinks nav)) as Hp.
  split.
  - apply (Permutation_NoDup (Permutation_map url Hp)).
    apply (collectLinks_invariant (fun links => NoDup (map url links)));
      [constructor | apply visit_NoDup].
  - apply (Permutation_Forall Hp).
    apply (collectLinks_invariant (Forall levelInRange));
      [constructor | apply visit_range].
Qed.

(** C6: the result holds exactly the discovered links, sorted by level
    alone: of two entries the first never has the higher level, and two
    entries of one level stand as they were discovered. *)
Theorem discoverAllPages_stable_by_level (nav : list (list Anchor)) :
  Permutation (collectLinks nav) (discoverAllPages nav)
  /\ (forall a b, precedes a b (discoverAllPages nav) -> level a <= level b)
  /\ (forall a b, precedes a b (discoverAllPages nav) ->
                  level a = level b -> precedes a b (collectLinks nav)).
Proof.
  unfold Discovery.discoverAllPages. repeat split.
  - apply (sortBy_perm level).
  - intros a b. apply sorted_precedes, sortByLevel_sorted.
  - intros a b Hab Hl.
    apply (precedes_filter_inv (atLevel (level a))).
    rewrite <- sortByLevel_filter.
    apply precedes_filter; [apply Nat.eqb_refl | | exact Hab].
    unfold atLevel. rewrite Hl. apply Nat.eqb_refl.
Qed.

End DiscoveryFacts.

(** On the sample site the set-up page is found first and listed last. *)
Lemma discoverAllPages_stable_by_level_witness :
  map Discovery.url (Generator.discoverAllPages Sample.healthySite)
  = [Sample.seedUrl; Sample.setupUrl]
  /\ Discovery.level (hd Sample.introLink
                        (Generator.discoverAllPages Sample.healthySite))
     <= Discovery.level (last (Generator.discoverAllPages Sample.healthySite)
                              Sample.introLink).
Proof.
  split; [reflexivity |].
  destruct (discoverAllPages_stable_by_level
              Discovery.isValidDocumentLink
              (Generator.resolveUrl Sample.healthySite) Sample.menu)
    as (_ & Hle & _).
  apply Hle. exists [], [], []. reflexivity.
Defined.

(* ------------------------------------------------------------------ *)
(** ** Fetching pages                                                   *)
(* ------------------------------------------------------------------ *)

Section FetchFacts.
Import Discovery Fetch.

Variable host : Host.

(** The [catch] block of [fetchPageViaBackground] is never entered: the
    promise leaves the [try] block before it settles. *)
Lemma fetchPageViaBackground_adopts (i : nat) (u : jsstring) :
  fetchPageViaBackground host i u = backgroundPromise host i u.
Proof. reflexivity. Qed.

(** C1 (what the code does where the claim fails): for a page other than
    the seed page, when the direct fetch fails (the request is refused, the
    status is not a success, or the body cannot be read) and the promise of
    the background proxy is rejected, the promise of [fetchPageContent] is
    rejected with the error of the proxy; no placeholder is produced. *)
Theorem fetchPageContent_rejects_when_both_fetches_fail
        (i : nat) (u : jsstring) (e : Error) :
  str_eqb u (locationHref host) = false ->
  (forall r, fetchNet host i u = Fulfilled r ->
             ok r = false \/ exists e', text r = Rejected e') ->
  backgroundPromise host i u = Rejected e ->
  fetchPageContent host i u = Rejected e.
Proof.
  intros Hu Hn Hb. unfold fetchPageContent, fetchPageViaFetch.
  rewrite Hu, fetchPageViaBackground_adopts, Hb.
  destruct (fetchNet host i u) as [r|e0]; [|reflexivity].
  destruct (Hn r eq_refl) as [Hok|[e' Ht]]; cbn.
  - rewrite Hok. reflexivity.
  - rewrite Ht. destruct (ok r); reflexivity.
Qed.

(** One turn of the batch loop always yields an entry. *)
Lemma fetchStep_value (i : nat) (l : Link) :
  exists e, fetchStep host i l = Value e
            /\ link e = l /\ index e = i
            /\ (fetchFailed host i l -> textLength (content e) = 0)
            /\ (forall c, fetchPageContent host i (url l) = Fulfilled c ->
                          0 < textLength c -> content e = c).
Proof.
  unfold fetchStep, fetchFailed.
  destruct (fetchPageContent host i (url l)) as [c|err]; simpl.
  - destruct (0 <? textLength c) eqn:E.
    + eexists; repeat split; simpl.
      * intros H. apply Nat.ltb_lt in E. lia.
      * intros c' Hc _. congruence.
    + eexists; repeat split; simpl.
      intros c' Hc Hpos. inversion Hc; subst.
      apply Nat.ltb_ge in E. lia.
  - eexists; repeat split; simpl. intros c Hc. discriminate.
Qed.

(** The loop asks for every page, in the order of the list. *)
Lemma requestedBy_all (links : list Link) (i : nat) :
  requestedBy host i links = map url links.
Proof.
  revert i. induction links as [|l links IH]; intros i; [reflexivity|].
  cbn [requestedBy map]. destruct (fetchStep_value i l) as (e & -> & _).
  rewrite IH. reflexivity.
Qed.

Lemma batchLoop_value (links : list Link) :
  forall (i : nat) (acc : list Entry),
  exists es, batchLoop host i links acc = Value (acc ++ es)
             /\ map link es = links
             /\ map index es = seq i (length links)
             /\ (forall k e, nth_error es k = Some e ->
                   fetchFailed host (i + k) (link e) ->
                   textLength (content e) = 0)
             /\ (forall k e c, nth_error es k = Some e ->
                   fetchPageContent host (i + k) (url (link e)) = Fulfilled c ->
                   0 < textLength c -> content e = c).
Proof.
  induction links as [|l links IH]; intros i acc; simpl.
  - exists []. rewrite app_nil_r. repeat split; intros k e; destruct k; discriminate.
  - destruct (fetchStep_value i l) as (e & -> & Hl & Hi & Hf & Hc).
    destruct (IH (S i) (acc ++ [e])) as (es & -> & Hls & His & Hfs & Hcs).
    exists (e :: es). rewrite <- app_assoc. simpl. repeat split.
    + congruence.
    + congruence.
    + intros [|k] e'; simpl; intros He'.
      * inversion He'; subst. rewrite Nat.add_0_r. exact Hf.
      * rewrite Nat.add_succ_r. apply (Hfs k e' He').
    + intros [|k] e' c; simpl; intros He'.
      * inversion He'; subst. rewrite Nat.add_0_r. apply Hc.
      * rewrite Nat.add_succ_r. apply (Hcs k e' c He').
Qed.

Lemma batchFetchPages_settles (links : list Link) :
  exists contents, batchFetchPages host links = Fulfilled contents.
Proof.
  destruct (batchLoop_value links 0 []) as (es & E & _).
  exists es. unfold batchFetchPages. rewrite E. reflexivity.
Qed.

(** C3: [batchFetchPages] settles with one entry per link, in the order of
    the links; an entry whose fetch failed or came back empty carries a
    placeholder of text length 0, every other entry the fetched content. *)
Theorem batchFetchPages_keeps_every_page (links : list Link) :
  exists contents,
    batchFetchPages host links = Fulfilled contents
    /\ length contents = length links
    /\ map link contents = links
    /\ map index contents = seq 0 (length links)
    /\ (forall k e, nth_error contents k = Some e ->
          fetchFailed host k (link e) -> textLength (content e) = 0)
    /\ (forall k e c, nth_error contents k = Some e ->
          fetchPageContent host k (url (link e)) = Fulfilled c ->
          0 < textLength c -> content e = c).
Proof.
  destruct (batchLoop_value links 0 []) as (es & E & Hl & Hi & Hf & Hc).
  exists es. unfold batchFetchPages. rewrite E. simpl.
  repeat split; try assumption.
  rewrite <- Hl. symmetry. apply length_map.
Qed.

End FetchFacts.

Lemma fetchPageContent_rejects_when_both_fetches_fail_witness :
  Fetch.fetchPageContent Sample.offlineHost 1 Sample.setupUrl
  = Rejected (mkError (js "HTTP 404")).
Proof.
  apply (fetchPageContent_rejects_when_both_fetches_fail Sample.offlineHost).
  - reflexivity.
  - intros r H. discriminate.
  - reflexivity.
Defined.

(** Offline, the second of two pages fails and is kept with an empty
    placeholder. *)
Lemma batchFetchPages_keeps_every_page_witness :
  exists contents,
    Fetch.batchFetchPages Sample.offlineHost
                          [Sample.introLink; Sample.setupLink]
    = Fulfilled contents
    /\ List.length contents = 2
    /\ (forall e, nth_error contents 1 = Some e ->
                  Fetch.link e = Sample.setupLink
                  /\ Fetch.textLength (Fetch.content e) = 0).
Proof.
  destruct (batchFetchPages_keeps_every_page
              Sample.offlineHost [Sample.introLink; Sample.setupLink])
    as (contents & H & Hlen & Hlink & _ & Hf & _).
  exists contents. split; [exact H | split; [exact Hlen |]].
  intros e He.
  assert (Hl : Fetch.link e = Sample.setupLink).
  { pose proof (map_nth_error Fetch.link 1 contents He) as Hn.
    rewrite Hlink in Hn. cbn in Hn. congruence. }
  split; [exact Hl |].
  apply (Hf 1 e He). rewrite Hl. exact I.
Defined.

(* ------------------------------------------------------------------ *)
(** ** The Markdown converter                                           *)
(* ------------------------------------------------------------------ *)

Section MarkdownFacts.
Import Markdown.

(** The state handed to a list item of an [OL] does not depend on the
    items before it: the counter is advanced in the copy made for the item
    and the copy is dropped. *)
Lemma childListState_item (listState : ListState) (attrs : list (jsstring * jsstring))
      (h : bool) (children : list Node) :
  lsIndex (childListState (js "OL") listState
                          (Element (js "LI") attrs h children))
  = Some (match lsStart listState with Some (S n) => S n | _ => 1 end).
Proof. reflexivity. Qed.

(** C7 (the code at the fragment of the claim): the two items of
    [<ol><li>one</li><li>two</li></ol>] are both numbered 1, and the list
    ends with the blank line of a block. *)
Theorem orderedList_items_all_numbered_one (parseBody : jsstring -> Node) :
  parseBody Sample.orderedListHtml = Sample.orderedListBody ->
  htmlToMarkdown parseBody Sample.orderedListHtml
  = js "1. one" ++ [LF] ++ js "1. two" ++ [LF; LF].
Proof.
  intros H. unfold htmlToMarkdown. rewrite H. vm_compute. reflexivity.
Qed.

Lemma orderedList_items_all_numbered_one_witness :
  htmlToMarkdown (Sample.parseSample Sample.setupBody) Sample.orderedListHtml
  = js "1. one" ++ [LF] ++ js "1. two" ++ [LF; LF].
Proof.
  apply (orderedList_items_all_numbered_one
           (Sample.parseSample Sample.setupBody)).
  reflexivity.
Defined.

End MarkdownFacts.

(* ------------------------------------------------------------------ *)
(** ** The errors of a generation call                                  *)
(* ------------------------------------------------------------------ *)

Section GeneratorFacts.
Import Discovery Fetch Images Generator.

Lemma downloadMarkdownWithImages_cases (w : World) (st : State)
      (md t : jsstring) (imgs : list ImageInfo) :
  match zipResult (imageHost w) with
  | Fulfilled _ =>
      exists a, downloadMarkdownWithImages w st md t imgs = Value a
  | Rejected e =>
      downloadMarkdownWithImages w st md t imgs
      = Throw (mkError (js "打包失败: " ++ message e))
  end.
Proof.
  unfold downloadMarkdownWithImages.
  destruct (zipResult (imageHost w)) as [u|e]; simpl.
  - eexists. reflexivity.
  - reflexivity.
Qed.

End GeneratorFacts.

(* ------------------------------------------------------------------ *)
(** ** Image file names                                                 *)
(* ------------------------------------------------------------------ *)

Section FileNameFacts.
Import Images.

Lemma toInt32_range (z : Z) :
  (- 2147483648 <= toInt32 z < 2147483648)%Z.
Proof.
  unfold toInt32.
  pose proof (Z.mod_pos_bound (z + 2147483648) 4294967296 eq_refl). lia.
Qed.

Lemma urlHash_range (u : jsstring) :
  (- 2147483648 <= urlHash u < 2147483648)%Z.
Proof.
  unfold urlHash.
  assert (H : forall h, (- 2147483648 <= h < 2147483648)%Z ->
                        (- 2147483648 <= fold_left hashStep u h < 2147483648)%Z).
  { induction u as [|c u IH]; intros h Hh; simpl; [exact Hh|].
    apply IH. apply toInt32_range. }
  apply H. lia.
Qed.

Lemma hexDigit_hex (d : N) : (d < 16)%N -> isHexDigit (hexDigit d) = true.
Proof.
  intros H. unfold hexDigit, isHexDigit.
  destruct (d <? 10)%N eqn:E.
  - apply N.ltb_lt in E. apply orb_true_iff. left.
    apply andb_true_iff. split; apply N.leb_le; lia.
  - apply N.ltb_ge in E. apply orb_true_iff. right.
    apply andb_true_iff. split; apply N.leb_le; lia.
Qed.

Lemma hexFrom_hex (fuel : nat) (n : N) :
  forallb isHexDigit (hexFrom fuel n) = true.
Proof.
  revert n. induction fuel as [|fuel IH]; intros n; simpl; [reflexivity|].
  destruct (n <? 16)%N eqn:E.
  - apply N.ltb_lt in E. simpl. rewrite (hexDigit_hex n E). reflexivity.
  - rewrite forallb_app, IH. simpl.
    rewrite hexDigit_hex; [reflexivity|].
    apply N.mod_lt. discriminate.
Qed.

Lemma hexFrom_length (fuel : nat) :
  forall (n : N) (k : nat),
    (n < 16 ^ N.of_nat (S k))%N -> List.length (hexFrom fuel n) <= S k.
Proof.
  induction fuel as [|fuel IH]; intros n k Hn; simpl; [lia|].
  destruct (n <? 16)%N eqn:E; simpl; [lia|].
  apply N.ltb_ge in E.
  rewrite length_app. simpl.
  destruct k as [|k].
  - change (16 ^ N.of_nat 1)%N with 16%N in Hn. lia.
  - specialize (IH (n / 16)%N k).
    assert (Hd : (n / 16 < 16 ^ N.of_nat (S k))%N).
    { apply N.Div0.div_lt_upper_bound.
      replace (16 * 16 ^ N.of_nat (S k))%N with (16 ^ N.of_nat (S (S k)))%N;
        [exact Hn|].
      rewrite (Nat2N.inj_succ (S k)), N.pow_succ_r'. reflexivity. }
    specialize (IH Hd). lia.
Qed.

Lemma padStart_length (n : nat) (s : jsstring) :
  List.length s <= n -> List.length (padStart n s) = n.
Proof.
  intros H. unfold padStart. rewrite length_app, repeat_length. lia.
Qed.

Lemma padStart_hex (n : nat) (s : jsstring) :
  forallb isHexDigit s = true -> forallb isHexDigit (padStart n s) = true.
Proof.
  intros H. unfold padStart. rewrite forallb_app, H, andb_true_r.
  induction (n - List.length s) as [|m IH]; simpl; [reflexivity | exact IH].
Qed.

Lemma hashHex_shape (u : jsstring) :
  List.length (hashHex u) = 8 /\ forallb isHexDigit (hashHex u) = true.
Proof.
  unfold hashHex, toHex. split.
  - apply padStart_length. apply (hexFrom_length _ _ 7).
    pose proof (urlHash_range u).
    change (16 ^ N.of_nat 8)%N with 4294967296%N. lia.
  - apply padStart_hex, hexFrom_hex.
Qed.

(** The hash loop computes the polynomial in base 31, wrapped to 32
    bits. *)
Lemma toInt32_congruent (z : Z) :
  exists k, toInt32 z = (z + k * 4294967296)%Z.
Proof.
  unfold toInt32. exists (- ((z + 2147483648) / 4294967296))%Z.
  pose proof (Z.div_mod (z + 2147483648) 4294967296). lia.
Qed.

Lemma toInt32_shift (z k : Z) : toInt32 (z + k * 4294967296) = toInt32 z.
Proof.
  unfold toInt32.
  replace (z + k * 4294967296 + 2147483648)%Z
    with (z + 2147483648 + k * 4294967296)%Z by lia.
  rewrite Z.mod_add by discriminate. reflexivity.
Qed.

Lemma hashStep_linear (h : Z) (c : char) :
  hashStep h c = toInt32 (31 * h + Z.of_N c).
Proof.
  unfold hashStep. destruct (toInt32_congruent (h * 32)) as [k ->].
  replace (h * 32 + k * 4294967296 - h + Z.of_N c)%Z
    with (31 * h + Z.of_N c + k * 4294967296)%Z by lia.
  apply toInt32_shift.
Qed.

Lemma toInt32_id (z : Z) :
  (- 2147483648 <= z < 2147483648)%Z -> toInt32 z = z.
Proof.
  intros H. unfold toInt32. rewrite Z.mod_small by lia. lia.
Qed.

Lemma hashLoop_polynomial (u : jsstring) :
  forall h,
    (- 2147483648 <= h < 2147483648)%Z ->
    fold_left hashStep u h
    = toInt32 (h * 31 ^ Z.of_nat (List.length u) + polynomial31 u).
Proof.
  induction u as [|c u IH]; intros h Hh.
  - cbn [fold_left List.length polynomial31].
    change (31 ^ Z.of_nat 0)%Z with 1%Z.
    replace (h * 1 + 0)%Z with h by lia.
    symmetry. apply toInt32_id, Hh.
  - cbn [fold_left List.length polynomial31].
    rewrite IH by (rewrite hashStep_linear; apply toInt32_range).
    rewrite hashStep_linear.
    destruct (toInt32_congruent (31 * h + Z.of_N c)) as [k ->].
    rewrite Nat2Z.inj_succ, Z.pow_succ_r by lia.
    replace ((31 * h + Z.of_N c + k * 4294967296)
             * 31 ^ Z.of_nat (List.length u) + polynomial31 u)%Z
      with (h * (31 * 31 ^ Z.of_nat (List.length u))
            + (Z.of_N c * 31 ^ Z.of_nat (List.length u) + polynomial31 u)
            + (k * 31 ^ Z.of_nat (List.length u)) * 4294967296)%Z by ring.
    apply toInt32_shift.
Qed.

Lemma urlHash_polynomial (u : jsstring) :
  urlHash u = toInt32 (polynomial31 u).
Proof.
  unfold urlHash. rewrite hashLoop_polynomial by lia. reflexivity.
Qed.

(** The digits that [toString(16)] writes denote the number, and so do
    the padded digits. *)
Lemma hexValue_app (a b : jsstring) (n : N) :
  fold_left (fun n c => (n * 16 + hexDigitValue c)%N) (a ++ b) n
  = fold_left (fun n c => (n * 16 + hexDigitValue c)%N) b
              (fold_left (fun n c => (n * 16 + hexDigitValue c)%N) a n).
Proof. apply fold_left_app. Qed.

Lemma hexDigit_value (d : N) : (d < 16)%N -> hexDigitValue (hexDigit d) = d.
Proof.
  intros H. unfold hexDigit, hexDigitValue.
  destruct (d <? 10)%N eqn:E.
  - apply N.ltb_lt in E.
    destruct (48 + d <? 58)%N eqn:E2; [lia|]. apply N.ltb_ge in E2. lia.
  - apply N.ltb_ge in E.
    destruct (87 + d <? 58)%N eqn:E2; [apply N.ltb_lt in E2; lia | lia].
Qed.

Lemma hexFrom_value (fuel : nat) :
  forall n, (n < 16 ^ N.of_nat fuel)%N -> hexValue (hexFrom fuel n) = n.
Proof.
  unfold hexValue.
  induction fuel as [|fuel IH]; intros n Hn.
  - change (16 ^ N.of_nat 0)%N with 1%N in Hn.
    assert (n = 0%N) by lia. subst n. reflexivity.
  - cbn [hexFrom]. destruct (n <? 16)%N eqn:E.
    + apply N.ltb_lt in E. cbn [fold_left].
      rewrite (hexDigit_value n E). lia.
    + apply N.ltb_ge in E. rewrite hexValue_app, IH.
      * cbn [fold_left]. rewrite hexDigit_value by (apply N.mod_lt; discriminate).
        pose proof (N.div_mod n 16). lia.
      * apply N.Div0.div_lt_upper_bound.
        rewrite Nat2N.inj_succ, N.pow_succ_r' in Hn. exact Hn.
Qed.

Lemma toHex_value (n : N) : hexValue (toHex n) = n.
Proof.
  unfold toHex. apply hexFrom_value.
  destruct n as [|p]; [reflexivity|].
  pose proof (N.log2_spec (N.pos p) eq_refl) as [_ H].
  eapply N.lt_le_trans; [exact H|].
  rewrite Nat2N.inj_succ, N2Nat.id.
  rewrite <- N.add_1_r.
  generalize (N.log2 (N.pos p) + 1)%N as k. intros k.
  change 16%N with (2 ^ 4)%N. rewrite <- N.pow_mul_r.
  apply N.pow_le_mono_r; lia.
Qed.

Lemma padStart_value (n : nat) (s : jsstring) :
  hexValue (padStart n s) = hexValue s.
Proof.
  unfold padStart, hexValue. rewrite hexValue_app. f_equal.
  induction (n - List.length s) as [|m IH]; [reflexivity|].
  cbn [repeat fold_left]. exact IH.
Qed.

Lemma hashHex_value (u : jsstring) :
  hexValue (hashHex u) = Z.to_N (Z.abs (urlHash u)).
Proof.
  unfold hashHex. rewrite padStart_value. apply toHex_value.
Qed.

(** The decimal digits of a counter. *)
Lemma string_of_uint_digits (d : Decimal.uint) :
  forallb isDigit (ofAscii (NilEmpty.string_of_uint d)) = true.
Proof.
  induction d; simpl; try reflexivity; exact IHd.
Qed.

Lemma numberToString_digits (n : nat) :
  forallb isDigit (numberToString n) = true.
Proof. apply string_of_uint_digits. Qed.

Lemma ofAscii_inj (a b : string) : ofAscii a = ofAscii b -> a = b.
Proof.
  unfold ofAscii. intros H.
  rewrite <- (string_of_list_ascii_of_string a),
          <- (string_of_list_ascii_of_string b).
  f_equal.
  revert H. generalize (list_ascii_of_string b).
  induction (list_ascii_of_string a) as [|x l IH]; intros [|y l'] H;
    simpl in H; try discriminate; [reflexivity|].
  inversion H as [[Hx Hl]].
  f_equal; [|apply IH; exact Hl].
  rewrite <- (ascii_N_embedding x), <- (ascii_N_embedding y), Hx.
  reflexivity.
Qed.

Lemma numberToString_inj (n m : nat) :
  numberToString n = numberToString m -> n = m.
Proof.
  unfold numberToString. intros H. apply ofAscii_inj in H.
  apply Unsigned.to_uint_inj.
  assert (E : NilEmpty.uint_of_string (NilEmpty.string_of_uint (Nat.to_uint n))
              = NilEmpty.uint_of_string (NilEmpty.string_of_uint (Nat.to_uint m)))
    by (rewrite H; reflexivity).
  rewrite !NilEmpty.usu in E. congruence.
Qed.

Lemma takeWhile_app (p : char -> bool) (a b : jsstring) :
  forallb p a = true -> beginsWith p b = false -> takeWhile p (a ++ b) = a.
Proof.
  intros Ha Hb. induction a as [|c a IH].
  - destruct b as [|d b]; simpl in *; [reflexivity|].
    rewrite Hb. reflexivity.
  - simpl in *. apply andb_true_iff in Ha as [Hc Ha].
    rewrite Hc, (IH Ha). reflexivity.
Qed.

(** Two file names with different counters differ. *)
Lemma imageFileName_counter (k1 k2 : nat) (u1 u2 e1 e2 : jsstring) :
  imageFileName k1 u1 e1 = imageFileName k2 u2 e2 -> k1 = k2.
Proof.
  unfold imageFileName. intros H.
  apply (app_inv_head (js "img_")) in H.
  apply numberToString_inj.
  rewrite <- (takeWhile_app isDigit (numberToString k1)
                (js "_" ++ hashHex u1 ++ js "." ++ e1)
                (numberToString_digits k1) eq_refl).
  rewrite <- (takeWhile_app isDigit (numberToString k2)
                (js "_" ++ hashHex u2 ++ js "." ++ e2)
                (numberToString_digits k2) eq_refl).
  rewrite H. reflexivity.
Qed.

End FileNameFacts.

(* ------------------------------------------------------------------ *)
(** ** The download of the images                                       *)
(* ------------------------------------------------------------------ *)

Section DownloadFacts.
Import Markdown Images.

Variable host : ImageHost.

Lemma extensionOfType_known (ct : jsstring) :
  In (extensionOfType ct)
     [js "jpg"; js "jpeg"; js "png"; js "gif"; js "webp"; js "svg"].
Proof.
  unfold extensionOfType.
  repeat match goal with |- context [if ?c then _ else _] => destruct c end;
    simpl; tauto.
Qed.

Lemma extensionOfPath_known (path ext : jsstring) :
  extensionOfPath path = Some ext ->
  In ext [js "jpg"; js "jpeg"; js "png"; js "gif"; js "webp"; js "svg"].
Proof.
  unfold extensionOfPath. intros H. apply find_some in H. tauto.
Qed.

Lemma downloadImageAsBlob_extension (u : jsstring) (b : Blob) (ext : jsstring) :
  downloadImageAsBlob host u = Some (b, ext) ->
  In ext [js "jpg"; js "jpeg"; js "png"; js "gif"; js "webp"; js "svg"].
Proof.
  unfold downloadImageAsBlob.
  destruct (fetchImage host u) as [response|e]; simpl; [|discriminate].
  destruct (imgOk response); simpl; [|discriminate].
  destruct (imgBlob response) as [b0|e]; simpl; [|discriminate].
  destruct (contentType response) as [|c ct] eqn:Ect.
  - destruct u as [|c0 u0].
    + intros H. inversion H; subst. apply extensionOfType_known.
    + destruct (pathnameOf host (c0 :: u0)) as [path|]; simpl; [|discriminate].
      destruct (extensionOfPath path) as [e|] eqn:Ep; simpl; intros H;
        inversion H; subst.
      * eapply extensionOfPath_known, Ep.
      * apply extensionOfType_known.
  - intros H. inversion H; subst. apply extensionOfType_known.
Qed.

(** What the end of one download does to the fields. *)
Lemma finishDownload_failure (st : State) (u : jsstring) :
  downloads host u = false ->
  finishDownload host st u = (st, Failure u (js "下载失败")).
Proof.
  unfold downloads, finishDownload.
  destruct (downloadImageAsBlob host u) as [[b ext]|]; [discriminate|].
  reflexivity.
Qed.

Lemma finishDownload_success (st : State) (u : jsstring) :
  downloads host u = true ->
  exists info,
    finishDownload host st u
    = (mkState (mapSet u info (imageMap st)) (S (imageCounter st))
               (failedImages st) (attempts st),
       Success info)
    /\ named (S (imageCounter st)) (u, info) (S (imageCounter st)).
Proof.
  unfold downloads, finishDownload.
  destruct (downloadImageAsBlob host u) as [[b ext]|] eqn:E; [|discriminate].
  intros _. eexists. split; [reflexivity|].
  unfold named. simpl. repeat split; try lia.
  exists ext. split; [reflexivity|].
  eapply downloadImageAsBlob_extension, E.
Qed.

Lemma named_mono (c c' : nat) (e : jsstring * ImageInfo) (k : nat) :
  c <= c' -> named c e k -> named c' e k.
Proof. unfold named. intros Hc (Hk & H). split; [lia | exact H]. Qed.

(** [imageMap.set] keeps the entries named apart when the new entry is
    named with a counter value above all the others. *)
Lemma mapSet_named (c : nat) (u : jsstring) (info : ImageInfo)
      (m : list (jsstring * ImageInfo)) (ks : list nat) :
  Forall2 (named c) m ks -> NoDup ks ->
  named (S c) (u, info) (S c) ->
  exists ks', Forall2 (named (S c)) (mapSet u info m) ks' /\ NoDup ks'.
Proof.
  intros Hm Hnd Hnew.
  assert (Hle : forall k, In k ks -> k <= c).
  { clear Hnd. induction Hm as [|e k m ks He _ IH]; intros k' [].
    - subst. destruct He as (? & _). lia.
    - auto. }
  assert (G : exists ks', Forall2 (named (S c)) (mapSet u info m) ks'
                          /\ NoDup ks'
                          /\ (forall k, In k ks' -> In k ks \/ k = S c)
                          /\ (In (S c) ks' \/ ks' = ks /\ False \/ True)).
  { clear Hle. induction Hm as [|[k0 v0] k m ks He Hm IH]; simpl.
    - exists [S c]. repeat split.
      + constructor; [exact Hnew | constructor].
      + constructor; [intros [] | constructor].
      + intros k [<-|[]]. right. reflexivity.
      + left. left. reflexivity.
    - inversion Hnd as [|? ? Hk Hks]; subst.
      destruct (str_eqb k0 u) eqn:E.
      + apply str_eqb_eq in E. subst k0.
        exists (S c :: ks). repeat split.
        * constructor.
          -- destruct Hnew as (H1 & H2 & H3 & H4).
             unfold named. simpl in *. auto.
          -- eapply Forall2_impl; [|exact Hm].
             intros e k'. apply named_mono. lia.
        * constructor; [|exact Hks].
          intros Hin.
          assert (Hall : forall k', In k' ks -> k' <= c).
          { clear -Hm. induction Hm as [|e k' m ks He _ IH]; intros k'' [].
            - subst. destruct He as (? & _). lia.
            - auto. }
          specialize (Hall _ Hin). lia.
        * intros k' [<-|Hin]; [right; reflexivity | left; right; exact Hin].
        * left. left. reflexivity.
      + destruct (IH Hks) as (ks' & HF & HN & Hsub & _).
        exists (k :: ks'). repeat split.
        * constructor; [|exact HF].
          apply (named_mono c); [lia | exact He].
        * constructor; [|exact HN].
          intros Hin. destruct (Hsub _ Hin) as [Hin' | ->]; [contradiction|].
          destruct He as (? & _). lia.
        * intros k' [<-|Hin]; [left; left; reflexivity|].
          destruct (Hsub _ Hin); [left; right; assumption | right; assumption].
        * right. right. exact I. }
  destruct G as (ks' & HF & HN & _). exists ks'. split; assumption.
Qed.

Lemma finishDownload_names (st : State) (u : jsstring) :
  namesDistinct st ->
  namesDistinct (fst (finishDownload host st u))
  /\ imageCounter st <= imageCounter (fst (finishDownload host st u)).
Proof.
  intros (ks & HF & HN).
  destruct (downloads host u) eqn:E.
  - destruct (finishDownload_success st u E) as (info & -> & Hnew).
    simpl. split; [|lia].
    destruct (mapSet_named _ _ _ _ _ HF HN Hnew) as (ks' & HF' & HN').
    exists ks'. split; assumption.
  - rewrite (finishDownload_failure st u E). simpl.
    split; [exists ks; split; assumption | lia].
Qed.

Lemma settleAll_names (pending : list (nat * jsstring)) (st : State) :
  namesDistinct st -> namesDistinct (fst (settleAll host st pending)).
Proof.
  revert st. induction pending as [|[pos u] rest IH]; intros st H; simpl;
    [exact H|].
  pose proof (finishDownload_names st u H) as [H1 _].
  destruct (finishDownload host st u) as [st1 r]. simpl in H1.
  specialize (IH st1 H1).
  destruct (settleAll host st1 rest) as [st2 rs]. exact IH.
Qed.

Lemma runBatch_names (pageTitle : jsstring) (st : State) (batch : list jsstring)
      (dl : list ImageInfo) :
  namesDistinct st -> namesDistinct (fst (runBatch host pageTitle st batch dl)).
Proof.
  intros H. unfold runBatch.
  match goal with |- context [settleAll host ?s ?p] =>
    pose proof (settleAll_names p s H) as H1;
    destruct (settleAll host s p) as [st1 rs] end.
  destruct (collectResults _ _ _ _ _ _) as [dl' failed']. exact H1.
Qed.

Lemma batchesFrom_step (fuel : nat) (pageTitle : jsstring) (st : State)
      (u : jsstring) (urls : list jsstring) (dl : list ImageInfo) :
  batchesFrom host (S fuel) pageTitle st (u :: urls) dl
  = batchesFrom host fuel pageTitle
      (fst (runBatch host pageTitle st (firstn BATCH_SIZE (u :: urls)) dl))
      (skipn BATCH_SIZE (u :: urls))
      (snd (runBatch host pageTitle st (firstn BATCH_SIZE (u :: urls)) dl)).
Proof.
  cbn [batchesFrom].
  destruct (runBatch host pageTitle st (firstn BATCH_SIZE (u :: urls)) dl).
  reflexivity.
Qed.

Lemma batchesFrom_names (fuel : nat) :
  forall (pageTitle : jsstring) (st : State) (urls : list jsstring)
         (dl : list ImageInfo),
    namesDistinct st ->
    namesDistinct (fst (batchesFrom host fuel pageTitle st urls dl)).
Proof.
  induction fuel as [|fuel IH]; intros pageTitle st urls dl H.
  - destruct urls; exact H.
  - destruct urls as [|u urls]; [exact H|].
    rewrite batchesFrom_step. apply IH, runBatch_names, H.
Qed.

Lemma namesDistinct_fresh : namesDistinct freshState.
Proof. exists []. split; constructor. Qed.

Lemma namesDistinct_fileNames (st : State) :
  namesDistinct st -> NoDup (map (fun e => fileName (snd e)) (imageMap st)).
Proof.
  intros (ks & HF & HN).
  induction HF as [|e k m ks He HF IH]; simpl; [constructor|].
  inversion HN as [|? ? Hk Hks]; subst.
  constructor; [|apply IH; exact Hks].
  intros Hin. apply in_map_iff in Hin as (e' & Hname & Hin).
  apply Hk.
  assert (Hk' : exists k', In k' ks /\ named (imageCounter st) e' k').
  { clear -HF Hin. induction HF as [|e0 k0 m ks He0 _ IH]; [destruct Hin|].
    destruct Hin as [<-|Hin].
    - exists k0. split; [left; reflexivity | exact He0].
    - destruct (IH Hin) as (k' & ? & ?). exists k'. split; [right|]; assumption. }
  destruct Hk' as (k' & Hin' & (_ & _ & _ & ext' & Hn' & _)).
  destruct He as (_ & _ & _ & ext & Hn & _).
  rewrite Hn, Hn' in Hname.
  apply imageFileName_counter in Hname. subst. exact Hin'.
Qed.

End DownloadFacts.

(** C8: a generated file name is [img_], the new value of the counter, [_],
    eight hexadecimal digits, a dot and the extension.  The eight digits
    are computed from the URL: they denote the absolute value of the hash,
    and the hash is the signed 32-bit integer congruent to the code units
    of the URL read as a number in base 31.  Every call advances the
    counter by one, names built from different counter values differ, and
    after the downloads of a run the file names held in [imageMap] are
    pairwise distinct. *)
Theorem imageFileName_form_and_distinct :
  (forall st u ext,
      Images.imageCounter (fst (Images.generateImageFileName st u ext))
      = S (Images.imageCounter st)
      /\ snd (Images.generateImageFileName st u ext)
         = js "img_" ++ numberToString (S (Images.imageCounter st)) ++ js "_"
           ++ Images.hashHex u ++ js "." ++ ext
      /\ List.length (Images.hashHex u) = 8
      /\ forallb isHexDigit (Images.hashHex u) = true
      /\ Images.urlHash u = toInt32 (Images.polynomial31 u)
      /\ Images.hexValue (Images.hashHex u)
         = Z.to_N (Z.abs (toInt32 (Images.polynomial31 u))))
  /\ (forall k1 k2 u1 u2 e1 e2,
         k1 <> k2 -> Images.imageFileName k1 u1 e1 <> Images.imageFileName k2 u2 e2)
  /\ (forall host urls,
         Images.namesDistinct
           (fst (Images.batchDownloadImages host Images.freshState urls))
         /\ NoDup (map (fun e => Images.fileName (snd e))
                       (Images.imageMap
                          (fst (Images.batchDownloadImages
                                  host Images.freshState urls))))).
Proof.
  repeat split.
  - apply hashHex_shape.
  - apply hashHex_shape.
  - apply urlHash_polynomial.
  - rewrite hashHex_value, urlHash_polynomial. reflexivity.
  - intros k1 k2 u1 u2 e1 e2 Hk H. apply Hk.
    eapply imageFileName_counter, H.
  - apply batchesFrom_names, namesDistinct_fresh.
  - apply namesDistinct_fileNames, batchesFrom_names, namesDistinct_fresh.
Qed.

Lemma imageFileName_form_and_distinct_witness :
  snd (Images.generateImageFileName Images.freshState Sample.logoUrl (js "png"))
  = js "img_1_7ac45165.png"
  /\ Images.hexValue (js "7ac45165")
     = Z.to_N (Z.abs (toInt32 (Images.polynomial31 Sample.logoUrl)))
  /\ Images.imageFileName 1 Sample.logoUrl (js "png")
     <> Images.imageFileName 2 Sample.logoUrl (js "png").
Proof.
  destruct imageFileName_form_and_distinct as (Hname & Hd & _).
  destruct (Hname Images.freshState Sample.logoUrl (js "png"))
    as (_ & Hn & _ & _ & _ & Hv).
  split; [|split].
  - rewrite Hn. vm_compute. reflexivity.
  - rewrite <- Hv. vm_compute. reflexivity.
  - apply Hd. discriminate.
Defined.

(* ------------------------------------------------------------------ *)
(** ** Rewriting the image paths                                        *)
(* ------------------------------------------------------------------ *)

Section RewriteFacts.
Import Images.

Lemma no_app (c : char) (a b : jsstring) : no c (a ++ b) = no c a && no c b.
Proof. apply forallb_app. Qed.

Lemma no_cons (c d : char) (s : jsstring) :
  no c (d :: s) = negb (ceqb d c) && no c s.
Proof. reflexivity. Qed.

Lemma no_In (c : char) (s : jsstring) : no c s = true -> ~ In c s.
Proof.
  intros H Hin. unfold no in H. rewrite forallb_forall in H.
  specialize (H c Hin). unfold ceqb in H. rewrite N.eqb_refl in H.
  discriminate.
Qed.

Lemma startsWith_refl_app (p s : jsstring) : startsWith p (p ++ s) = true.
Proof.
  induction p as [|c p IH]; simpl; [reflexivity|].
  unfold ceqb. rewrite N.eqb_refl. exact IH.
Qed.

Lemma startsWith_prefix (p s : jsstring) :
  startsWith p s = true -> exists r, s = p ++ r.
Proof.
  revert s. induction p as [|c p IH]; intros s H; simpl in H.
  - exists s. reflexivity.
  - destruct s as [|d s]; [discriminate|].
    apply andb_true_iff in H as [Hc Hp]. apply N.eqb_eq in Hc. subst d.
    destruct (IH s Hp) as [r ->]. exists r. reflexivity.
Qed.

Lemma skipn_length_app (a b : jsstring) : skipn (List.length a) (a ++ b) = b.
Proof. induction a as [|c a IH]; simpl; [reflexivity | exact IH]. Qed.

Lemma firstn_length_app (a b : jsstring) : firstn (List.length a) (a ++ b) = a.
Proof. induction a as [|c a IH]; simpl; [reflexivity | f_equal; exact IH]. Qed.

Lemma takeWhile_alt (alt rest : jsstring) :
  no RBRACKET alt = true ->
  takeWhile (fun c => negb (ceqb c RBRACKET)) (alt ++ RBRACKET :: rest) = alt.
Proof. intros H. apply takeWhile_app; [exact H | reflexivity]. Qed.

(** The pattern at a reference to [u], at another reference, and at a
    character other than the exclamation mark. *)
Lemma matchImageAt_other (u : jsstring) (c : char) (s : jsstring) :
  ceqb c BANG = false -> matchImageAt u (c :: s) = None.
Proof.
  intros H. unfold matchImageAt. destruct s as [|d s]; [reflexivity|].
  rewrite H. reflexivity.
Qed.

Lemma matchImageAt_shape (u alt tail : jsstring) :
  no RBRACKET alt = true ->
  matchImageAt u (BANG :: LBRACKET :: alt ++ RBRACKET :: LPAREN :: tail)
  = if startsWith (u ++ [RPAREN]) tail
    then Some (alt, 2 + List.length alt + 2 + List.length u + 1)
    else None.
Proof.
  intros H. unfold matchImageAt.
  change (ceqb BANG BANG && ceqb LBRACKET LBRACKET) with true. cbv iota.
  rewrite (takeWhile_alt alt (LPAREN :: tail) H), skipn_length_app.
  cbn [startsWith app]. unfold ceqb. rewrite !N.eqb_refl. reflexivity.
Qed.

Lemma imageRef_app (alt src rest : jsstring) :
  imageRef alt src ++ rest
  = BANG :: LBRACKET :: alt ++ RBRACKET :: LPAREN :: src ++ RPAREN :: rest.
Proof.
  unfold imageRef. cbn [app]. do 2 f_equal.
  rewrite <- app_assoc. cbn [app]. do 3 f_equal.
  rewrite <- app_assoc. reflexivity.
Qed.

Lemma matchImageAt_hit (u alt rest : jsstring) :
  no RBRACKET alt = true ->
  matchImageAt u (imageRef alt u ++ rest)
  = Some (alt, 2 + List.length alt + 2 + List.length u + 1).
Proof.
  intros H. rewrite imageRef_app, (matchImageAt_shape u alt _ H).
  change (u ++ RPAREN :: rest) with (u ++ [RPAREN] ++ rest).
  rewrite app_assoc, startsWith_refl_app. reflexivity.
Qed.

Lemma ceqb_eq (a b : char) : ceqb a b = true -> a = b.
Proof. apply N.eqb_eq. Qed.

Lemma startsWith_url (u src : jsstring) (d : char) (rest : jsstring) :
  no RPAREN u = true -> no RPAREN src = true ->
  startsWith (u ++ [RPAREN]) (src ++ d :: rest) = true ->
  (u = src /\ d = RPAREN) \/ In d u.
Proof.
  revert src. induction u as [|x u IH]; intros src Hu Hs H.
  - destruct src as [|c src]; cbn [app startsWith] in H;
      apply andb_true_iff in H as [H _]; apply ceqb_eq in H.
    + left. split; [reflexivity | symmetry; exact H].
    + subst c. rewrite no_cons in Hs. unfold ceqb in Hs.
      rewrite N.eqb_refl in Hs. discriminate.
  - rewrite no_cons in Hu. apply andb_true_iff in Hu as [_ Hu].
    destruct src as [|c src]; cbn [app startsWith] in H;
      apply andb_true_iff in H as [Hx H]; apply ceqb_eq in Hx.
    + right. left. exact Hx.
    + rewrite no_cons in Hs. apply andb_true_iff in Hs as [_ Hs].
      destruct (IH src Hu Hs H) as [[-> ->]|Hin].
      * left. subst. split; reflexivity.
      * right. right. exact Hin.
Qed.

Lemma matchImageAt_miss (u alt src rest : jsstring) :
  no RBRACKET alt = true -> no RPAREN u = true -> no RPAREN src = true ->
  src <> u ->
  matchImageAt u (imageRef alt src ++ rest) = None.
Proof.
  intros Ha Hu Hs Hne. rewrite imageRef_app, (matchImageAt_shape u alt _ Ha).
  destruct (startsWith (u ++ [RPAREN]) (src ++ RPAREN :: rest)) eqn:E;
    [|reflexivity].
  destruct (startsWith_url u src RPAREN rest Hu Hs E) as [[-> _]|Hin].
  - congruence.
  - exfalso. exact (no_In _ _ Hu Hin).
Qed.

Lemma matchImageAt_warned (u alt furl rest : jsstring) :
  no RBRACKET alt = true -> no RPAREN u = true -> no SPACE u = true ->
  no RPAREN furl = true ->
  matchImageAt u (BANG :: LBRACKET :: alt ++ RBRACKET :: LPAREN :: furl
                       ++ warningMark ++ rest) = None.
Proof.
  intros Ha Hu Hsp Hf. rewrite (matchImageAt_shape u alt _ Ha).
  unfold warningMark. cbn [app].
  destruct (startsWith (u ++ [RPAREN]) _) eqn:E; [|reflexivity].
  destruct (startsWith_url u furl SPACE _ Hu Hf E) as [[_ H]|Hin].
  - discriminate.
  - exfalso. exact (no_In _ _ Hsp Hin).
Qed.

(** The scan over a match, and over text without exclamation marks. *)
Lemma replaceFrom_skip (u tpl x : jsstring) :
  forall before rest,
    replaceFrom u tpl before (List.length x) (x ++ rest)
    = replaceFrom u tpl (before ++ x) 0 rest.
Proof.
  induction x as [|c x IH]; intros before rest.
  - rewrite app_nil_r. reflexivity.
  - cbn [List.length app replaceFrom]. rewrite IH, <- app_assoc. reflexivity.
Qed.

Lemma replaceFrom_text (u tpl x : jsstring) :
  no BANG x = true ->
  forall before rest,
    replaceFrom u tpl before 0 (x ++ rest)
    = x ++ replaceFrom u tpl (before ++ x) 0 rest.
Proof.
  induction x as [|c x IH]; intros Hx before rest.
  - rewrite app_nil_r. reflexivity.
  - rewrite no_cons in Hx. apply andb_true_iff in Hx as [Hc Hx].
    apply negb_true_iff in Hc.
    cbn [app replaceFrom]. rewrite (matchImageAt_other u c _ Hc).
    rewrite (IH Hx), <- app_assoc. reflexivity.
Qed.

(** The expansion of the two templates. *)
Lemma substitute_plain (m b a g x t : jsstring) :
  no DOLLAR x = true ->
  substitute m b a g (x ++ t) = x ++ substitute m b a g t.
Proof.
  induction x as [|c x IH]; intros Hx; [reflexivity|].
  rewrite no_cons in Hx. apply andb_true_iff in Hx as [Hc Hx].
  apply negb_true_iff in Hc.
  cbn [app substitute]. rewrite Hc, (IH Hx). reflexivity.
Qed.

Lemma substitute_group (m b a g t : jsstring) :
  substitute m b a g (DOLLAR :: 49%N :: t) = g ++ substitute m b a g t.
Proof. reflexivity. Qed.

Lemma substitute_all_plain (m b a g x : jsstring) :
  no DOLLAR x = true -> substitute m b a g x = x.
Proof.
  intros H. rewrite <- (app_nil_r x) at 1.
  rewrite (substitute_plain m b a g x [] H). apply app_nil_r.
Qed.

Lemma substitute_local (m b a g : jsstring) (info : ImageInfo) :
  no DOLLAR (localPath info) = true ->
  substitute m b a g (localTemplate info) = imageRef g (localPath info).
Proof.
  intros H. unfold localTemplate, imageRef.
  change (js "![$1](")
    with ([BANG; LBRACKET] ++ DOLLAR :: 49%N :: [RBRACKET; LPAREN]).
  change (js ")") with [RPAREN].
  rewrite <- app_assoc, substitute_plain by reflexivity.
  cbn [app]. rewrite substitute_group, substitute_all_plain; [reflexivity|].
  rewrite !no_cons, no_app, H. reflexivity.
Qed.

Lemma substitute_warning (m b a g : jsstring) (f : FailedImage) :
  no DOLLAR (error f) = true -> no DOLLAR (failedUrl f) = true ->
  substitute m b a g (warningTemplate f) = warningBlock f g.
Proof.
  intros He Hu. unfold warningTemplate, warningBlock.
  assert (Hhead : no DOLLAR (warningHead f) = true).
  { unfold warningHead. rewrite !no_app, He, Hu. reflexivity. }
  change (js "![$1](")
    with ([BANG; LBRACKET] ++ DOLLAR :: 49%N :: [RBRACKET; LPAREN]).
  assert (E : forall tail : jsstring,
             [LF; LF] ++ js "> ⚠️ **图片加载失败** - 请手动处理" ++ [LF]
             ++ js "> " ++ [LF] ++ js "> 原因: " ++ error f ++ [LF]
             ++ js "> " ++ [LF]
             ++ js "> 原始链接: [点击查看](<" ++ failedUrl f ++ js ">)"
             ++ [LF; LF] ++ tail
             = warningHead f ++ tail).
  { intros tail. unfold warningHead. rewrite <- !app_assoc. reflexivity. }
  rewrite E, (substitute_plain m b a g _ _ Hhead). f_equal.
  rewrite <- app_assoc, substitute_plain by reflexivity.
  cbn [app]. rewrite substitute_group. do 2 f_equal.
  rewrite substitute_all_plain; [reflexivity|].
  rewrite !no_cons, no_app, Hu. reflexivity.
Qed.

(** One replacement pass over a segment and over a document. *)
Lemma urlOK_parts (u : jsstring) :
  urlOK u = true ->
  no BANG u = true /\ no RPAREN u = true /\ no SPACE u = true
  /\ no DOLLAR u = true /\ startsWith (js "./images/") u = false.
Proof.
  unfold urlOK. intros H.
  repeat (apply andb_true_iff in H as [H ?]).
  repeat split; try assumption. apply negb_true_iff. assumption.
Qed.

Lemma pathOK_parts (p : jsstring) :
  pathOK p = true ->
  no BANG p = true /\ no RPAREN p = true /\ no DOLLAR p = true
  /\ startsWith (js "./images/") p = true.
Proof.
  unfold pathOK. intros H.
  repeat (apply andb_true_iff in H as [H ?]).
  repeat split; assumption.
Qed.

Lemma refTail_length (alt src : jsstring) :
  List.length (refTail alt src)
  = 2 + List.length alt + 2 + List.length src + 1 - 1.
Proof.
  unfold refTail. cbn [List.length]. rewrite length_app. cbn [List.length].
  rewrite length_app. cbn [List.length]. lia.
Qed.

Lemma replaceFrom_bang (u tpl before s : jsstring) :
  replaceFrom u tpl before 0 (BANG :: s)
  = match matchImageAt u (BANG :: s) with
    | Some (alt, len) =>
        substitute (firstn len (BANG :: s)) before (skipn len (BANG :: s))
                   alt tpl
        ++ replaceFrom u tpl (before ++ [BANG]) (len - 1) s
    | None => BANG :: replaceFrom u tpl (before ++ [BANG]) 0 s
    end.
Proof. reflexivity. Qed.

Lemma replaceFrom_hit (u tpl : jsstring) (T : jsstring -> jsstring)
      (alt before rest : jsstring) :
  (forall m b a g, substitute m b a g tpl = T g) ->
  no RBRACKET alt = true ->
  replaceFrom u tpl before 0 (imageRef alt u ++ rest)
  = T alt ++ replaceFrom u tpl (before ++ imageRef alt u) 0 rest.
Proof.
  intros HT Har.
  pose proof (matchImageAt_hit u alt rest Har) as Hm.
  change (imageRef alt u) with (BANG :: refTail alt u) in *.
  change ((BANG :: refTail alt u) ++ rest)
    with (BANG :: (refTail alt u ++ rest)) in *.
  rewrite replaceFrom_bang, Hm, HT. f_equal.
  rewrite <- refTail_length, replaceFrom_skip, <- app_assoc. reflexivity.
Qed.

Lemma replaceFrom_miss (u tpl alt src before rest : jsstring) :
  altOK alt = true -> srcOK src = true -> no RPAREN u = true -> src <> u ->
  replaceFrom u tpl before 0 (imageRef alt src ++ rest)
  = imageRef alt src ++ replaceFrom u tpl (before ++ imageRef alt src) 0 rest.
Proof.
  intros Ha Hs Hup Hne.
  apply andb_true_iff in Ha as [Hab Har].
  apply andb_true_iff in Hs as [Hsb Hsp].
  pose proof (matchImageAt_miss u alt src rest Har Hup Hsp Hne) as Hm.
  assert (Htail : no BANG (refTail alt src) = true).
  { unfold refTail. rewrite no_cons, no_app, !no_cons, no_app, Hab, Hsb.
    reflexivity. }
  change (imageRef alt src) with (BANG :: refTail alt src) in *.
  change ((BANG :: refTail alt src) ++ rest)
    with (BANG :: (refTail alt src ++ rest)) in *.
  rewrite replaceFrom_bang, Hm.
  rewrite (replaceFrom_text u tpl _ Htail), <- app_assoc. reflexivity.
Qed.

Lemma warningBlock_parts (f : FailedImage) (alt rest : jsstring) :
  warningBlock f alt ++ rest
  = warningHead f ++ BANG :: (markTail alt (failedUrl f) ++ rest).
Proof.
  unfold warningBlock, markTail. rewrite <- app_assoc. reflexivity.
Qed.

Lemma replaceFrom_warned (u tpl : jsstring) (f : FailedImage)
      (alt before rest : jsstring) :
  urlOK u = true -> altOK alt = true -> urlOK (failedUrl f) = true ->
  no BANG (error f) = true ->
  replaceFrom u tpl before 0 (warningBlock f alt ++ rest)
  = warningBlock f alt
    ++ replaceFrom u tpl (before ++ warningBlock f alt) 0 rest.
Proof.
  intros Hu Ha Hf Heb.
  destruct (urlOK_parts u Hu) as (Hub & Hup & Hus & _ & _).
  destruct (urlOK_parts _ Hf) as (Hfb & Hfp & _).
  apply andb_true_iff in Ha as [Hab Har].
  assert (Hhead : no BANG (warningHead f) = true).
  { unfold warningHead. rewrite !no_app, Heb, Hfb. reflexivity. }
  assert (Htail : no BANG (markTail alt (failedUrl f)) = true).
  { unfold markTail. rewrite no_cons, no_app, !no_cons, no_app, Hab, Hfb.
    reflexivity. }
  assert (Hm : matchImageAt u (BANG :: (markTail alt (failedUrl f) ++ rest))
               = None).
  { rewrite <- (matchImageAt_warned u alt (failedUrl f) rest Har Hup Hus Hfp).
    unfold markTail. cbn [app]. do 3 f_equal.
    rewrite <- app_assoc. cbn [app]. rewrite <- app_assoc. reflexivity. }
  rewrite warningBlock_parts, (replaceFrom_text u tpl _ Hhead).
  rewrite replaceFrom_bang, Hm, (replaceFrom_text u tpl _ Htail).
  rewrite <- (app_nil_r (warningBlock f alt)) at 1 2.
  rewrite !warningBlock_parts, !app_nil_r, <- !app_assoc. reflexivity.
Qed.

Lemma replaceFrom_segment (u tpl : jsstring) (T : jsstring -> jsstring)
      (seg : Segment) :
  urlOK u = true ->
  (forall m b a g, substitute m b a g tpl = T g) ->
  segmentOK seg = true ->
  forall before rest,
    replaceFrom u tpl before 0 (render seg ++ rest)
    = match seg with
      | Img alt src => if str_eqb src u then T alt else render seg
      | _ => render seg
      end
      ++ replaceFrom u tpl (before ++ render seg) 0 rest.
Proof.
  intros Hu HT Hseg before rest.
  destruct (urlOK_parts u Hu) as (Hub & Hup & Hus & _ & _).
  destruct seg as [t | alt src | f alt]; cbn [segmentOK render] in *.
  - apply replaceFrom_text. exact Hseg.
  - apply andb_true_iff in Hseg as [Ha Hs].
    destruct (str_eqb src u) eqn:E.
    + apply str_eqb_eq in E. subst src.
      apply andb_true_iff in Ha as [_ Har].
      apply replaceFrom_hit; assumption.
    + apply replaceFrom_miss; try assumption.
      intros ->. rewrite (proj2 (str_eqb_eq u u) eq_refl) in E. discriminate.
  - apply andb_true_iff in Hseg as [Hseg Heb].
    apply andb_true_iff in Hseg as [Ha Hf].
    apply replaceFrom_warned; assumption.
Qed.

Lemma replaceFrom_document (u tpl : jsstring) (T : jsstring -> jsstring)
      (doc : list Segment) :
  urlOK u = true ->
  (forall m b a g, substitute m b a g tpl = T g) ->
  forallb segmentOK doc = true ->
  forall before,
    replaceFrom u tpl before 0 (renderAll doc)
    = flat_map (fun seg =>
                  match seg with
                  | Img alt src => if str_eqb src u then T alt else render seg
                  | _ => render seg
                  end) doc.
Proof.
  intros Hu HT. induction doc as [|seg doc IH]; intros Hdoc before.
  - reflexivity.
  - cbn [forallb] in Hdoc. apply andb_true_iff in Hdoc as [Hseg Hdoc].
    unfold renderAll. cbn [flat_map].
    rewrite (replaceFrom_segment u tpl T seg Hu HT Hseg). f_equal.
    apply IH. exact Hdoc.
Qed.

Lemma replaceImageRefs_local (u : jsstring) (info : ImageInfo)
      (doc : list Segment) :
  urlOK u = true -> pathOK (localPath info) = true ->
  forallb segmentOK doc = true ->
  replaceImageRefs u (localTemplate info) (renderAll doc)
  = renderAll (map (passLocal u (localPath info)) doc)
  /\ forallb segmentOK (map (passLocal u (localPath info)) doc) = true.
Proof.
  intros Hu Hp Hdoc.
  destruct (pathOK_parts _ Hp) as (Hpb & Hpp & Hpd & _).
  split.
  - unfold replaceImageRefs.
    rewrite (replaceFrom_document u _ (fun g => imageRef g (localPath info)) doc Hu
               (fun m b a g => substitute_local m b a g info Hpd) Hdoc).
    unfold renderAll. rewrite flat_map_concat_map, flat_map_concat_map, map_map.
    f_equal. apply map_ext. intros [t|alt src|f alt]; cbn; try reflexivity.
    destruct (str_eqb src u); reflexivity.
  - rewrite forallb_forall in *. intros seg Hin.
    apply in_map_iff in Hin as (seg0 & <- & Hin0). specialize (Hdoc _ Hin0).
    destruct seg0 as [t|alt src|f alt]; cbn in *; try exact Hdoc.
    destruct (str_eqb src u); [|exact Hdoc].
    cbn. apply andb_true_iff in Hdoc as [-> _].
    unfold srcOK. rewrite Hpb, Hpp. reflexivity.
Qed.

Lemma replaceImageRefs_warn (f : FailedImage) (doc : list Segment) :
  urlOK (failedUrl f) = true -> no BANG (error f) = true ->
  no DOLLAR (error f) = true ->
  forallb segmentOK doc = true ->
  replaceImageRefs (failedUrl f) (warningTemplate f) (renderAll doc)
  = renderAll (map (passWarn f) doc)
  /\ forallb segmentOK (map (passWarn f) doc) = true.
Proof.
  intros Hu Heb Hed Hdoc.
  destruct (urlOK_parts _ Hu) as (_ & _ & _ & Hud & _).
  split.
  - unfold replaceImageRefs.
    rewrite (replaceFrom_document (failedUrl f) _ (warningBlock f) doc Hu
               (fun m b a g => substitute_warning m b a g f Hed Hud) Hdoc).
    unfold renderAll. rewrite flat_map_concat_map, flat_map_concat_map, map_map.
    f_equal. apply map_ext. intros [t|alt src|f0 alt]; cbn; try reflexivity.
    destruct (str_eqb src (failedUrl f)); reflexivity.
  - rewrite forallb_forall in *. intros seg Hin.
    apply in_map_iff in Hin as (seg0 & <- & Hin0). specialize (Hdoc _ Hin0).
    destruct seg0 as [t|alt src|f0 alt]; cbn in *; try exact Hdoc.
    destruct (str_eqb src (failedUrl f)); [|exact Hdoc].
    cbn. apply andb_true_iff in Hdoc as [-> _]. rewrite Hu, Heb. reflexivity.
Qed.

Lemma localLoop_document (entries : list (jsstring * ImageInfo)) :
  Forall entryOK entries ->
  forall doc, forallb segmentOK doc = true ->
    fold_left (fun content entry =>
                 replaceImageRefs (fst entry) (localTemplate (snd entry)) content)
              entries (renderAll doc)
    = renderAll (map (localPasses entries) doc)
    /\ forallb segmentOK (map (localPasses entries) doc) = true.
Proof.
  induction 1 as [|e entries [Hu Hp] _ IH]; intros doc Hdoc.
  - cbn [fold_left]. unfold localPasses. cbn [fold_left].
    rewrite map_id. split; [reflexivity | exact Hdoc].
  - cbn [fold_left].
    destruct (replaceImageRefs_local (fst e) (snd e) doc Hu Hp Hdoc) as [-> Hdoc1].
    destruct (IH _ Hdoc1) as [-> Hdoc2].
    rewrite map_map in *. split; [reflexivity | exact Hdoc2].
Qed.

Lemma warnLoop_document (failed : list FailedImage) :
  Forall failureOK failed ->
  forall doc, forallb segmentOK doc = true ->
    fold_left (fun content f =>
                 replaceImageRefs (failedUrl f) (warningTemplate f) content)
              failed (renderAll doc)
    = renderAll (map (warnPasses failed) doc).
Proof.
  induction 1 as [|f failed (Hu & Hb & Hd) _ IH]; intros doc Hdoc.
  - cbn [fold_left]. unfold warnPasses. cbn [fold_left].
    rewrite map_id. reflexivity.
  - cbn [fold_left].
    destruct (replaceImageRefs_warn f doc Hu Hb Hd Hdoc) as [-> Hdoc1].
    rewrite (IH _ Hdoc1), map_map. reflexivity.
Qed.

Lemma path_not_url (p u : jsstring) :
  pathOK p = true -> urlOK u = true -> str_eqb p u = false.
Proof.
  intros Hp Hu.
  destruct (pathOK_parts _ Hp) as (_ & _ & _ & H1).
  destruct (urlOK_parts _ Hu) as (_ & _ & _ & _ & H2).
  destruct (str_eqb p u) eqn:E; [|reflexivity].
  apply str_eqb_eq in E. congruence.
Qed.

Lemma str_eqb_sym (a b : jsstring) : str_eqb a b = str_eqb b a.
Proof.
  destruct (str_eqb a b) eqn:E1; destruct (str_eqb b a) eqn:E2;
    try reflexivity.
  - apply str_eqb_eq in E1. subst.
    rewrite (proj2 (str_eqb_eq b b) eq_refl) in E2. discriminate.
  - apply str_eqb_eq in E2. subst.
    rewrite (proj2 (str_eqb_eq a a) eq_refl) in E1. discriminate.
Qed.

Lemma localPasses_path (entries : list (jsstring * ImageInfo))
      (alt p : jsstring) :
  Forall entryOK entries -> pathOK p = true ->
  localPasses entries (Img alt p) = Img alt p.
Proof.
  intros H Hp. induction H as [|e entries [Hu _] _ IH]; [reflexivity|].
  unfold localPasses in *. cbn [fold_left passLocal].
  rewrite (path_not_url p (fst e) Hp Hu). exact IH.
Qed.

Lemma localPasses_img (entries : list (jsstring * ImageInfo))
      (alt src : jsstring) :
  Forall entryOK entries ->
  localPasses entries (Img alt src)
  = match mapGet src entries with
    | Some info => Img alt (localPath info)
    | None => Img alt src
    end.
Proof.
  induction 1 as [|[k info] entries [Hu Hp] Hes IH]; [reflexivity|].
  unfold localPasses in *. cbn [fold_left passLocal mapGet fst snd].
  rewrite (str_eqb_sym src k).
  destruct (str_eqb k src).
  - apply (localPasses_path entries alt _ Hes Hp).
  - exact IH.
Qed.

Lemma warnPasses_path (failed : list FailedImage) (alt p : jsstring) :
  Forall failureOK failed -> pathOK p = true ->
  warnPasses failed (Img alt p) = Img alt p.
Proof.
  intros H Hp. induction H as [|f failed (Hu & _) _ IH]; [reflexivity|].
  unfold warnPasses in *. cbn [fold_left passWarn].
  rewrite (path_not_url p (failedUrl f) Hp Hu). exact IH.
Qed.

Lemma warnPasses_other (failed : list FailedImage) (seg : Segment) :
  (forall alt src, seg <> Img alt src) -> warnPasses failed seg = seg.
Proof.
  intros H. induction failed as [|f failed IH]; [reflexivity|].
  unfold warnPasses in *. cbn [fold_left].
  destruct seg as [t|alt src|f0 alt]; try exact IH.
  exfalso. exact (H alt src eq_refl).
Qed.

Lemma localPasses_other (entries : list (jsstring * ImageInfo)) (seg : Segment) :
  (forall alt src, seg <> Img alt src) -> localPasses entries seg = seg.
Proof.
  intros H. induction entries as [|e entries IH]; [reflexivity|].
  unfold localPasses in *. cbn [fold_left].
  destruct seg as [t|alt src|f0 alt]; try exact IH.
  exfalso. exact (H alt src eq_refl).
Qed.

Lemma warnPasses_img (failed : list FailedImage) (alt src : jsstring) :
  warnPasses failed (Img alt src)
  = match find (fun f => str_eqb (failedUrl f) src) failed with
    | Some f => Warned f alt
    | None => Img alt src
    end.
Proof.
  induction failed as [|f failed IH]; [reflexivity|].
  unfold warnPasses in *. cbn [fold_left passWarn find].
  rewrite (str_eqb_sym src (failedUrl f)).
  destruct (str_eqb (failedUrl f) src).
  - apply (warnPasses_other failed (Warned f alt)). discriminate.
  - exact IH.
Qed.

Lemma passes_rewriteSegment (st : State) (seg : Segment) :
  stateOK st ->
  warnPasses (failedImages st) (localPasses (imageMap st) seg)
  = rewriteSegment st seg.
Proof.
  intros [Hm Hf]. destruct seg as [t|alt src|f alt].
  - rewrite localPasses_other, warnPasses_other by discriminate. reflexivity.
  - rewrite (localPasses_img _ alt src Hm). cbn [rewriteSegment].
    destruct (mapGet src (imageMap st)) as [info|] eqn:E.
    + apply warnPasses_path; [exact Hf|].
      clear -Hm E. induction Hm as [|[k v] m [_ Hp] _ IH]; [discriminate|].
      cbn [mapGet] in E. destruct (str_eqb k src).
      * inversion E; subst. exact Hp.
      * apply IH, E.
    + apply warnPasses_img.
  - rewrite localPasses_other, warnPasses_other by discriminate. reflexivity.
Qed.

(** The rewriting of the paths on Markdown text made of plain text and
    image references. *)
Lemma replaceImagePaths_document (st : State) (doc : list Segment) :
  stateOK st -> forallb segmentOK doc = true ->
  replaceImagePaths st (renderAll doc)
  = renderAll (map (rewriteSegment st) doc).
Proof.
  intros Hst Hdoc. pose proof Hst as [Hm Hf]. unfold replaceImagePaths.
  destruct (localLoop_document (imageMap st) Hm doc Hdoc) as [-> Hdoc1].
  rewrite (warnLoop_document (failedImages st) Hf _ Hdoc1), map_map.
  f_equal. apply map_ext. intros seg. apply passes_rewriteSegment, Hst.
Qed.

End RewriteFacts.

(* ------------------------------------------------------------------ *)
(** ** The downloads of a run with distinct URLs                        *)
(* ------------------------------------------------------------------ *)

Section BatchFacts.
Import Images.

Variable host : ImageHost.

Lemma mapGet_mapSet_same {V : Type} (k : jsstring) (v : V)
      (m : list (jsstring * V)) :
  mapGet k (mapSet k v m) = Some v.
Proof.
  induction m as [|[k' v'] m IH]; cbn [mapSet mapGet].
  - rewrite (proj2 (str_eqb_eq k k) eq_refl). reflexivity.
  - destruct (str_eqb k' k) eqn:E; cbn [mapGet]; rewrite E;
      [reflexivity | exact IH].
Qed.

Lemma mapGet_mapSet_other {V : Type} (k k0 : jsstring) (v : V)
      (m : list (jsstring * V)) :
  k <> k0 -> mapGet k0 (mapSet k v m) = mapGet k0 m.
Proof.
  intros Hne. induction m as [|[k' v'] m IH]; cbn [mapSet mapGet].
  - destruct (str_eqb k k0) eqn:E; [|reflexivity].
    apply str_eqb_eq in E. contradiction.
  - destruct (str_eqb k' k) eqn:E; cbn [mapGet].
    + apply str_eqb_eq in E. subst k'.
      destruct (str_eqb k k0) eqn:E0; [|reflexivity].
      apply str_eqb_eq in E0. contradiction.
    + destruct (str_eqb k' k0); [reflexivity | exact IH].
Qed.

Lemma mapSet_absent {V : Type} (k : jsstring) (v : V)
      (m : list (jsstring * V)) :
  mapGet k m = None -> mapSet k v m = m ++ [(k, v)].
Proof.
  induction m as [|[k' v'] m IH]; cbn [mapSet mapGet app]; [reflexivity|].
  destruct (str_eqb k' k); [discriminate|].
  intros H. rewrite (IH H). reflexivity.
Qed.

Lemma mapGet_key {V : Type} (k : jsstring) (v : V) (m : list (jsstring * V)) :
  In (k, v) m -> exists v', mapGet k m = Some v'.
Proof.
  induction m as [|[k' v'] m IH]; intros Hin; [destruct Hin|].
  cbn [mapGet]. destruct (str_eqb k' k) eqn:E; [eexists; reflexivity|].
  destruct Hin as [Heq|Hin]; [|exact (IH Hin)].
  inversion Heq; subst. rewrite (proj2 (str_eqb_eq k k) eq_refl) in E.
  discriminate.
Qed.

Lemma mapGet_In {V : Type} (k : jsstring) (v : V) (m : list (jsstring * V)) :
  mapGet k m = Some v -> In (k, v) m.
Proof.
  induction m as [|[k' v'] m IH]; cbn [mapGet]; [discriminate|].
  destruct (str_eqb k' k) eqn:E.
  - apply str_eqb_eq in E. subst. intros H. inversion H. left. reflexivity.
  - intros H. right. exact (IH H).
Qed.

(** The downloads of a batch, settled in any order. *)
Lemma settleAll_spec (ps : list (nat * jsstring)) :
  NoDup (map snd ps) ->
  forall st,
    failedImages (fst (settleAll host st ps)) = failedImages st
    /\ attempts (fst (settleAll host st ps)) = attempts st
    /\ map fst (snd (settleAll host st ps)) = map fst ps
    /\ (forall u, ~ In u (map snd ps) \/ downloads host u = false ->
                  mapGet u (imageMap (fst (settleAll host st ps)))
                  = mapGet u (imageMap st))
    /\ (forall pos u, In (pos, u) ps ->
          if downloads host u
          then exists info,
                 In (pos, Success info) (snd (settleAll host st ps))
                 /\ mapGet u (imageMap (fst (settleAll host st ps))) = Some info
          else In (pos, Failure u (js "下载失败")) (snd (settleAll host st ps))).
Proof.
  induction ps as [|[pos u] rest IH]; intros Hnd st.
  - cbn. repeat split; try reflexivity. intros pos u [].
  - cbn [map snd] in Hnd. inversion Hnd as [|? ? Hu Hrest]; subst.
    cbn [settleAll].
    destruct (downloads host u) eqn:D.
    + destruct (finishDownload_success host st u D) as (info & -> & _).
      set (st1 := mkState (mapSet u info (imageMap st)) (S (imageCounter st))
                          (failedImages st) (attempts st)).
      destruct (IH Hrest st1) as (Hf & Ha & Hp & Hkeep & Hres).
      destruct (settleAll host st1 rest) as [st2 rs]. cbn [fst snd] in *.
      repeat split.
      * exact Hf.
      * exact Ha.
      * cbn [map fst]. f_equal. exact Hp.
      * intros u' Hu'. rewrite (Hkeep u').
        -- apply mapGet_mapSet_other. intros ->.
           destruct Hu' as [Hn|Hd]; [apply Hn; left; reflexivity | congruence].
        -- destruct Hu' as [Hn|Hd]; [left | right; exact Hd].
           intros Hin. apply Hn. right. exact Hin.
      * intros pos' u' [Heq|Hin].
        -- inversion Heq; subst. rewrite D. exists info. split.
           ++ left. reflexivity.
           ++ rewrite (Hkeep u' (or_introl Hu)). apply mapGet_mapSet_same.
        -- specialize (Hres pos' u' Hin).
           destruct (downloads host u').
           ++ destruct Hres as (info' & Hin' & Hget). exists info'.
              split; [right; exact Hin' | exact Hget].
           ++ right. exact Hres.
    + rewrite (finishDownload_failure host st u D).
      destruct (IH Hrest st) as (Hf & Ha & Hp & Hkeep & Hres).
      destruct (settleAll host st rest) as [st2 rs]. cbn [fst snd] in *.
      repeat split.
      * exact Hf.
      * exact Ha.
      * cbn [map fst]. f_equal. exact Hp.
      * intros u' Hu'. apply Hkeep.
        destruct Hu' as [Hn|Hd]; [left | right; exact Hd].
        intros Hin. apply Hn. right. exact Hin.
      * intros pos' u' [Heq|Hin].
        -- inversion Heq; subst. rewrite D. left. reflexivity.
        -- specialize (Hres pos' u' Hin).
           destruct (downloads host u').
           ++ destruct Hres as (info' & Hin' & Hget). exists info'.
              split; [right; exact Hin' | exact Hget].
           ++ right. exact Hres.
Qed.

Lemma resultAt_In (rs : list (nat * CallbackResult)) (pos : nat)
      (r : CallbackResult) :
  NoDup (map fst rs) -> In (pos, r) rs -> resultAt pos rs = Some r.
Proof.
  induction rs as [|[p r0] rs IH]; intros Hnd Hin; [destruct Hin|].
  cbn [map fst] in Hnd. inversion Hnd as [|? ? Hp Hrs]; subst.
  cbn [resultAt]. destruct Hin as [Heq|Hin].
  - inversion Heq; subst. rewrite Nat.eqb_refl. reflexivity.
  - destruct (p =? pos) eqn:E; [|exact (IH Hrs Hin)].
    apply Nat.eqb_eq in E. subst p. exfalso. apply Hp.
    apply in_map_iff. exists (pos, r). split; [reflexivity | exact Hin].
Qed.

Lemma collectResults_spec (pageTitle : jsstring)
      (cached : jsstring -> option ImageInfo)
      (rs : list (nat * CallbackResult)) (m : list (jsstring * ImageInfo))
      (started : list (nat * jsstring)) :
  (forall pos u, In (pos, u) started -> cached u = None) ->
  (forall pos u, In (pos, u) started ->
     if downloads host u
     then exists info, resultAt pos rs = Some (Success info)
                       /\ mapGet u m = Some info
     else resultAt pos rs = Some (Failure u (js "下载失败"))) ->
  forall dl failed,
    collectResults pageTitle started cached rs dl failed
    = (dl ++ flat_map (infoOf m) (filter (downloads host) (map snd started)),
       failed ++ map (failureAt pageTitle) (filter (fails host) (map snd started))).
Proof.
  induction started as [|[pos u] started IH]; intros Hc Hr dl failed.
  - cbn. rewrite !app_nil_r. reflexivity.
  - cbn [collectResults map snd filter]. unfold fails at 1.
    rewrite (Hc pos u (or_introl eq_refl)).
    pose proof (Hr pos u (or_introl eq_refl)) as H.
    assert (Hc' : forall p v, In (p, v) started -> cached v = None)
      by (intros p v Hin; apply (Hc p v); right; exact Hin).
    assert (Hr' : forall p v, In (p, v) started ->
                    if downloads host v
                    then exists info, resultAt p rs = Some (Success info)
                                      /\ mapGet v m = Some info
                    else resultAt p rs = Some (Failure v (js "下载失败")))
      by (intros p v Hin; apply (Hr p v); right; exact Hin).
    destruct (downloads host u).
    + destruct H as (info & -> & Hget). rewrite (IH Hc' Hr').
      cbn [negb flat_map]. unfold infoOf at 2. rewrite Hget.
      rewrite <- app_assoc. reflexivity.
    + rewrite H, (IH Hc' Hr'). cbn [negb map].
      rewrite <- app_assoc. reflexivity.
Qed.

Lemma positions_snd (batch : list jsstring) : map snd (positions batch) = batch.
Proof.
  unfold positions. generalize 0.
  induction batch as [|u batch IH]; intros n; [reflexivity|].
  cbn [List.length seq combine map snd]. f_equal. apply IH.
Qed.

Lemma positions_fst (batch : list jsstring) :
  map fst (positions batch) = seq 0 (List.length batch).
Proof.
  unfold positions. generalize 0.
  induction batch as [|u batch IH]; intros n; [reflexivity|].
  cbn [List.length seq combine map fst]. f_equal. apply IH.
Qed.

Lemma filter_all {A : Type} (p : A -> bool) (l : list A) :
  (forall x, In x l -> p x = true) -> filter p l = l.
Proof.
  induction l as [|x l IH]; intros H; [reflexivity|].
  cbn [filter]. rewrite (H x (or_introl eq_refl)). f_equal.
  apply IH. intros y Hy. apply H. right. exact Hy.
Qed.

(** One batch whose URLs are distinct and not yet in [imageMap]. *)
Lemma runBatch_spec (pageTitle : jsstring) (st : State)
      (batch : list jsstring) (dl : list ImageInfo) :
  NoDup batch ->
  (forall u, In u batch -> mapGet u (imageMap st) = None) ->
  attempts (fst (runBatch host pageTitle st batch dl)) = attempts st ++ batch
  /\ failedImages (fst (runBatch host pageTitle st batch dl))
     = failedImages st ++ map (failureAt pageTitle) (filter (fails host) batch)
  /\ snd (runBatch host pageTitle st batch dl)
     = dl ++ flat_map
               (infoOf (imageMap (fst (runBatch host pageTitle st batch dl))))
               (filter (downloads host) batch)
  /\ (forall u, ~ In u batch \/ downloads host u = false ->
                mapGet u (imageMap (fst (runBatch host pageTitle st batch dl)))
                = mapGet u (imageMap st))
  /\ (forall u, In u batch -> downloads host u = true ->
                exists info,
                  mapGet u (imageMap (fst (runBatch host pageTitle st batch dl)))
                  = Some info).
Proof.
  intros Hnd Hfresh. unfold runBatch.
  assert (Hpend : filter (fun pu => match mapGet (snd pu) (imageMap st) with
                                    | Some _ => false
                                    | None => true
                                    end) (positions batch)
                  = positions batch).
  { apply filter_all. intros [pos u] Hin. cbn [snd].
    rewrite Hfresh; [reflexivity|].
    rewrite <- (positions_snd batch). apply in_map_iff.
    exists (pos, u). split; [reflexivity | exact Hin]. }
  rewrite Hpend, positions_snd.
  set (st0 := mkState (imageMap st) (imageCounter st) (failedImages st)
                      (attempts st ++ batch)).
  set (order := sortBy (fun pu => finishTime host (snd pu)) (positions batch)).
  assert (Hperm : Permutation (positions batch) order) by apply sortBy_perm.
  assert (Hnd' : NoDup (map snd order)).
  { apply (Permutation_NoDup (Permutation_map snd Hperm)).
    rewrite positions_snd. exact Hnd. }
  destruct (settleAll_spec order Hnd' st0) as (Hf & Ha & Hp & Hkeep & Hres).
  destruct (settleAll host st0 order) as [st1 rs]. cbn [fst snd] in *.
  assert (Hrs : NoDup (map fst rs)).
  { rewrite Hp. apply (Permutation_NoDup (Permutation_map fst Hperm)).
    rewrite positions_fst. apply seq_NoDup. }
  rewrite (collectResults_spec pageTitle _ rs (imageMap st1) (positions batch)).
  - rewrite positions_snd. cbn [fst snd imageMap failedImages attempts].
    repeat split.
    + exact Ha.
    + rewrite Hf. reflexivity.
    + intros u Hu. rewrite Hkeep; [reflexivity|].
      destruct Hu as [Hn|Hd]; [left | right; exact Hd].
      intros Hin. apply Hn. rewrite <- (positions_snd batch).
      apply (Permutation_in _ (Permutation_sym (Permutation_map snd Hperm))).
      exact Hin.
    + intros u Hin Hd.
      rewrite <- (positions_snd batch) in Hin.
      apply in_map_iff in Hin as ([pos u'] & Heq & Hin). cbn [snd] in Heq.
      subst u'. specialize (Hres pos u (Permutation_in _ Hperm Hin)).
      rewrite Hd in Hres. destruct Hres as (info & _ & Hget).
      exists info. exact Hget.
  - intros pos u Hin. apply Hfresh. rewrite <- (positions_snd batch).
    apply in_map_iff. exists (pos, u). split; [reflexivity | exact Hin].
  - intros pos u Hin.
    specialize (Hres pos u (Permutation_in _ Hperm Hin)).
    destruct (downloads host u).
    + destruct Hres as (info & Hin' & Hget). exists info.
      split; [apply resultAt_In; assumption | exact Hget].
    + apply resultAt_In; assumption.
Qed.

Lemma NoDup_app_parts {A : Type} (a b : list A) :
  NoDup (a ++ b) ->
  NoDup a /\ NoDup b /\ (forall x, In x a -> ~ In x b).
Proof.
  induction a as [|x a IH]; cbn [app]; intros H.
  - repeat split; [constructor | exact H | intros x []].
  - inversion H as [|? ? Hx Hab]; subst.
    destruct (IH Hab) as (Ha & Hb & Hdis). repeat split.
    + constructor; [|exact Ha]. intros Hin. apply Hx.
      apply in_or_app. left. exact Hin.
    + exact Hb.
    + intros y [<-|Hy] Hin.
      * apply Hx. apply in_or_app. right. exact Hin.
      * exact (Hdis y Hy Hin).
Qed.

Lemma flat_map_same {A B : Type} (f g : A -> list B) (l : list A) :
  (forall x, In x l -> f x = g x) -> flat_map f l = flat_map g l.
Proof.
  induction l as [|x l IH]; intros H; [reflexivity|].
  cbn [flat_map]. rewrite (H x (or_introl eq_refl)). f_equal.
  apply IH. intros y Hy. apply H. right. exact Hy.
Qed.

(** All the batches of a list of distinct URLs none of which is in
    [imageMap] yet. *)
Lemma batchesFrom_spec (pageTitle : jsstring) (fuel : nat) :
  forall (urls : list jsstring) (st : State) (dl : list ImageInfo),
    List.length urls <= fuel ->
    NoDup urls ->
    (forall u, In u urls -> mapGet u (imageMap st) = None) ->
    attempts (fst (batchesFrom host fuel pageTitle st urls dl))
    = attempts st ++ urls
    /\ failedImages (fst (batchesFrom host fuel pageTitle st urls dl))
       = failedImages st ++ map (failureAt pageTitle) (filter (fails host) urls)
    /\ snd (batchesFrom host fuel pageTitle st urls dl)
       = dl ++ flat_map
                 (infoOf (imageMap
                            (fst (batchesFrom host fuel pageTitle st urls dl))))
                 (filter (downloads host) urls)
    /\ (forall u, ~ In u urls \/ downloads host u = false ->
                  mapGet u (imageMap
                              (fst (batchesFrom host fuel pageTitle st urls dl)))
                  = mapGet u (imageMap st))
    /\ (forall u, In u urls -> downloads host u = true ->
                  exists info,
                    mapGet u (imageMap
                                (fst (batchesFrom host fuel pageTitle st urls dl)))
                    = Some info).
Proof.
  induction fuel as [|fuel IH]; intros urls st dl Hlen Hnd Hfresh.
  - destruct urls as [|u urls]; [|cbn in Hlen; lia].
    cbn. rewrite !app_nil_r. repeat split; try reflexivity. intros u [].
  - destruct urls as [|u urls].
    + cbn. rewrite !app_nil_r. repeat split; try reflexivity. intros v [].
    + rewrite batchesFrom_step.
      set (batch := firstn BATCH_SIZE (u :: urls)).
      set (rest := skipn BATCH_SIZE (u :: urls)).
      assert (Hsplit : u :: urls = batch ++ rest)
        by (symmetry; apply firstn_skipn).
      rewrite Hsplit in Hnd.
      destruct (NoDup_app_parts batch rest Hnd) as (Hb & Hr & Hdis).
      assert (Hfb : forall v, In v batch -> mapGet v (imageMap st) = None).
      { intros v Hv. apply Hfresh. rewrite Hsplit. apply in_or_app. left.
        exact Hv. }
      destruct (runBatch_spec pageTitle st batch dl Hb Hfb)
        as (Ha1 & Hf1 & Hd1 & Hk1 & He1).
      set (r1 := runBatch host pageTitle st batch dl) in *.
      assert (Hlr : List.length rest <= fuel).
      { unfold rest. rewrite length_skipn. cbn [List.length] in *.
        unfold BATCH_SIZE. lia. }
      assert (Hfr : forall v, In v rest -> mapGet v (imageMap (fst r1)) = None).
      { intros v Hv. rewrite Hk1.
        - apply Hfresh. rewrite Hsplit. apply in_or_app. right. exact Hv.
        - left. intros Hin. exact (Hdis v Hin Hv). }
      destruct (IH rest (fst r1) (snd r1) Hlr Hr Hfr)
        as (Ha2 & Hf2 & Hd2 & Hk2 & He2).
      set (r2 := batchesFrom host fuel pageTitle (fst r1) rest (snd r1)) in *.
      rewrite Hsplit.
      repeat split.
      * rewrite Ha2, Ha1, <- app_assoc. reflexivity.
      * rewrite Hf2, Hf1, filter_app, map_app, <- app_assoc. reflexivity.
      * rewrite Hd2, Hd1, filter_app, flat_map_app, <- app_assoc.
        do 2 f_equal. apply flat_map_same. intros v Hv.
        apply filter_In in Hv as [Hv _]. unfold infoOf.
        rewrite (Hk2 v); [reflexivity|].
        left. intros Hin. exact (Hdis v Hv Hin).
      * intros v Hv. rewrite Hk2, Hk1; [reflexivity | |].
        -- destruct Hv as [Hn|Hd]; [left | right; exact Hd].
           intros Hin. apply Hn. apply in_or_app. left. exact Hin.
        -- destruct Hv as [Hn|Hd]; [left | right; exact Hd].
           intros Hin. apply Hn. apply in_or_app. right. exact Hin.
      * intros v Hv Hd. apply in_app_or in Hv as [Hv|Hv].
        -- destruct (He1 v Hv Hd) as (info & Hget). exists info.
           rewrite Hk2; [exact Hget|].
           left. intros Hin. exact (Hdis v Hv Hin).
        -- exact (He2 v Hv Hd).
Qed.

Lemma batchDownloadImages_spec (urls : list jsstring) :
  NoDup urls ->
  attempts (fst (batchDownloadImages host freshState urls)) = urls
  /\ failedImages (fst (batchDownloadImages host freshState urls))
     = map failureOf (filter (fails host) urls)
  /\ snd (batchDownloadImages host freshState urls)
     = flat_map (infoOf (imageMap
                           (fst (batchDownloadImages host freshState urls))))
                (filter (downloads host) urls)
  /\ (forall u info,
        mapGet u (imageMap (fst (batchDownloadImages host freshState urls)))
        = Some info ->
        In u urls /\ downloads host u = true)
  /\ (forall u, In u urls -> downloads host u = true ->
                exists info,
                  mapGet u (imageMap
                              (fst (batchDownloadImages host freshState urls)))
                  = Some info).
Proof.
  intros Hnd. unfold batchDownloadImages.
  destruct (batchesFrom_spec (js "未知页面") (List.length urls) urls freshState []
              (le_n _) Hnd (fun _ _ => eq_refl))
    as (Ha & Hf & Hd & Hk & He).
  split; [exact Ha|]. split; [exact Hf|]. split; [exact Hd|].
  split; [|exact He].
  intros u info Hget. split.
  - destruct (in_dec (list_eq_dec N.eq_dec) u urls) as [Hin|Hn]; [exact Hin|].
    rewrite (Hk u (or_introl Hn)) in Hget. discriminate.
  - destruct (downloads host u) eqn:D; [reflexivity|].
    rewrite (Hk u (or_intror D)) in Hget. discriminate.
Qed.

End BatchFacts.

(* ------------------------------------------------------------------ *)
(** ** The images of a run                                              *)
(* ------------------------------------------------------------------ *)

Section RunFacts.
Import Discovery Fetch Images Generator.

Lemma mapGet_None_keys {V : Type} (k : jsstring) (m : list (jsstring * V)) :
  mapGet k m = None -> ~ In k (map fst m).
Proof.
  induction m as [|[k' v] m IH]; cbn [mapGet map fst]; [intros _ []|].
  destruct (str_eqb k' k) eqn:E; [discriminate|].
  intros H [->|Hin]; [|exact (IH H Hin)].
  rewrite (proj2 (str_eqb_eq k k) eq_refl) in E. discriminate.
Qed.

Lemma mergeStep_keyed (m : list (jsstring * ImageRef)) (i : ImageRef) :
  keyed m ->
  keyed (mergeStep m i)
  /\ In (refUrl i) (map fst (mergeStep m i))
  /\ (forall k, In k (map fst m) -> In k (map fst (mergeStep m i)))
  /\ (forall j, In j (map snd (mergeStep m i)) -> In j (map snd m) \/ j = i).
Proof.
  intros [Hk Hnd]. unfold mergeStep.
  destruct (mapGet (refUrl i) m) as [v|] eqn:E.
  - split; [split; assumption|]. split; [|split].
    + apply mapGet_In in E. apply in_map_iff. exists (refUrl i, v).
      split; [reflexivity | exact E].
    + intros k Hin. exact Hin.
    + intros j Hin. left. exact Hin.
  - rewrite (mapSet_absent _ _ _ E). split; [split|split; [|split]].
    + apply Forall_app. split; [exact Hk|].
      constructor; [reflexivity | constructor].
    + rewrite map_app. cbn [map fst].
      apply NoDup_app_remove_l with (l := []). cbn [app].
      apply Permutation_NoDup with (l := refUrl i :: map fst m).
      * apply Permutation_cons_append.
      * constructor; [exact (mapGet_None_keys _ _ E) | exact Hnd].
    + rewrite map_app. apply in_or_app. right. left. reflexivity.
    + intros k Hin. rewrite map_app. apply in_or_app. left. exact Hin.
    + intros j Hin. rewrite map_app in Hin.
      apply in_app_or in Hin as [Hin|[<-|[]]].
      * left. exact Hin.
      * right. reflexivity.
Qed.

Lemma merge_keyed (all : list ImageRef) :
  forall m, keyed m ->
    keyed (fold_left mergeStep all m)
    /\ (forall i, In i all -> In (refUrl i) (map fst (fold_left mergeStep all m)))
    /\ (forall k, In k (map fst m) -> In k (map fst (fold_left mergeStep all m)))
    /\ (forall j, In j (map snd (fold_left mergeStep all m)) ->
                  In j (map snd m) \/ In j all).
Proof.
  induction all as [|i all IH]; intros m Hm; cbn [fold_left].
  - split; [exact Hm|]. split; [|split].
    + intros i [].
    + intros k Hk. exact Hk.
    + intros j Hj. left. exact Hj.
  - destruct (mergeStep_keyed m i Hm) as (Hm1 & Hi & Hmono & Hsub).
    destruct (IH _ Hm1) as (Hm2 & Hall & Hmono2 & Hsub2).
    split; [exact Hm2|]. split; [|split].
    + intros j [<-|Hj]; [apply Hmono2, Hi | apply Hall, Hj].
    + intros k Hk. apply Hmono2, Hmono, Hk.
    + intros j Hj. destruct (Hsub2 j Hj) as [Hin|Hin].
      * destruct (Hsub j Hin) as [Hin' | ->];
          [left; exact Hin' | right; left; reflexivity].
      * right. right. exact Hin.
Qed.

Lemma keyed_urls (m : list (jsstring * ImageRef)) :
  keyed m -> map refUrl (map snd m) = map fst m.
Proof.
  intros [Hk _]. induction Hk as [|e m He _ IH]; [reflexivity|].
  cbn [map]. rewrite IH, He. reflexivity.
Qed.

(** The merge by URL keeps one reference for every URL. *)
Lemma uniqueByUrl_spec (all : list ImageRef) :
  NoDup (map refUrl (uniqueByUrl all))
  /\ (forall i, In i all -> In (refUrl i) (map refUrl (uniqueByUrl all)))
  /\ (forall j, In j (uniqueByUrl all) -> In j all).
Proof.
  assert (H0 : keyed []) by (split; constructor).
  destruct (merge_keyed all [] H0) as (Hk & Hall & _ & Hsub).
  unfold uniqueByUrl.
  rewrite (keyed_urls _ Hk). split; [exact (proj2 Hk)|]. split; [exact Hall|].
  intros j Hj. destruct (Hsub j Hj) as [[]|Hin]. exact Hin.
Qed.

Lemma find_unique (uniq : list ImageRef) (i : ImageRef) :
  NoDup (map refUrl uniq) -> In i uniq ->
  find (fun img => str_eqb (refUrl img) (refUrl i)) uniq = Some i.
Proof.
  induction uniq as [|j uniq IH]; intros Hnd Hin; [destruct Hin|].
  cbn [map] in Hnd. inversion Hnd as [|? ? Hj Hrest]; subst.
  cbn [find]. destruct (str_eqb (refUrl j) (refUrl i)) eqn:E.
  - apply str_eqb_eq in E. destruct Hin as [->|Hin]; [reflexivity|].
    exfalso. apply Hj. rewrite E. apply in_map. exact Hin.
  - destruct Hin as [->|Hin]; [|exact (IH Hrest Hin)].
    rewrite (proj2 (str_eqb_eq _ _) eq_refl) in E. discriminate.
Qed.

Lemma filter_map_swap {A B : Type} (f : A -> B) (p : B -> bool) (l : list A) :
  filter p (map f l) = map f (filter (fun x => p (f x)) l).
Proof.
  induction l as [|x l IH]; [reflexivity|].
  cbn [map filter]. destruct (p (f x)); cbn [map]; rewrite IH; reflexivity.
Qed.

(** The fields after the downloads of the merged references. *)
Lemma downloadAll_spec (w : World) (uniq : list ImageRef) :
  NoDup (map refUrl uniq) ->
  attempts (fst (downloadAll w uniq)) = map refUrl uniq
  /\ failedImages (fst (downloadAll w uniq))
     = map contextOf (filter (fun i => fails (imageHost w) (refUrl i)) uniq)
  /\ (forall u info,
        mapGet u (imageMap (fst (downloadAll w uniq))) = Some info ->
        In u (map refUrl uniq) /\ downloads (imageHost w) u = true)
  /\ (forall u, In u (map refUrl uniq) -> downloads (imageHost w) u = true ->
                exists info,
                  mapGet u (imageMap (fst (downloadAll w uniq))) = Some info)
  /\ namesDistinct (fst (downloadAll w uniq)).
Proof.
  intros Hnd. unfold downloadAll.
  destruct uniq as [|i0 uniq0] eqn:Eu.
  - cbn. split; [reflexivity|]. split; [reflexivity|].
    split; [intros u info H; discriminate|].
    split; [intros u []|]. apply namesDistinct_fresh.
  - rewrite <- Eu in *. clear Eu i0 uniq0.
    destruct (batchDownloadImages_spec (imageHost w) (map refUrl uniq) Hnd)
      as (Ha & Hf & _ & Hk & He).
    pose proof (batchesFrom_names (imageHost w) (List.length (map refUrl uniq))
                  (js "未知页面") freshState (map refUrl uniq) []
                  namesDistinct_fresh) as Hn.
    fold (batchDownloadImages (imageHost w) freshState (map refUrl uniq)) in Hn.
    destruct (batchDownloadImages (imageHost w) freshState (map refUrl uniq))
      as [st dl].
    cbn [fst snd imageMap failedImages attempts imageCounter] in *.
    split; [exact Ha|]. split; [|split; [exact Hk|split; [exact He|exact Hn]]].
    rewrite Hf, filter_map_swap, !map_map.
    apply map_ext_in. intros i Hi. apply filter_In in Hi as [Hi _].
    unfold addContext, failureOf, failureAt. cbn [failedUrl error].
    rewrite (find_unique uniq i Hnd Hi). reflexivity.
Qed.

Lemma digits_no (c : char) (s : jsstring) :
  isDigit c = false -> forallb isDigit s = true -> no c s = true.
Proof.
  intros Hc Hs. unfold no. rewrite forallb_forall in *. intros d Hd.
  specialize (Hs d Hd). apply negb_true_iff.
  destruct (ceqb d c) eqn:E; [|reflexivity].
  apply N.eqb_eq in E. congruence.
Qed.

Lemma hexDigits_no (c : char) (s : jsstring) :
  isHexDigit c = false -> forallb isHexDigit s = true -> no c s = true.
Proof.
  intros Hc Hs. unfold no. rewrite forallb_forall in *. intros d Hd.
  specialize (Hs d Hd). apply negb_true_iff.
  destruct (ceqb d c) eqn:E; [|reflexivity].
  apply N.eqb_eq in E. congruence.
Qed.

Lemma imageFileName_no (c : char) (k : nat) (u ext : jsstring) :
  isDigit c = false -> isHexDigit c = false ->
  no c (js "./images/") = true -> no c (js "img_") = true ->
  no c (js "_") = true -> no c (js ".") = true -> no c ext = true ->
  no c (js "./images/" ++ imageFileName k u ext) = true.
Proof.
  intros Hd Hh H1 H2 H3 H4 He. unfold imageFileName.
  rewrite !no_app, H1, H2, H3, H4, He.
  rewrite (digits_no c _ Hd (numberToString_digits k)).
  rewrite (hexDigits_no c _ Hh (proj2 (hashHex_shape u))).
  reflexivity.
Qed.

Lemma named_pathOK (c : nat) (e : jsstring * ImageInfo) (k : nat) :
  named c e k -> pathOK (localPath (snd e)) = true.
Proof.
  intros (_ & _ & Hp & ext & Hn & Hext). rewrite Hp, Hn. unfold pathOK.
  rewrite startsWith_refl_app, andb_true_r.
  assert (Hx : no BANG ext = true /\ no RPAREN ext = true
               /\ no DOLLAR ext = true).
  { cbn [In] in Hext.
    repeat (destruct Hext as [<-|Hext]; [repeat split; reflexivity|]).
    destruct Hext. }
  destruct Hx as (H1 & H2 & H3).
  rewrite !imageFileName_no by (reflexivity || assumption). reflexivity.
Qed.

Lemma Forall2_left {A B : Type} (R : A -> B -> Prop) (P : A -> Prop)
      (l : list A) (l' : list B) :
  Forall2 R l l' -> (forall x y, R x y -> P x) -> Forall P l.
Proof.
  intros H HP. induction H as [|x y l l' Hxy _ IH]; constructor;
    [exact (HP x y Hxy) | exact IH].
Qed.

Lemma downloadAll_stateOK (w : World) (uniq : list ImageRef) :
  NoDup (map refUrl uniq) ->
  (forall i, In i uniq -> urlOK (refUrl i) = true) ->
  stateOK (fst (downloadAll w uniq)).
Proof.
  intros Hnd Hok.
  destruct (downloadAll_spec w uniq Hnd) as (_ & Hf & Hk & _ & (ks & Hn & _)).
  split.
  - assert (Hp : Forall (fun e => pathOK (localPath (snd e)) = true)
                        (imageMap (fst (downloadAll w uniq)))).
    { apply (Forall2_left _ _ _ _ Hn). intros e k. apply named_pathOK. }
    rewrite Forall_forall in *. intros [k v] Hin. split; [|exact (Hp _ Hin)].
    cbn [fst]. destruct (mapGet_key k v _ Hin) as (v' & Hget).
    destruct (Hk k v' Hget) as [Hu _].
    apply in_map_iff in Hu as (i & <- & Hi). exact (Hok i Hi).
  - rewrite Hf. apply Forall_forall. intros f Hin.
    apply in_map_iff in Hin as (i & <- & Hi). apply filter_In in Hi as [Hi _].
    split; [exact (Hok i Hi) | split; reflexivity].
Qed.

(** The fields at the end of the Markdown call. *)
Lemma generateCompleteMarkdown_state (w : World) (options : Options) :
  finalState (generateCompleteMarkdown w options)
  = fst (downloadAll w (uniqueByUrl (imagesOf w))).
Proof.
  unfold generateCompleteMarkdown, imagesOf, pagesOf.
  destruct (Generator.discoverAllPages w) as [|l pages] eqn:E.
  - reflexivity.
  - destruct (batchFetchPages_settles (pageHost w) (l :: pages)) as [contents ->].
    destruct (downloadAll w (uniqueByUrl (collectAll w contents))) as [st dl].
    destruct dl as [|i dl]; [reflexivity|].
    destruct (downloadMarkdownWithImages _ _ _ _ _); reflexivity.
Qed.

End RunFacts.

(* ------------------------------------------------------------------ *)
(** ** An image reference in any surrounding text                       *)
(* ------------------------------------------------------------------ *)

Section SplitFacts.
Import Images.

Lemma takeWhile_skipn (p : char -> bool) (s : jsstring) :
  takeWhile p s ++ skipn (List.length (takeWhile p s)) s = s.
Proof.
  induction s as [|c s IH]; [reflexivity|].
  cbn [takeWhile]. destruct (p c); [|reflexivity].
  cbn [List.length skipn app]. rewrite IH. reflexivity.
Qed.

Lemma takeWhile_all (p : char -> bool) (s : jsstring) :
  forallb p (takeWhile p s) = true.
Proof.
  induction s as [|c s IH]; [reflexivity|].
  cbn [takeWhile]. destruct (p c) eqn:E; [|reflexivity].
  cbn [forallb]. rewrite E, IH. reflexivity.
Qed.

Lemma takeWhile_within (p : char -> bool) (a b : jsstring) :
  forallb p a = false ->
  takeWhile p (a ++ b) = takeWhile p a
  /\ skipn (List.length (takeWhile p a)) (a ++ b)
     = skipn (List.length (takeWhile p a)) a ++ b.
Proof.
  induction a as [|c a IH]; intros H; [discriminate|].
  cbn [forallb] in H. cbn [app takeWhile]. destruct (p c).
  - destruct (IH H) as [E1 E2]. rewrite E1. cbn [List.length skipn].
    split; [reflexivity | exact E2].
  - split; reflexivity.
Qed.

Lemma imageRef_length (alt src : jsstring) :
  List.length (imageRef alt src)
  = 2 + List.length alt + 2 + List.length src + 1.
Proof.
  unfold imageRef. cbn [List.length]. rewrite length_app. cbn [List.length].
  rewrite length_app. cbn [List.length]. lia.
Qed.

(** A match of the pattern is an image reference to the URL. *)
Lemma matchImageAt_inv (u s alt : jsstring) (len : nat) :
  matchImageAt u s = Some (alt, len) ->
  no RBRACKET alt = true
  /\ s = imageRef alt u ++ skipn len s
  /\ len = List.length (imageRef alt u).
Proof.
  unfold matchImageAt. destruct s as [|c0 [|c1 s1]]; try discriminate.
  destruct (ceqb c0 BANG) eqn:E0; [|discriminate].
  destruct (ceqb c1 LBRACKET) eqn:E1; [|discriminate].
  cbn [andb].
  destruct (startsWith _ _) eqn:E; [|discriminate].
  intros H. injection H as <- <-.
  apply ceqb_eq in E0, E1. subst c0 c1.
  apply startsWith_prefix in E as [r Hr].
  set (alt := takeWhile (fun c => negb (ceqb c RBRACKET)) s1) in *.
  assert (Hs : BANG :: LBRACKET :: s1 = imageRef alt u ++ r).
  { rewrite imageRef_app. do 2 f_equal.
    rewrite <- (takeWhile_skipn (fun c => negb (ceqb c RBRACKET)) s1) at 1.
    fold alt. rewrite Hr. cbn [app]. rewrite <- app_assoc. reflexivity. }
  split; [apply takeWhile_all|].
  change (S (S (List.length alt + 2 + List.length u + 1)))
    with (2 + List.length alt + 2 + List.length u + 1).
  rewrite <- imageRef_length. split; [|reflexivity].
  rewrite Hs at 2. rewrite skipn_length_app. exact Hs.
Qed.

Lemma no_rbracket_no_match (u s : jsstring) :
  no RBRACKET s = true -> matchImageAt u s = None.
Proof.
  intros H. destruct (matchImageAt u s) as [[alt len]|] eqn:E; [|reflexivity].
  destruct (matchImageAt_inv u s alt len E) as (_ & Hs & _).
  exfalso. apply (no_In _ _ H). rewrite Hs, imageRef_app.
  right. right. apply in_or_app. right. left. reflexivity.
Qed.

Lemma startsWith_before_bang (p a r : jsstring) :
  p <> [] -> no BANG p = true ->
  startsWith p (a ++ BANG :: r) = startsWith p a.
Proof.
  revert p. induction a as [|c a IH]; intros [|x p] Hne Hp; try congruence.
  - rewrite no_cons in Hp. apply andb_true_iff in Hp as [Hx _].
    apply negb_true_iff in Hx. cbn [app startsWith]. rewrite Hx. reflexivity.
  - cbn [app startsWith]. f_equal.
    destruct p as [|y p]; [reflexivity|].
    rewrite no_cons in Hp. apply andb_true_iff in Hp as [_ Hp].
    apply IH; [discriminate | exact Hp].
Qed.

(** The pattern tried in front of an image reference: either the match
    lies in the text in front, or the text in front is an unfinished
    reference, and the match runs from there to the end of the reference. *)
Lemma matchImageAt_context (u alt q a b : jsstring) :
  no RBRACKET alt = true -> no BANG u = true -> no RPAREN u = true ->
  no RPAREN q = true -> a <> [] ->
  (exists a',
      a = BANG :: LBRACKET :: a' /\ no RBRACKET a' = true /\ q = u
      /\ matchImageAt u (a ++ imageRef alt q ++ b)
         = Some (a' ++ BANG :: LBRACKET :: alt,
                 List.length a + List.length (imageRef alt q)))
  \/ matchImageAt u (a ++ imageRef alt q ++ b) = matchImageAt u a.
Proof.
  intros Ha Hub Hup Hqp Hne.
  destruct a as [|c0 a0]; [congruence|]. clear Hne.
  destruct (ceqb c0 BANG) eqn:E0.
  2: { right. cbn [app]. rewrite !matchImageAt_other by exact E0. reflexivity. }
  apply ceqb_eq in E0. subst c0.
  destruct a0 as [|c1 a1].
  { right. cbn [app]. rewrite imageRef_app. reflexivity. }
  destruct (ceqb c1 LBRACKET) eqn:E1.
  2: { right. unfold matchImageAt. cbn [app]. rewrite E1, andb_false_r.
       reflexivity. }
  apply ceqb_eq in E1. subst c1.
  destruct (no RBRACKET a1) eqn:Ea.
  - assert (Hx : (BANG :: LBRACKET :: a1) ++ imageRef alt q ++ b
                 = BANG :: LBRACKET :: (a1 ++ BANG :: LBRACKET :: alt)
                     ++ RBRACKET :: LPAREN :: (q ++ RPAREN :: b)).
    { rewrite imageRef_app. cbn [app]. rewrite <- app_assoc. reflexivity. }
    assert (Hn : no RBRACKET (a1 ++ BANG :: LBRACKET :: alt) = true).
    { rewrite no_app, !no_cons, Ea, Ha. reflexivity. }
    rewrite Hx, (matchImageAt_shape u _ _ Hn).
    destruct (startsWith (u ++ [RPAREN]) (q ++ RPAREN :: b)) eqn:E.
    + left. exists a1.
      destruct (startsWith_url u q RPAREN b Hup Hqp E) as [[-> _]|Hin];
        [|exfalso; exact (no_In _ _ Hup Hin)].
      split; [reflexivity|]. split; [exact Ea|]. split; [reflexivity|].
      f_equal. f_equal. rewrite imageRef_length, length_app.
      cbn [List.length]. lia.
    + right. symmetry. apply no_rbracket_no_match.
      rewrite !no_cons, Ea. reflexivity.
  - right. unfold matchImageAt. cbn [app].
    change (ceqb BANG BANG && ceqb LBRACKET LBRACKET) with true. cbv iota.
    destruct (takeWhile_within (fun c => negb (ceqb c RBRACKET)) a1
                             (imageRef alt q ++ b) Ea) as [-> ->].
    rewrite imageRef_app, startsWith_before_bang; [reflexivity|discriminate|].
    rewrite !no_cons, no_app, Hub. reflexivity.
Qed.

Section Pass.

Variables (u tpl : jsstring) (T : jsstring -> jsstring).
Hypothesis HT : forall m b a g, substitute m b a g tpl = T g.

Local Abbreviation pass := (replaceImageRefs u tpl).

Lemma replaceFrom_before (s : jsstring) :
  forall before before' skip,
    replaceFrom u tpl before skip s = replaceFrom u tpl before' skip s.
Proof.
  induction s as [|c s IH]; intros b b' k; [reflexivity|].
  cbn [replaceFrom]. destruct k as [|k]; [|apply IH].
  destruct (matchImageAt u (c :: s)) as [[alt len]|].
  - rewrite !HT. f_equal. apply IH.
  - f_equal. apply IH.
Qed.

Lemma replaceFrom_skipn (s : jsstring) :
  forall before skip,
    replaceFrom u tpl before skip s = pass (skipn skip s).
Proof.
  induction s as [|c s IH]; intros b k.
  - destruct k; reflexivity.
  - destruct k as [|k].
    + apply replaceFrom_before.
    + cbn [replaceFrom skipn]. apply IH.
Qed.

Lemma pass_miss (c : char) (s : jsstring) :
  matchImageAt u (c :: s) = None -> pass (c :: s) = c :: pass s.
Proof.
  intros H. unfold replaceImageRefs at 1. cbn [replaceFrom]. rewrite H.
  f_equal. apply (replaceFrom_skipn s _ 0).
Qed.

Lemma pass_match (s alt : jsstring) (len : nat) :
  matchImageAt u s = Some (alt, len) ->
  pass s = T alt ++ pass (skipn len s).
Proof.
  intros H. destruct (matchImageAt_inv u s alt len H) as (_ & _ & Hlen).
  destruct s as [|c s]; [discriminate|].
  unfold replaceImageRefs at 1. cbn [replaceFrom]. rewrite H, HT. f_equal.
  rewrite replaceFrom_skipn. rewrite imageRef_length in Hlen. subst len.
  change (2 + List.length alt + 2 + List.length u + 1)
    with (S (1 + List.length alt + 2 + List.length u + 1)).
  cbn [skipn]. rewrite Nat.sub_succ, Nat.sub_0_r. reflexivity.
Qed.

Lemma pass_text (x rest : jsstring) :
  no BANG x = true -> pass (x ++ rest) = x ++ pass rest.
Proof.
  intros Hx. unfold replaceImageRefs.
  rewrite (replaceFrom_text u tpl x Hx). f_equal. apply replaceFrom_before.
Qed.

Lemma pass_no_rbracket (s : jsstring) :
  no RBRACKET s = true -> pass s = s.
Proof.
  induction s as [|c s IH]; intros H; [reflexivity|].
  rewrite pass_miss by (apply no_rbracket_no_match; exact H).
  rewrite no_cons in H. apply andb_true_iff in H as [_ H].
  rewrite (IH H). reflexivity.
Qed.

Lemma pass_hit (alt rest : jsstring) :
  no RBRACKET alt = true ->
  pass (imageRef alt u ++ rest) = T alt ++ pass rest.
Proof.
  intros Ha. rewrite (pass_match _ alt _ (matchImageAt_hit u alt rest Ha)).
  rewrite <- imageRef_length, skipn_length_app. reflexivity.
Qed.

Hypothesis Hub : no BANG u = true.
Hypothesis Hup : no RPAREN u = true.

Section Reference.

Variables (alt q b : jsstring).
Hypothesis Ha : no RBRACKET alt = true.
Hypothesis Hqb : no BANG q = true.
Hypothesis Hqp : no RPAREN q = true.

Lemma pass_alt (x : jsstring) :
  q <> u -> no RBRACKET x = true ->
  pass (x ++ RBRACKET :: LPAREN :: q ++ RPAREN :: b)
  = x ++ pass (RBRACKET :: LPAREN :: q ++ RPAREN :: b).
Proof.
  intros Hne. induction x as [|c x IH]; intros Hx; [reflexivity|].
  rewrite no_cons in Hx. apply andb_true_iff in Hx as [_ Hx].
  cbn [app]. rewrite pass_miss; [rewrite (IH Hx); reflexivity|].
  destruct (ceqb c BANG) eqn:Ec; [|apply matchImageAt_other; exact Ec].
  apply ceqb_eq in Ec. subst c.
  destruct x as [|d x]; [reflexivity|].
  destruct (ceqb d LBRACKET) eqn:Ed.
  - apply ceqb_eq in Ed. subst d.
    rewrite no_cons in Hx. apply andb_true_iff in Hx as [_ Hx].
    cbn [app]. rewrite <- imageRef_app.
    apply matchImageAt_miss; assumption.
  - unfold matchImageAt. cbn [app]. rewrite Ed, andb_false_r. reflexivity.
Qed.

Lemma pass_other_ref :
  q <> u -> pass (imageRef alt q ++ b) = imageRef alt q ++ pass b.
Proof.
  intros Hne. rewrite !imageRef_app.
  rewrite pass_miss
    by (rewrite <- imageRef_app; apply matchImageAt_miss; assumption).
  f_equal.
  rewrite pass_miss by (apply matchImageAt_other; reflexivity). f_equal.
  rewrite (pass_alt alt Hne Ha). f_equal.
  replace (RBRACKET :: LPAREN :: q ++ RPAREN :: b)
    with ((RBRACKET :: LPAREN :: q ++ [RPAREN]) ++ b)
    by (cbn [app]; rewrite <- app_assoc; reflexivity).
  rewrite pass_text by (rewrite !no_cons, no_app, Hqb; reflexivity).
  cbn [app]. rewrite <- app_assoc. reflexivity.
Qed.

(** What one pass writes for the reference. *)
Local Abbreviation written :=
  (if str_eqb q u then T alt else imageRef alt q).

Lemma pass_reference : pass (imageRef alt q ++ b) = written ++ pass b.
Proof.
  destruct (str_eqb q u) eqn:E.
  - apply str_eqb_eq in E. subst q. apply pass_hit. exact Ha.
  - apply pass_other_ref. intros ->.
    rewrite (proj2 (str_eqb_eq u u) eq_refl) in E. discriminate.
Qed.

(** The pass over a reference behind any text [a]: when the reference is
    to the URL of the pass and [a] ends in an unfinished reference, the
    template must write the match as the text and the reference
    written on its own. *)
Lemma pass_split_length (n : nat) :
  forall a,
    List.length a <= n ->
    (q = u -> forall pre a',
        a = pre ++ BANG :: LBRACKET :: a' -> no RBRACKET a' = true ->
        T (a' ++ BANG :: LBRACKET :: alt) = BANG :: LBRACKET :: a' ++ T alt) ->
    pass (a ++ imageRef alt q ++ b) = pass a ++ written ++ pass b.
Proof.
  induction n as [|n IH]; intros a Hlen Hgood.
  - destruct a; [apply pass_reference | cbn in Hlen; lia].
  - destruct a as [|c a0]; [apply pass_reference|].
    destruct (matchImageAt_context u alt q (c :: a0) b Ha Hub Hup Hqp)
      as [(a' & Hshape & Hna & Hq & Hm) | Hm]; [discriminate| |].
    + rewrite (pass_match _ _ _ Hm).
      rewrite app_assoc, <- length_app, skipn_length_app.
      rewrite (Hgood Hq [] a' Hshape Hna), Hshape.
      rewrite (pass_no_rbracket (BANG :: LBRACKET :: a'))
        by (rewrite !no_cons, Hna; reflexivity).
      rewrite (proj2 (str_eqb_eq q u) Hq).
      cbn [app]. rewrite <- app_assoc. reflexivity.
    + destruct (matchImageAt u (c :: a0)) as [[alt' len]|] eqn:Ea.
      * destruct (matchImageAt_inv u _ _ _ Ea) as (_ & Hs & Hl).
        rewrite (pass_match _ _ _ Hm), (pass_match _ _ _ Ea).
        remember (skipn len (c :: a0)) as a2 eqn:E2.
        rewrite Hs at 1. rewrite <- app_assoc, Hl, skipn_length_app.
        rewrite <- app_assoc. f_equal. apply IH.
        -- rewrite Hs, length_app, imageRef_length in Hlen. lia.
        -- intros Hq pre a' Hpre. apply (Hgood Hq (imageRef alt' u ++ pre) a').
           rewrite Hs, Hpre, <- app_assoc. reflexivity.
      * rewrite (pass_miss c a0 Ea). cbn [app]. rewrite pass_miss by exact Hm.
        f_equal. apply IH.
        -- cbn [List.length] in Hlen. lia.
        -- intros Hq pre a' Hpre. apply (Hgood Hq (c :: pre) a').
           rewrite Hpre. reflexivity.
Qed.

Lemma pass_split (a : jsstring) :
  (q = u -> forall pre a',
      a = pre ++ BANG :: LBRACKET :: a' -> no RBRACKET a' = true ->
      T (a' ++ BANG :: LBRACKET :: alt) = BANG :: LBRACKET :: a' ++ T alt) ->
  pass (a ++ imageRef alt q ++ b) = pass a ++ written ++ pass b.
Proof. apply (pass_split_length (List.length a)). apply Nat.le_refl. Qed.

End Reference.

End Pass.

(** Text that ends in an unfinished reference. *)
Lemma unfinished_behind (pre s : jsstring) :
  unfinished (pre ++ s) = false -> unfinished s = false.
Proof.
  induction pre as [|c pre IH]; intros H; [exact H|].
  cbn [app unfinished] in H. apply orb_false_iff in H as [_ H].
  exact (IH H).
Qed.

Lemma unfinished_open (a : jsstring) :
  no RBRACKET a = true -> unfinished (BANG :: LBRACKET :: a) = true.
Proof.
  intros H. cbn [unfinished startsWith]. rewrite no_cons, H. reflexivity.
Qed.





(** One turn of each loop of [replaceImagePaths] around a reference. *)
Lemma local_pass_split (k : jsstring) (info : ImageInfo)
      (a alt q b : jsstring) :
  urlOK k = true -> pathOK (localPath info) = true ->
  no RBRACKET alt = true -> no BANG q = true -> no RPAREN q = true ->
  replaceImageRefs k (localTemplate info) (a ++ imageRef alt q ++ b)
  = replaceImageRefs k (localTemplate info) a
    ++ render (passLocal k (localPath info) (Img alt q))
    ++ replaceImageRefs k (localTemplate info) b.
Proof.
  intros Hk Hp Ha Hqb Hqp.
  destruct (urlOK_parts k Hk) as (Hkb & Hkp & _).
  destruct (pathOK_parts _ Hp) as (_ & _ & Hpd & _).
  rewrite (pass_split k _ (fun g => imageRef g (localPath info))
             (fun m b0 a0 g => substitute_local m b0 a0 g info Hpd)
             Hkb Hkp alt q b Ha Hqb Hqp a).
  - cbn [passLocal]. destruct (str_eqb q k); reflexivity.
  - intros _ pre a' _ _. unfold imageRef. cbn [app].
    rewrite <- app_assoc. reflexivity.
Qed.

Lemma warn_pass_split (f : FailedImage) (a alt q b : jsstring) :
  failureOK f ->
  no RBRACKET alt = true -> no BANG q = true -> no RPAREN q = true ->
  (q = failedUrl f -> unfinished a = false) ->
  replaceImageRefs (failedUrl f) (warningTemplate f) (a ++ imageRef alt q ++ b)
  = replaceImageRefs (failedUrl f) (warningTemplate f) a
    ++ render (passWarn f (Img alt q))
    ++ replaceImageRefs (failedUrl f) (warningTemplate f) b.
Proof.
  intros (Hu & _ & Hed) Ha Hqb Hqp Hfin.
  destruct (urlOK_parts _ Hu) as (Hub & Hup & _ & Hud & _).
  rewrite (pass_split (failedUrl f) _ (warningBlock f)
             (fun m b0 a0 g => substitute_warning m b0 a0 g f Hed Hud)
             Hub Hup alt q b Ha Hqb Hqp a).
  - cbn [passWarn].
    destruct (str_eqb q (failedUrl f)); reflexivity.
  - intros Hq pre a' Hpre Hna. exfalso.
    specialize (Hfin Hq). rewrite Hpre in Hfin.
    apply unfinished_behind in Hfin.
    rewrite (unfinished_open a' Hna) in Hfin. discriminate.
Qed.


Local Abbreviation localLoop entries :=
  (fold_left (fun content entry =>
                replaceImageRefs (fst entry) (localTemplate (snd entry)) content)
             entries).
Local Abbreviation warnLoop failed :=
  (fold_left (fun content f =>
                replaceImageRefs (failedUrl f) (warningTemplate f) content)
             failed).


(** The first loop around a reference. *)
Lemma localLoop_split (entries : list (jsstring * ImageInfo)) :
  Forall entryOK entries ->
  forall a alt q b,
    no RBRACKET alt = true -> no BANG q = true -> no RPAREN q = true ->
    localLoop entries (a ++ imageRef alt q ++ b)
    = localLoop entries a
      ++ render (localPasses entries (Img alt q))
      ++ localLoop entries b.
Proof.
  induction 1 as [|e entries [Hu Hp] _ IH]; intros a alt q b Ha Hqb Hqp;
    [reflexivity|].
  cbn [fold_left].
  rewrite (local_pass_split (fst e) (snd e) a alt q b Hu Hp Ha Hqb Hqp).
  unfold localPasses. cbn [fold_left passLocal].
  destruct (pathOK_parts _ Hp) as (Hpb & Hpp & _).
  destruct (str_eqb q (fst e)); cbn [render]; apply IH; assumption.
Qed.

(** The second loop around a reference to an image that did not fail. *)
Lemma warnLoop_split (failed : list FailedImage) :
  Forall failureOK failed ->
  forall a alt q b,
    no RBRACKET alt = true -> no BANG q = true -> no RPAREN q = true ->
    (forall f, In f failed -> failedUrl f <> q) ->
    warnLoop failed (a ++ imageRef alt q ++ b)
    = warnLoop failed a ++ imageRef alt q ++ warnLoop failed b.
Proof.
  induction 1 as [|f failed Hf _ IH]; intros a alt q b Ha Hqb Hqp Hne;
    [reflexivity|].
  cbn [fold_left].
  assert (Hq : failedUrl f <> q) by (apply Hne; left; reflexivity).
  rewrite (warn_pass_split f a alt q b Hf Ha Hqb Hqp)
    by (intros ->; congruence).
  cbn [passWarn].
  destruct (str_eqb q (failedUrl f)) eqn:E.
  - apply str_eqb_eq in E. congruence.
  - cbn [render]. apply IH; try assumption.
    intros g Hg. apply Hne. right. exact Hg.
Qed.

Lemma entry_pathOK (entries : list (jsstring * ImageInfo)) (u : jsstring)
      (info : ImageInfo) :
  Forall entryOK entries -> mapGet u entries = Some info ->
  urlOK u = true /\ pathOK (localPath info) = true.
Proof.
  intros H Hget. apply mapGet_In in Hget.
  rewrite Forall_forall in H. exact (H _ Hget).
Qed.

(** A reference to a downloaded image, in any text, is rewritten to the
    local path of the image, and the text around it is rewritten as it
    is on its own. *)
Lemma replaceImagePaths_local (st : State) (u : jsstring) (info : ImageInfo)
      (a alt b : jsstring) :
  stateOK st -> mapGet u (imageMap st) = Some info ->
  no RBRACKET alt = true ->
  replaceImagePaths st (a ++ imageRef alt u ++ b)
  = replaceImagePaths st a ++ imageRef alt (localPath info)
    ++ replaceImagePaths st b.
Proof.
  intros [Hm Hf] Hget Ha.
  destruct (entry_pathOK _ _ _ Hm Hget) as [Hu Hp].
  destruct (urlOK_parts u Hu) as (Hub & Hup & _).
  destruct (pathOK_parts _ Hp) as (Hpb & Hpp & _).
  unfold replaceImagePaths.
  rewrite (localLoop_split _ Hm a alt u b Ha Hub Hup).
  rewrite (localPasses_img _ alt u Hm), Hget. cbn [render].
  apply (warnLoop_split _ Hf); try assumption.
  intros f Hin Heq.
  rewrite Forall_forall in Hf. destruct (Hf f Hin) as (Hfu & _).
  pose proof (path_not_url _ _ Hp Hfu) as Hne.
  rewrite Heq, (proj2 (str_eqb_eq _ _) eq_refl) in Hne. discriminate.
Qed.


End SplitFacts.

(* ------------------------------------------------------------------ *)
(** ** The failure report                                               *)
(* ------------------------------------------------------------------ *)

Section ReportFacts.
Import Images.

Lemma generateFailureReport_none (host : ImageHost) (st : State) :
  generateFailureReport host st = None <-> failedImages st = [].
Proof.
  unfold generateFailureReport.
  destruct (failedImages st); split; congruence.
Qed.



End ReportFacts.

Section ReportTextFacts.
Import Images Report.











End ReportTextFacts.

(* ------------------------------------------------------------------ *)
(** ** Shared images and failed images in a run                         *)
(* ------------------------------------------------------------------ *)

Section ClaimFacts.
Import Discovery Fetch Images Generator.

Variables (w : World) (options : Options).

Lemma named_entry (c : nat) (m : list (jsstring * ImageInfo)) (ks : list nat)
      (e : jsstring * ImageInfo) :
  Forall2 (named c) m ks -> In e m -> exists k, named c e k.
Proof.
  intros H. induction H as [|e0 k0 m ks He _ IH]; intros Hin; [destruct Hin|].
  destruct Hin as [<-|Hin]; [exists k0; exact He | exact (IH Hin)].
Qed.

Lemma urlOK_all :
  (forall i, In i (imagesOf w) -> urlOK (refUrl i) = true) ->
  forall j, In j (uniqueByUrl (imagesOf w)) -> urlOK (refUrl j) = true.
Proof.
  intros H j Hj. apply H.
  exact (proj2 (proj2 (uniqueByUrl_spec (imagesOf w))) j Hj).
Qed.


End ClaimFacts.

Lemma filter_none {A : Type} (p : A -> bool) (l : list A) :
  (forall x, In x l -> p x = false) -> filter p l = [].
Proof.
  induction l as [|x l IH]; intros H; [reflexivity|].
  cbn [filter]. rewrite (H x (or_introl eq_refl)).
  apply IH. intros y Hy. apply H. right. exact Hy.
Qed.


(* ------------------------------------------------------------------ *)
(** ** The claims on the sample sites                                   *)
(* ------------------------------------------------------------------ *)

Lemma sample_urls_ok (w : Generator.World) :
  Generator.imagesOf w
  = Generator.imagesOf Sample.healthySite ->
  forall i, In i (Generator.imagesOf w) ->
            Images.urlOK (Images.refUrl i) = true.
Proof.
  intros -> i Hi. vm_compute in Hi.
  repeat (destruct Hi as [<-|Hi]; [reflexivity|]). destruct Hi.
Qed.

(** C2 (as stated) fails: both pages refer to the logo, its one download
    fails, and in the delivered Markdown both references still carry the
    URL of the logo; the only local paths are those of the other two
    images. *)
Lemma shared_image_not_local_when_download_fails :
  In Sample.logoUrl
     (map Images.refUrl
          (Images.collectImagesFromHTML
             (Generator.imageHost Sample.logoDownSite) Sample.introHtml
             (js "Intro")))
  /\ In Sample.logoUrl
        (map Images.refUrl
             (Images.collectImagesFromHTML
                (Generator.imageHost Sample.logoDownSite) Sample.setupHtml
                (js "Setup")))
  /\ count_occ (list_eq_dec N.eq_dec)
       (Images.attempts
          (Generator.finalState
             (Generator.generateCompleteMarkdown Sample.logoDownSite Sample.book)))
       Sample.logoUrl = 1
  /\ countOccurrences (js "![Logo](https://docs.example/img/logo.png")
       (Sample.finalMarkdown
          (Generator.generateCompleteMarkdown Sample.logoDownSite Sample.book))
     = 1
  /\ countOccurrences (js "![Logo again](https://docs.example/img/logo.png")
       (Sample.finalMarkdown
          (Generator.generateCompleteMarkdown Sample.logoDownSite Sample.book))
     = 1
  /\ countOccurrences (js "](./images/")
       (Sample.finalMarkdown
          (Generator.generateCompleteMarkdown Sample.logoDownSite Sample.book))
     = 2.
Proof.
  repeat split; vm_compute; auto.
Qed.


(** A source that is not written as the absolute URL is downloaded under
    its absolute URL and left as it is in the text: the seed page is
    converted with the sources as its author wrote them. *)
Lemma relative_source_not_rewritten :
  Images.attempts
    (Generator.finalState
       (Generator.generateCompleteMarkdown Sample.relativeSite Sample.book))
  = [Sample.logoUrl]
  /\ countOccurrences (js "![Logo](img/logo.png)")
       (Sample.finalMarkdown
          (Generator.generateCompleteMarkdown Sample.relativeSite Sample.book))
     = 1
  /\ countOccurrences (js "![Logo again](./images/img_1_7ac45165.png)")
       (Sample.finalMarkdown
          (Generator.generateCompleteMarkdown Sample.relativeSite Sample.book))
     = 1.
Proof.
  repeat split; vm_compute; reflexivity.
Qed.

(** On the healthy sample site the Markdown that is delivered refers to
    the logo from both pages by one local path. *)
Lemma healthy_run_shares_local_path :
  List.length
    (Images.attempts
       (Generator.finalState
          (Generator.generateCompleteMarkdown Sample.healthySite Sample.book)))
  = 3
  /\ countOccurrences (js "![Logo](./images/img_3_7ac45165.png)")
       (Sample.finalMarkdown
          (Generator.generateCompleteMarkdown Sample.healthySite Sample.book))
     = 1
  /\ countOccurrences (js "![Logo again](./images/img_3_7ac45165.png)")
       (Sample.finalMarkdown
          (Generator.generateCompleteMarkdown Sample.healthySite Sample.book))
     = 1
  /\ countOccurrences (js "https://docs.example/img/logo.png")
       (Sample.finalMarkdown
          (Generator.generateCompleteMarkdown Sample.healthySite Sample.book))
     = 0.
Proof.
  repeat split; vm_compute; reflexivity.
Qed.

(** With the chart down and one reference to it, the delivered Markdown
    holds one warning block, which names the URL in its link and in the
    image reference it keeps. *)
Lemma one_warning_block_for_one_reference :
  countOccurrences (js "⚠️ **图片加载失败**")
    (Sample.finalMarkdown
       (Generator.generateCompleteMarkdown Sample.chartDownSite Sample.book))
  = 1
  /\ countOccurrences (js "https://cdn.example/chart.svg")
       (Sample.finalMarkdown
          (Generator.generateCompleteMarkdown Sample.chartDownSite Sample.book))
     = 2.
Proof.
  repeat split; vm_compute; reflexivity.
Qed.

(* ================================================================== *)
(** * Further properties                                                *)
(* ================================================================== *)

(* ------------------------------------------------------------------ *)
(** ** The anchor behind a discovered page                              *)
(* ------------------------------------------------------------------ *)

Section OriginFacts.
Import Discovery Origin.

Variable isValidDocumentLink : jsstring -> bool.
Variable resolveUrl : jsstring -> jsstring.

Local Abbreviation visit := (visit isValidDocumentLink resolveUrl).
Local Abbreviation collectLinks := (collectLinks isValidDocumentLink resolveUrl).
Local Abbreviation discoverAllPages := (discoverAllPages isValidDocumentLink resolveUrl).
Local Abbreviation leadsTo := (leadsTo isValidDocumentLink resolveUrl).
Local Abbreviation originOK := (originOK isValidDocumentLink resolveUrl).

Lemma find_app_first {A : Type} (f : A -> bool) (l1 l2 : list A) :
  find f (l1 ++ l2)
  = match find f l1 with Some x => Some x | None => find f l2 end.
Proof.
  induction l1 as [|x l1 IH]; [reflexivity|].
  cbn [app find]. destruct (f x); [reflexivity | exact IH].
Qed.

Lemma find_no_match {A : Type} (f : A -> bool) (l : list A) :
  (forall x, In x l -> f x = false) -> find f l = None.
Proof.
  induction l as [|x l IH]; intros H; [reflexivity|].
  cbn [find]. rewrite (H x (or_introl eq_refl)).
  apply IH. intros y Hy. apply H. right. exact Hy.
Qed.

Lemma collectLinks_concat (nav : list (list Anchor)) :
  collectLinks nav = fold_left visit (concat nav) [].
Proof.
  unfold Discovery.collectLinks. generalize (@nil Link).
  induction nav as [|n nav IH]; intros acc; [reflexivity|].
  cbn [fold_left concat]. rewrite fold_left_app. apply IH.
Qed.

Lemma existsb_url (links : list Link) (u : jsstring) :
  existsb (fun l => str_eqb (url l) u) links = true <-> In u (map url links).
Proof.
  rewrite existsb_exists, in_map_iff. split.
  - intros (l & Hl & E). apply str_eqb_eq in E. exists l. split; assumption.
  - intros (l & E & Hl). exists l. split; [exact Hl|]. apply str_eqb_eq, E.
Qed.

Lemma visit_origin (seen : list Anchor) (links : list Link) (a : Anchor) :
  originOK seen links -> originOK (seen ++ [a]) (visit links a).
Proof.
  intros [Hs Hc]. unfold Discovery.visit.
  destruct (isValidDocumentLink (href a)) eqn:Hv.
  - destruct (existsb _ links) eqn:Hex.
    + split.
      * intros l Hl. destruct (Hs l Hl) as (Hf & Ht & Hlv).
        rewrite find_app_first, Hf. auto.
      * intros b Hb Hvb. apply in_app_or in Hb as [Hb | [<- | []]].
        -- apply Hc; assumption.
        -- apply existsb_url. exact Hex.
    + split.
      * intros l Hl. apply in_app_or in Hl as [Hl | [<- | []]].
        -- destruct (Hs l Hl) as (Hf & Ht & Hlv).
           rewrite find_app_first, Hf. auto.
        -- cbn [url title level element]. split; [|split; reflexivity].
           rewrite find_app_first, find_no_match.
           ++ cbn [find]. unfold Origin.leadsTo. rewrite Hv.
              rewrite (proj2 (str_eqb_eq _ _) eq_refl). reflexivity.
           ++ intros b Hb. unfold Origin.leadsTo.
              destruct (isValidDocumentLink (href b)) eqn:Hvb; [|reflexivity].
              cbn [andb]. destruct (str_eqb _ _) eqn:E; [|reflexivity].
              apply str_eqb_eq in E.
              pose proof (Hc b Hb Hvb) as Hin. rewrite E in Hin.
              apply existsb_url in Hin. congruence.
      * intros b Hb Hvb. rewrite map_app, in_app_iff.
        apply in_app_or in Hb as [Hb | [<- | []]].
        -- left. apply Hc; assumption.
        -- right. left. reflexivity.
  - split.
    + intros l Hl. destruct (Hs l Hl) as (Hf & Ht & Hlv).
      rewrite find_app_first, Hf. auto.
    + intros b Hb Hvb. apply in_app_or in Hb as [Hb | [<- | []]].
      * apply Hc; assumption.
      * congruence.
Qed.

Lemma fold_visit_origin (todo : list Anchor) :
  forall seen links,
    originOK seen links ->
    originOK (seen ++ todo) (fold_left visit todo links).
Proof.
  induction todo as [|a todo IH]; intros seen links H.
  - rewrite app_nil_r. exact H.
  - cbn [fold_left].
    replace (seen ++ a :: todo) with ((seen ++ [a]) ++ todo)
      by (rewrite <- app_assoc; reflexivity).
    apply IH, visit_origin, H.
Qed.

(** X1: every page of the list comes from the first anchor, in the order
    of the navigation selectors and of the document, that passes the
    filter and resolves to its URL: the page carries the trimmed text and
    the level of that anchor.  Every anchor that passes the filter has its
    URL in the list. *)
Theorem discoverAllPages_first_anchor_wins (nav : list (list Anchor)) :
  (forall l, In l (discoverAllPages nav) ->
     find (leadsTo (url l)) (concat nav) = Some (element l)
     /\ title l = trim (textContent (element l))
     /\ level l = calculateLinkLevel (element l))
  /\ (forall a, In a (concat nav) -> isValidDocumentLink (href a) = true ->
        In (resolveUrl (href a)) (map url (discoverAllPages nav))).
Proof.
  assert (H : originOK (concat nav) (collectLinks nav)).
  { rewrite collectLinks_concat.
    apply (fold_visit_origin (concat nav) [] []).
    split; [intros l [] | intros a []]. }
  destruct H as [Hs Hc].
  pose proof (sortBy_perm level (collectLinks nav)) as Hp.
  split.
  - intros l Hl. apply Hs.
    apply (Permutation_in _ (Permutation_sym Hp)). exact Hl.
  - intros a Ha Hv.
    apply (Permutation_in _ (Permutation_map url Hp)). apply Hc; assumption.
Qed.

End OriginFacts.

(* ------------------------------------------------------------------ *)
(** ** The filter of navigation links                                   *)
(* ------------------------------------------------------------------ *)

Section LinkFilterFacts.
Import Discovery.

Lemma includes_tail (p : jsstring) (c : char) (s : jsstring) :
  includes p s = true -> includes p (c :: s) = true.
Proof.
  intros H. cbn [includes]. rewrite H. apply orb_true_r.
Qed.

Lemma includes_skipn (p : jsstring) (n : nat) :
  forall s, includes p (skipn n s) = true -> includes p s = true.
Proof.
  induction n as [|n IH]; intros s H; [exact H|].
  destruct s as [|c s]; [exact H|].
  apply includes_tail, IH, H.
Qed.

Lemma startsWith_takeWhile (q : char -> bool) (p s : jsstring) :
  startsWith p (takeWhile q s) = true -> startsWith p s = true.
Proof.
  revert s. induction p as [|x p IH]; intros s H; [reflexivity|].
  destruct s as [|c s]; [discriminate H|].
  cbn [takeWhile] in H. destruct (q c); [|discriminate H].
  cbn [startsWith] in H |- *. apply andb_true_iff in H as [Hc Hs].
  rewrite Hc. exact (IH s Hs).
Qed.

Lemma includes_takeWhile (q : char -> bool) (p s : jsstring) :
  includes p (takeWhile q s) = true -> includes p s = true.
Proof.
  induction s as [|c s IH]; intros H; [exact H|].
  cbn [takeWhile] in H. destruct (q c) eqn:Hq.
  - cbn [includes] in H |- *. apply orb_true_iff in H as [H | H].
    + apply orb_true_iff. left.
      apply (startsWith_takeWhile q p (c :: s)). cbn [takeWhile].
      rewrite Hq. exact H.
    + apply orb_true_iff. right. exact (IH H).
  - cbn [includes] in H |- *. rewrite orb_false_r in H.
    destruct p; [reflexivity | discriminate H].
Qed.

(** X2: an absolute [http] or [https] link passes the filter only when its
    text holds [duruofu.github.io]: on every other site the absolute links
    of the navigation are left out, those to the site itself included. *)
Theorem isValidDocumentLink_keeps_one_host (href : jsstring) :
  startsWith (js "http://") (foldCase href)
  || startsWith (js "https://") (foldCase href) = true ->
  includes (js "duruofu.github.io") (foldCase href) = false ->
  isValidDocumentLink href = false.
Proof.
  intros Hs Hn. unfold isValidDocumentLink.
  destruct href as [|c href]; [reflexivity|].
  assert (He : isExternal (c :: href) = true).
  { unfold isExternal.
    destruct (startsWith (js "https://") (foldCase (c :: href))) eqn:E1.
    - apply negb_true_iff. apply not_true_iff_false. intros H.
      apply includes_takeWhile, includes_skipn in H. congruence.
    - rewrite orb_false_r in Hs. rewrite Hs.
      apply negb_true_iff. apply not_true_iff_false. intros H.
      apply includes_takeWhile, includes_skipn in H. congruence. }
  rewrite He. reflexivity.
Qed.

End LinkFilterFacts.

Lemma isValidDocumentLink_keeps_one_host_witness :
  Discovery.isValidDocumentLink (js "https://docs.example/setup.html") = false.
Proof.
  apply isValidDocumentLink_keeps_one_host; reflexivity.
Defined.

(* ------------------------------------------------------------------ *)
(** ** Where the content of a page comes from                           *)
(* ------------------------------------------------------------------ *)

Section FetchPathFacts.
Import Discovery Fetch.

Variable host : Host.

(** When the direct request fails, what [fetchPageContent] returns is the
    promise of the background proxy. *)
Lemma fetchPageContent_falls_back (i : nat) (u : jsstring) :
  str_eqb u (locationHref host) = false ->
  (forall r, fetchNet host i u = Fulfilled r ->
             ok r = false \/ exists e, text r = Rejected e) ->
  fetchPageContent host i u = backgroundPromise host i u.
Proof.
  unfold fetchPageContent, fetchPageViaFetch.
  intros -> Hfail. rewrite fetchPageViaBackground_adopts.
  destruct (fetchNet host i u) as [r|e0].
  - destruct (Hfail r eq_refl) as [Hok | [e Ht]]; cbn.
    + rewrite Hok. cbn. destruct (backgroundPromise host i u); reflexivity.
    + rewrite Ht. destruct (ok r); cbn;
        destruct (backgroundPromise host i u); reflexivity.
  - cbn. destruct (backgroundPromise host i u); reflexivity.
Qed.

(** X3: the content of the current page is taken from the document, without
    a request.  Any other page is taken from the direct request when it
    answers with a success status and a readable body; when the direct
    request fails in any way, the promise of [fetchPageContent] is the
    promise of the background proxy, and the error of the direct request
    is dropped. *)
Theorem fetchPageContent_sources (i : nat) (u : jsstring) :
  (str_eqb u (locationHref host) = true ->
     fetchPageContent host i u = Fulfilled (extractCurrentPageContent host))
  /\ (str_eqb u (locationHref host) = false ->
      forall r t, fetchNet host i u = Fulfilled r -> ok r = true ->
                  text r = Fulfilled t ->
                  fetchPageContent host i u
                  = Fulfilled (parseHTMLContent host t u))
  /\ (str_eqb u (locationHref host) = false ->
      (forall r, fetchNet host i u = Fulfilled r ->
                 ok r = false \/ exists e, text r = Rejected e) ->
      fetchPageContent host i u = backgroundPromise host i u).
Proof.
  split; [|split].
  - unfold fetchPageContent. intros ->. reflexivity.
  - unfold fetchPageContent, fetchPageViaFetch.
    intros -> r t Hr Hok Ht. rewrite Hr. cbn. rewrite Hok, Ht. reflexivity.
  - apply fetchPageContent_falls_back.
Qed.

End FetchPathFacts.

(* ------------------------------------------------------------------ *)
(** ** The background proxy                                             *)
(* ------------------------------------------------------------------ *)

Section BackgroundFacts.
Import Discovery Fetch Background.

Variable fetch : jsstring -> Settled Response.

(** X4: [fetchPage] of the background script never rejects: it resolves to an
    object that names the URL, with [success: true] and the text of the
    body exactly when the request is answered with a success status and a
    readable body, and with [success: false] and a message otherwise. *)
Theorem fetchPage_always_resolves (u : jsstring) :
  exists d,
    fetchPage fetch u = Fulfilled d
    /\ pdUrl d = Some u
    /\ (forall r t, fetch u = Fulfilled r -> ok r = true ->
                    text r = Fulfilled t ->
                    pdSuccess d = true /\ pdHtml d = Some t
                    /\ pdError d = None)
    /\ (forall r, fetch u = Fulfilled r -> ok r = false ->
                  pdSuccess d = false /\ pdHtml d = None
                  /\ pdError d = Some (js "HTTP " ++ numberToString (status r)
                                       ++ js ": " ++ statusText r))
    /\ (forall e, fetch u = Rejected e ->
                  pdSuccess d = false /\ pdError d = Some (message e))
    /\ (pdSuccess d = true ->
        exists r t, fetch u = Fulfilled r /\ ok r = true
                    /\ text r = Fulfilled t).
Proof.
  unfold fetchPage. destruct (fetch u) as [r|e] eqn:Hf; cbn.
  - destruct (ok r) eqn:Hok; cbn.
    + destruct (text r) as [t|e] eqn:Ht; cbn.
      * eexists. split; [reflexivity|]. cbn.
        split; [reflexivity|]. split.
        { intros r' t' E _ Ht'. injection E as <-. rewrite Ht in Ht'.
          injection Ht' as <-. auto. }
        split; [intros r' E H'; injection E as <-; congruence|].
        split; [intros e E; discriminate E|].
        intros _. exists r, t. auto.
      * eexists. split; [reflexivity|]. cbn.
        split; [reflexivity|]. split.
        { intros r' t' E _ Ht'. injection E as <-. congruence. }
        split; [intros r' E H'; injection E as <-; congruence|].
        split; [intros e' E; discriminate E|].
        intros H. discriminate H.
    + eexists. split; [reflexivity|]. cbn.
      split; [reflexivity|]. split.
      { intros r' t' E H'. injection E as <-. congruence. }
      split; [intros r' E _; injection E as <-; auto|].
      split; [intros e E; discriminate E|].
      intros H. discriminate H.
  - eexists. split; [reflexivity|]. cbn.
    split; [reflexivity|]. split; [intros r t E; discriminate E|].
    split; [intros r E; discriminate E|].
    split; [intros e' E; injection E as <-; auto|].
    intros H. discriminate H.
Qed.

Variable host : Host.

(** X5: with this background script behind the content script, a page that
    the content script cannot fetch itself is recovered whenever the
    request of the background script succeeds: the page is parsed from the
    text that the background script read.  When that request fails too,
    the promise of [fetchPageContent] is rejected. *)
Theorem fetchPageContent_through_proxy (i : nat) (u : jsstring) :
  str_eqb u (locationHref host) = false ->
  (forall r, fetchNet host i u = Fulfilled r ->
             ok r = false \/ exists e, text r = Rejected e) ->
  (forall r t, fetch u = Fulfilled r -> ok r = true -> text r = Fulfilled t ->
     fetchPageContent (proxied fetch host) i u
     = Fulfilled (parseHTMLContent host t u))
  /\ ((forall r, fetch u = Fulfilled r ->
                 ok r = false \/ exists e, text r = Rejected e) ->
      exists e, fetchPageContent (proxied fetch host) i u = Rejected e).
Proof.
  intros Hu Hdirect.
  rewrite (fetchPageContent_falls_back (proxied fetch host) i u Hu Hdirect).
  unfold backgroundPromise, proxied, answerFetchPage, fetchPage, received.
  cbn [sendMessage parseHTMLContent].
  split.
  - intros r t Hf Hok Ht. rewrite Hf. cbn. rewrite Hok. cbn. rewrite Ht.
    reflexivity.
  - intros Hfail. destruct (fetch u) as [r|e] eqn:Hf; cbn.
    + destruct (Hfail r eq_refl) as [Hok | [e Ht]].
      * rewrite Hok. cbn. eexists. reflexivity.
      * rewrite Ht. destruct (ok r); cbn; eexists; reflexivity.
    + eexists. reflexivity.
Qed.

End BackgroundFacts.

(* ------------------------------------------------------------------ *)
(** ** The converter: text and tables                                   *)
(* ------------------------------------------------------------------ *)

Section ConverterFacts.
Import Markdown Dom.

(** The tests of the converter on the tag name of a given element. *)
Ltac eval_tags :=
  repeat match goal with
         | |- context [tagIs ?n (js ?t)] =>
             let b := eval vm_compute in (tagIs n (js t)) in
             change (tagIs n (js t)) with b
         | |- context [selects ?n (js ?t)] =>
             let b := eval vm_compute in (selects n (js t)) in
             change (selects n (js t)) with b
         end.

Lemma isSpace_SPACE : isSpace SPACE = true.
Proof. reflexivity. Qed.

Lemma collapseFrom_spaces (s : jsstring) :
  forall inRun,
    forallb (fun c => negb (isSpace c) || ceqb c SPACE) (collapseFrom inRun s)
    = true.
Proof.
  induction s as [|c s IH]; intros inRun; [reflexivity|].
  cbn [collapseFrom]. destruct (isSpace c) eqn:Hc.
  - destruct inRun; [apply IH|]. cbn [forallb]. rewrite IH. reflexivity.
  - cbn [forallb]. rewrite Hc, IH. reflexivity.
Qed.

Lemma collapseFrom_in_run (s : jsstring) :
  beginsWith (fun c => ceqb c SPACE) (collapseFrom true s) = false.
Proof.
  induction s as [|c s IH]; [reflexivity|].
  cbn [collapseFrom]. destruct (isSpace c) eqn:Hc; [exact IH|].
  cbn [beginsWith]. destruct (ceqb c SPACE) eqn:E; [|reflexivity].
  apply ceqb_eq in E. subst c. discriminate Hc.
Qed.

Lemma collapseFrom_no_pair (s : jsstring) :
  forall inRun, includes [SPACE; SPACE] (collapseFrom inRun s) = false.
Proof.
  induction s as [|c s IH]; intros inRun; [reflexivity|].
  cbn [collapseFrom]. destruct (isSpace c) eqn:Hc.
  - destruct inRun; [apply IH|].
    cbn [includes]. rewrite IH, orb_false_r.
    cbn [startsWith]. pose proof (collapseFrom_in_run s) as H.
    destruct (collapseFrom true s) as [|d r]; [reflexivity|].
    cbn [beginsWith] in H. cbn [startsWith].
    unfold ceqb in *. rewrite (N.eqb_sym SPACE d), H.
    cbn [andb]. apply andb_false_r.
  - cbn [includes]. rewrite IH, orb_false_r.
    cbn [startsWith]. destruct (ceqb SPACE c) eqn:E; [|reflexivity].
    apply ceqb_eq in E. subst c. discriminate Hc.
Qed.

(** X6: text outside [pre] and [code] reaches the Markdown on one line: every
    white-space character of the output is an ordinary space (line
    breaks, tabs and no-break spaces are gone) and no two spaces stand
    side by side. *)
Theorem text_outside_code_normalised (pl : Place) (data : jsstring)
        (listState : ListState) :
  inCode pl = false ->
  forallb (fun c => negb (isSpace c) || ceqb c SPACE)
          (convertNodeToMarkdown pl (Text data) listState) = true
  /\ includes [SPACE; SPACE] (convertNodeToMarkdown pl (Text data) listState)
     = false.
Proof.
  intros H. cbn [convertNodeToMarkdown]. rewrite H. unfold collapseSpaces.
  split; [apply collapseFrom_spaces | apply collapseFrom_no_pair].
Qed.

Lemma inCode_below_cell (pl : Place) :
  inCode (below (js "TD") pl) = inCode pl.
Proof.
  unfold below. cbn [inCode]. eval_tags. rewrite !orb_false_r. reflexivity.
Qed.

Lemma inCode_below_row (pl : Place) :
  inCode (below (js "TR") pl) = inCode pl.
Proof.
  unfold below. cbn [inCode]. eval_tags. rewrite !orb_false_r. reflexivity.
Qed.

Lemma convert_cell (pl : Place) (t : jsstring) (ls : ListState) :
  inCode pl = false ->
  trim (convertNodeToMarkdown pl (cell t) ls) = cellText t.
Proof.
  intros H. unfold cell, el. cbn [convertNodeToMarkdown]. eval_tags.
  cbn [orb map concat convertNodeToMarkdown].
  rewrite inCode_below_cell, H, app_nil_r. reflexivity.
Qed.

Lemma cell_selected : nodeSelects "td" (cell []) = true
                      /\ nodeSelects "tr" (cell []) = false.
Proof. split; reflexivity. Qed.

Lemma nodeSelects_cell (name : string) (t : jsstring) :
  nodeSelects name (cell t) = nodeSelects name (cell []).
Proof. reflexivity. Qed.

Lemma cellsBelow_cell (withTh : bool) (pl : Place) (t : jsstring) :
  cellsBelow withTh pl (cell t) = [].
Proof. destruct withTh; reflexivity. Qed.

Lemma bodyRowsBelow_cell (pl : Place) (t : jsstring) :
  bodyRowsBelow pl (cell t) = [].
Proof. reflexivity. Qed.

Lemma cellsBelow_row (withTh : bool) (pl : Place) (cells : list jsstring) :
  inCode pl = false ->
  cellsBelow withTh pl (tableRow cells) = map cellText cells.
Proof.
  intros H. unfold tableRow, el. cbn [cellsBelow].
  induction cells as [|t cells IH]; [reflexivity|].
  cbn [map flat_map]. rewrite IH.
  rewrite convert_cell by (rewrite inCode_below_row; exact H).
  rewrite cellsBelow_cell, nodeSelects_cell, (proj1 cell_selected).
  reflexivity.
Qed.

Lemma bodyRowsBelow_row (pl : Place) (cells : list jsstring) :
  bodyRowsBelow pl (tableRow cells) = [].
Proof.
  unfold tableRow, el. cbn [bodyRowsBelow].
  induction cells as [|t cells IH]; [reflexivity|].
  cbn [map flat_map]. rewrite IH.
  rewrite bodyRowsBelow_cell, nodeSelects_cell, (proj2 cell_selected).
  reflexivity.
Qed.

Lemma inCode_below_table (pl : Place) :
  inCode pl = false ->
  inCode (below (js "TBODY") (below (js "TABLE") pl)) = false
  /\ inTbody (below (js "TBODY") (below (js "TABLE") pl)) = true.
Proof.
  intros H. unfold below. cbn [inCode inTbody inPre]. eval_tags.
  rewrite H, !orb_false_r, orb_true_r. split; reflexivity.
Qed.

Lemma bodyRowsBelow_section (pl : Place) (rows : list (list jsstring)) :
  inCode pl = false -> inTbody pl = true ->
  flat_map (fun c => (if nodeSelects "tr" c && inTbody pl
                      then [cellsBelow false pl c] else [])
                     ++ bodyRowsBelow pl c)
           (map tableRow rows)
  = map (map cellText) rows.
Proof.
  intros Hc Ht. induction rows as [|r rows IH]; [reflexivity|].
  cbn [map flat_map]. rewrite IH, bodyRowsBelow_row, cellsBelow_row by exact Hc.
  rewrite Ht. unfold tableRow at 1, el. cbn [nodeSelects]. eval_tags.
  reflexivity.
Qed.

(** X7: a table without [thead], whose rows the parser puts into a [tbody]:
    the first row is written as the header line, followed by the line of
    dashes, and then once more as the first line of the body. *)
Theorem table_first_row_written_twice (pl : Place) (listState : ListState)
        (r : list jsstring) (rows : list (list jsstring)) :
  inCode pl = false ->
  convertNodeToMarkdown pl (plainTable (r :: rows)) listState
  = rowLine (map cellText r)
    ++ rowLine (map (fun _ => js "---") r)
    ++ concat (map (fun cells =>
                      rowLine (map escapePipes (map cellText cells)))
                   (r :: rows))
    ++ [LF].
Proof.
  intros H. destruct (inCode_below_table pl H) as [Hc Ht].
  unfold plainTable, el. cbn [convertNodeToMarkdown]. eval_tags.
  cbn [orb firstSome flat_map nodeSelects firstRowBelow bodyRowsBelow andb app].
  eval_tags. cbn [andb app].
  rewrite app_nil_r.
  rewrite (bodyRowsBelow_section _ (r :: rows) Hc Ht).
  cbn [map firstSome]. unfold tableRow at 1, el. cbn [nodeSelects]. eval_tags.
  fold (el "TR" (map cell r)). fold (tableRow r).
  rewrite cellsBelow_row by exact Hc.
  unfold rowLine. rewrite (map_map cellText (fun _ => js "---")).
  rewrite (map_map (map cellText)).
  cbn [map concat].
  repeat (first [rewrite <- app_assoc | rewrite <- app_comm_cons]).
  reflexivity.
Qed.

End ConverterFacts.

(* ------------------------------------------------------------------ *)
(** ** Collecting and downloading images                                *)
(* ------------------------------------------------------------------ *)

Section ImagePipelineFacts.
Import Markdown Images.

Variable host : ImageHost.

Lemma dropWhile_length (p : char -> bool) (s : jsstring) :
  List.length (dropWhile p s) <= List.length s.
Proof.
  induction s as [|c s IH]; [apply Nat.le_refl|].
  cbn [dropWhile]. destruct (p c); cbn [List.length]; lia.
Qed.

Lemma trim_length (s : jsstring) : List.length (trim s) <= List.length s.
Proof.
  unfold trim, trimEnd, trimStart. rewrite length_rev.
  etransitivity; [apply dropWhile_length|]. rewrite length_rev.
  apply dropWhile_length.
Qed.

(** X8: the references collected from a page carry the title of the page;
    none of them has a [data:] URL; each comes from an [img] element with
    a source that resolves to its URL; the context kept for a reference is
    at most 50 characters long. *)
Theorem collectImagesFromHTML_references (htmlContent pageTitle : jsstring)
        (i : ImageRef) :
  In i (collectImagesFromHTML host htmlContent pageTitle) ->
  refPageTitle i = pageTitle
  /\ startsWith (js "data:") (refUrl i) = false
  /\ List.length (refContext i) <= 50
  /\ exists img,
       In img (imgElementsBelow (parseBody host htmlContent))
       /\ getAttribute (js "src") (fst img) <> []
       /\ resolveHref host (getAttribute (js "src") (fst img)) = Some (refUrl i)
       /\ refAlt i = getAttribute (js "alt") (fst img).
Proof.
  unfold collectImagesFromHTML. destruct htmlContent as [|c h]; [intros []|].
  intros H. apply in_flat_map in H as (img & Himg & H).
  destruct (getAttribute (js "src") (fst img)) as [|s0 src] eqn:Hsrc;
    [destruct H|].
  destruct (resolveHref host (s0 :: src)) as [u|] eqn:Hu; [|destruct H].
  destruct (startsWith (js "data:") u) eqn:Hd; [destruct H|].
  destruct H as [<- | []]. cbn [refPageTitle refUrl refContext refAlt].
  split; [reflexivity|]. split; [exact Hd|]. split.
  - etransitivity; [apply trim_length|]. apply firstn_le_length.
  - exists img. split; [exact Himg|]. rewrite Hsrc.
    split; [discriminate|]. split; [exact Hu | reflexivity].
Qed.

(** X9: the extension of a downloaded image is one of six, [png] when nothing
    else is known, and an image is only had from a response with a success
    status and a readable body. *)
Theorem downloadImageAsBlob_result (u : jsstring) (b : Blob) (ext : jsstring) :
  downloadImageAsBlob host u = Some (b, ext) ->
  In ext [js "jpg"; js "jpeg"; js "png"; js "gif"; js "webp"; js "svg"]
  /\ exists r,
       fetchImage host u = Fulfilled r /\ imgOk r = true
       /\ imgBlob r = Fulfilled b
       /\ (contentType r <> [] -> ext = extensionOfType (contentType r)).
Proof.
  intros H. split; [exact (downloadImageAsBlob_extension host u b ext H)|].
  unfold downloadImageAsBlob in H.
  destruct (fetchImage host u) as [r|e]; cbn [await tryCatch] in H;
    [|discriminate H].
  exists r. split; [reflexivity|].
  destruct (imgOk r); cbn [negb await tryCatch] in H; [|discriminate H].
  split; [reflexivity|].
  destruct (imgBlob r) as [b'|e]; cbn [await tryCatch] in H; [|discriminate H].
  destruct (contentType r) as [|c ct].
  - destruct u as [|c0 u0].
    + cbn [tryCatch] in H. injection H as <- <-. split; [reflexivity|].
      intros Hn. congruence.
    + destruct (pathnameOf host (c0 :: u0)) as [p|];
        cbn [tryCatch] in H; [|discriminate H].
      destruct (extensionOfPath p); cbn [tryCatch] in H;
        injection H as <- <-;
        (split; [reflexivity | intros Hn; congruence]).
  - cbn [tryCatch] in H. injection H as <- <-. split; [reflexivity|].
    intros _. reflexivity.
Qed.

Lemma filter_partition_length {A : Type} (p : A -> bool) (l : list A) :
  List.length (filter p l) + List.length (filter (fun x => negb (p x)) l)
  = List.length l.
Proof.
  induction l as [|x l IH]; [reflexivity|].
  cbn [filter]. destruct (p x); cbn [negb List.length]; lia.
Qed.

Lemma named_url (st : State) (u : jsstring) (info : ImageInfo) :
  namesDistinct st -> mapGet u (imageMap st) = Some info ->
  originalUrl info = u.
Proof.
  intros (ks & Hn & _) Hget. apply mapGet_In in Hget.
  destruct (named_entry _ _ _ _ Hn Hget) as (k & Hk).
  exact (proj1 (proj2 Hk)).
Qed.

Lemma infoOf_urls (st : State) (l : list jsstring) :
  namesDistinct st ->
  (forall u, In u l -> exists info, mapGet u (imageMap st) = Some info) ->
  map originalUrl (flat_map (infoOf (imageMap st)) l) = l.
Proof.
  intros Hnames. induction l as [|u l IH]; intros H; [reflexivity|].
  cbn [flat_map]. rewrite map_app, IH by (intros v Hv; apply H; right; exact Hv).
  destruct (H u (or_introl eq_refl)) as (info & Hget).
  unfold infoOf. rewrite Hget. cbn [map app].
  rewrite (named_url _ _ _ Hnames Hget). reflexivity.
Qed.

Lemma batchDownloadImages_urls (urls : list jsstring) :
  NoDup urls ->
  attempts (fst (batchDownloadImages host freshState urls)) = urls
  /\ map originalUrl (snd (batchDownloadImages host freshState urls))
     = filter (downloads host) urls
  /\ map failedUrl (failedImages (fst (batchDownloadImages host freshState urls)))
     = filter (fails host) urls
  /\ List.length (snd (batchDownloadImages host freshState urls))
     + List.length (failedImages (fst (batchDownloadImages host freshState urls)))
     = List.length urls.
Proof.
  intros Hnd.
  destruct (batchDownloadImages_spec host urls Hnd)
    as (Ha & Hf & Hd & _ & Hin).
  pose proof (batchesFrom_names host (List.length urls) (js "未知页面")
                freshState urls [] namesDistinct_fresh) as Hnames.
  fold (batchDownloadImages host freshState urls) in Hnames.
  assert (Hurls : map originalUrl (snd (batchDownloadImages host freshState urls))
                  = filter (downloads host) urls).
  { rewrite Hd. apply (infoOf_urls _ _ Hnames).
    intros u Hu. apply filter_In in Hu as [Hu Hdl]. exact (Hin u Hu Hdl). }
  assert (Hfu : map failedUrl
                    (failedImages (fst (batchDownloadImages host freshState urls)))
                = filter (fails host) urls).
  { rewrite Hf, map_map. cbn [failureOf failureAt failedUrl]. apply map_id. }
  split; [exact Ha|]. split; [exact Hurls|]. split; [exact Hfu|].
  rewrite <- (length_map originalUrl), Hurls.
  rewrite <- (length_map failedUrl), Hfu.
  apply filter_partition_length.
Qed.

(** X10: distinct URLs, downloaded from a fresh state: every URL is requested
    once, in the order given; the images returned are those that
    downloaded and the failures recorded are those that did not, both in
    the order of the URLs, so that the two lists together account for
    every URL. *)
Theorem batchDownloadImages_accounts_for_every_url (urls : list jsstring) :
  NoDup urls ->
  attempts (fst (batchDownloadImages host freshState urls)) = urls
  /\ map originalUrl (snd (batchDownloadImages host freshState urls))
     = filter (downloads host) urls
  /\ map failedUrl (failedImages (fst (batchDownloadImages host freshState urls)))
     = filter (fails host) urls
  /\ List.length (snd (batchDownloadImages host freshState urls))
     + List.length (failedImages (fst (batchDownloadImages host freshState urls)))
     = List.length urls.
Proof.
  exact (batchDownloadImages_urls urls).
Qed.

End ImagePipelineFacts.

(* ------------------------------------------------------------------ *)
(** ** Images that are already in the map                               *)
(* ------------------------------------------------------------------ *)

Section CacheFacts.
Import Markdown Images.

Variable host : ImageHost.

Lemma flat_map_through {A B C : Type} (g : A -> B) (f : B -> list C)
      (l : list A) :
  flat_map (fun x => f (g x)) l = flat_map f (map g l).
Proof.
  induction l as [|x l IH]; [reflexivity|].
  cbn [flat_map map]. rewrite IH. reflexivity.
Qed.

Lemma collectResults_cached (pageTitle : jsstring)
      (cached : jsstring -> option ImageInfo)
      (rs : list (nat * CallbackResult)) (started : list (nat * jsstring)) :
  (forall pu, In pu started -> cached (snd pu) <> None) ->
  forall dl failed,
    collectResults pageTitle started cached rs dl failed
    = (dl ++ flat_map (fun pu => match cached (snd pu) with
                                 | Some info => [info]
                                 | None => []
                                 end) started,
       failed).
Proof.
  induction started as [|[pos u] started IH]; intros H dl failed.
  - cbn [collectResults flat_map]. rewrite app_nil_r. reflexivity.
  - cbn [collectResults flat_map snd].
    pose proof (H (pos, u) (or_introl eq_refl)) as Hu. cbn [snd] in Hu.
    destruct (cached u) as [info|]; [|congruence].
    rewrite IH by (intros pu Hpu; apply H; right; exact Hpu).
    rewrite <- app_assoc. reflexivity.
Qed.

Lemma runBatch_cached (pageTitle : jsstring) (st : State)
      (batch : list jsstring) (dl : list ImageInfo) :
  (forall u, In u batch -> mapGet u (imageMap st) <> None) ->
  runBatch host pageTitle st batch dl
  = (st, dl ++ flat_map (infoOf (imageMap st)) batch).
Proof.
  intros H. unfold runBatch.
  assert (Hpos : forall pu, In pu (positions batch) ->
                            mapGet (snd pu) (imageMap st) <> None).
  { intros [pos u] Hpu. apply H. unfold positions in Hpu.
    exact (in_combine_r _ _ _ _ Hpu). }
  rewrite filter_none.
  - cbn [map sortBy fold_right settleAll imageMap imageCounter failedImages
         attempts].
    rewrite collectResults_cached by exact Hpos.
    change (fun pu : nat * jsstring =>
              match mapGet (snd pu) (imageMap st) with
              | Some info => [info]
              | None => []
              end)
      with (fun pu : nat * jsstring => infoOf (imageMap st) (snd pu)).
    rewrite (flat_map_through snd (infoOf (imageMap st))), positions_snd.
    rewrite app_nil_r. destruct st. reflexivity.
  - intros pu Hpu. specialize (Hpos pu Hpu).
    destruct (mapGet (snd pu) (imageMap st)); [reflexivity | congruence].
Qed.

Lemma batchesFrom_cached (pageTitle : jsstring) (st : State) (fuel : nat) :
  forall (urls : list jsstring) (dl : list ImageInfo),
    List.length urls <= fuel ->
    (forall u, In u urls -> mapGet u (imageMap st) <> None) ->
    batchesFrom host fuel pageTitle st urls dl
    = (st, dl ++ flat_map (infoOf (imageMap st)) urls).
Proof.
  induction fuel as [|fuel IH]; intros urls dl Hlen H.
  - destruct urls; [|cbn [List.length] in Hlen; lia].
    cbn [batchesFrom flat_map]. rewrite app_nil_r. reflexivity.
  - destruct urls as [|u urls].
    + cbn [batchesFrom flat_map]. rewrite app_nil_r. reflexivity.
    + rewrite batchesFrom_step, runBatch_cached.
      * cbn [fst snd]. rewrite IH.
        -- rewrite <- app_assoc, <- flat_map_app, firstn_skipn. reflexivity.
        -- rewrite length_skipn. cbn [List.length] in Hlen |- *.
           unfold BATCH_SIZE. lia.
        -- intros v Hv. apply H. rewrite <- (firstn_skipn BATCH_SIZE).
           apply in_or_app. right. exact Hv.
      * intros v Hv. apply H. rewrite <- (firstn_skipn BATCH_SIZE).
        apply in_or_app. left. exact Hv.
Qed.

(** X11: URLs that [imageMap] already holds are not requested again: the
    fields of the generator stay as they are, and the images returned are
    the entries of the map, in the order of the URLs. *)
Theorem batchDownloadImages_uses_the_map (st : State) (urls : list jsstring) :
  (forall u, In u urls -> mapGet u (imageMap st) <> None) ->
  batchDownloadImages host st urls
  = (st, flat_map (infoOf (imageMap st)) urls).
Proof.
  intros H. unfold batchDownloadImages.
  rewrite batchesFrom_cached; [reflexivity | apply Nat.le_refl | exact H].
Qed.

End CacheFacts.

(* ------------------------------------------------------------------ *)
(** ** Rewriting once and twice                                         *)
(* ------------------------------------------------------------------ *)

Section RewriteMoreFacts.
Import Images.

Lemma replaceImageRefs_plain (u tpl x : jsstring) :
  no BANG x = true -> replaceImageRefs u tpl x = x.
Proof.
  intros H. unfold replaceImageRefs.
  pose proof (replaceFrom_text u tpl x H [] []) as E.
  rewrite app_nil_r in E. rewrite E. cbn [replaceFrom]. apply app_nil_r.
Qed.

(** X12: text without an exclamation mark holds no image reference and is left
    as it is, whatever was downloaded and whatever failed. *)
Theorem replaceImagePaths_keeps_plain_text (st : State) (md : jsstring) :
  no BANG md = true -> replaceImagePaths st md = md.
Proof.
  intros H. unfold replaceImagePaths.
  assert (H1 : fold_left
                 (fun content entry =>
                    replaceImageRefs (fst entry) (localTemplate (snd entry))
                                     content)
                 (imageMap st) md = md).
  { induction (imageMap st) as [|e m IH]; [reflexivity|].
    cbn [fold_left]. rewrite replaceImageRefs_plain by exact H. exact IH. }
  rewrite H1.
  induction (failedImages st) as [|f l IH]; [reflexivity|].
  cbn [fold_left]. rewrite replaceImageRefs_plain by exact H. exact IH.
Qed.

Lemma mapGet_path (st : State) (p : jsstring) :
  stateOK st -> pathOK p = true -> mapGet p (imageMap st) = None.
Proof.
  intros [He _] Hp. destruct (mapGet p (imageMap st)) as [info|] eqn:E;
    [|reflexivity].
  apply mapGet_In in E. rewrite Forall_forall in He.
  destruct (He _ E) as [Hu _]. cbn [fst] in Hu.
  pose proof (path_not_url p p Hp Hu) as Hne.
  rewrite (proj2 (str_eqb_eq p p) eq_refl) in Hne. discriminate Hne.
Qed.

Lemma find_path (st : State) (p : jsstring) :
  stateOK st -> pathOK p = true ->
  find (fun f => str_eqb (failedUrl f) p) (failedImages st) = None.
Proof.
  intros [_ Hf] Hp.
  destruct (find _ (failedImages st)) as [f|] eqn:E; [|reflexivity].
  apply find_some in E as [Hin E]. rewrite Forall_forall in Hf.
  destruct (Hf _ Hin) as [Hu _].
  pose proof (path_not_url p (failedUrl f) Hp Hu) as Hne.
  rewrite str_eqb_sym, E in Hne. discriminate Hne.
Qed.

Lemma rewriteSegment_twice (st : State) (seg : Segment) :
  stateOK st ->
  rewriteSegment st (rewriteSegment st seg) = rewriteSegment st seg.
Proof.
  intros Hst. destruct seg as [t|alt src|f alt]; try reflexivity.
  cbn [rewriteSegment].
  destruct (mapGet src (imageMap st)) as [info|] eqn:E.
  - assert (Hp : pathOK (localPath info) = true).
    { apply mapGet_In in E. destruct Hst as [He _].
      rewrite Forall_forall in He. exact (proj2 (He _ E)). }
    cbn [rewriteSegment].
    rewrite (mapGet_path st _ Hst Hp), (find_path st _ Hst Hp). reflexivity.
  - destruct (find _ (failedImages st)) as [f|] eqn:F; [reflexivity|].
    cbn [rewriteSegment]. rewrite E, F. reflexivity.
Qed.

Lemma rewriteSegment_ok (st : State) (seg : Segment) :
  stateOK st -> segmentOK seg = true ->
  segmentOK (rewriteSegment st seg) = true.
Proof.
  intros Hst Hseg. destruct seg as [t|alt src|f alt]; try exact Hseg.
  cbn [rewriteSegment segmentOK] in *.
  apply andb_true_iff in Hseg as [Halt Hsrc].
  destruct (mapGet src (imageMap st)) as [info|] eqn:E.
  - apply mapGet_In in E. destruct Hst as [He _].
    rewrite Forall_forall in He. destruct (He _ E) as [_ Hp].
    cbn [snd] in Hp. apply pathOK_parts in Hp as (Hb & Hr & _).
    cbn [segmentOK]. unfold srcOK. rewrite Halt, Hb, Hr. reflexivity.
  - destruct (find _ (failedImages st)) as [f|] eqn:F.
    + apply find_some in F as [Hin _]. destruct Hst as [_ Hf].
      rewrite Forall_forall in Hf. destruct (Hf _ Hin) as (Hu & Hb & _).
      cbn [segmentOK]. rewrite Halt, Hu, Hb. reflexivity.
    + cbn [segmentOK]. rewrite Halt, Hsrc. reflexivity.
Qed.

(** X13: rewriting the paths a second time changes nothing: a local path is
    not the URL of an image and the marked reference of a warning block
    is not matched again. *)
Theorem replaceImagePaths_idempotent (st : State) (doc : list Segment) :
  stateOK st -> forallb segmentOK doc = true ->
  replaceImagePaths st (replaceImagePaths st (renderAll doc))
  = replaceImagePaths st (renderAll doc).
Proof.
  intros Hst Hdoc.
  rewrite (replaceImagePaths_document st doc Hst Hdoc).
  rewrite replaceImagePaths_document.
  - rewrite map_map. f_equal. apply map_ext.
    intros seg. apply rewriteSegment_twice, Hst.
  - exact Hst.
  - rewrite forallb_forall in Hdoc |- *. intros seg Hseg.
    apply in_map_iff in Hseg as (seg0 & <- & Hin).
    apply rewriteSegment_ok; [exact Hst | exact (Hdoc _ Hin)].
Qed.

End RewriteMoreFacts.

(* ------------------------------------------------------------------ *)
(** ** Merging the references                                           *)
(* ------------------------------------------------------------------ *)

Section MergeFacts.
Import Images.

Lemma mapGet_snd_find (m : list (jsstring * ImageRef)) (u : jsstring) :
  keyed m ->
  find (fun i => str_eqb (refUrl i) u) (map snd m) = mapGet u m.
Proof.
  intros [Hk _]. induction m as [|[k i] m IH]; [reflexivity|].
  inversion Hk as [|? ? Hki Hk']; subst. cbn [fst snd] in Hki. subst k.
  cbn [map find mapGet snd].
  destruct (str_eqb (refUrl i) u); [reflexivity | exact (IH Hk')].
Qed.

Lemma merge_first (all : list ImageRef) (u : jsstring) :
  forall m, keyed m ->
    mapGet u (fold_left mergeStep all m)
    = match mapGet u m with
      | Some i => Some i
      | None => find (fun i => str_eqb (refUrl i) u) all
      end.
Proof.
  induction all as [|i all IH]; intros m Hm.
  - cbn [fold_left find]. destruct (mapGet u m); reflexivity.
  - cbn [fold_left find].
    rewrite IH by (apply mergeStep_keyed, Hm).
    unfold mergeStep. destruct (mapGet (refUrl i) m) as [j|] eqn:E.
    + destruct (mapGet u m) as [i'|] eqn:Eu; [reflexivity|].
      destruct (str_eqb (refUrl i) u) eqn:Ei; [|reflexivity].
      apply str_eqb_eq in Ei. congruence.
    + destruct (str_eqb (refUrl i) u) eqn:Ei.
      * apply str_eqb_eq in Ei. subst u.
        rewrite mapGet_mapSet_same, E. reflexivity.
      * rewrite mapGet_mapSet_other
          by (intros Heq; apply str_eqb_eq in Heq; congruence).
        reflexivity.
Qed.

(** X14: of the references to one URL the first is kept: looking a URL up in
    the merged list gives the first reference to it among all that were
    collected, with the alternative text, the context and the page title of
    that reference. *)
Theorem uniqueByUrl_keeps_first (all : list ImageRef) (u : jsstring) :
  find (fun i => str_eqb (refUrl i) u) (uniqueByUrl all)
  = find (fun i => str_eqb (refUrl i) u) all.
Proof.
  unfold uniqueByUrl.
  assert (Hk : keyed []) by (split; constructor).
  rewrite mapGet_snd_find by (apply merge_keyed, Hk).
  rewrite (merge_first all u [] Hk). reflexivity.
Qed.

End MergeFacts.

(* ------------------------------------------------------------------ *)
(** ** What a Markdown run delivers                                     *)
(* ------------------------------------------------------------------ *)

Section DeliveryFacts.
Import Discovery Fetch Images Generator.

Variables (w : World) (options : Options).

Local Abbreviation run := (generateCompleteMarkdown w options).
Local Abbreviation uniq := (uniqueByUrl (imagesOf w)).

Lemma downloadAll_images (l : list ImageRef) :
  NoDup (map refUrl l) ->
  map originalUrl (snd (downloadAll w l))
  = filter (downloads (imageHost w)) (map refUrl l).
Proof.
  intros Hnd. unfold downloadAll. destruct l as [|i0 l0] eqn:El.
  - reflexivity.
  - rewrite <- El in *. clear El i0 l0.
    destruct (batchDownloadImages_urls (imageHost w) (map refUrl l) Hnd)
      as (_ & Hd & _).
    destruct (batchDownloadImages (imageHost w) freshState (map refUrl l)).
    exact Hd.
Qed.

Lemma downloadAll_in_map (l : list ImageRef) (info : ImageInfo) :
  NoDup (map refUrl l) ->
  In info (snd (downloadAll w l)) ->
  mapGet (originalUrl info) (imageMap (fst (downloadAll w l))) = Some info.
Proof.
  intros Hnd. unfold downloadAll. destruct l as [|i0 l0] eqn:El.
  - intros [].
  - rewrite <- El in *. clear El i0 l0.
    destruct (batchDownloadImages_spec (imageHost w) (map refUrl l) Hnd)
      as (_ & _ & Hd & _ & _).
    pose proof (batchesFrom_names (imageHost w) (List.length (map refUrl l))
                  (js "未知页面") freshState (map refUrl l) []
                  namesDistinct_fresh) as Hn.
    fold (batchDownloadImages (imageHost w) freshState (map refUrl l)) in Hn.
    destruct (batchDownloadImages (imageHost w) freshState (map refUrl l))
      as [st dl].
    cbn [fst snd imageMap] in *. rewrite Hd. intros Hin.
    apply in_flat_map in Hin as (u & _ & Hin). unfold infoOf in Hin.
    destruct (mapGet u (imageMap st)) as [info'|] eqn:E; [|destruct Hin].
    destruct Hin as [<- | []].
    rewrite (named_url st u info' Hn E). exact E.
Qed.

(** The run, once the pages are known, by what the downloads return. *)
Lemma generateCompleteMarkdown_cases :
  Generator.discoverAllPages w <> [] ->
  run = match snd (downloadAll w uniq) with
        | [] =>
            mkRun (Fulfilled tt)
                  (Some (MarkdownFile
                           (optTitle options ++ js ".md")
                           (assembleMarkdown w options (pagesOf w) [])))
                  (map url (Generator.discoverAllPages w))
                  (fst (downloadAll w uniq))
        | dl =>
            match downloadMarkdownWithImages
                    w (fst (downloadAll w uniq))
                    (replaceImagePaths (fst (downloadAll w uniq))
                       (assembleMarkdown w options (pagesOf w) dl))
                    (optTitle options) dl with
            | Value a => mkRun (Fulfilled tt) (Some a)
                               (map url (Generator.discoverAllPages w))
                               (fst (downloadAll w uniq))
            | Throw e => mkRun (Rejected e) None
                               (map url (Generator.discoverAllPages w))
                               (fst (downloadAll w uniq))
            end
        end.
Proof.
  intros Hp. unfold generateCompleteMarkdown, imagesOf, pagesOf.
  rewrite requestedBy_all.
  destruct (Generator.discoverAllPages w) as [|l pages]; [congruence|].
  destruct (batchFetchPages_settles (pageHost w) (l :: pages)) as [contents ->].
  destruct (downloadAll w (uniqueByUrl (collectAll w contents))) as [st dl].
  cbn [fst snd]. destruct dl; reflexivity.
Qed.

(** X15: when no image downloads, because the pages have none or because every
    download fails, the run succeeds and delivers one Markdown file, named
    by the title as it is given: the text is not rewritten, so it holds no
    warning block, and no failure report is delivered, although the
    failures are recorded. *)
Theorem nothing_downloaded_plain_file :
  Generator.discoverAllPages w <> [] ->
  (forall i, In i uniq -> downloads (imageHost w) (refUrl i) = false) ->
  outcome run = Fulfilled tt
  /\ delivered run
     = Some (MarkdownFile (optTitle options ++ js ".md")
                          (assembleMarkdown w options (pagesOf w) []))
  /\ failedImages (finalState run) = map contextOf uniq.
Proof.
  intros Hp Hall.
  destruct (uniqueByUrl_spec (imagesOf w)) as (Hnd & _ & _).
  pose proof (downloadAll_images uniq Hnd) as Hd.
  rewrite filter_none in Hd.
  - apply map_eq_nil in Hd.
    rewrite (generateCompleteMarkdown_cases Hp), Hd. cbn [outcome delivered finalState].
    split; [reflexivity|]. split; [reflexivity|].
    destruct (downloadAll_spec w uniq Hnd) as (_ & Hf & _).
    rewrite Hf, filter_all; [reflexivity|].
    intros i Hi. unfold fails. rewrite (Hall i Hi). reflexivity.
  - intros u Hu. apply in_map_iff in Hu as (i & <- & Hi). exact (Hall i Hi).
Qed.

Lemma NoDup_map_injective {A B : Type} (f : A -> B) (l : list A) :
  NoDup l -> (forall a b, In a l -> In b l -> f a = f b -> a = b) ->
  NoDup (map f l).
Proof.
  induction l as [|x l IH]; intros Hnd Hinj; [constructor|].
  inversion Hnd as [|? ? Hx Hl]; subst. cbn [map]. constructor.
  - intros Hin. apply in_map_iff in Hin as (y & Hy & Hin).
    assert (y = x) by (apply Hinj; [right; exact Hin | left; reflexivity | exact Hy]).
    subst y. exact (Hx Hin).
  - apply IH; [exact Hl|]. intros a b Ha Hb. apply Hinj; right; assumption.
Qed.

Lemma fileNames_injective (st : State) (u v : jsstring) (i j : ImageInfo) :
  namesDistinct st ->
  mapGet u (imageMap st) = Some i -> mapGet v (imageMap st) = Some j ->
  fileName i = fileName j -> i = j.
Proof.
  intros Hn Hi Hj Hname.
  pose proof (namesDistinct_fileNames st Hn) as Hnd.
  apply mapGet_In in Hi. apply mapGet_In in Hj.
  revert Hnd Hi Hj. generalize (imageMap st) as m.
  induction m as [|e m IH]; intros Hnd Hi Hj; [destruct Hi|].
  cbn [map] in Hnd. inversion Hnd as [|? ? Hx Hl]; subst.
  destruct Hi as [Ei | Hi], Hj as [Ej | Hj].
  - rewrite Ei in Ej. injection Ej as _ E. exact E.
  - exfalso. apply Hx. rewrite Ei. cbn [snd]. rewrite Hname.
    apply (in_map (fun e => fileName (snd e)) m (v, j) Hj).
  - exfalso. apply Hx. rewrite Ej. cbn [snd]. rewrite <- Hname.
    apply (in_map (fun e => fileName (snd e)) m (u, i) Hi).
  - exact (IH Hl Hi Hj).
Qed.

(** X16: when at least one image downloads and the archive can be written, the
    run delivers an archive named by the sanitized title: it holds the
    rewritten Markdown under the same name, one file for every image that
    downloaded, under names that differ from one another, and the failure
    report exactly when some image failed. *)
Theorem archive_contents :
  Generator.discoverAllPages w <> [] ->
  (exists i, In i uniq /\ downloads (imageHost w) (refUrl i) = true) ->
  (exists t, zipResult (imageHost w) = Fulfilled t) ->
  exists markdown files report,
    delivered run
    = Some (ZipFile (sanitizeFileName (optTitle options) ++ js ".zip")
                    (sanitizeFileName (optTitle options) ++ js ".md")
                    markdown files report)
    /\ markdown
       = replaceImagePaths
           (finalState run)
           (assembleMarkdown w options (pagesOf w) (snd (downloadAll w uniq)))
    /\ List.length files
       = List.length (filter (fun i => downloads (imageHost w) (refUrl i)) uniq)
    /\ NoDup (map fst files)
    /\ (report = None <-> failedImages (finalState run) = []).
Proof.
  intros Hp (i0 & Hi0 & Hd0) (t & Hzip).
  destruct (uniqueByUrl_spec (imagesOf w)) as (Hnd & _ & _).
  pose proof (downloadAll_images uniq Hnd) as Hd.
  pose proof (downloadAll_in_map uniq) as Hin.
  destruct (downloadAll_spec w uniq Hnd) as (_ & _ & _ & _ & Hnames).
  rewrite (generateCompleteMarkdown_state w options).
  rewrite (generateCompleteMarkdown_cases Hp).
  destruct (snd (downloadAll w uniq)) as [|d dl] eqn:Edl.
  - exfalso. cbn [map] in Hd. symmetry in Hd.
    assert (H : In (refUrl i0) (filter (downloads (imageHost w)) (map refUrl uniq))).
    { apply filter_In. split; [apply in_map, Hi0 | exact Hd0]. }
    rewrite Hd in H. destruct H.
  - unfold downloadMarkdownWithImages. rewrite Hzip.
    cbn [await tryCatch delivered].
    eexists _, _, _. split; [reflexivity|]. split; [reflexivity|].
    split; [|split].
    + rewrite length_map, <- (length_map originalUrl), Hd.
      rewrite filter_map_swap, length_map. reflexivity.
    + rewrite map_map. cbn [fst].
      apply NoDup_map_injective.
      * assert (Hu : NoDup (map originalUrl (d :: dl))).
        { rewrite Hd. apply NoDup_filter, Hnd. }
        apply NoDup_map_inv in Hu. exact Hu.
      * intros a b Ha Hb.
        apply (fileNames_injective _ (originalUrl a) (originalUrl b) a b
                                   Hnames).
        -- apply Hin; [exact Hnd | exact Ha].
        -- apply Hin; [exact Hnd | exact Hb].
    + apply generateFailureReport_none.
Qed.

End DeliveryFacts.

(* ------------------------------------------------------------------ *)
(** ** The errors of a generation call                                  *)
(* ------------------------------------------------------------------ *)

Section GenerationFacts.
Import Discovery Fetch Images Generator.

Variable buildCompleteDocument : list Entry -> Options -> jsstring.
Variable windowOpen : bool.

Lemma downloadAll_nothing (w : World) :
  (forall i, In i (imagesOf w) -> downloads (imageHost w) (refUrl i) = false) ->
  snd (downloadAll w (uniqueByUrl (imagesOf w))) = [].
Proof.
  intros Hall.
  destruct (uniqueByUrl_spec (imagesOf w)) as (Hnd & _ & Hsub).
  pose proof (downloadAll_images w _ Hnd) as Hd.
  rewrite filter_none in Hd; [exact (map_eq_nil _ _ Hd)|].
  intros u Hu. apply in_map_iff in Hu as (i & <- & Hi).
  exact (Hall i (Hsub i Hi)).
Qed.

Lemma downloadAll_something (w : World) (i : ImageRef) :
  In i (imagesOf w) -> downloads (imageHost w) (refUrl i) = true ->
  snd (downloadAll w (uniqueByUrl (imagesOf w))) <> [].
Proof.
  intros Hi Hd Hnil.
  destruct (uniqueByUrl_spec (imagesOf w)) as (Hnd & Hcov & _).
  pose proof (downloadAll_images w _ Hnd) as Hm.
  rewrite Hnil in Hm. cbn [map] in Hm.
  assert (Hin : In (refUrl i)
                   (filter (downloads (imageHost w))
                           (map refUrl (uniqueByUrl (imagesOf w)))))
    by (apply filter_In; split; [exact (Hcov i Hi) | exact Hd]).
  rewrite <- Hm in Hin. destruct Hin.
Qed.

Lemma generateCompletePDF_cases (w : World) (options : Options) :
  Generator.discoverAllPages w <> [] ->
  generateCompletePDF buildCompleteDocument windowOpen w options
  = mkRun (Fulfilled tt)
          (if windowOpen
           then Some (PrintDocument (buildCompleteDocument (pagesOf w) options))
           else None)
          (map url (Generator.discoverAllPages w)) freshState.
Proof.
  intros Hp. unfold generateCompletePDF, pagesOf. rewrite requestedBy_all.
  destruct (Generator.discoverAllPages w) as [|l pages]; [congruence|].
  destruct (batchFetchPages_settles (pageHost w) (l :: pages)) as [contents ->].
  unfold createCompletePDF, createPDFPreviewWindow. cbn [async].
  reflexivity.
Qed.

(** C4 (as the code has it): without discovered pages both calls are
    rejected with the error of the empty page list, deliver nothing and
    have asked for no page.  With discovered pages both calls ask for every
    page; the print call is fulfilled, and it delivers the print document
    when the browser opens the window; the Markdown call is fulfilled
    when no image downloads, and when the archive can be written; when at
    least one image downloads and the archive cannot be written, it is
    rejected with the packaging error and delivers nothing.  No failure of
    a page or of an image rejects either call. *)
Theorem generation_fails_only_without_pages_or_archive
        (w : World) (options : Options) :
  (Generator.discoverAllPages w = [] ->
     generateCompleteMarkdown w options
     = mkRun (Rejected noPagesError) None [] freshState
     /\ generateCompletePDF buildCompleteDocument windowOpen w options
        = mkRun (Rejected noPagesError) None [] freshState)
  /\ (Generator.discoverAllPages w <> [] ->
        outcome (generateCompletePDF buildCompleteDocument windowOpen w options)
        = Fulfilled tt
        /\ delivered
             (generateCompletePDF buildCompleteDocument windowOpen w options)
           = (if windowOpen
              then Some (PrintDocument
                           (buildCompleteDocument (pagesOf w) options))
              else None)
        /\ requestedPages
             (generateCompletePDF buildCompleteDocument windowOpen w options)
           = map url (Generator.discoverAllPages w)
        /\ requestedPages (generateCompleteMarkdown w options)
           = map url (Generator.discoverAllPages w)
        /\ ((forall i, In i (imagesOf w) ->
                       downloads (imageHost w) (refUrl i) = false) ->
            outcome (generateCompleteMarkdown w options) = Fulfilled tt)
        /\ (forall u, zipResult (imageHost w) = Fulfilled u ->
                      outcome (generateCompleteMarkdown w options) = Fulfilled tt)
        /\ (forall e i,
              zipResult (imageHost w) = Rejected e ->
              In i (imagesOf w) ->
              downloads (imageHost w) (refUrl i) = true ->
              outcome (generateCompleteMarkdown w options)
              = Rejected (mkError (js "打包失败: " ++ message e))
              /\ delivered (generateCompleteMarkdown w options) = None)).
Proof.
  split.
  - intros E. unfold generateCompleteMarkdown, generateCompletePDF.
    rewrite E. split; reflexivity.
  - intros Hp. rewrite (generateCompletePDF_cases w options Hp).
    cbn [outcome delivered requestedPages].
    split; [reflexivity|]. split; [reflexivity|]. split; [reflexivity|].
    rewrite (generateCompleteMarkdown_cases w options Hp).
    split; [|split; [|split]].
    + destruct (snd (downloadAll w (uniqueByUrl (imagesOf w)))); [reflexivity|].
      cbv zeta. destruct (downloadMarkdownWithImages w _ _ _ _); reflexivity.
    + intros Hall. rewrite (downloadAll_nothing w Hall). reflexivity.
    + intros u Hz.
      destruct (snd (downloadAll w (uniqueByUrl (imagesOf w)))) as [|i0 dl];
        [reflexivity|].
      pose proof (downloadMarkdownWithImages_cases
                    w (fst (downloadAll w (uniqueByUrl (imagesOf w))))
                    (replaceImagePaths
                       (fst (downloadAll w (uniqueByUrl (imagesOf w))))
                       (assembleMarkdown w options (pagesOf w) (i0 :: dl)))
                    (optTitle options) (i0 :: dl)) as Hc.
      rewrite Hz in Hc. destruct Hc as [a Ha]. cbv zeta. rewrite Ha.
      reflexivity.
    + intros e i Hz Hi Hd.
      pose proof (downloadAll_something w i Hi Hd) as Hne.
      destruct (snd (downloadAll w (uniqueByUrl (imagesOf w)))) as [|i0 dl];
        [congruence|].
      pose proof (downloadMarkdownWithImages_cases
                    w (fst (downloadAll w (uniqueByUrl (imagesOf w))))
                    (replaceImagePaths
                       (fst (downloadAll w (uniqueByUrl (imagesOf w))))
                       (assembleMarkdown w options (pagesOf w) (i0 :: dl)))
                    (optTitle options) (i0 :: dl)) as Hc.
      rewrite Hz in Hc. cbv zeta. rewrite Hc. split; reflexivity.
Qed.

End GenerationFacts.

Lemma generation_fails_only_without_pages_or_archive_witness :
  Generator.generateCompleteMarkdown Sample.emptySite Sample.book
  = Generator.mkRun (Rejected Generator.noPagesError) None []
                    Images.freshState
  /\ Generator.outcome
       (Generator.generateCompleteMarkdown Sample.chartDownSite Sample.book)
     = Fulfilled tt
  /\ Generator.delivered
       (Generator.generateCompletePDF (fun _ _ => []) false
                                      Sample.chartDownSite Sample.book)
     = (if false
        then Some (Generator.PrintDocument
                     ((fun _ _ => [])
                        (Generator.pagesOf Sample.chartDownSite) Sample.book))
        else None)
  /\ Generator.outcome
       (Generator.generateCompleteMarkdown Sample.zipFailsSite Sample.book)
     = Rejected (mkError (js "打包失败: "
                          ++ message (mkError (js "out of memory")))).
Proof.
  assert (Hchart : Generator.discoverAllPages Sample.chartDownSite <> [])
    by (vm_compute; discriminate).
  assert (Hzip : Generator.discoverAllPages Sample.zipFailsSite <> [])
    by (vm_compute; discriminate).
  assert (Hin : In (Images.mkImageRef Sample.logoUrl (js "Logo") []
                                      (js "Welcome") (js "Intro"))
                   (Generator.imagesOf Sample.zipFailsSite))
    by (vm_compute; left; reflexivity).
  assert (Hdl : Images.downloads
                  (Generator.imageHost Sample.zipFailsSite)
                  (Images.refUrl
                     (Images.mkImageRef Sample.logoUrl (js "Logo") []
                                        (js "Welcome") (js "Intro")))
                = true)
    by (vm_compute; reflexivity).
  split; [|split; [|split]].
  - exact (proj1 (proj1 (generation_fails_only_without_pages_or_archive
                           (fun _ _ => []) false Sample.emptySite Sample.book)
                        eq_refl)).
  - destruct (proj2 (generation_fails_only_without_pages_or_archive
                       (fun _ _ => []) false Sample.chartDownSite Sample.book)
                    Hchart)
      as (_ & _ & _ & _ & _ & Hok & _).
    exact (Hok tt eq_refl).
  - destruct (proj2 (generation_fails_only_without_pages_or_archive
                       (fun _ _ => []) false Sample.chartDownSite Sample.book)
                    Hchart)
      as (_ & Hd & _).
    exact Hd.
  - destruct (proj2 (generation_fails_only_without_pages_or_archive
                       (fun _ _ => []) false Sample.zipFailsSite Sample.book)
                    Hzip)
      as (_ & _ & _ & _ & _ & _ & Hfail).
    exact (proj1 (Hfail (mkError (js "out of memory")) _ eq_refl Hin Hdl)).
Defined.

(** C4 (as stated) fails: pages are discovered, every page and every
    image is fetched, and the Markdown call is rejected because the archive
    cannot be written. *)
Lemma generation_rejected_with_pages :
  Generator.discoverAllPages Sample.zipFailsSite <> []
  /\ Generator.outcome
       (Generator.generateCompleteMarkdown Sample.zipFailsSite Sample.book)
     = Rejected (mkError (js "打包失败: out of memory")).
Proof.
  split; [vm_compute; discriminate | vm_compute; reflexivity].
Qed.

(* ------------------------------------------------------------------ *)
(** ** Shared images and failed images in the Markdown of a run         *)
(* ------------------------------------------------------------------ *)

Section ImageClaims.
Import Discovery Fetch Images Generator Report.

Variables (w : World) (options : Options).

Local Abbreviation run := (generateCompleteMarkdown w options).
Local Abbreviation st := (finalState (generateCompleteMarkdown w options)).
Local Abbreviation book := (assembledMarkdown w options).
Local Abbreviation rewritten := (replaceImagePaths st).

(** The archive of the run around the Markdown text [markdown]. *)
Local Abbreviation archive markdown report :=
  (ZipFile (sanitizeFileName (optTitle options) ++ js ".zip")
           (sanitizeFileName (optTitle options) ++ js ".md")
           markdown
           (map (fun i => (fileName i, blob i))
                (snd (downloadAll w (uniqueByUrl (imagesOf w)))))
           report).

Lemma imagesOf_pages (i : ImageRef) :
  In i (imagesOf w) -> Generator.discoverAllPages w <> [].
Proof.
  intros Hi E. unfold imagesOf, pagesOf in Hi. rewrite E in Hi. exact Hi.
Qed.

Lemma run_stateOK :
  (forall j, In j (imagesOf w) -> urlOK (refUrl j) = true) -> stateOK st.
Proof.
  intros Hok. rewrite generateCompleteMarkdown_state.
  destruct (uniqueByUrl_spec (imagesOf w)) as (Hnd & _ & _).
  apply downloadAll_stateOK; [exact Hnd | apply urlOK_all, Hok].
Qed.

Lemma run_archive (i : ImageRef) (t : unit) :
  In i (imagesOf w) -> downloads (imageHost w) (refUrl i) = true ->
  zipResult (imageHost w) = Fulfilled t ->
  delivered run
  = Some (archive (rewritten book) (generateFailureReport (imageHost w) st)).
Proof.
  intros Hi Hd Hz.
  pose proof (downloadAll_something w i Hi Hd) as Hne.
  rewrite (generateCompleteMarkdown_state w options).
  rewrite (generateCompleteMarkdown_cases w options (imagesOf_pages i Hi)).
  unfold assembledMarkdown.
  destruct (snd (downloadAll w (uniqueByUrl (imagesOf w)))) as [|d dl];
    [congruence|].
  unfold downloadMarkdownWithImages. rewrite Hz. reflexivity.
Qed.


(** C2 (as the code has it): in every run each image URL that some page
    refers to is requested once, however many pages refer to it.  When the
    download of a URL fails, [imageMap] holds no local path for it.  When
    it succeeds, [imageMap] holds one local path [./images/<file name>]
    for it; when the archive can be written, the Markdown that is delivered
    is the assembled text rewritten by [replaceImagePaths]; and when no
    image URL of the run holds an exclamation mark, a closing parenthesis,
    a space or a dollar sign or begins with [./images/], that rewriting
    puts the one local path in the place of the URL in every reference
    [![alt](url)] whose alternative text is free of closing brackets,
    whatever text stands around it: two references to the URL in the
    assembled text are two references to the one local path in the
    Markdown that is delivered. *)
Theorem shared_image_downloaded_once_and_rewritten_alike :
  NoDup (attempts st)
  /\ (forall i, In i (imagesOf w) -> In (refUrl i) (attempts st))
  /\ (forall i, In i (imagesOf w) ->
        downloads (imageHost w) (refUrl i) = false ->
        mapGet (refUrl i) (imageMap st) = None)
  /\ (forall i, In i (imagesOf w) ->
        downloads (imageHost w) (refUrl i) = true ->
        exists info,
          mapGet (refUrl i) (imageMap st) = Some info
          /\ localPath info = js "./images/" ++ fileName info
          /\ (forall t, zipResult (imageHost w) = Fulfilled t ->
                delivered run
                = Some (archive (rewritten book)
                                (generateFailureReport (imageHost w) st)))
          /\ ((forall j, In j (imagesOf w) -> urlOK (refUrl j) = true) ->
              (forall a alt b,
                  no RBRACKET alt = true ->
                  rewritten (a ++ imageRef alt (refUrl i) ++ b)
                  = rewritten a ++ imageRef alt (localPath info)
                    ++ rewritten b)
              /\ (forall t a alt1 b alt2 c,
                    zipResult (imageHost w) = Fulfilled t ->
                    no RBRACKET alt1 = true -> no RBRACKET alt2 = true ->
                    book = a ++ imageRef alt1 (refUrl i) ++ b
                           ++ imageRef alt2 (refUrl i) ++ c ->
                    delivered run
                    = Some (archive
                              (rewritten a ++ imageRef alt1 (localPath info)
                               ++ rewritten b
                               ++ imageRef alt2 (localPath info)
                               ++ rewritten c)
                              (generateFailureReport (imageHost w) st))))).
Proof.
  destruct (uniqueByUrl_spec (imagesOf w)) as (Hnd & Hcov & Hsub).
  destruct (downloadAll_spec w _ Hnd) as (Ha & _ & Hk & He & (ks & Hn & _)).
  rewrite <- (generateCompleteMarkdown_state w options) in Ha, Hk, He, Hn.
  split; [rewrite Ha; exact Hnd|].
  split; [intros i Hi; rewrite Ha; exact (Hcov i Hi)|].
  split.
  - intros i Hi Hd.
    destruct (mapGet (refUrl i) (imageMap st)) as [info|] eqn:E; [|reflexivity].
    destruct (Hk _ _ E) as [_ Hd']. congruence.
  - intros i Hi Hd. destruct (He _ (Hcov i Hi) Hd) as (info & Hget).
    exists info. split; [exact Hget|]. split.
    { destruct (named_entry _ _ _ _ Hn (mapGet_In _ _ _ Hget)) as (k & Hk').
      exact (proj1 (proj2 (proj2 Hk'))). }
    split; [intros t Hz; exact (run_archive i t Hi Hd Hz)|].
    intros Hok. pose proof (run_stateOK Hok) as Hst.
    assert (Hlaw : forall a alt b,
               no RBRACKET alt = true ->
               rewritten (a ++ imageRef alt (refUrl i) ++ b)
               = rewritten a ++ imageRef alt (localPath info) ++ rewritten b).
    { intros a alt b Halt.
      exact (replaceImagePaths_local st _ info a alt b Hst Hget Halt). }
    split; [exact Hlaw|].
    intros t a alt1 b alt2 c Hz H1 H2 Hbook.
    rewrite (run_archive i t Hi Hd Hz), Hbook.
    rewrite (Hlaw a alt1 _ H1), (Hlaw b alt2 c H2). reflexivity.
Qed.


End ImageClaims.

Lemma eager_urls_ok :
  forall j, In j (Generator.imagesOf Cases.eagerSite) ->
            Images.urlOK (Images.refUrl j) = true.
Proof.
  intros j Hj. vm_compute in Hj.
  repeat (destruct Hj as [<-|Hj]; [reflexivity|]). destruct Hj.
Qed.

Lemma shared_image_downloaded_once_and_rewritten_alike_witness :
  exists info,
    Images.mapGet (Images.refUrl Sample.logoRef)
      (Images.imageMap
         (Generator.finalState
            (Generator.generateCompleteMarkdown Cases.eagerSite Sample.book)))
    = Some info
    /\ Images.localPath info = js "./images/" ++ Images.fileName info
    /\ Sample.finalMarkdown
         (Generator.generateCompleteMarkdown Cases.eagerSite Sample.book)
       = Images.replaceImagePaths
           (Generator.finalState
              (Generator.generateCompleteMarkdown Cases.eagerSite Sample.book))
           Cases.upToLogo
         ++ Images.imageRef (js "Logo") (Images.localPath info)
         ++ Images.replaceImagePaths
              (Generator.finalState
                 (Generator.generateCompleteMarkdown Cases.eagerSite Sample.book))
              Cases.betweenLogos
         ++ Images.imageRef (js "Logo again") (Images.localPath info)
         ++ Images.replaceImagePaths
              (Generator.finalState
                 (Generator.generateCompleteMarkdown Cases.eagerSite Sample.book))
              Cases.behindLogos.
Proof.
  assert (Hin : In Sample.logoRef (Generator.imagesOf Cases.eagerSite))
    by (vm_compute; left; reflexivity).
  assert (Hd : Images.downloads (Generator.imageHost Cases.eagerSite)
                                (Images.refUrl Sample.logoRef) = true)
    by (vm_compute; reflexivity).
  assert (Hz : Images.zipResult (Generator.imageHost Cases.eagerSite)
               = Fulfilled tt) by reflexivity.
  assert (H1 : Images.no Images.RBRACKET (js "Logo") = true)
    by (vm_compute; reflexivity).
  assert (H2 : Images.no Images.RBRACKET (js "Logo again") = true)
    by (vm_compute; reflexivity).
  assert (Hbook : Generator.assembledMarkdown Cases.eagerSite Sample.book
                  = Cases.upToLogo
                    ++ Images.imageRef (js "Logo") (Images.refUrl Sample.logoRef)
                    ++ Cases.betweenLogos
                    ++ Images.imageRef (js "Logo again")
                                       (Images.refUrl Sample.logoRef)
                    ++ Cases.behindLogos)
    by (vm_compute; reflexivity).
  destruct (proj2 (proj2 (proj2 (shared_image_downloaded_once_and_rewritten_alike
                                   Cases.eagerSite Sample.book)))
                  Sample.logoRef Hin Hd) as (info & Hget & Hpath & _ & Hrw).
  exists info. split; [exact Hget|]. split; [exact Hpath|].
  unfold Sample.finalMarkdown.
  rewrite (proj2 (Hrw eager_urls_ok) tt _ _ _ _ _ Hz H1 H2 Hbook).
  reflexivity.
Defined.


(* ------------------------------------------------------------------ *)
(** ** File names and anchors                                           *)
(* ------------------------------------------------------------------ *)

Section NamingFacts.
Import Markdown Generator Naming.

Lemma forallb_dropWhile (q p : char -> bool) (s : jsstring) :
  forallb q s = true -> forallb q (dropWhile p s) = true.
Proof.
  induction s as [|c s IH]; intros H; [reflexivity|].
  cbn [dropWhile]. destruct (p c); [|exact H].
  cbn [forallb] in H. apply andb_true_iff in H as [_ H]. exact (IH H).
Qed.

Lemma forallb_rev (q : char -> bool) (s : jsstring) :
  forallb q (rev s) = forallb q s.
Proof.
  induction s as [|c s IH]; [reflexivity|].
  cbn [rev forallb]. rewrite forallb_app, IH. cbn [forallb].
  rewrite andb_true_r. apply andb_comm.
Qed.

Lemma forallb_trim (q : char -> bool) (s : jsstring) :
  forallb q s = true -> forallb q (trim s) = true.
Proof.
  intros H. unfold trim, trimEnd, trimStart.
  rewrite forallb_rev. apply forallb_dropWhile.
  rewrite forallb_rev. apply forallb_dropWhile, H.
Qed.

Lemma forallb_firstn (q : char -> bool) (n : nat) (s : jsstring) :
  forallb q s = true -> forallb q (firstn n s) = true.
Proof.
  revert s. induction n as [|n IH]; intros s H; [reflexivity|].
  destruct s as [|c s]; [reflexivity|].
  cbn [firstn forallb] in *. apply andb_true_iff in H as [Hc H].
  rewrite Hc. exact (IH s H).
Qed.

Lemma forallb_collapseFrom (q : char -> bool) (s : jsstring) :
  q SPACE = true -> forallb q s = true ->
  forall inRun, forallb q (collapseFrom inRun s) = true.
Proof.
  intros Hs. induction s as [|c s IH]; intros H inRun; [reflexivity|].
  cbn [forallb] in H. apply andb_true_iff in H as [Hc H].
  cbn [collapseFrom]. destruct (isSpace c).
  - destruct inRun; [exact (IH H true)|].
    cbn [forallb]. rewrite Hs. exact (IH H true).
  - cbn [forallb]. rewrite Hc. exact (IH H false).
Qed.

Lemma forallb_collapseDashes (q : char -> bool) (s : jsstring) :
  forallb q s = true ->
  forall inRun, forallb q (collapseDashes inRun s) = true.
Proof.
  induction s as [|c s IH]; intros H inRun; [reflexivity|].
  cbn [forallb] in H. apply andb_true_iff in H as [Hc H].
  cbn [collapseDashes]. destruct (ceqb c 45%N).
  - destruct inRun; [exact (IH H true)|].
    cbn [forallb]. rewrite Hc. exact (IH H true).
  - cbn [forallb]. rewrite Hc. exact (IH H false).
Qed.

(** X17: a sanitized file name is never empty, is at most 100 characters long
    and holds none of the characters that Windows forbids in a file
    name. *)
Theorem sanitizeFileName_safe (filename : jsstring) :
  sanitizeFileName filename <> []
  /\ List.length (sanitizeFileName filename) <= 100
  /\ forallb (fun c => negb (isUnsafeChar c)) (sanitizeFileName filename)
     = true.
Proof.
  unfold sanitizeFileName.
  set (safe0 := trim (collapseDashes false
                        (collapseSpaces
                           (map (fun c => if isUnsafeChar c then 45%N else c)
                                filename)))).
  assert (H0 : forallb (fun c => negb (isUnsafeChar c)) safe0 = true).
  { apply forallb_trim, forallb_collapseDashes.
    apply forallb_collapseFrom; [reflexivity|].
    apply forallb_forall. intros c Hc.
    apply in_map_iff in Hc as (d & <- & _).
    destruct (isUnsafeChar d) eqn:E; [reflexivity | rewrite E; reflexivity]. }
  set (safe := if 100 <? List.length safe0 then firstn 100 safe0 else safe0).
  assert (Hlen : List.length safe <= 100).
  { unfold safe. destruct (100 <? List.length safe0) eqn:E.
    - apply firstn_le_length.
    - apply Nat.ltb_ge in E. exact E. }
  assert (Hsafe : forallb (fun c => negb (isUnsafeChar c)) safe = true).
  { unfold safe. destruct (100 <? List.length safe0);
      [apply forallb_firstn|]; exact H0. }
  destruct safe as [|c s]; cbn [orElse].
  - split; [discriminate|]. split; [vm_compute; lia | reflexivity].
  - split; [discriminate|]. split; [exact Hlen | exact Hsafe].
Qed.

Lemma dropEnd_head (p : char -> bool) (s : jsstring) :
  beginsWith p s = false ->
  beginsWith p (rev (dropWhile p (rev s))) = false.
Proof.
  intros H.
  destruct (dropWhile_suffix p (rev s)) as [pre E].
  remember (dropWhile p (rev s)) as d eqn:Ed. clear Ed.
  assert (Es : s = rev d ++ rev pre).
  { rewrite <- rev_app_distr, <- E, rev_involutive. reflexivity. }
  destruct (rev d) as [|c r] eqn:Er; [reflexivity|].
  rewrite Es in H. cbn [app beginsWith] in *. exact H.
Qed.

Lemma lowerUnit_anchor (c d : char) :
  In d (lowerUnit c) -> isWordChar d = true -> anchorChar d = true.
Proof.
  unfold lowerUnit, isWordChar, anchorChar. intros Hin Hw.
  destruct ((65 <=? c) && (c <=? 90))%N eqn:Eu.
  - destruct Hin as [<- | []].
    apply andb_true_iff in Eu as [H1 H2].
    apply N.leb_le in H1. apply N.leb_le in H2.
    assert (H3 : (97 <=? c + 32)%N = true) by (apply N.leb_le; lia).
    assert (H4 : (c + 32 <=? 122)%N = true) by (apply N.leb_le; lia).
    rewrite H3, H4. rewrite orb_true_r. reflexivity.
  - destruct (c =? 8490)%N; [destruct Hin as [<- | []]; reflexivity|].
    destruct (c =? 304)%N;
      [destruct Hin as [<- | [<- | []]]; [reflexivity | discriminate Hw]|].
    destruct Hin as [<- | []].
    destruct ((48 <=? c) && (c <=? 57))%N; [reflexivity|].
    destruct ((97 <=? c) && (c <=? 122))%N;
      [rewrite orb_true_r; reflexivity|].
    destruct (c =? 95)%N; [rewrite orb_true_r; reflexivity|].
    rewrite !orb_false_r in Hw. cbn [orb] in Hw. congruence.
Qed.

Lemma dashRuns_anchor (s : jsstring) :
  (forall d, In d s -> isWordChar d = true -> anchorChar d = true) ->
  forall inRun, forallb anchorChar (dashRuns inRun s) = true.
Proof.
  induction s as [|c s IH]; intros H inRun; [reflexivity|].
  cbn [dashRuns].
  assert (Hs : forall d, In d s -> isWordChar d = true -> anchorChar d = true)
    by (intros d Hd; apply H; right; exact Hd).
  destruct (isWordChar c) eqn:Hw.
  - cbn [forallb]. rewrite (H c (or_introl eq_refl) Hw). exact (IH Hs false).
  - destruct inRun; [exact (IH Hs true)|].
    cbn [forallb]. rewrite (IH Hs true). reflexivity.
Qed.

Lemma dashRuns_no_word (s : jsstring) :
  forallb (fun c => negb (isWordChar c)) s = true ->
  forall inRun, forallb isDash (dashRuns inRun s) = true.
Proof.
  induction s as [|c s IH]; intros H inRun; [reflexivity|].
  cbn [forallb] in H. apply andb_true_iff in H as [Hc H].
  cbn [dashRuns]. apply negb_true_iff in Hc. rewrite Hc.
  destruct inRun; [exact (IH H true)|].
  cbn [forallb]. rewrite (IH H true). reflexivity.
Qed.

Lemma dropWhile_all (p : char -> bool) (s : jsstring) :
  forallb p s = true -> dropWhile p s = [].
Proof.
  induction s as [|c s IH]; intros H; [reflexivity|].
  cbn [forallb] in H. apply andb_true_iff in H as [Hc H].
  cbn [dropWhile]. rewrite Hc. exact (IH H).
Qed.

(** X18: the anchor of an entry of the table of contents is made of lower-case
    letters, digits, underscores and hyphens, and neither begins nor ends
    with a hyphen.  A title whose trimmed form in lower case holds no
    letter, digit or underscore of ASCII, a Chinese title for one, gets
    the empty anchor. *)
Theorem tocAnchor_shape (title : jsstring) :
  forallb anchorChar (tocAnchor title) = true
  /\ beginsWith isDash (tocAnchor title) = false
  /\ endsWith isDash (tocAnchor title) = false
  /\ (forallb (fun c => negb (isWordChar c)) (toLowerCase (trim title)) = true ->
      tocAnchor title = []).
Proof.
  unfold tocAnchor. split; [|split; [|split]].
  - rewrite forallb_rev. apply forallb_dropWhile.
    rewrite forallb_rev. apply forallb_dropWhile.
    apply dashRuns_anchor. intros d Hd.
    unfold toLowerCase in Hd. apply in_flat_map in Hd as (c & _ & Hd).
    exact (lowerUnit_anchor c d Hd).
  - apply dropEnd_head, dropWhile_head.
  - unfold endsWith. rewrite rev_involutive. apply dropWhile_head.
  - intros H. rewrite (dropWhile_all isDash (dashRuns false _)).
    + reflexivity.
    + apply dashRuns_no_word, H.
Qed.

End NamingFacts.

(* ------------------------------------------------------------------ *)
(** ** The pages of the failure report                                  *)
(* ------------------------------------------------------------------ *)

Section ReportGroupFacts.
Import Images Report.

Lemma mapSet_keys {V : Type} (k : jsstring) (v v0 : V)
      (m : list (jsstring * V)) :
  mapGet k m = Some v0 -> map fst (mapSet k v m) = map fst m.
Proof.
  induction m as [|[k' v'] m IH]; cbn [mapGet]; [discriminate|].
  cbn [mapSet]. destruct (str_eqb k' k); [reflexivity|].
  intros H. cbn [map fst]. rewrite (IH H). reflexivity.
Qed.


Lemma onPage_other (t : jsstring) (img : FailedImage) :
  t <> pageOf img -> onPage t img = false.
Proof.
  intros H. unfold onPage. destruct (str_eqb (pageOf img) t) eqn:E;
    [|reflexivity].
  apply str_eqb_eq in E. congruence.
Qed.





Lemma filter_filter_page (t t' : jsstring) (seen : list FailedImage) :
  filter (onPage t) (filter (onPage t') seen)
  = if str_eqb t' t then filter (onPage t) seen else [].
Proof.
  induction seen as [|i seen IH]; [destruct (str_eqb t' t); reflexivity|].
  cbn [filter]. destruct (onPage t' i) eqn:E'.
  - cbn [filter]. rewrite IH. unfold onPage in E'. apply str_eqb_eq in E'.
    destruct (str_eqb t' t) eqn:Et.
    + reflexivity.
    + rewrite onPage_other; [reflexivity|].
      intros ->. rewrite E' in Et.
      rewrite (proj2 (str_eqb_eq t' t') eq_refl) in Et. discriminate Et.
  - rewrite IH. destruct (str_eqb t' t) eqn:Et; [|reflexivity].
    apply str_eqb_eq in Et. subst t'. rewrite E'. reflexivity.
Qed.

Lemma grouped_page (seen : list FailedImage) (t : jsstring) :
  forall groups,
    NoDup (map fst groups) ->
    (forall t' imgs, In (t', imgs) groups -> imgs = filter (onPage t') seen) ->
    filter (onPage t) (flat_map snd groups)
    = if existsb (fun k => str_eqb k t) (map fst groups)
      then filter (onPage t) seen else [].
Proof.
  induction groups as [|[k imgs] groups IH]; intros Hnd Hg; [reflexivity|].
  cbn [map fst] in Hnd. inversion Hnd as [|? ? Hk Hm]; subst.
  cbn [flat_map snd map fst existsb]. rewrite filter_app.
  rewrite IH; [|exact Hm | intros t' x Hx; apply Hg; right; exact Hx].
  rewrite (Hg k imgs (or_introl eq_refl)), filter_filter_page.
  destruct (str_eqb k t) eqn:E.
  - apply str_eqb_eq in E. subst k. cbn [orb].
    destruct (existsb (fun k => str_eqb k t) (map fst groups)) eqn:Ex.
    + exfalso. apply existsb_exists in Ex as (k & Hin & Ek).
      apply str_eqb_eq in Ek. subst k. exact (Hk Hin).
    + apply app_nil_r.
  - reflexivity.
Qed.


End ReportGroupFacts.

(* ------------------------------------------------------------------ *)
(** ** The line numbers of code blocks                                  *)
(* ------------------------------------------------------------------ *)

Section CodeBlockFacts.
Import Markdown CodeBlocks.

Lemma splitLines_nonempty (s : jsstring) : splitLines s <> [].
Proof.
  destruct s as [|c s]; [discriminate|].
  cbn [splitLines]. destruct (ceqb c LF); [discriminate|].
  destruct (splitLines s); discriminate.
Qed.

Lemma join_cons (sep x : jsstring) (rest : list jsstring) :
  rest <> [] -> join sep (x :: rest) = x ++ sep ++ join sep rest.
Proof. destruct rest; [congruence | reflexivity]. Qed.

Lemma join_splitLines (s : jsstring) : join [LF] (splitLines s) = s.
Proof.
  induction s as [|c s IH]; [reflexivity|].
  cbn [splitLines]. destruct (ceqb c LF) eqn:E.
  - apply ceqb_eq in E. subst c.
    rewrite join_cons by apply splitLines_nonempty. rewrite IH. reflexivity.
  - pose proof (splitLines_nonempty s) as Hne.
    destruct (splitLines s) as [|line rest]; [congruence|].
    destruct rest as [|r rest].
    + cbn [join] in *. rewrite IH. reflexivity.
    + rewrite (join_cons [LF] (c :: line)) by discriminate.
      rewrite (join_cons [LF] line) in IH by discriminate.
      cbn [app] in *. rewrite IH. reflexivity.
Qed.

Lemma splitLines_line (line : jsstring) :
  oneLine line -> splitLines line = [line].
Proof.
  unfold oneLine. induction line as [|c line IH]; intros H; [reflexivity|].
  cbn [splitLines]. destruct (ceqb c LF) eqn:E.
  - apply ceqb_eq in E. subst c. exfalso. apply H. left. reflexivity.
  - rewrite IH; [reflexivity|]. intros Hin. apply H. right. exact Hin.
Qed.

Lemma splitLines_app (line rest : jsstring) :
  oneLine line ->
  splitLines (line ++ LF :: rest) = line :: splitLines rest.
Proof.
  unfold oneLine. induction line as [|c line IH]; intros H.
  - cbn [app splitLines]. reflexivity.
  - cbn [app splitLines]. destruct (ceqb c LF) eqn:E.
    + apply ceqb_eq in E. subst c. exfalso. apply H. left. reflexivity.
    + rewrite IH; [reflexivity|]. intros Hin. apply H. right. exact Hin.
Qed.

Lemma splitLines_oneLine (s : jsstring) : Forall oneLine (splitLines s).
Proof.
  induction s as [|c s IH]; [repeat constructor; intros []|].
  cbn [splitLines]. destruct (ceqb c LF) eqn:E.
  - constructor; [intros [] | exact IH].
  - destruct (splitLines s) as [|line rest].
    + constructor; [|constructor]. intros [-> | []].
      unfold ceqb in E. rewrite N.eqb_refl in E. discriminate E.
    + inversion IH as [|? ? Hl Hr]; subst. constructor; [|exact Hr].
      intros [-> | Hin]; [|exact (Hl Hin)].
      unfold ceqb in E. rewrite N.eqb_refl in E. discriminate E.
Qed.

Lemma splitLines_join (lines : list jsstring) :
  lines <> [] -> Forall oneLine lines ->
  splitLines (join [LF] lines) = lines.
Proof.
  induction lines as [|line rest IH]; intros Hne H; [congruence|].
  inversion H as [|? ? Hl Hr]; subst.
  destruct rest as [|r rest].
  - cbn [join]. apply splitLines_line, Hl.
  - rewrite join_cons by discriminate. cbn [app].
    rewrite splitLines_app by exact Hl.
    rewrite IH; [reflexivity | discriminate | exact Hr].
Qed.

Lemma dropWhile_In (p : char -> bool) (s : jsstring) (c : char) :
  In c (dropWhile p s) -> In c s.
Proof.
  induction s as [|d s IH]; [intros []|].
  cbn [dropWhile]. destruct (p d); [|intros H; exact H].
  intros H. right. exact (IH H).
Qed.

Lemma stripLineNumber_oneLine (line : jsstring) :
  oneLine line -> oneLine (stripLineNumber line).
Proof.
  unfold oneLine, stripLineNumber. intros H.
  destruct (takeWhile isDigit (dropWhile isSpace line)); [exact H|].
  destruct (beginsWith isSeparator _); [|exact H].
  intros Hin. apply H.
  apply dropWhile_In in Hin. apply dropWhile_In in Hin.
  apply dropWhile_In in Hin. exact Hin.
Qed.

Lemma stripLineNumber_unnumbered (line : jsstring) :
  unnumbered line -> stripLineNumber line = line.
Proof.
  unfold unnumbered, stripLineNumber. intros H.
  destruct (dropWhile isSpace line) as [|c r]; [reflexivity|].
  cbn [beginsWith] in H. cbn [takeWhile]. rewrite H. reflexivity.
Qed.

(** X20: cleaning the text of a code block never changes the number of its
    lines, and it leaves the text as it is when no line begins, behind
    its indentation, with a digit. *)
Theorem extractCleanCodeText_lines (textContent : jsstring) :
  List.length (splitLines (extractCleanCodeText textContent))
  = List.length (splitLines textContent)
  /\ (Forall unnumbered (splitLines textContent) ->
      extractCleanCodeText textContent = textContent).
Proof.
  unfold extractCleanCodeText. split.
  - rewrite splitLines_join.
    + apply length_map.
    + pose proof (splitLines_nonempty textContent) as H.
      destruct (splitLines textContent); [congruence | discriminate].
    + pose proof (splitLines_oneLine textContent) as H.
      induction H as [|l ls Hl _ IH]; [constructor|].
      cbn [map]. constructor; [apply stripLineNumber_oneLine, Hl | exact IH].
  - intros H.
    assert (E : map stripLineNumber (splitLines textContent)
                = splitLines textContent).
    { induction H as [|l ls Hl _ IH]; [reflexivity|].
      cbn [map]. rewrite IH, (stripLineNumber_unnumbered l Hl). reflexivity. }
    rewrite E. apply join_splitLines.
Qed.

Lemma numberToString_nonempty (n : nat) : numberToString n <> [].
Proof.
  unfold numberToString.
  assert (H : Nat.to_uint n <> Decimal.Nil).
  { rewrite <- (Unsigned.of_to n) at 1. rewrite Unsigned.to_of.
    unfold Decimal.unorm. destruct (Decimal.nzhead (Nat.to_uint n));
      discriminate. }
  destruct (Nat.to_uint n); [congruence| | | | | | | | | |]; discriminate.
Qed.

Lemma digit_not_space (c : char) : isDigit c = true -> isSpace c = false.
Proof.
  unfold isDigit, isSpace. intros H. apply andb_true_iff in H as [H1 H2].
  apply N.leb_le in H1. apply N.leb_le in H2.
  repeat (apply orb_false_iff; split);
    first [ apply N.eqb_neq; lia
          | apply andb_false_iff; left; apply N.leb_gt; lia
          | apply andb_false_iff; right; apply N.leb_gt; lia ].
Qed.

Lemma dropWhile_repeat (p : char -> bool) (c : char) (n : nat) (s : jsstring) :
  p c = true -> dropWhile p (repeat c n ++ s) = dropWhile p s.
Proof.
  intros H. induction n as [|n IH]; [reflexivity|].
  cbn [repeat app dropWhile]. rewrite H. exact IH.
Qed.

Lemma dropWhile_app_all (p : char -> bool) (a b : jsstring) :
  forallb p a = true -> dropWhile p (a ++ b) = dropWhile p b.
Proof.
  induction a as [|c a IH]; intros H; [reflexivity|].
  cbn [forallb] in H. apply andb_true_iff in H as [Hc H].
  cbn [app dropWhile]. rewrite Hc. exact (IH H).
Qed.

Lemma stripLineNumber_numbered (i : nat) (line : jsstring) :
  flush line -> stripLineNumber (lineNumber i ++ js "  " ++ line) = line.
Proof.
  unfold flush. intros H. unfold stripLineNumber, lineNumber.
  pose proof (numberToString_digits (S i)) as Hd.
  pose proof (numberToString_nonempty (S i)) as Hn.
  rewrite <- app_assoc, dropWhile_repeat by reflexivity.
  destruct (numberToString (S i)) as [|d ds] eqn:E; [congruence|].
  assert (Hs : dropWhile isSpace ((d :: ds) ++ js "  " ++ line)
               = (d :: ds) ++ js "  " ++ line).
  { cbn [forallb] in Hd. apply andb_true_iff in Hd as [Hd _].
    cbn [app dropWhile]. rewrite (digit_not_space d Hd). reflexivity. }
  rewrite Hs.
  rewrite (takeWhile_app isDigit (d :: ds) (js "  " ++ line) Hd eq_refl).
  rewrite (dropWhile_app_all isDigit (d :: ds) _ Hd).
  change (js "  " ++ line) with (SPACE :: SPACE :: line).
  cbn [dropWhile beginsWith].
  change (isDigit SPACE) with false. change (isSeparator SPACE) with true.
  cbn [dropWhile]. change (isSeparator SPACE) with true.
  apply dropWhile_id, H.
Qed.

Lemma lineNumber_oneLine (i : nat) (line : jsstring) :
  oneLine line -> oneLine (lineNumber i ++ js "  " ++ line).
Proof.
  unfold oneLine, lineNumber. intros H Hin.
  apply in_app_or in Hin as [Hin | Hin].
  - apply in_app_or in Hin as [Hin | Hin].
    + apply repeat_spec in Hin. discriminate Hin.
    + pose proof (numberToString_digits (S i)) as Hd.
      rewrite forallb_forall in Hd. specialize (Hd _ Hin). discriminate Hd.
  - apply in_app_or in Hin as [Hin | Hin]; [|exact (H Hin)].
    destruct Hin as [Hin | [Hin | []]]; discriminate Hin.
Qed.

Lemma dropWhile_nil (p : char -> bool) (s : jsstring) :
  dropWhile p s = [] -> forallb p s = true.
Proof.
  induction s as [|c s IH]; [reflexivity|].
  cbn [dropWhile forallb]. destruct (p c); [exact IH | discriminate].
Qed.

Lemma trim_blank (line : jsstring) :
  beginsWith isSpace line = false -> trim line = [] -> line = [].
Proof.
  intros Hb Ht. unfold trim, trimStart in Ht.
  rewrite (dropWhile_id _ _ Hb) in Ht. unfold trimEnd in Ht.
  apply (f_equal (@rev char)) in Ht. rewrite rev_involutive in Ht.
  cbn [rev] in Ht. apply dropWhile_nil in Ht. rewrite forallb_rev in Ht.
  destruct line as [|c line]; [reflexivity|].
  cbn [beginsWith] in Hb. cbn [forallb] in Ht. rewrite Hb in Ht.
  discriminate Ht.
Qed.

Lemma flush_no_space (line : jsstring) :
  flush line -> beginsWith isSpace line = false.
Proof.
  unfold flush. destruct line as [|c line]; [reflexivity|].
  cbn [beginsWith]. unfold isSeparator.
  destruct (isSpace c); [discriminate|reflexivity].
Qed.

Lemma numberedContent_cleaned (lines : list jsstring) :
  lines <> [] -> Forall oneLine lines -> Forall flush lines ->
  forall i,
    map stripLineNumber (splitLines (numberedContent i lines)) = lines.
Proof.
  induction lines as [|line rest IH]; intros Hne Hl Hf i; [congruence|].
  inversion Hl as [|? ? Hl1 Hl2]; subst.
  inversion Hf as [|? ? Hf1 Hf2]; subst.
  cbn [numberedContent]. destruct rest as [|r rest].
  - destruct (trim line) as [|c t] eqn:Et.
    + rewrite (trim_blank line (flush_no_space line Hf1) Et). reflexivity.
    + rewrite splitLines_line by (apply lineNumber_oneLine, Hl1).
      cbn [map]. rewrite stripLineNumber_numbered by exact Hf1. reflexivity.
  - replace (lineNumber i ++ js "  " ++ line ++ [LF]
             ++ numberedContent (S i) (r :: rest))
      with ((lineNumber i ++ js "  " ++ line)
            ++ LF :: numberedContent (S i) (r :: rest))
      by (rewrite <- !app_assoc; reflexivity).
    rewrite splitLines_app by (apply lineNumber_oneLine, Hl1).
    cbn [map]. rewrite stripLineNumber_numbered by exact Hf1.
    rewrite IH; [reflexivity | discriminate | exact Hl2 | exact Hf2].
Qed.

(** X21: numbering and cleaning undo each other on lines that begin neither
    with white space nor with a separator: the numbers that
    [addSimpleLineNumbers] writes are removed again by
    [extractCleanCodeText], so that a block that is processed a second
    time gets the same numbers. *)
Theorem numberedContent_round_trip (lines : list jsstring) (i : nat) :
  lines <> [] -> Forall oneLine lines -> Forall flush lines ->
  extractCleanCodeText (numberedContent i lines) = join [LF] lines
  /\ List.length (splitLines (numberedContent i lines)) = List.length lines.
Proof.
  intros Hne Hl Hf.
  pose proof (numberedContent_cleaned lines Hne Hl Hf i) as H.
  unfold extractCleanCodeText. rewrite H. split; [reflexivity|].
  rewrite <- H at 2. symmetry. apply length_map.
Qed.

End CodeBlockFacts.

(* ------------------------------------------------------------------ *)
(** ** The title of a page without a title                              *)
(* ------------------------------------------------------------------ *)

Section UrlTitleFacts.
Import UrlTitle.

Variable pathnameOf : jsstring -> option jsstring.
Variable decodeURIComponent : jsstring -> option jsstring.

Local Abbreviation extractTitleFromURL :=
  (extractTitleFromURL pathnameOf decodeURIComponent).

Lemma splitOn_slashes (p : jsstring) :
  forallb (fun c => ceqb c SLASH) p = true -> segmentsOf p = [].
Proof.
  unfold segmentsOf. intros H.
  assert (E : forallb (fun s => negb (0 <? List.length s)) (splitOn SLASH p)
              = true).
  { induction p as [|c p IH]; [reflexivity|].
    cbn [forallb] in H. apply andb_true_iff in H as [Hc H].
    cbn [splitOn]. rewrite Hc. cbn [forallb List.length].
    rewrite (IH H). reflexivity. }
  apply filter_none. intros s Hs. rewrite forallb_forall in E.
  apply negb_true_iff, E, Hs.
Qed.

Lemma takeWhile_stop (p : char -> bool) (a : jsstring) (c : char)
      (b : jsstring) :
  forallb p a = true -> p c = false -> takeWhile p (a ++ c :: b) = a.
Proof.
  intros Ha Hc. apply takeWhile_app; [exact Ha|]. cbn [beginsWith]. exact Hc.
Qed.

(** Only the last extension of a name is removed, and a name without a
    dot is left as it is. *)
Lemma stripExtension_last (name ext : jsstring) :
  ext <> [] ->
  forallb (fun c => negb (ceqb c DOT) && negb (ceqb c SLASH)) ext = true ->
  stripExtension (name ++ DOT :: ext) = name.
Proof.
  intros Hne Hext. unfold stripExtension. cbv zeta.
  rewrite rev_app_distr. cbn [rev]. rewrite <- app_assoc. cbn [app].
  assert (Hr : forallb (fun c => negb (ceqb c DOT) && negb (ceqb c SLASH))
                       (rev ext) = true)
    by (rewrite forallb_rev; exact Hext).
  rewrite (takeWhile_stop _ (rev ext) DOT (rev name) Hr eq_refl).
  destruct (rev ext) as [|c r] eqn:E.
  - apply (f_equal (@rev char)) in E. rewrite rev_involutive in E.
    cbn [rev] in E. congruence.
  - rewrite (skipn_length_app (c :: r) (DOT :: rev name)).
    change (ceqb DOT DOT) with true. cbn iota. apply rev_involutive.
Qed.

(** X22: the title taken from a URL is never empty.  It is the default title
    when the URL cannot be parsed, when its path holds nothing but
    slashes, and when the name cannot be decoded; otherwise it is the
    decoded last segment of the path without its last extension, or the
    default title when nothing is left of it. *)
Theorem extractTitleFromURL_never_empty (url : jsstring) :
  extractTitleFromURL url <> []
  /\ (pathnameOf url = None -> extractTitleFromURL url = unnamedPage)
  /\ (forall p, pathnameOf url = Some p ->
                forallb (fun c => ceqb c SLASH) p = true ->
                extractTitleFromURL url = unnamedPage)
  /\ (forall p dir name ext title,
        pathnameOf url = Some p ->
        segmentsOf p = dir ++ [name ++ DOT :: ext] ->
        ext <> [] ->
        forallb (fun c => negb (ceqb c DOT) && negb (ceqb c SLASH)) ext = true ->
        decodeURIComponent name = Some title ->
        extractTitleFromURL url = orElse title unnamedPage).
Proof.
  unfold UrlTitle.extractTitleFromURL. split; [|split; [|split]].
  - destruct (pathnameOf url) as [p|]; [|discriminate].
    destruct (rev (segmentsOf p)) as [|seg segs]; [discriminate|].
    destruct (decodeURIComponent (stripExtension seg)) as [t|]; [|discriminate].
    destruct t; discriminate.
  - intros ->. reflexivity.
  - intros p -> Hp. rewrite (splitOn_slashes p Hp). reflexivity.
  - intros p dir name ext title -> Hseg Hne Hext Hdec.
    rewrite Hseg, rev_app_distr. cbn [rev app].
    rewrite (stripExtension_last name ext Hne Hext), Hdec. reflexivity.
Qed.

End UrlTitleFacts.

(* ------------------------------------------------------------------ *)
(** ** The tasks, statistics and settings of the background script      *)
(* ------------------------------------------------------------------ *)

Section WorkerFacts.
Import Images Worker.

Lemma str_eqb_refl (a : jsstring) : str_eqb a a = true.
Proof. apply str_eqb_eq. reflexivity. Qed.

Lemma str_eqb_neq (a b : jsstring) : a <> b -> str_eqb a b = false.
Proof.
  intros H. destruct (str_eqb a b) eqn:E; [|reflexivity].
  apply str_eqb_eq in E. contradiction.
Qed.

Lemma mapDelete_absent {V : Type} (k : jsstring) (m : list (jsstring * V)) :
  mapGet k m = None -> mapDelete k m = m.
Proof.
  unfold mapDelete.
  induction m as [|[k' v] m IH]; cbn [mapGet filter fst]; [reflexivity|].
  destruct (str_eqb k' k); [discriminate|]. intros H. cbn [negb].
  rewrite (IH H). reflexivity.
Qed.

Lemma mapDelete_mapSet {V : Type} (k : jsstring) (v : V)
      (m : list (jsstring * V)) :
  mapDelete k (mapSet k v m) = mapDelete k m.
Proof.
  unfold mapDelete.
  induction m as [|[k' v'] m IH]; cbn [mapSet filter fst].
  - rewrite str_eqb_refl. reflexivity.
  - destruct (str_eqb k' k) eqn:E; cbn [filter fst]; rewrite E; cbn [negb];
      [reflexivity | rewrite IH; reflexivity].
Qed.

Lemma mapGet_mapDelete_same {V : Type} (k : jsstring)
      (m : list (jsstring * V)) :
  mapGet k (mapDelete k m) = None.
Proof.
  unfold mapDelete.
  induction m as [|[k' v] m IH]; cbn [filter fst]; [reflexivity|].
  destruct (str_eqb k' k) eqn:E; cbn [negb mapGet]; [exact IH|].
  rewrite E. exact IH.
Qed.

Lemma mapGet_mapDelete_other {V : Type} (k k0 : jsstring)
      (m : list (jsstring * V)) :
  k <> k0 -> mapGet k0 (mapDelete k m) = mapGet k0 m.
Proof.
  intros Hne. unfold mapDelete.
  induction m as [|[k' v] m IH]; cbn [filter fst]; [reflexivity|].
  destruct (str_eqb k' k) eqn:E; cbn [negb mapGet].
  - apply str_eqb_eq in E. subst k'. rewrite (str_eqb_neq _ _ Hne). exact IH.
  - rewrite IH. reflexivity.
Qed.

Lemma filter_keys_In {V : Type} (f : jsstring * V -> bool)
      (m : list (jsstring * V)) (k : jsstring) :
  In k (map fst (filter f m)) -> In k (map fst m).
Proof.
  intros H. apply in_map_iff in H as (e & <- & He).
  apply filter_In in He as [He _]. apply in_map, He.
Qed.

Lemma filter_keys_NoDup {V : Type} (f : jsstring * V -> bool)
      (m : list (jsstring * V)) :
  NoDup (map fst m) -> NoDup (map fst (filter f m)).
Proof.
  induction m as [|e m IH]; cbn [map filter]; intros H; [constructor|].
  inversion H as [|? ? Hn Hm]; subst.
  destruct (f e); [|exact (IH Hm)].
  cbn [map]. constructor; [|exact (IH Hm)].
  intros Hin. apply Hn. exact (filter_keys_In _ _ _ Hin).
Qed.

Lemma wellKept_filter (f : jsstring * Task -> bool)
      (tasks : list (jsstring * Task)) :
  wellKept tasks -> wellKept (filter f tasks).
Proof.
  intros [Hn Hk]. split; [apply filter_keys_NoDup, Hn|].
  apply Forall_forall. intros e He. apply filter_In in He as [He _].
  rewrite Forall_forall in Hk. exact (Hk e He).
Qed.

Lemma mapSet_keys_absent {V : Type} (k : jsstring) (v : V)
      (m : list (jsstring * V)) :
  mapGet k m = None -> map fst (mapSet k v m) = map fst m ++ [k].
Proof.
  intros H. rewrite (mapSet_absent k v m H), map_app. reflexivity.
Qed.

Lemma mapSet_In {V : Type} (k : jsstring) (v : V) (m : list (jsstring * V))
      (e : jsstring * V) :
  In e (mapSet k v m) -> e = (fst e, v) /\ str_eqb (fst e) k = true \/ In e m.
Proof.
  induction m as [|[k' v'] m IH]; cbn [mapSet].
  - intros [<- | []]. left. cbn [fst]. split; [reflexivity|apply str_eqb_refl].
  - destruct (str_eqb k' k) eqn:E.
    + intros [<- | H]; [|right; right; exact H].
      left. cbn [fst]. split; [reflexivity|exact E].
    + intros [<- | H]; [right; left; reflexivity|].
      destruct (IH H) as [Hl | Hr]; [left; exact Hl | right; right; exact Hr].
Qed.

Lemma wellKept_mapSet (k : jsstring) (task : Task)
      (tasks : list (jsstring * Task)) :
  wellKept tasks -> kept (k, task) -> wellKept (mapSet k task tasks).
Proof.
  intros [Hn Hk] Ht. split.
  - destruct (mapGet k tasks) as [t0|] eqn:E.
    + rewrite (mapSet_keys k task t0 tasks E). exact Hn.
    + rewrite (mapSet_keys_absent k task tasks E).
      apply NoDup_app; repeat split; [exact Hn | repeat constructor; intros [] |].
      intros x Hx [<- | []]. exact (mapGet_None_keys _ _ E Hx).
  - apply Forall_forall. intros e He.
    destruct (mapSet_In _ _ _ _ He) as [[He1 He2] | Hin].
    + apply str_eqb_eq in He2. rewrite He1, He2. exact Ht.
    + rewrite Forall_forall in Hk. exact (Hk e Hin).
Qed.

Lemma filter_twice {A : Type} (p q : A -> bool) (l : list A) :
  filter p (filter q l) = filter (fun x => q x && p x) l.
Proof.
  induction l as [|x l IH]; [reflexivity|].
  cbn [filter]. destruct (q x); cbn [filter andb]; rewrite IH; reflexivity.
Qed.

Lemma filter_true {A : Type} (l : list A) : filter (fun _ => true) l = l.
Proof. induction l as [|x l IH]; cbn [filter]; congruence. Qed.

(** The loop of [cleanupExpiredTasks] over the entries [entries], on any
    map. *)
Lemma cleanup_loop (now : N) (entries tasks : list (jsstring * Task)) :
  fold_left (fun tasks entry =>
               if expired now (snd entry)
               then mapDelete (fst entry) tasks
               else tasks) entries tasks
  = filter (fun e =>
              negb (existsb (fun x => expired now (snd x)
                                      && str_eqb (fst e) (fst x)) entries))
           tasks.
Proof.
  revert tasks. induction entries as [|x xs IH]; intros tasks;
    cbn [fold_left existsb].
  - cbn [negb]. symmetry. apply filter_true.
  - rewrite IH. destruct (expired now (snd x)); cbn [andb orb]; [|reflexivity].
    unfold mapDelete. rewrite filter_twice. apply filter_ext.
    intros e. rewrite negb_orb. reflexivity.
Qed.

Lemma no_key_no_match (now : N) (k : jsstring)
      (entries : list (jsstring * Task)) :
  ~ In k (map fst entries) ->
  existsb (fun x => expired now (snd x) && str_eqb k (fst x)) entries = false.
Proof.
  induction entries as [|x xs IH]; cbn [map existsb In]; intros H;
    [reflexivity|].
  rewrite IH by tauto. rewrite str_eqb_neq by (intros E; apply H; left;
    symmetry; exact E). rewrite andb_false_r. reflexivity.
Qed.

Lemma own_key_match (now : N) (e : jsstring * Task)
      (entries : list (jsstring * Task)) :
  NoDup (map fst entries) -> In e entries ->
  existsb (fun x => expired now (snd x) && str_eqb (fst e) (fst x)) entries
  = expired now (snd e).
Proof.
  induction entries as [|x xs IH]; cbn [map existsb]; intros Hn Hin;
    [destruct Hin|].
  inversion Hn as [|? ? Hx Hxs]; subst. destruct Hin as [-> | Hin].
  - rewrite str_eqb_refl, andb_true_r, (no_key_no_match now _ xs Hx).
    apply orb_false_r.
  - rewrite (IH Hxs Hin).
    rewrite str_eqb_neq; [rewrite andb_false_r; reflexivity|].
    intros E. apply Hx. rewrite <- E. apply in_map, Hin.
Qed.

Lemma cleanup_filter (now : N) (tasks : list (jsstring * Task)) :
  NoDup (map fst tasks) ->
  fold_left (fun tasks entry =>
               if expired now (snd entry)
               then mapDelete (fst entry) tasks
               else tasks) tasks tasks
  = filter (fun e => negb (expired now (snd e))) tasks.
Proof.
  intros Hn. rewrite cleanup_loop.
  apply filter_ext_in. intros e He.
  rewrite (own_key_match now e tasks Hn He). reflexivity.
Qed.

Ltac worker :=
  unfold handleMessage, startGeneration, updateStatistics, getStatistics,
    updateSettings, exportSettings, importSettings, cancelGeneration,
    getStorage, setSettings, setStatistics, sendToTab, setActiveGenerations,
    bind, tryM, ret, throw, awaitM.

Ltac cases :=
  repeat match goal with
         | |- context [match ?x with _ => _ end] =>
             match type of x with
             | option _ => destruct x eqn:?
             | Settled _ => destruct x eqn:?
             | unit => destruct x
             end
         end.

Lemma handleMessage_tasks (env : Env) (message : Message)
      (sender : option Tab) (s : Service) :
  activeGenerations (fst (handleMessage env message sender s))
  = match message, sender with
    | StartGeneration data, Some tab =>
        match tabsSendMessage env with
        | Fulfilled _ =>
            mapSet (generateTaskId env (dateNow env 0)) (newTask env data tab)
                   (activeGenerations s)
        | Rejected _ =>
            mapDelete (generateTaskId env (dateNow env 0)) (activeGenerations s)
        end
    | CancelGeneration taskId, _ => mapDelete taskId (activeGenerations s)
    | _, _ => activeGenerations s
    end.
Proof.
  destruct message; worker; cbn [fst snd activeGenerations];
    try (cases; reflexivity).
  - destruct sender as [tab|]; [|reflexivity].
    cbn [fst snd activeGenerations settings storage sent].
    cases; cbn [fst snd activeGenerations]; try reflexivity;
      apply mapDelete_mapSet.
  - destruct (mapGet taskId (activeGenerations s)) eqn:E;
      cbn [fst snd activeGenerations].
    + apply mapDelete_mapSet.
    + symmetry. apply mapDelete_absent, E.
Qed.

Lemma handleMessage_wellKept (env : Env) (message : Message)
      (sender : option Tab) (s : Service) :
  wellKept (activeGenerations s) ->
  wellKept (activeGenerations (fst (handleMessage env message sender s))).
Proof.
  intros H. rewrite handleMessage_tasks.
  destruct message; try exact H.
  - destruct sender as [tab|]; [|exact H].
    destruct (tabsSendMessage env).
    + apply wellKept_mapSet; [exact H|]. repeat split.
    + apply wellKept_filter, H.
  - apply wellKept_filter, H.
Qed.

Lemma cleanupExpiredTasks_wellKept (now : N) (s : Service) :
  wellKept (activeGenerations s) ->
  wellKept (activeGenerations (cleanupExpiredTasks now s)).
Proof.
  intros H. unfold cleanupExpiredTasks. cbn [activeGenerations].
  rewrite (cleanup_filter now _ (proj1 H)). apply wellKept_filter, H.
Qed.

Lemma run_wellKept (events : list Event) (s : Service) :
  wellKept (activeGenerations s) ->
  wellKept (activeGenerations (run events s)).
Proof.
  unfold run. revert s. induction events as [|e events IH]; intros s H;
    [exact H|].
  cbn [fold_left]. apply IH. destruct e as [env message sender | now].
  - apply handleMessage_wellKept, H.
  - apply cleanupExpiredTasks_wellKept, H.
Qed.

Lemma newService_wellKept (store : Store) :
  wellKept (activeGenerations (newService store)).
Proof. split; constructor. Qed.

Lemma expired_after (now : N) (task : Task) :
  expired now task = true
  <-> (Z.of_N now - Z.of_N (startTime task) > 1800000)%Z.
Proof.
  unfold expired, maxAge. rewrite Z.gtb_lt. lia.
Qed.

(** X23: whatever has happened to the service, the timer of
    [cleanupExpiredTasks] takes out of the map the tasks that were started
    more than thirty minutes before, and only them: the others stay, in
    their order, and a task that is exactly thirty minutes old stays too.
    Nothing else of the service changes. *)
Theorem cleanupExpiredTasks_drops_the_old
        (events : list Event) (store : Store) (now : N) :
  let s := run events (newService store) in
  let s' := cleanupExpiredTasks now s in
  activeGenerations s'
  = filter (fun entry => negb (expired now (snd entry))) (activeGenerations s)
  /\ (forall taskId task,
        In (taskId, task) (activeGenerations s') <->
        In (taskId, task) (activeGenerations s)
        /\ (Z.of_N now - Z.of_N (startTime task) <= 1800000)%Z)
  /\ settings s' = settings s /\ storage s' = storage s /\ sent s' = sent s.
Proof.
  intros s s'.
  assert (E : activeGenerations s'
              = filter (fun entry => negb (expired now (snd entry)))
                       (activeGenerations s)).
  { apply cleanup_filter.
    exact (proj1 (run_wellKept events _ (newService_wellKept store))). }
  split; [exact E|]. split; [|repeat split].
  intros taskId task. rewrite E, filter_In. cbn [snd].
  rewrite negb_true_iff, <- not_true_iff_false, expired_after.
  split; intros [Hin Hage]; (split; [exact Hin | lia]).
Qed.

(** X24: whatever has happened to the service, a task that
    [getGenerationStatus] finds is reported as being prepared, with no
    progress: the script writes no other status into a task that stays in
    the map, and never any progress. *)
Theorem getGenerationStatus_never_advances
        (events : list Event) (store : Store) (now : N) (taskId : jsstring)
        (report : StatusReport) :
  getGenerationStatus now taskId (run events (newService store)) = Some report ->
  reportStatus report = js "preparing" /\ reportProgress report = 0.
Proof.
  unfold getGenerationStatus. intros H.
  destruct (mapGet taskId (activeGenerations (run events (newService store))))
    as [task|] eqn:E; [|discriminate H].
  injection H as <-. cbn [reportStatus reportProgress].
  destruct (run_wellKept events _ (newService_wellKept store)) as [_ Hk].
  rewrite Forall_forall in Hk. exact (proj2 (Hk _ (mapGet_In _ _ _ E))).
Qed.

Lemma getGenerationStatus_tasks (now : N) (taskId : jsstring)
      (s s' : Service) :
  mapGet taskId (activeGenerations s') = mapGet taskId (activeGenerations s) ->
  getGenerationStatus now taskId s' = getGenerationStatus now taskId s.
Proof. unfold getGenerationStatus. intros ->. reflexivity. Qed.

(** X25: a ['startGeneration'] message from a tab hands one message to the
    tab.  When the tab takes it, the answer is a success and the new task
    stands in the map, whether or not the statistics could be written;
    when the tab does not take it, the answer is the error, nothing is
    stored, and no task stands under the new id: the map is as it was
    when the id was new, and an older task under the same id is lost.
    Without a tab the message changes nothing and is answered by an
    error. *)
Theorem startGeneration_registers_or_forgets
        (env : Env) (data : GenerationData) (tab : Tab) (s : Service)
        (now : N) :
  sent (fst (handleMessage env (StartGeneration data) (Some tab) s))
  = sent s ++ [StartPDFGeneration (tabIdOf tab)
                                  (generateTaskId env (dateNow env 0))
                                  (dataOptions data)]
  /\ settings (fst (handleMessage env (StartGeneration data) (Some tab) s))
     = settings s
  /\ match tabsSendMessage env with
     | Fulfilled _ =>
         snd (handleMessage env (StartGeneration data) (Some tab) s) = Success
         /\ activeGenerations
              (fst (handleMessage env (StartGeneration data) (Some tab) s))
            = mapSet (generateTaskId env (dateNow env 0))
                     (newTask env data tab) (activeGenerations s)
         /\ getGenerationStatus
              now (generateTaskId env (dateNow env 0))
              (fst (handleMessage env (StartGeneration data) (Some tab) s))
            = Some (mkStatusReport
                      (js "preparing") 0
                      (Z.of_N now - Z.of_N (dateNow env 1)))
     | Rejected error =>
         snd (handleMessage env (StartGeneration data) (Some tab) s)
         = ErrorAnswer (message error)
         /\ activeGenerations
              (fst (handleMessage env (StartGeneration data) (Some tab) s))
            = mapDelete (generateTaskId env (dateNow env 0))
                        (activeGenerations s)
         /\ (mapGet (generateTaskId env (dateNow env 0)) (activeGenerations s)
             = None ->
             activeGenerations
               (fst (handleMessage env (StartGeneration data) (Some tab) s))
             = activeGenerations s)
         /\ storage (fst (handleMessage env (StartGeneration data) (Some tab) s))
            = storage s
         /\ getGenerationStatus
              now (generateTaskId env (dateNow env 0))
              (fst (handleMessage env (StartGeneration data) (Some tab) s))
            = None
     end
  /\ handleMessage env (StartGeneration data) None s
     = (s, ErrorAnswer
             (js "Cannot read properties of undefined (reading 'id')")).
Proof.
  pose proof (handleMessage_tasks env (StartGeneration data) (Some tab) s)
    as Ht. cbn beta iota in Ht.
  split; [|split; [|split; [|reflexivity]]].
  - worker. cbn [fst snd sent]. cases; reflexivity.
  - worker. cbn [fst snd settings]. cases; reflexivity.
  - destruct (tabsSendMessage env) as [[]|error] eqn:E.
    + split; [|split; [exact Ht|]].
      * worker. rewrite E. cbn [fst snd]. cases; reflexivity.
      * unfold getGenerationStatus. rewrite Ht, mapGet_mapSet_same.
        reflexivity.
    + split; [|split; [exact Ht|split; [|split]]].
      * worker. rewrite E. reflexivity.
      * intros Hnew. rewrite Ht. apply mapDelete_absent, Hnew.
      * worker. rewrite E. reflexivity.
      * unfold getGenerationStatus. rewrite Ht, mapGet_mapDelete_same.
        reflexivity.
Qed.

(** X26: a ['cancelGeneration'] message is always answered by a success.
    Afterwards no task stands under the id, the other tasks are reported
    as before, and a message went to the tab of the task when there was a
    task, and to no tab when there was none.  A task that has just been
    started under a new id is removed again, so that the map is as it was
    before the task was started. *)
Theorem cancelGeneration_forgets_the_task
        (env : Env) (taskId : jsstring) (sender : option Tab) (s : Service)
        (now : N) :
  snd (handleMessage env (CancelGeneration taskId) sender s) = Success
  /\ getGenerationStatus
       now taskId (fst (handleMessage env (CancelGeneration taskId) sender s))
     = None
  /\ (forall other,
        other <> taskId ->
        getGenerationStatus
          now other (fst (handleMessage env (CancelGeneration taskId) sender s))
        = getGenerationStatus now other s)
  /\ sent (fst (handleMessage env (CancelGeneration taskId) sender s))
     = sent s
       ++ match mapGet taskId (activeGenerations s) with
          | Some task => [CancelPDFGeneration (tabId task) taskId]
          | None => []
          end
  /\ settings (fst (handleMessage env (CancelGeneration taskId) sender s))
     = settings s
  /\ storage (fst (handleMessage env (CancelGeneration taskId) sender s))
     = storage s
  /\ (forall env0 data tab,
        generateTaskId env0 (dateNow env0 0) = taskId ->
        mapGet taskId (activeGenerations s) = None ->
        activeGenerations
          (fst (handleMessage
                  env (CancelGeneration taskId) sender
                  (fst (handleMessage env0 (StartGeneration data) (Some tab) s))))
        = activeGenerations s).
Proof.
  pose proof (handleMessage_tasks env (CancelGeneration taskId) sender s)
    as Ht. cbn beta iota in Ht.
  split; [|split; [|split; [|split; [|split; [|split]]]]].
  - worker. cases; reflexivity.
  - unfold getGenerationStatus. rewrite Ht, mapGet_mapDelete_same.
    reflexivity.
  - intros other Hne. apply getGenerationStatus_tasks. rewrite Ht.
    apply mapGet_mapDelete_other. congruence.
  - worker. cases; [reflexivity|]. cbn [fst sent]. symmetry. apply app_nil_r.
  - worker. cases; reflexivity.
  - worker. cases; reflexivity.
  - intros env0 data tab Hid Hnew.
    rewrite (handleMessage_tasks env (CancelGeneration taskId) sender).
    cbn beta iota.
    rewrite (handleMessage_tasks env0 (StartGeneration data) (Some tab) s).
    cbn beta iota. rewrite Hid.
    destruct (tabsSendMessage env0).
    + rewrite mapDelete_mapSet. apply mapDelete_absent, Hnew.
    + rewrite !(mapDelete_absent _ _ Hnew). reflexivity.
Qed.

Lemma mapGet_no_key {V : Type} (k : jsstring) (m : list (jsstring * V)) :
  ~ In k (map fst m) -> mapGet k m = None.
Proof.
  induction m as [|[k' v] m IH]; cbn [map fst In mapGet]; intros H;
    [reflexivity|].
  rewrite str_eqb_neq by (intros E; apply H; left; exact E).
  apply IH. tauto.
Qed.

Lemma mapSet_NoDup {V : Type} (k : jsstring) (v : V)
      (m : list (jsstring * V)) :
  NoDup (map fst m) -> NoDup (map fst (mapSet k v m)).
Proof.
  intros Hn. destruct (mapGet k m) as [v0|] eqn:E.
  - rewrite (mapSet_keys k v v0 m E). exact Hn.
  - rewrite (mapSet_keys_absent k v m E).
    apply NoDup_app; repeat split; [exact Hn | repeat constructor; intros [] |].
    intros x Hx [<- | []]. exact (mapGet_None_keys _ _ E Hx).
Qed.

Lemma spread_isObject (target source : Obj) :
  isObject target -> isObject (spread target source).
Proof.
  unfold isObject, spread. revert target.
  induction source as [|[k v] source IH]; intros target H; [exact H|].
  cbn [fold_left fst snd]. apply IH, mapSet_NoDup, H.
Qed.

Lemma spread_get (target source : Obj) (k : jsstring) :
  isObject source ->
  mapGet k (spread target source)
  = match mapGet k source with
    | Some v => Some v
    | None => mapGet k target
    end.
Proof.
  unfold isObject, spread. revert target.
  induction source as [|[k1 v1] source IH]; intros target H; [reflexivity|].
  cbn [map fst] in H. inversion H as [|? ? Hk Hs]; subst.
  cbn [fold_left fst snd mapGet]. rewrite (IH _ Hs).
  destruct (str_eqb k1 k) eqn:E.
  - apply str_eqb_eq in E. subst k1.
    rewrite (mapGet_no_key k source Hk). apply mapGet_mapSet_same.
  - destruct (mapGet k source); [reflexivity|].
    apply mapGet_mapSet_other. intros ->. rewrite str_eqb_refl in E.
    discriminate E.
Qed.

(** [{ ...current, ...newSettings }] *)
Lemma merged_get (current newSettings : Obj) (k : jsstring) :
  isObject current -> isObject newSettings ->
  mapGet k (spread (spread [] current) newSettings)
  = match mapGet k newSettings with
    | Some v => Some v
    | None => mapGet k current
    end.
Proof.
  intros Hc Hn. rewrite (spread_get _ _ k Hn), (spread_get _ _ k Hc).
  destruct (mapGet k newSettings); [reflexivity|].
  destruct (mapGet k current); reflexivity.
Qed.

(** X27: an ['updateSettings'] message over a storage that works is answered by
    a success; the settings that are stored, which are also the settings
    of the service afterwards, have every property of the new settings
    with its new value and every other property of the stored settings
    with its old value.  When the storage cannot be read or written, the
    answer is the error and nothing has changed. *)
Theorem updateSettings_merges
        (env : Env) (newSettings : Obj) (sender : option Tab) (s : Service) :
  (storageGet env = None -> storageSet env settingsKey = None ->
   isObject newSettings ->
   isObject (match pdfGeneratorSettings (storage s) with
             | Some o => o
             | None => []
             end) ->
   snd (handleMessage env (UpdateSettings newSettings) sender s) = Success
   /\ pdfGeneratorSettings
        (storage (fst (handleMessage env (UpdateSettings newSettings) sender s)))
      = Some (settings
                (fst (handleMessage env (UpdateSettings newSettings) sender s)))
   /\ isObject
        (settings (fst (handleMessage env (UpdateSettings newSettings) sender s)))
   /\ (forall k,
         mapGet k (settings
                     (fst (handleMessage env (UpdateSettings newSettings)
                                         sender s)))
         = match mapGet k newSettings with
           | Some v => Some v
           | None =>
               mapGet k (match pdfGeneratorSettings (storage s) with
                         | Some o => o
                         | None => []
                         end)
           end)
   /\ statisticsData
        (storage (fst (handleMessage env (UpdateSettings newSettings) sender s)))
      = statisticsData (storage s))
  /\ (forall error,
        storageGet env = Some error
        \/ storageGet env = None /\ storageSet env settingsKey = Some error ->
        handleMessage env (UpdateSettings newSettings) sender s
        = (s, ErrorAnswer (message error))).
Proof.
  split.
  - intros Hg Hs Hn Hc. worker. rewrite Hg, Hs.
    cbn [fst snd settings storage pdfGeneratorSettings statisticsData].
    split; [reflexivity|]. split; [reflexivity|].
    split; [apply spread_isObject, spread_isObject; constructor|].
    split; [|reflexivity].
    intros k. apply merged_get; assumption.
  - intros error [Hg | [Hg Hs]]; worker; rewrite Hg; [reflexivity|].
    rewrite Hs. reflexivity.
Qed.

(** X28: over a storage that works, an ['exportSettings'] message is answered
    with the stored settings and statistics, the time and the version,
    and changes nothing.  An ['importSettings'] message with such an
    answer puts back into the storage the settings and the statistics
    that the answer holds, and leaves in the storage what the answer does
    not hold; the settings of the service itself stay as they are. *)
Theorem importSettings_puts_back_the_export
        (env env' : Env) (sender sender' : option Tab) (a b : Service) :
  storageGet env = None ->
  storageSet env' settingsKey = None ->
  storageSet env' statisticsKey = None ->
  exists data,
    handleMessage env ExportSettings sender a = (a, SettingsAnswer data)
    /\ exportTime data = Some (dateNow env 0)
    /\ version data = Some (manifestVersion env)
    /\ snd (handleMessage env' (ImportSettings data) sender' b) = Success
    /\ pdfGeneratorSettings
         (storage (fst (handleMessage env' (ImportSettings data) sender' b)))
       = match pdfGeneratorSettings (storage a) with
         | Some o => Some o
         | None => pdfGeneratorSettings (storage b)
         end
    /\ statisticsData
         (storage (fst (handleMessage env' (ImportSettings data) sender' b)))
       = match statisticsData (storage a) with
         | Some stats => Some stats
         | None => statisticsData (storage b)
         end
    /\ settings (fst (handleMessage env' (ImportSettings data) sender' b))
       = settings b
    /\ activeGenerations
         (fst (handleMessage env' (ImportSettings data) sender' b))
       = activeGenerations b.
Proof.
  intros Hg Hs1 Hs2.
  exists (mkSettingsData (pdfGeneratorSettings (storage a))
                         (statisticsData (storage a))
                         (Some (dateNow env 0)) (Some (manifestVersion env))).
  split; [worker; rewrite Hg; reflexivity|].
  split; [reflexivity|]. split; [reflexivity|].
  worker. cbn [dataSettings dataStatistics]. rewrite Hs1, Hs2.
  destruct (pdfGeneratorSettings (storage a));
    destruct (statisticsData (storage a));
    cbn [fst snd storage settings activeGenerations pdfGeneratorSettings
         statisticsData]; repeat split; reflexivity.
Qed.

(** X29: [updateStatistics] never throws and touches nothing but the stored
    statistics.  Over a storage that works, the counters grow by the
    count and the size of the increment, where a count that is missing or
    zero counts as one and a size that is missing as zero, and they start
    from zero when no statistics are stored.  When the statistics cannot
    be read but can be written, the counters that are written are not
    numbers any more; when they cannot be written, they stay as they
    are. *)
Theorem updateStatistics_counts
        (env : Env) (now : N) (increment : Increment) (s : Service) :
  snd (updateStatistics env now increment s) = Value tt
  /\ activeGenerations (fst (updateStatistics env now increment s))
     = activeGenerations s
  /\ settings (fst (updateStatistics env now increment s)) = settings s
  /\ sent (fst (updateStatistics env now increment s)) = sent s
  /\ pdfGeneratorSettings (storage (fst (updateStatistics env now increment s)))
     = pdfGeneratorSettings (storage s)
  /\ (storageGet env = None -> storageSet env statisticsKey = None ->
      forall generated total,
        match statisticsData (storage s) with
        | Some stats =>
            totalGenerated stats = Some generated
            /\ totalSize stats = Some total
        | None => generated = 0%Z /\ total = 0%Z
        end ->
        statisticsData (storage (fst (updateStatistics env now increment s)))
        = Some (mkStatistics
                  (Some (generated
                         + match count increment with
                           | Some c => if (c =? 0)%Z then 1 else c
                           | None => 1
                           end)%Z)
                  (Some (total
                         + match size increment with
                           | Some z => z
                           | None => 0
                           end)%Z)
                  (Some (Z.of_N now))))
  /\ (storageGet env <> None -> storageSet env statisticsKey = None ->
      statisticsData (storage (fst (updateStatistics env now increment s)))
      = Some (mkStatistics None None (Some (Z.of_N now))))
  /\ (storageSet env statisticsKey <> None ->
      storage (fst (updateStatistics env now increment s)) = storage s).
Proof.
  split; [worker; cases; reflexivity|].
  split; [worker; cases; reflexivity|].
  split; [worker; cases; reflexivity|].
  split; [worker; cases; reflexivity|].
  split; [worker; cases; reflexivity|].
  split; [|split].
  - intros Hg Hs generated total H. worker. rewrite Hg, Hs.
    cbn [fst snd storage statisticsData].
    assert (Hz : orNumber (size increment) 0
                 = match size increment with Some z => z | None => 0%Z end).
    { unfold orNumber. destruct (size increment) as [z|]; [|reflexivity].
      destruct (z =? 0)%Z eqn:E; [|reflexivity].
      apply Z.eqb_eq in E. symmetry. exact E. }
    rewrite Hz. unfold orNumber.
    destruct (statisticsData (storage s)) as [stats|].
    + destruct H as [-> ->]. reflexivity.
    + destruct H as [-> ->]. reflexivity.
  - intros Hg Hs. worker. rewrite Hs.
    destruct (storageGet env); [reflexivity|congruence].
  - intros Hs. worker.
    destruct (storageSet env statisticsKey); [|congruence].
    cases; reflexivity.
Qed.

End WorkerFacts.

(* ------------------------------------------------------------------ *)
(** ** The properties on sample data                                    *)
(* ------------------------------------------------------------------ *)

Lemma discoverAllPages_first_anchor_wins_witness :
  In Sample.setupUrl
     (map Discovery.url (Generator.discoverAllPages Sample.healthySite))
  /\ Discovery.title (hd Sample.setupLink
                         (Generator.discoverAllPages Sample.healthySite))
     = js "Intro".
Proof.
  destruct (discoverAllPages_first_anchor_wins
              Discovery.isValidDocumentLink
              (Generator.resolveUrl Sample.healthySite) Sample.menu)
    as [Hfirst Hall].
  split.
  - apply (Hall (Sample.plainAnchor (js "setup.html") (js " Setup ")
                   [Sample.li; Sample.ul; Sample.li; Sample.ul; Sample.navRoot])).
    + left. reflexivity.
    + reflexivity.
  - assert (Hin : In (hd Sample.setupLink
                         (Generator.discoverAllPages Sample.healthySite))
                     (Generator.discoverAllPages Sample.healthySite))
      by (vm_compute; left; reflexivity).
    etransitivity; [exact (proj1 (proj2 (Hfirst _ Hin)))|].
    vm_compute. reflexivity.
Defined.

Lemma fetchPageContent_sources_witness :
  Fetch.fetchPageContent Sample.samplePageHost 1 Sample.setupUrl
  = Fulfilled (Fetch.mkPageContent Sample.setupHtml (js "Setup") [] 7)
  /\ Fetch.fetchPageContent Sample.offlineHost 1 Sample.setupUrl
     = Fetch.backgroundPromise Sample.offlineHost 1 Sample.setupUrl.
Proof.
  destruct (fetchPageContent_sources Sample.samplePageHost 1 Sample.setupUrl)
    as (_ & Hdirect & _).
  destruct (fetchPageContent_sources Sample.offlineHost 1 Sample.setupUrl)
    as (_ & _ & Hback).
  split.
  - exact (Hdirect eq_refl _ _ eq_refl eq_refl eq_refl).
  - apply Hback; [reflexivity|]. intros r H. discriminate H.
Defined.

Lemma fetchPage_always_resolves_witness :
  exists d,
    Background.fetchPage Cases.servedFetch Sample.setupUrl = Fulfilled d
    /\ Background.pdSuccess d = true
    /\ Background.pdHtml d = Some Sample.setupHtml.
Proof.
  destruct (fetchPage_always_resolves Cases.servedFetch Sample.setupUrl)
    as (d & Hd & _ & Hok & _).
  exists d. split; [exact Hd|].
  destruct (Hok _ _ eq_refl eq_refl eq_refl) as (Hs & Hh & _).
  split; assumption.
Defined.

Lemma fetchPageContent_through_proxy_witness :
  Fetch.fetchPageContent
    (Background.proxied Cases.servedFetch Sample.offlineHost) 1 Sample.setupUrl
  = Fulfilled (Fetch.parseHTMLContent Sample.offlineHost Sample.setupHtml
                                      Sample.setupUrl).
Proof.
  refine (proj1 (fetchPageContent_through_proxy
                   Cases.servedFetch Sample.offlineHost 1 Sample.setupUrl
                   eq_refl _) _ _ eq_refl eq_refl eq_refl).
  intros r H. discriminate H.
Defined.

Lemma text_outside_code_normalised_witness :
  includes [SPACE; SPACE]
           (Markdown.convertNodeToMarkdown
              Markdown.topPlace
              (Markdown.Text (js "a" ++ [LF; 9%N; SPACE] ++ js "b"))
              Markdown.emptyState)
  = false.
Proof.
  exact (proj2 (text_outside_code_normalised
                  Markdown.topPlace _ Markdown.emptyState eq_refl)).
Defined.

Lemma table_first_row_written_twice_witness :
  Markdown.convertNodeToMarkdown
    Markdown.topPlace
    (Dom.plainTable [[js "Name"; js "Size"]; [js "a|b"; js "1"]])
    Markdown.emptyState
  = js "| Name | Size |" ++ [LF]
    ++ js "| --- | --- |" ++ [LF]
    ++ js "| Name | Size |" ++ [LF]
    ++ js "| a\|b | 1 |" ++ [LF] ++ [LF].
Proof.
  rewrite (table_first_row_written_twice
             Markdown.topPlace Markdown.emptyState
             [js "Name"; js "Size"] [[js "a|b"; js "1"]] eq_refl).
  reflexivity.
Defined.

Lemma collectImagesFromHTML_references_witness :
  In (Images.mkImageRef Sample.logoUrl (js "Logo") [] (js "Welcome")
                        (js "Intro"))
     (Images.collectImagesFromHTML
        (Generator.imageHost Sample.healthySite) Sample.introHtml (js "Intro"))
  /\ startsWith (js "data:")
                (Images.refUrl
                   (Images.mkImageRef Sample.logoUrl (js "Logo") []
                                      (js "Welcome") (js "Intro")))
     = false.
Proof.
  assert (H : In (Images.mkImageRef Sample.logoUrl (js "Logo") []
                                    (js "Welcome") (js "Intro"))
                 (Images.collectImagesFromHTML
                    (Generator.imageHost Sample.healthySite) Sample.introHtml
                    (js "Intro")))
    by (vm_compute; left; reflexivity).
  split; [exact H|].
  exact (proj1 (proj2 (collectImagesFromHTML_references _ _ _ _ H))).
Defined.

Lemma downloadImageAsBlob_result_witness :
  Images.downloadImageAsBlob (Generator.imageHost Sample.healthySite)
                             Sample.logoUrl
  = Some ([1; 2; 3]%N, js "png")
  /\ In (js "png")
        [js "jpg"; js "jpeg"; js "png"; js "gif"; js "webp"; js "svg"].
Proof.
  split; [reflexivity|].
  exact (proj1 (downloadImageAsBlob_result
                  (Generator.imageHost Sample.healthySite) Sample.logoUrl
                  [1; 2; 3]%N (js "png") eq_refl)).
Defined.

Lemma batchDownloadImages_accounts_for_every_url_witness :
  Images.attempts
    (fst (Images.batchDownloadImages
            (Generator.imageHost Sample.chartDownSite) Images.freshState
            [Sample.logoUrl; Sample.chartUrl]))
  = [Sample.logoUrl; Sample.chartUrl].
Proof.
  refine (proj1 (batchDownloadImages_accounts_for_every_url
                   (Generator.imageHost Sample.chartDownSite)
                   [Sample.logoUrl; Sample.chartUrl] _)).
  repeat constructor; cbn [In]; intros H;
    repeat (destruct H as [H | H]; [discriminate H|]); exact H.
Defined.

Lemma batchDownloadImages_uses_the_map_witness :
  Images.batchDownloadImages
    (Generator.imageHost Sample.healthySite) Cases.logoState
    [Sample.logoUrl; Sample.logoUrl]
  = (Cases.logoState,
     Images.infoOf (Images.imageMap Cases.logoState) Sample.logoUrl
     ++ Images.infoOf (Images.imageMap Cases.logoState) Sample.logoUrl ++ []).
Proof.
  apply (batchDownloadImages_uses_the_map
           (Generator.imageHost Sample.healthySite) Cases.logoState
           [Sample.logoUrl; Sample.logoUrl]).
  intros u [<- | [<- | []]]; vm_compute; discriminate.
Defined.

Lemma replaceImagePaths_keeps_plain_text_witness :
  Images.replaceImagePaths Cases.logoState (js "# Book")
  = js "# Book".
Proof.
  apply replaceImagePaths_keeps_plain_text. reflexivity.
Defined.

Lemma sample_state_ok :
  Images.stateOK
    (Generator.finalState
       (Generator.generateCompleteMarkdown Sample.chartDownSite Sample.book)).
Proof.
  rewrite generateCompleteMarkdown_state.
  destruct (uniqueByUrl_spec (Generator.imagesOf Sample.chartDownSite))
    as (Hnd & _ & Hsub).
  apply downloadAll_stateOK; [exact Hnd|].
  intros i Hi. apply (sample_urls_ok Sample.chartDownSite).
  - vm_compute. reflexivity.
  - apply Hsub, Hi.
Qed.

Lemma replaceImagePaths_idempotent_witness :
  let st := Generator.finalState
              (Generator.generateCompleteMarkdown Sample.chartDownSite
                                                  Sample.book) in
  Images.replaceImagePaths
    st (Images.replaceImagePaths st (Images.renderAll Sample.gallery))
  = Images.replaceImagePaths st (Images.renderAll Sample.gallery).
Proof.
  apply replaceImagePaths_idempotent; [exact sample_state_ok|].
  vm_compute. reflexivity.
Defined.

Lemma nothing_downloaded_plain_file_witness :
  Generator.outcome
    (Generator.generateCompleteMarkdown Cases.allDownSite Sample.book)
  = Fulfilled tt
  /\ List.length
       (Images.failedImages
          (Generator.finalState
             (Generator.generateCompleteMarkdown Cases.allDownSite Sample.book)))
     = 3.
Proof.
  assert (Hp : Generator.discoverAllPages Cases.allDownSite <> [])
    by (vm_compute; discriminate).
  assert (Hall : forall i,
             In i (Images.uniqueByUrl (Generator.imagesOf Cases.allDownSite)) ->
             Images.downloads (Generator.imageHost Cases.allDownSite)
                              (Images.refUrl i) = false).
  { intros i Hi. vm_compute in Hi.
    repeat (destruct Hi as [<- | Hi]; [reflexivity|]). destruct Hi. }
  destruct (nothing_downloaded_plain_file Cases.allDownSite Sample.book Hp Hall)
    as (Ho & _ & Hf).
  split; [exact Ho|]. rewrite Hf, length_map. vm_compute. reflexivity.
Defined.

Lemma archive_contents_witness :
  exists markdown files report,
    Generator.delivered
      (Generator.generateCompleteMarkdown Sample.chartDownSite Sample.book)
    = Some (Generator.ZipFile (js "Book.zip") (js "Book.md")
                              markdown files report)
    /\ List.length files = 2
    /\ report <> None.
Proof.
  assert (Hp : Generator.discoverAllPages Sample.chartDownSite <> [])
    by (vm_compute; discriminate).
  assert (Hone : exists i,
             In i (Images.uniqueByUrl (Generator.imagesOf Sample.chartDownSite))
             /\ Images.downloads (Generator.imageHost Sample.chartDownSite)
                                 (Images.refUrl i) = true).
  { exists (Images.mkImageRef Sample.logoUrl (js "Logo") [] (js "Welcome")
                              (js "Intro")).
    split; [vm_compute; left; reflexivity | vm_compute; reflexivity]. }
  destruct (archive_contents Sample.chartDownSite Sample.book Hp Hone
              (ex_intro _ tt eq_refl))
    as (markdown & files & report & Hd & _ & Hlen & _ & Hr).
  exists markdown, files, report. split; [exact Hd|].
  split.
  - rewrite Hlen. vm_compute. reflexivity.
  - intros H. apply Hr in H. vm_compute in H. discriminate H.
Defined.

Lemma tocAnchor_shape_witness :
  Generator.tocAnchor (js "目录") = []
  /\ Generator.tocAnchor (js " Getting Started! ") = js "getting-started".
Proof.
  split; [|reflexivity].
  apply (proj2 (proj2 (proj2 (tocAnchor_shape (js "目录"))))). reflexivity.
Defined.

Lemma extractCleanCodeText_lines_witness :
  CodeBlocks.extractCleanCodeText (js "let x = 1;" ++ [LF] ++ js "print(x)")
  = js "let x = 1;" ++ [LF] ++ js "print(x)".
Proof.
  apply (proj2 (extractCleanCodeText_lines _)).
  repeat constructor.
Defined.

Lemma numberedContent_round_trip_witness :
  CodeBlocks.numberedContent 0 Cases.codeLines
  = js "  1  let x = 1;" ++ [LF] ++ js "  2  x += 41;" ++ [LF]
    ++ js "  3  print(x)"
  /\ CodeBlocks.extractCleanCodeText
       (CodeBlocks.numberedContent 0 Cases.codeLines)
     = js "let x = 1;" ++ [LF] ++ js "x += 41;" ++ [LF] ++ js "print(x)".
Proof.
  split; [reflexivity|].
  refine (proj1 (numberedContent_round_trip Cases.codeLines 0 _ _ _)).
  - discriminate.
  - repeat constructor; unfold CodeBlocks.oneLine; cbn [In]; intros H;
      repeat (destruct H as [H | H]; [discriminate H|]); exact H.
  - repeat constructor.
Defined.

Lemma extractTitleFromURL_never_empty_witness :
  UrlTitle.extractTitleFromURL
    Cases.samplePath (fun s => Some s)
    (js "https://docs.example/guide/archive.tar.gz")
  = js "archive.tar"
  /\ UrlTitle.extractTitleFromURL
       Cases.samplePath (fun s => Some s) (js "https://docs.example/")
     = UrlTitle.unnamedPage.
Proof.
  destruct (extractTitleFromURL_never_empty
              Cases.samplePath (fun s => Some s)
              (js "https://docs.example/guide/archive.tar.gz"))
    as (_ & _ & _ & Hname).
  destruct (extractTitleFromURL_never_empty
              Cases.samplePath (fun s => Some s) (js "https://docs.example/"))
    as (_ & _ & Hroot & _).
  split.
  - rewrite (Hname (js "/guide/archive.tar.gz") [js "guide"]
                   (js "archive.tar") (js "gz") (js "archive.tar"));
      [ vm_compute; reflexivity | vm_compute; reflexivity
      | vm_compute; reflexivity | discriminate | vm_compute; reflexivity
      | reflexivity ].
  - exact (Hroot _ eq_refl eq_refl).
Defined.

Lemma cleanupExpiredTasks_drops_the_old_witness :
  map fst
      (Worker.activeGenerations
         (Worker.cleanupExpiredTasks
            1801002
            (Worker.run Cases.twoStarts
                        (Worker.newService (Cases.installedStore 10)))))
  = [js "task_5000_p9q"]
  /\ map fst
         (Worker.activeGenerations
            (Worker.cleanupExpiredTasks
               1801001
               (Worker.run Cases.twoStarts
                           (Worker.newService (Cases.installedStore 10)))))
     = [js "task_1000_k3x"; js "task_5000_p9q"].
Proof.
  split.
  - rewrite (proj1 (cleanupExpiredTasks_drops_the_old
                      Cases.twoStarts (Cases.installedStore 10) 1801002)).
    vm_compute. reflexivity.
  - rewrite (proj1 (cleanupExpiredTasks_drops_the_old
                      Cases.twoStarts (Cases.installedStore 10) 1801001)).
    vm_compute. reflexivity.
Defined.

Lemma getGenerationStatus_never_advances_witness :
  Worker.getGenerationStatus
    61000 (js "task_1000_k3x")
    (Worker.run Cases.twoStarts (Worker.newService (Cases.installedStore 10)))
  = Some (Worker.mkStatusReport (js "preparing") 0 59999)
  /\ Worker.reportStatus (Worker.mkStatusReport (js "preparing") 0 59999)
     = js "preparing"
  /\ Worker.reportProgress (Worker.mkStatusReport (js "preparing") 0 59999)
     = 0.
Proof.
  assert (H : Worker.getGenerationStatus
                61000 (js "task_1000_k3x")
                (Worker.run Cases.twoStarts
                            (Worker.newService (Cases.installedStore 10)))
              = Some (Worker.mkStatusReport (js "preparing") 0 59999))
    by (vm_compute; reflexivity).
  split; [exact H|].
  exact (getGenerationStatus_never_advances _ _ _ _ _ H).
Defined.

Lemma startGeneration_registers_or_forgets_witness :
  Worker.handleMessage (Cases.deafTabEnv 9000 "z1")
                       (Worker.StartGeneration Cases.bookData)
                       (Some Cases.docsTab)
                       (Worker.run Cases.twoStarts
                                   (Worker.newService (Cases.installedStore 10)))
  = (Worker.mkService
       (Worker.activeGenerations
          (Worker.run Cases.twoStarts
                      (Worker.newService (Cases.installedStore 10))))
       []
       (Worker.storage
          (Worker.run Cases.twoStarts
                      (Worker.newService (Cases.installedStore 10))))
       (Worker.sent
          (Worker.run Cases.twoStarts
                      (Worker.newService (Cases.installedStore 10)))
        ++ [Worker.StartPDFGeneration
              7 (js "task_9000_z1") [(js "includeToc", Worker.VBool true)]]),
     Worker.ErrorAnswer (js "Receiving end does not exist.")).
Proof.
  destruct (startGeneration_registers_or_forgets
              (Cases.deafTabEnv 9000 "z1") Cases.bookData Cases.docsTab
              (Worker.run Cases.twoStarts
                          (Worker.newService (Cases.installedStore 10))) 0)
    as (Hsent & Hsettings & H & _).
  change (Worker.tabsSendMessage (Cases.deafTabEnv 9000 "z1"))
    with (@Rejected unit (mkError (js "Receiving end does not exist."))) in H.
  cbv beta iota in H.
  destruct H as (Hanswer & _ & Htasks & Hstorage & _).
  destruct (Worker.handleMessage _ _ _ _) as [s' answer].
  cbn [fst snd] in *. destruct s' as [tasks stg store out].
  cbn [Worker.activeGenerations Worker.settings Worker.storage Worker.sent]
    in *.
  rewrite Hsent, Hsettings, Hanswer, Hstorage, Htasks;
    [vm_compute; reflexivity | vm_compute; reflexivity].
Defined.

Lemma cancelGeneration_forgets_the_task_witness :
  Worker.getGenerationStatus
    61000 (js "task_1000_k3x")
    (fst (Worker.handleMessage
            (Cases.calmEnv 60000 "c")
            (Worker.CancelGeneration (js "task_1000_k3x")) None
            (Worker.run Cases.twoStarts
                        (Worker.newService (Cases.installedStore 10)))))
  = None
  /\ Worker.activeGenerations
       (fst (Worker.handleMessage
               (Cases.calmEnv 60000 "c")
               (Worker.CancelGeneration (js "task_9000_z1")) None
               (fst (Worker.handleMessage
                       (Cases.calmEnv 9000 "z1")
                       (Worker.StartGeneration Cases.bookData)
                       (Some Cases.docsTab)
                       (Worker.run Cases.twoStarts
                                   (Worker.newService
                                      (Cases.installedStore 10)))))))
     = Worker.activeGenerations
         (Worker.run Cases.twoStarts
                     (Worker.newService (Cases.installedStore 10))).
Proof.
  split.
  - exact (proj1 (proj2 (cancelGeneration_forgets_the_task
                           (Cases.calmEnv 60000 "c") (js "task_1000_k3x") None
                           (Worker.run Cases.twoStarts
                                       (Worker.newService
                                          (Cases.installedStore 10)))
                           61000))).
  - refine (proj2 (proj2 (proj2 (proj2 (proj2 (proj2
             (cancelGeneration_forgets_the_task
                (Cases.calmEnv 60000 "c") (js "task_9000_z1") None
                (Worker.run Cases.twoStarts
                            (Worker.newService (Cases.installedStore 10)))
                0))))))
             (Cases.calmEnv 9000 "z1") Cases.bookData Cases.docsTab _ _);
      vm_compute; reflexivity.
Defined.

Lemma updateSettings_merges_witness :
  Images.mapGet
    (js "defaultAuthor")
    (Worker.settings
       (fst (Worker.handleMessage
               (Cases.calmEnv 2000 "s")
               (Worker.UpdateSettings
                  [(js "defaultAuthor", Worker.VString (js "Ada"))])
               None (Worker.newService (Cases.installedStore 10)))))
  = Some (Worker.VString (js "Ada"))
  /\ Images.mapGet
       (js "includeToc")
       (Worker.settings
          (fst (Worker.handleMessage
                  (Cases.calmEnv 2000 "s")
                  (Worker.UpdateSettings
                     [(js "defaultAuthor", Worker.VString (js "Ada"))])
                  None (Worker.newService (Cases.installedStore 10)))))
     = Some (Worker.VBool true)
  /\ Worker.handleMessage
       (Cases.fullStorageEnv 2000 "s")
       (Worker.UpdateSettings [(js "defaultAuthor", Worker.VString (js "Ada"))])
       None (Worker.newService (Cases.installedStore 10))
     = (Worker.newService (Cases.installedStore 10),
        Worker.ErrorAnswer
          (message (mkError (js "QUOTA_BYTES quota exceeded")))).
Proof.
  assert (Hnew : Worker.isObject
                   [(js "defaultAuthor", Worker.VString (js "Ada"))]).
  { repeat constructor. intros []. }
  assert (Hold : Worker.isObject
                   (match Worker.pdfGeneratorSettings
                            (Worker.storage
                               (Worker.newService (Cases.installedStore 10)))
                    with
                    | Some o => o
                    | None => []
                    end)).
  { unfold Worker.isObject. cbn [Worker.pdfGeneratorSettings Worker.storage
      Worker.newService Cases.installedStore Cases.defaultSettings map fst].
    repeat constructor; cbn [In]; intros H;
      repeat (destruct H as [H | H]; [discriminate H|]); exact H. }
  destruct (proj1 (updateSettings_merges
                     (Cases.calmEnv 2000 "s")
                     [(js "defaultAuthor", Worker.VString (js "Ada"))]
                     None (Worker.newService (Cases.installedStore 10)))
                  eq_refl eq_refl Hnew Hold)
    as (_ & _ & _ & Hget & _).
  split; [|split].
  - rewrite Hget. vm_compute. reflexivity.
  - rewrite Hget. vm_compute. reflexivity.
  - exact (proj2 (updateSettings_merges
                    (Cases.fullStorageEnv 2000 "s")
                    [(js "defaultAuthor", Worker.VString (js "Ada"))]
                    None (Worker.newService (Cases.installedStore 10)))
                 (mkError (js "QUOTA_BYTES quota exceeded"))
                 (or_intror (conj eq_refl eq_refl))).
Defined.

Lemma importSettings_puts_back_the_export_witness :
  exists data,
    snd (Worker.handleMessage (Cases.calmEnv 3000 "e") Worker.ExportSettings
                              None
                              (Worker.newService (Cases.installedStore 10)))
    = Worker.SettingsAnswer data
    /\ Worker.storage
         (fst (Worker.handleMessage
                 (Cases.calmEnv 4000 "i") (Worker.ImportSettings data) None
                 (Worker.newService (Worker.mkStore None None))))
       = Cases.installedStore 10.
Proof.
  destruct (importSettings_puts_back_the_export
              (Cases.calmEnv 3000 "e") (Cases.calmEnv 4000 "i") None None
              (Worker.newService (Cases.installedStore 10))
              (Worker.newService (Worker.mkStore None None))
              eq_refl eq_refl eq_refl)
    as (data & Hexport & _ & _ & _ & Hsettings & Hstatistics & _).
  exists data. split; [rewrite Hexport; reflexivity|].
  destruct (Worker.storage _) as [stored statistics].
  cbn [Worker.pdfGeneratorSettings Worker.statisticsData] in *.
  rewrite Hsettings, Hstatistics. reflexivity.
Defined.

Lemma updateStatistics_counts_witness :
  Worker.statisticsData
    (Worker.storage
       (fst (Worker.updateStatistics
               (Cases.calmEnv 3000 "u") 3000
               (Worker.mkIncrement (Some 0%Z) (Some 2048%Z))
               (Worker.newService (Cases.installedStore 10)))))
  = Some (Worker.mkStatistics (Some 1%Z) (Some 2048%Z) (Some 3000%Z))
  /\ Worker.statisticsData
       (Worker.storage
          (fst (Worker.updateStatistics
                  (Cases.blindStorageEnv 3000 "u") 3000
                  (Worker.mkIncrement None None)
                  (Worker.newService (Cases.installedStore 10)))))
     = Some (Worker.mkStatistics None None (Some 3000%Z)).
Proof.
  destruct (updateStatistics_counts
              (Cases.calmEnv 3000 "u") 3000
              (Worker.mkIncrement (Some 0%Z) (Some 2048%Z))
              (Worker.newService (Cases.installedStore 10)))
    as (_ & _ & _ & _ & _ & Hcount & _).
  destruct (updateStatistics_counts
              (Cases.blindStorageEnv 3000 "u") 3000
              (Worker.mkIncrement None None)
              (Worker.newService (Cases.installedStore 10)))
    as (_ & _ & _ & _ & _ & _ & Hblind & _).
  split.
  - rewrite (Hcount eq_refl eq_refl 0%Z 0%Z (conj eq_refl eq_refl)).
    reflexivity.
  - apply Hblind; [discriminate | reflexivity].
Defined.
